(* ===== verification/_CoqProject ===== *)
-Q . S2P
Prelude.v
Text.v
Errors.v
Crates.v
Config.v
State.v
Headers.v
Hooks.v
Backends.v
Memory.v
Locking.v
Interleaving.v
Lifecycle.v
Intake.v
Receive.v
FinalUpload.v
Access.v
Response.v
Protocol.v
Streaming.v
Contracts.v
Safety.v
Effects.v
PatchSpec.v
Concrete.v
HeaderSpec.v
HeadSpec.v
Axum.v
AxumSpec.v
RemovalSpec.v
DownloadSpec.v
CreationSpec.v
Invariant.v
FinalSpec.v
ServerStore.v
HookSpec.v
ConfigSpec.v
Files.v
FileFacts.v
FileStorage.v
FileStorageSpec.v
FileCrash.v
FileState.v
FileStateSpec.v
Ownership.v
JoinSet.v
FileLocking.v
FileLockingSpec.v
HttpHooks.v
HttpHooksSpec.v
ClientError.v
ClientHelpers.v
ClientHelpersSpec.v
Client.v
ClientUpload.v
ClientParallel.v
ClientFacts.v
ClientLoops.v
ClientCreation.v
ClientSpec.v
Reqwest.v
RouterStore.v
EndToEnd.v
ClientParallelFacts.v
ClientParallelSpec.v
RemoteServer.v
Dioxus.v
Persistence.v
PersistenceSpec.v
UploadEngine.v
UploadEngineFacts.v
UploadEngineSpec.v
UploadQueue.v
UploadQueueSpec.v
Witnesses.v
AxumWitnesses.v
FileWitnesses.v
ClientWitnesses.v
EndToEndWitnesses.v
DioxusWitnesses.v
