(* ===== verification/Prelude.v ===== *)
(** * A verification library for tus-rs

    The library models the Rust crates of an implementation of the tus
    resumable-upload protocol (version 1.0.0): [tus-protocol], the server side that
    every other crate of the repository is built around, [tus-axum], its HTTP routes,
    [tus-hook-http], its webhook
    executor, [tus-uploader], the client, and [dioxus-tus], an upload queue for browsers on
    top of it; and proves what handlers, backends,
    parsers and uploads promise.  Paths below are relative to
    [src/crates/tus-protocol/src] unless another crate is named.

    ** The program

    A request reaches a handler of [Protocol] ([protocol/{post,patch,head,download,
    delete,options}.rs]; OPTIONS needs no upload).  A handler reads the record of the upload (an
    [UploadState], [state.rs]), takes the upload's lock, reads the record again,
    runs the steps of the lifecycle ([lifecycle/*.rs]: access checks, recovery of a
    record that storage has overtaken, hook gates, body intake, commit, completion,
    termination, final uploads, reclamation of expired uploads) and builds a
    response.  Bytes live behind the [Storage] trait ([storage.rs]), records behind
    [StateStore] ([state.rs]), locks behind [Locker] ([locking.rs]), and hooks behind
    [HookExecutor] ([hooks.rs]); the crate brings in-memory implementations of the
    first three and the ordered [HookChain].

    ** How the code is modelled

    - A fallible function returns an [outcome]: [Ok], [Err] or [Panic], the last for
      [expect], a failed [debug_assert!] and the documented panics of callees (the
      addition of a duration to a [DateTime] past the calendar among them).
    - An [async fn] is a program ([prog], below): a tree of atomic actions on a world,
      one per interaction between two await points.  [run] executes it alone; the
      file [Interleaving.v] executes pools of programs under every schedule.
    - The world of a handler ([World], [Backends.v]) has one component per type
      parameter of [Protocol] (storage, records, locks, hooks) and the environment
      (clock and id generator).  [focus] runs a backend's program on its component.
      A [&mut UploadState] is a local state paired with the world ([lift], [borrow],
      [get_local], [set_local]); a guard's destructor is [finally], which also runs
      when the body fails or panics.
    - A [u64] is an [N] with [saturating_add] and the subtraction of the code written
      out; theorems that need the absence of saturation say so ([u64]).  A [&str] is
      [String.string], one character per byte; a [HashMap] is a [gmap], and where the
      code iterates over one the order is a parameter ([HashOrder]).
    - Third-party code is a class of operations and a class of the laws the program
      relies on ([Crates.v]): header maps, base64, percent encoding, chrono, digests,
      the tokio semaphore.  [Concrete.v] has an instance of each that satisfies its
      laws.  Backend traits are classes with their documented contract as laws
      ([Backends.v]); theorems about handlers hold for every backend that keeps them.

    ** The files

    - [Prelude.v]: outcomes, programs and their weakest preconditions [wp] with the
      tactics [wp_step], [wp_use], machine integers.  [Text.v]: the [str] functions of
      the standard library the parsers use, with their lemmas.
    - [Errors.v] ([error.rs]), [Crates.v] (interfaces of third-party crates),
      [Config.v] ([config.rs], [checksum.rs]), [State.v] ([state.rs], [expiration.rs],
      [extensions.rs], [StorageHandle]), [Headers.v] ([protocol/headers.rs],
      [protocol/upload_id.rs]), [Hooks.v] ([hooks.rs]).
    - [Backends.v] ([storage.rs], [locking.rs], the store traits, [World]), [Memory.v]
      ([storage/memory.rs], [state/memory.rs], with the proofs that they keep the
      contracts), [Locking.v] ([locking/memory.rs]), [Interleaving.v] (pools of tasks
      using it).
    - [Lifecycle.v] ([lifecycle.rs], [creation.rs], [finish.rs], [termination.rs],
      [recovery.rs], [pre_hook.rs]), [Intake.v] ([receive/body.rs],
      [protocol/body.rs]), [Receive.v] ([receive.rs]), [FinalUpload.v]
      ([final_upload.rs]), [Access.v] ([access.rs], [reclamation.rs]), [Response.v]
      ([protocol/{response,options,hook_context}.rs] and the [Range] parser),
      [Protocol.v] (the handlers and their dispatch, [handle]).
    - [Contracts.v], [Safety.v], [Effects.v]: what every lifecycle step does to locks,
      to panics, to the stored bytes and records.
    - [Files.v] ([std::fs] and [tokio::fs]: system calls that may fail, what a power
      failure may leave, and the deferred writes of tokio's [File]: a write is handed to
      a worker, a later write or flush tells its failure, a sync drops it), [FileFacts.v], [FileStorage.v] ([storage/file.rs]),
      [FileState.v] ([state/file.rs]), [FileStorageSpec.v], [FileStateSpec.v] and
      [FileCrash.v] (their contracts under failures and power failures),
      [FileLocking.v] ([locking/file.rs] on a kernel with inodes and [flock]),
      [Ownership.v] (a logic for pools of tasks that own resources),
      and [FileLockingSpec.v].
    - [HttpHooks.v], [HttpHooksSpec.v]: the webhook executor
      ([src/crates/tus-hook-http/src/lib.rs]).
    - [ClientError.v], [ClientHelpers.v], [Client.v], [ClientUpload.v]: the upload
      client ([error.rs], [helpers.rs], [client.rs], [transport.rs] and [client/*.rs]
      of [src/crates/tus-uploader/src]); [ClientFacts.v] (a logic of its requests,
      [ClientLogic], with an instance for a client alone), [ClientLoops.v],
      [ClientCreation.v], [ClientSpec.v] and [ClientHelpersSpec.v]: what its requests,
      loops, uploads and helpers do.
    - [JoinSet.v] (tokio's [JoinSet]: programs that spawn, join and abort tasks, every
      schedule of them, and a logic for tasks that own parts of the world),
      [ClientParallel.v] ([upload_parallel] and what it uses),
      [ClientParallelFacts.v] (a part of an upload next to the others: an instance of
      [ClientLogic]) and [ClientParallelSpec.v].
    - [RemoteServer.v]: a server and a network for the client, concretely.
    - [Axum.v], [AxumSpec.v]: routes, extractors, method override, errors and CORS of
      the axum integration ([src/crates/tus-axum/src]), over the handlers of [Protocol.v].
    - [Reqwest.v]: the client's transport on reqwest ([transport/reqwest.rs]).
    - [ServerStore.v] (the handlers as operations on a map of uploads whose records name
      different objects), [RouterStore.v] (the router as one; what may happen between two
      requests, [Renewal]) and [EndToEnd.v] (client, reqwest transport, a network that
      fails, router and handlers together: the server keeps [TusServerLaws]);
      [EndToEndWitnesses.v] runs an upload through all of them.
    - The browser crate ([src/crates/dioxus-tus/src]): [Dioxus.v] (doubles, files,
      [config.rs], [state.rs], [retry.rs], [options_cache.rs]), [Persistence.v] and
      [PersistenceSpec.v] (the registry of resumable uploads, [persistence.rs]),
      [UploadEngine.v] ([hook.rs], [blob.rs]: the handle and the task of a worker, on the
      requests of [Client.v]), [UploadEngineFacts.v] (rules for futures that may be
      dropped: an instance of [ClientLogic], [fwp], [wp_race]), [UploadEngineSpec.v] (the
      rules of the engine for every view of the server, [server_view], and what follows),
      [UploadQueue.v] and [UploadQueueSpec.v] ([queue.rs]: a tick reads the workers' states
      and sends them commands), and [DioxusWitnesses.v].
    - [PatchSpec.v], [HeadSpec.v], [DownloadSpec.v], [CreationSpec.v], [FinalSpec.v],
      [RemovalSpec.v], [Invariant.v], [Streaming.v], [HeaderSpec.v], [HookSpec.v],
      [ConfigSpec.v]: the properties.  [Concrete.v]
      and [Witnesses.v] apply them to concrete requests.

    ** What is proved

    - Requests: what a successful and a failed PATCH, POST and DELETE did to the
      bytes and the records; HEAD reports and GET serves the stored bytes; a
      HEAD after a PATCH gives the offset to continue from.
    - Global properties over all requests: the store invariant, no lock is kept, at
      most one task is inside the critical section of an id.  One panic is reachable: a
      POST at a moment from which the configured expiration reaches past the calendar,
      and it comes before anything is touched ([handlers_never_panic]).
    - Expired uploads: the scan removes only what is expired and incomplete when its
      record is reloaded under the lock, at that visit ([reclaim_scan]).
    - Equivalences: streamed intake hands storage what buffered intake accepts; a
      chain of hooks is its parts in sequence; parsed ranges are the selected bytes.
    - Round trips of the headers the server prints and clients echo; of metadata
      exactly when all keys are valid, which nothing checks of a hook's keys.
    - The in-memory backends refine the contracts of their traits.
    - The file backends keep their contracts under failures of the file system other than
      that of a write, which they do not notice, because they sync files without flushing
      them ([append_loses_bytes_silently], [failed_write_is_published]); short of it, what
      they acknowledge outlives a power failure and a record is written as a whole or not
      at all, and with it, acknowledged bytes of earlier requests and other records are
      safe.  Pools of tasks, of several processes, that use the file
      locker under every schedule and with any failure: one task at most is inside.
    - A [lock] that is alone returns in time, with a bound on how late it is.
    - Webhooks: retries repeat one request, within their limits (a sleep may end late); a
      gate fails closed, without a parsed decision of a 2xx answer.
    - The client: every resumption ends within bounded rounds, pauses and requests,
      against every server; against a server that
      keeps the protocol ([TusServerLaws]), one that succeeds has delivered the source
      and one that fails has left a prefix of it; no request leaves the origin. Uploads
      in parallel parts: the same for every schedule of the parts; their number is
      bounded and the progress reported ascends.
    - The axum router: the table of methods decides which operation is performed, nothing
      else happens, every answer on its paths is a TUS answer, and an override is the
      method it names; CORS grants exactly the configured origins, and leaves alone the
      headers that handlers and hooks set when it grants none.
    - Client and server together: an upload that succeeds, over a network that loses
      requests and answers and breaks bodies, has left the source in the server's storage
      under a complete record, and downloads serve it ([upload_reaches_storage]).  The
      server there has a size limit, is without concatenation, deferred lengths and
      termination, and names uploads by relative locations.
    - The browser crate: an upload that ends as done has left the file on the server, an
      interrupted one leaves a reset state, and every task ends, whatever commands
      arrive and futures are dropped ([engine_delivers], [engine_ends]); the queue keeps
      its books under every sequence of events, starts items in order and resumes only
      where the origin check of the registry lets it ([queue_invariant],
      [tick_starts_in_order], [queue_resumes_at_origin]); the registry gives out what was put and is still valid,
      and listing it loses nothing ([put_then_get], [scan_is_get]).

    ** Bounds and fuel

    Recursions are structural except these.  [u64_to_string] prints at most 20
    digits, enough for [u64_max] ([parse_u64_to_string]).  [unfold_stream] polls the
    validating stream one time more than the body has frames, and
    [unfold_stream_fuel] shows that more polls yield nothing more.  A task of
    [Interleaving.v] takes at most eight atomic steps ([locker_terminates]).
    [turns] of [FileLocking.v] bounds the polls of a waiting [lock] by its deadline,
    and [file_lock_returns] shows that they are enough.  [send_loop] of [HttpHooks.v]
    makes the configured number of attempts, [read_loop] and [patch_loop] of
    [ClientUpload.v] have one round per byte still to come and one more.  The resume
    loop takes [resume_fuel] rounds, computed from the length and the retry options;
    [resume_ends] shows that no run uses them up.  The rounds of [patch_loop] are
    bytes: every answer it goes on after has moved the offset ([validate_patch_advance]),
    so that it never runs out of them, and the requests are bounded as well.  [fill_loop],
    [join_loop] and [drain_loop] of [ClientParallel.v] have a round for every part;
    [parallel_ends] shows that they need no more.
    The world of the browser engine has a script of moments, one for each await that
    pends: the commands that arrive, the time, a random number, what other tasks do;
    after the script the component is unmounted.  [loop_fuel] counts moments and commands,
    and [engine_ends] shows that no loop uses it up; the retries of a chunk are bounded
    by the configuration.

    ** Not modelled

    Tracing and [Debug] output; poisoning of mutexes, which no modelled code causes;
    dropping a request's future half way (cancellation) on the server, and on the
    client other than between the requests of a schedule and where the browser
    engine does it; the JSON form of a record, which is derived code, except
    for its metadata values.  A request body is the finite list of frames it yields.
 
    Of the client, what only wasm32 builds have; [usize]
    has 64 bits.  The network of
    [EndToEnd.v] carries one request at a time, and only requests whose path needs no
    percent decoding and that have no method override, and none while the id or the object
    key that the server would draw next is in use (uuids repeat only by chance); it is made up, like the
    environments of the other theorems, and HTTP itself is not modelled.
    Of the browser crate: the transport over the fetch API, the file events, and the
    framework itself, whose signals are fields and whose tasks are steps; the JSON form of an
    entry and the quota of the browser are parameters.  A URL is a text to the registry
    and a parameter to the client.
    The standalone server, the OpenDAL backend, the command-line client and the demo are
    left out: they read configuration, drive sockets, terminals and third-party object
    stores, and add little to the crates modelled here. *)

From Stdlib Require Export NArith ZArith Lia Ascii String.
From stdpp Require Export base tactics numbers option strings list.

#[global] Set Default Proof Using "Type".

Declare Scope prog_scope.
Delimit Scope prog_scope with prog.

(** ** Outcomes

    What a call leaves behind: a value, an error the caller sees ([Result]'s
    [Err]), or a panic that unwinds the task. *)
Inductive outcome (E A : Type) : Type :=
| Ok (a : A)
| Err (e : E)
| Panic.
Arguments Ok {E A} a.
Arguments Err {E A} e.
Arguments Panic {E A}.

Definition outcome_map {E A B} (f : A -> B) (r : outcome E A) : outcome E B :=
  match r with Ok a => Ok (f a) | Err e => Err e | Panic => Panic end.

Definition outcome_bind {E A B} (r : outcome E A) (k : A -> outcome E B) : outcome E B :=
  match r with Ok a => k a | Err e => Err e | Panic => Panic end.

Definition is_ok {E A} (r : outcome E A) : bool :=
  match r with Ok _ => true | _ => false end.

(** ** Programs

    An [async fn] is a resumption: it either is done with an outcome, or it
    performs one atomic action on the world [W] (the work between two await
    points) and continues with the action's answer.  [run] executes a program
    without interleaving; the tree keeps the atomic actions apart. *)
Inductive prog (E W A : Type) : Type :=
| Done (r : outcome E A)
| Act {B : Type} (f : W -> B * W) (k : B -> prog E W A).
Arguments Done {E W A} r.
Arguments Act {E W A B} f k.

Fixpoint run {E W A} (m : prog E W A) (w : W) : outcome E A * W :=
  match m with
  | Done r => (r, w)
  | Act f k => let '(b, w') := f w in run (k b) w'
  end.

Definition ret {E W A} (a : A) : prog E W A := Done (Ok a).
Definition throw {E W A} (e : E) : prog E W A := Done (Err e).
Definition panic {E W A} : prog E W A := Done Panic.

(** [debug_assert!], in a build that checks it. *)
Definition debug_assert {E W} (b : bool) : prog E W unit := if b then Done (Ok tt) else panic.

Fixpoint bind {E W A B} (m : prog E W A) (k : A -> prog E W B) : prog E W B :=
  match m with
  | Done (Ok a) => k a
  | Done (Err e) => Done (Err e)
  | Done Panic => Done Panic
  | Act f c => Act f (fun b => bind (c b) k)
  end.

(** A single atomic action, infallible or fallible. *)
Definition act {E W A} (f : W -> A * W) : prog E W A := Act f (fun a => Done (Ok a)).
Definition try_act {E W A} (f : W -> outcome E A * W) : prog E W A := Act f Done.

(** A pure [Result] used with [?] inside a program. *)
Definition of_outcome {E W A} (r : outcome E A) : prog E W A := Done r.

(** [match f().await { Ok(x) => .., Err(e) => .. }]: the error becomes a value. *)
Fixpoint attempt {E W A} (m : prog E W A) : prog E W (E + A) :=
  match m with
  | Done (Ok a) => Done (Ok (inr a))
  | Done (Err e) => Done (Ok (inl e))
  | Done Panic => Done Panic
  | Act f k => Act f (fun b => attempt (k b))
  end.

(** [f().await.map_err(g)] *)
Fixpoint map_err {E F W A} (g : E -> F) (m : prog E W A) : prog F W A :=
  match m with
  | Done (Ok a) => Done (Ok a)
  | Done (Err e) => Done (Err (g e))
  | Done Panic => Done Panic
  | Act f k => Act f (fun b => map_err g (k b))
  end.

(** A destructor: [cleanup] runs when the scope is left, on every outcome. *)
Fixpoint finally {E W A} (m : prog E W A) (cleanup : W -> W) : prog E W A :=
  match m with
  | Done r => Act (fun w => (tt, cleanup w)) (fun _ => Done r)
  | Act f k => Act f (fun b => finally (k b) cleanup)
  end.

(** Running a program that owns one component of a larger world. *)
Fixpoint focus {E S W A} (get : W -> S) (set : S -> W -> W) (m : prog E S A) : prog E W A :=
  match m with
  | Done r => Done r
  | Act f k =>
      Act (fun w => let '(b, s) := f (get w) in (b, set s w))
          (fun b => focus get set (k b))
  end.

(** [&mut T] arguments: a program over [T * W] may update the borrowed local.
    [lift] runs a program that does not borrow it, [borrow] introduces it (the
    local is dropped when the callee fails). *)
Definition lift {E T W A} (m : prog E W A) : prog E (T * W) A :=
  focus snd (fun w tw => (tw.1, w)) m.

Fixpoint borrow {E T W A} (t : T) (m : prog E (T * W) A) : prog E W (A * T) :=
  match m with
  | Done r => Done (outcome_map (fun a => (a, t)) r)
  | Act f k =>
      Act (fun w => let '(b, (t', w')) := f (t, w) in ((b, t'), w'))
          (fun bt => borrow bt.2 (k bt.1))
  end.

Definition get_local {E T W} : prog E (T * W) T := act (fun tw => (tw.1, tw)).
Definition set_local {E T W} (t : T) : prog E (T * W) unit := act (fun tw => (tt, (t, tw.2))).
Definition modify_local {E T W} (f : T -> T) : prog E (T * W) unit :=
  act (fun tw => (tt, (f tw.1, tw.2))).

Notation "'let!' x ':=' m 'in' k" := (bind m (fun x => k))
  (at level 10, x pattern, m at level 100, k at level 200,
   format "'let!'  x  ':='  m  'in' '//' k") : prog_scope.
Notation "'do!' m 'in' k" := (bind m (fun _ => k))
  (at level 10, m at level 100, k at level 200,
   format "'do!'  m  'in' '//' k") : prog_scope.
Notation "'let?' x ':=' r 'in' k" := (outcome_bind r (fun x => k))
  (at level 10, x pattern, r at level 100, k at level 200,
   format "'let?'  x  ':='  r  'in' '//' k") : prog_scope.
Notation "'check?' r 'in' k" := (outcome_bind r (fun _ => k))
  (at level 10, r at level 100, k at level 200,
   format "'check?'  r  'in' '//' k") : prog_scope.

(** ** Equations of [run] *)

Lemma run_focus {E S W A} (get : W -> S) (set : S -> W -> W) (m : prog E S A) w :
  (forall s w, get (set s w) = s) ->
  (forall s s' w, set s (set s' w) = set s w) ->
  (forall w, set (get w) w = w) ->
  run (focus get set m) w = let '(r, s) := run m (get w) in (r, set s w).
Proof.
  intros Hgs Hss Hsg. revert w.
  induction m as [r | C f c IH]; intros w; simpl; [by rewrite Hsg|].
  destruct (f (get w)) as [b s]. rewrite IH, Hgs.
  destruct (run (c b) s). by rewrite Hss.
Qed.

Section run_equations.
Context {E W : Type}.

Lemma run_bind {A B} (m : prog E W A) (k : A -> prog E W B) w :
  run (bind m k) w =
    match run m w with
    | (Ok a, w') => run (k a) w'
    | (Err e, w') => (Err e, w')
    | (Panic, w') => (Panic, w')
    end.
Proof.
  revert w; induction m as [[a|e|] | C f c IH]; intros w; simpl; try reflexivity.
  destruct (f w) as [b w']. apply IH.
Qed.

Lemma run_act {A} (f : W -> A * W) w :
  run (act f : prog E W A) w = (Ok (f w).1, (f w).2).
Proof. cbn. by destruct (f w). Qed.

Lemma run_try_act {A} (f : W -> outcome E A * W) w : run (try_act f) w = f w.
Proof. cbn. by destruct (f w). Qed.

Lemma run_attempt {A} (m : prog E W A) w :
  run (attempt m) w =
    match run m w with
    | (Ok a, w') => (Ok (inr a), w')
    | (Err e, w') => (Ok (inl e), w')
    | (Panic, w') => (Panic, w')
    end.
Proof.
  revert w; induction m as [[a|e|] | C f c IH]; intros w; simpl; try reflexivity.
  destruct (f w) as [b w']. apply IH.
Qed.

Lemma run_finally {A} (m : prog E W A) cl w :
  run (finally m cl) w = let '(r, w') := run m w in (r, cl w').
Proof.
  revert w; induction m as [r | C f c IH]; intros w; simpl; [reflexivity|].
  destruct (f w) as [b w']. apply IH.
Qed.

Lemma run_lift {T A} (m : prog E W A) (t : T) w :
  run (lift m) (t, w) = let '(r, w') := run m w in (r, (t, w')).
Proof.
  unfold lift. rewrite run_focus; [| done..| by intros []].
  cbn. by destruct (run m w).
Qed.

Lemma run_borrow {T A} (t : T) (m : prog E (T * W) A) w :
  run (borrow t m) w =
    let '(r, (t', w')) := run m (t, w) in (outcome_map (fun a => (a, t')) r, w').
Proof.
  revert t w; induction m as [r | C f c IH]; intros t w; simpl; [reflexivity|].
  destruct (f (t, w)) as [b [t' w']]. apply IH.
Qed.

Lemma run_map_err {F A} (g : E -> F) (m : prog E W A) w :
  run (map_err g m) w =
    match run m w with
    | (Ok a, w') => (Ok a, w')
    | (Err e, w') => (Err (g e), w')
    | (Panic, w') => (Panic, w')
    end.
Proof.
  revert w; induction m as [[a|e|] | C f c IH]; intros w; simpl; try reflexivity.
  destruct (f w) as [b w']. apply IH.
Qed.
End run_equations.

Lemma run_Done {E W A} (r : outcome E A) (w : W) : run (Done r) w = (r, w).
Proof. done. Qed.

Lemma run_Act {E W A B} (f : W -> B * W) (k : B -> prog E W A) w :
  run (Act f k) w = let '(b, w') := f w in run (k b) w'.
Proof. done. Qed.

#[global] Arguments run : simpl never.
#[global] Arguments bind : simpl never.
#[global] Arguments attempt : simpl never.
#[global] Arguments finally : simpl never.
#[global] Arguments map_err : simpl never.
#[global] Arguments focus : simpl never.
#[global] Arguments borrow : simpl never.

Create Rewrite HintDb run.
#[export] Hint Rewrite @run_bind @run_act @run_try_act @run_attempt @run_finally
  @run_lift @run_borrow : run.

(** ** Weakest preconditions

    [wp m Q w]: running [m] from [w] ends in an outcome and a world that [Q]
    accepts.  Specifications of the components are stated with it and composed
    with [wp_bind]. *)
Definition wp {E W A} (m : prog E W A) (Q : outcome E A -> W -> Prop) (w : W) : Prop :=
  let '(r, w') := run m w in Q r w'.
#[global] Arguments wp : simpl never.

Section wp_rules.
Context {E W : Type}.

Lemma wp_run {A} (m : prog E W A) Q w r w' :
  wp m Q w -> run m w = (r, w') -> Q r w'.
Proof. unfold wp. intros H Hr. by rewrite Hr in H. Qed.

Lemma wp_intro {A} (m : prog E W A) (Q : _ -> _ -> Prop) w :
  (forall r w', run m w = (r, w') -> Q r w') -> wp m Q w.
Proof. unfold wp. destruct (run m w) as [r w'] eqn:Hr. auto. Qed.

Lemma wp_bind {A B} (m : prog E W A) (k : A -> prog E W B) Q w :
  wp m (fun r w' =>
          match r with
          | Ok a => wp (k a) Q w'
          | Err e => Q (Err e) w'
          | Panic => Q Panic w'
          end) w ->
  wp (bind m k) Q w.
Proof. unfold wp. rewrite run_bind. by destruct (run m w) as [[a|e|] w']. Qed.

Lemma wp_mono {A} (m : prog E W A) (Q Q' : outcome E A -> W -> Prop) w :
  wp m Q w -> (forall r w', Q r w' -> Q' r w') -> wp m Q' w.
Proof. unfold wp. destruct (run m w). auto. Qed.

Lemma wp_and {A} (m : prog E W A) (Q Q' : outcome E A -> W -> Prop) w :
  wp m Q w -> wp m Q' w -> wp m (fun r w' => Q r w' /\ Q' r w') w.
Proof. unfold wp. destruct (run m w). auto. Qed.

Lemma wp_done {A} (r : outcome E A) (Q : outcome E A -> W -> Prop) w :
  Q r w -> wp (Done r) Q w.
Proof. done. Qed.

Lemma wp_act {A} (f : W -> A * W) (Q : outcome E A -> W -> Prop) w :
  (let '(a, w') := f w in Q (Ok a) w') -> wp (act f) Q w.
Proof. unfold wp. rewrite run_act. by destruct (f w). Qed.

Lemma wp_try_act {A} (f : W -> outcome E A * W) (Q : outcome E A -> W -> Prop) w :
  (let '(a, w') := f w in Q a w') -> wp (try_act f) Q w.
Proof. unfold wp. by rewrite run_try_act. Qed.

Lemma wp_attempt {A} (m : prog E W A) (Q : outcome E (E + A) -> W -> Prop) w :
  wp m (fun r w' =>
          match r with
          | Ok a => Q (Ok (inr a)) w'
          | Err e => Q (Ok (inl e)) w'
          | Panic => Q Panic w'
          end) w ->
  wp (attempt m) Q w.
Proof. unfold wp. rewrite run_attempt. by destruct (run m w) as [[a|e|] w']. Qed.

Lemma wp_finally {A} (m : prog E W A) cl (Q : outcome E A -> W -> Prop) w :
  wp m (fun r w' => Q r (cl w')) w -> wp (finally m cl) Q w.
Proof. unfold wp. rewrite run_finally. by destruct (run m w). Qed.

Lemma wp_lift {T A} (m : prog E W A) (t : T) (Q : outcome E A -> T * W -> Prop) w :
  wp m (fun r w' => Q r (t, w')) w -> wp (lift m) Q (t, w).
Proof. unfold wp. rewrite run_lift. by destruct (run m w). Qed.

Lemma wp_borrow {T A} (t : T) (m : prog E (T * W) A) (Q : outcome E (A * T) -> W -> Prop) w :
  wp m (fun r tw => Q (outcome_map (fun a => (a, tw.1)) r) tw.2) (t, w) ->
  wp (borrow t m) Q w.
Proof. unfold wp. rewrite run_borrow. by destruct (run m (t, w)) as [r [t' w']]. Qed.

Lemma wp_map_err {F A} (g : E -> F) (m : prog E W A) (Q : outcome F A -> W -> Prop) w :
  wp m (fun r w' =>
          match r with
          | Ok a => Q (Ok a) w'
          | Err e => Q (Err (g e)) w'
          | Panic => Q Panic w'
          end) w ->
  wp (map_err g m) Q w.
Proof. unfold wp. rewrite run_map_err. by destruct (run m w) as [[a|e|] w']. Qed.
End wp_rules.

(** ** Programs at every point

    [during P Q m w]: from [w], the program [m] passes only through worlds that
    satisfy [P] - the initial one, the one after each atomic action, the final one -
    and ends as [Q] says.  It is what a crash, or an observer between two actions,
    can rely on. *)
Fixpoint during {E W A} (P : W -> Prop) (Q : outcome E A -> W -> Prop) (m : prog E W A) (w : W) : Prop :=
  P w /\
  match m with
  | Done r => Q r w
  | Act f k => let '(b, w') := f w in during P Q (k b) w'
  end.

Section during_rules.
Context {E W : Type} (P : W -> Prop).

Lemma during_wp {A} (m : prog E W A) Q w : during P Q m w -> wp m Q w.
Proof.
  unfold wp. revert w. induction m as [r|B f k IH]; intros w; cbn; [by intros []|].
  intros [_ H]. rewrite run_Act. destruct (f w) as [b w']. by apply IH.
Qed.

Lemma during_start {A} (m : prog E W A) Q w : during P Q m w -> P w.
Proof. by destruct m; intros []. Qed.

Lemma during_mono {A} (m : prog E W A) (Q Q' : outcome E A -> W -> Prop) w :
  during P Q m w -> (forall r w', P w' -> Q r w' -> Q' r w') -> during P Q' m w.
Proof.
  intros H HQ. revert w H. induction m as [r|B f k IH]; intros w; cbn.
  - intros []. split; [done|]. auto.
  - intros [Hw H]. split; [done|]. destruct (f w) as [b w']. by apply IH.
Qed.

Lemma during_done {A} (r : outcome E A) (Q : outcome E A -> W -> Prop) w :
  P w -> Q r w -> during P Q (Done r) w.
Proof. done. Qed.

Lemma during_act {A} (f : W -> A * W) (Q : outcome E A -> W -> Prop) w :
  P w -> P (f w).2 -> Q (Ok (f w).1) (f w).2 -> during P Q (act f) w.
Proof. intros Hw. cbn. destruct (f w). by cbn. Qed.

Lemma during_try_act {A} (f : W -> outcome E A * W) (Q : outcome E A -> W -> Prop) w :
  P w -> P (f w).2 -> Q (f w).1 (f w).2 -> during P Q (try_act f) w.
Proof. intros Hw. cbn. destruct (f w). by cbn. Qed.

Lemma during_bind {A B} (m : prog E W A) (k : A -> prog E W B) Q w :
  during P (fun r w' =>
              match r with
              | Ok a => during P Q (k a) w'
              | Err e => Q (Err e) w'
              | Panic => Q Panic w'
              end) m w ->
  during P Q (bind m k) w.
Proof.
  revert w. induction m as [r|C f c IH]; intros w; cbn.
  - by destruct r; intros [].
  - intros [Hw H]. split; [done|]. destruct (f w) as [b w']. by apply IH.
Qed.

Lemma during_attempt {A} (m : prog E W A) (Q : outcome E (E + A) -> W -> Prop) w :
  during P (fun r w' =>
              match r with
              | Ok a => Q (Ok (inr a)) w'
              | Err e => Q (Ok (inl e)) w'
              | Panic => Q Panic w'
              end) m w ->
  during P Q (attempt m) w.
Proof.
  revert w. induction m as [r|C f c IH]; intros w; cbn.
  - by destruct r.
  - intros [Hw H]. split; [done|]. destruct (f w) as [b w']. by apply IH.
Qed.

Lemma during_map_err {F A} (g : E -> F) (m : prog E W A) (Q : outcome F A -> W -> Prop) w :
  during P (fun r w' =>
              match r with
              | Ok a => Q (Ok a) w'
              | Err e => Q (Err (g e)) w'
              | Panic => Q Panic w'
              end) m w ->
  during P Q (map_err g m) w.
Proof.
  revert w. induction m as [r|C f c IH]; intros w; cbn.
  - by destruct r.
  - intros [Hw H]. split; [done|]. destruct (f w) as [b w']. by apply IH.
Qed.

Lemma during_lift {T A} (m : prog E W A) (t : T) (Q : outcome E A -> T * W -> Prop) w :
  during P (fun r w' => Q r (t, w')) m w ->
  during (fun tw => P tw.2) Q (lift m) (t, w).
Proof.
  revert w. induction m as [r|C f c IH]; intros w; cbn; [done|].
  intros [Hw H]. split; [done|]. cbn. destruct (f w) as [b w']. by apply IH.
Qed.
End during_rules.

Lemma during_weaken {E W A} (P P' : W -> Prop) (m : prog E W A) Q w :
  (forall w, P w -> P' w) -> during P Q m w -> during P' Q m w.
Proof.
  intros HP. revert w. induction m as [r|B f k IH]; intros w; cbn.
  - intros []. auto.
  - intros [Hw H]. split; [by apply HP|]. destruct (f w) as [b w']. by apply IH.
Qed.
#[global] Arguments during : simpl never.

(** ** Machine integers: [u64] is [N] below [2^64] *)

Definition u64_max : N := 18446744073709551615.
Definition u64 (n : N) : Prop := (n <= u64_max)%N.

Definition saturating_add (a b : N) : N := N.min (a + b) u64_max.
Definition saturating_sub (a b : N) : N := (a - b)%N.

Lemma saturating_add_exact a b : u64 (a + b)%N -> saturating_add a b = (a + b)%N.
Proof. unfold u64, saturating_add. lia. Qed.

Lemma saturating_add_u64 a b : u64 (saturating_add a b).
Proof. unfold u64, saturating_add. lia. Qed.

Lemma saturating_add_below a b m :
  (m < u64_max)%N -> (saturating_add a b <= m)%N -> saturating_add a b = (a + b)%N.
Proof. unfold saturating_add. lia. Qed.

(** [[a, b, ..].into_iter().flatten().min()] *)
Definition min_some (l : list (option N)) : option N :=
  foldr (fun o acc =>
           match o, acc with
           | Some a, Some b => Some (N.min a b)
           | Some a, None => Some a
           | None, acc => acc
           end) None l.

Lemma min_some_in l a : In (Some a) l -> exists m, min_some l = Some m /\ (m <= a)%N.
Proof.
  induction l as [|o l IH]; simpl; [done|]. intros [->|Hin].
  - destruct (min_some l) as [b|]; eexists; split; eauto; lia.
  - destruct (IH Hin) as (m & -> & Hle).
    destruct o as [c|]; eexists; split; eauto; lia.
Qed.

Lemma min_some_elem l m : min_some l = Some m -> In (Some m) l.
Proof.
  revert m; induction l as [|o l IH]; simpl; intros m Hm; [done|].
  destruct o as [c|], (min_some l) as [b|]; simplify_eq; auto.
  destruct (N.min_spec c b) as [[_ ->]|[_ ->]]; auto.
Qed.

(** ** Proof automation *)

(** Destructs the innermost [match]/[if] scrutinee of the goal, remembering it. *)
Ltac case_goal :=
  match goal with
  | |- context [match ?x with _ => _ end] =>
      lazymatch x with
      | context [match _ with _ => _ end] => fail
      | _ => let H := fresh "Hc" in destruct x eqn:H
      end
  end.

(** Destructs the innermost scrutinee of a hypothesis. *)
Ltac case_hyp H :=
  lazymatch type of H with
  | context [match ?x with _ => _ end] =>
      lazymatch x with
      | context [match _ with _ => _ end] => fail
      | _ => let H' := fresh "Hc" in destruct x eqn:H'
      end
  end.

(** One structural step of a [wp] goal. *)
Ltac wp_step :=
  lazymatch goal with
  | |- wp (bind _ _) _ _ => apply wp_bind
  | |- wp (attempt _) _ _ => apply wp_attempt
  | |- wp (map_err _ _) _ _ => apply wp_map_err
  | |- wp (finally _ _) _ _ => apply wp_finally
  | |- wp (act _) _ _ => apply wp_act; cbn [fst snd]
  | |- wp (try_act _) _ _ => apply wp_try_act; cbn [fst snd]
  | |- wp get_local _ _ => unfold get_local; apply wp_act; cbn [fst snd]
  | |- wp (set_local _) _ _ => unfold set_local; apply wp_act; cbn [fst snd]
  | |- wp (modify_local _) _ _ => unfold modify_local; apply wp_act; cbn [fst snd]
  | |- wp (lift _) _ (_, _) => apply wp_lift
  | |- wp (borrow _ _) _ _ => apply wp_borrow
  | |- wp (ret _) _ _ => apply wp_done
  | |- wp (throw _) _ _ => apply wp_done
  | |- wp panic _ _ => apply wp_done
  | |- wp (of_outcome _) _ _ => apply wp_done
  | |- wp (Done _) _ _ => apply wp_done
  end.
Ltac wp_steps := repeat (wp_step; cbv beta; cbn [outcome_map fst snd]).

Lemma wp_debug_assert {E W} b (Q : outcome E unit -> W -> Prop) w :
  (b = true -> Q (Ok tt) w) -> (b = false -> Q Panic w) -> wp (debug_assert b) Q w.
Proof. intros Ht Hf. unfold debug_assert. destruct b; apply wp_done; auto. Qed.

(** Pure code that never panics: structural steps, closed by the [no_panic]
    database. *)

Lemma bind_no_panic {E A B} (r : outcome E A) (k : A -> outcome E B) :
  r <> Panic -> (forall a, k a <> Panic) -> outcome_bind r k <> Panic.
Proof. destruct r; cbn; auto. Qed.

Create HintDb no_panic.

Ltac pure_step :=
  lazymatch goal with
  | |- forall _, _ => intro
  | |- outcome_bind _ _ <> Panic => apply bind_no_panic; [|intro]
  | |- Ok _ <> Panic => discriminate
  | |- Err _ <> Panic => discriminate
  | |- (if ?b then _ else _) <> Panic => destruct b
  | |- (match ?x with _ => _ end) <> Panic => destruct x eqn:?
  end.
Ltac pure := cbv zeta; repeat first [solve [eauto with no_panic nocore] | pure_step].
