(* ===== verification/Text.v ===== *)
(** * Text: the [str] operations of Rust's standard library the code uses

    A Rust [&str] is a byte string holding valid UTF-8; it is modelled by
    [String.string], one [ascii] per byte.  This file holds the standard-library
    operations the parsers and printers of the crate are written with
    ([parse::<u64>], [to_string], [trim], [split], [split_once], [str_strip_prefix],
    [split_whitespace], [str_join], [chars], ordering and sorting) and their laws. *)

From S2P Require Import Prelude.
From stdpp Require Import sorting.
Local Open Scope string_scope.
Local Open Scope N_scope.

#[global] Arguments String.append : simpl nomatch.

(** ** Bytes and code points *)

Definition byte_of (c : ascii) : N := N_of_ascii c.

Definition in_range (lo hi b : N) : bool := (lo <=? b) && (b <=? hi).

(** [str::chars]: decoding of (valid) UTF-8 into code points. *)
Fixpoint chars (s : string) : list N :=
  match s with
  | EmptyString => []
  | String a s1 =>
      let a := byte_of a in
      if a <? 128 then a :: chars s1
      else match s1 with
      | EmptyString => [a]
      | String b s2 =>
          let b := N.land (byte_of b) 63 in
          if a <? 224 then (N.shiftl (N.land a 31) 6 + b) :: chars s2
          else match s2 with
          | EmptyString => [a]
          | String c s3 =>
              let c := N.land (byte_of c) 63 in
              if a <? 240 then (N.shiftl (N.land a 15) 12 + N.shiftl b 6 + c) :: chars s3
              else match s3 with
              | EmptyString => [a]
              | String d s4 =>
                  let d := N.land (byte_of d) 63 in
                  (N.shiftl (N.land a 7) 18 + N.shiftl b 12 + N.shiftl c 6 + d) :: chars s4
              end
          end
      end
  end.

(** [char::is_control]: general category Cc. *)
Definition is_control (c : N) : bool := (c <? 32) || in_range 127 159 c.

(** The ASCII part of [char::is_whitespace]; header text is ASCII
    ([HeaderValue::to_str] accepts nothing else). *)
Definition is_whitespace (c : ascii) : bool :=
  in_range 9 13 (byte_of c) || (byte_of c =? 32).

(** ** Predicates over the bytes of a string *)

Fixpoint str_all (p : ascii -> bool) (s : string) : bool :=
  match s with
  | EmptyString => true
  | String c s' => p c && str_all p s'
  end.

(** [s.contains(c)] *)
Definition contains_char (c : ascii) (s : string) : bool :=
  negb (str_all (fun d => negb (Ascii.eqb d c)) s).

Definition is_empty (s : string) : bool :=
  match s with EmptyString => true | _ => false end.

(** ** Slicing *)

(** [s.starts_with(p)] and [s.strip_prefix(p)] *)
Fixpoint str_strip_prefix (p s : string) : option string :=
  match p, s with
  | EmptyString, _ => Some s
  | String a p', String b s' => if Ascii.eqb a b then str_strip_prefix p' s' else None
  | String _ _, EmptyString => None
  end.

Definition starts_with (p s : string) : bool :=
  match str_strip_prefix p s with Some _ => true | None => false end.

Definition ends_with_char (c : ascii) (s : string) : bool :=
  (fix go (last : bool) (s : string) : bool :=
     match s with
     | EmptyString => last
     | String d s' => go (Ascii.eqb d c) s'
     end) false s.

(** [s.split_once(sep)] *)
Fixpoint split_once (sep s : string) : option (string * string) :=
  match str_strip_prefix sep s with
  | Some rest => Some ("", rest)
  | None =>
      match s with
      | EmptyString => None
      | String c s' =>
          match split_once sep s' with
          | Some (a, b) => Some (String c a, b)
          | None => None
          end
      end
  end.

(** [s.split(c)]: always at least one piece. *)
Fixpoint split_char (c : ascii) (s : string) : list string :=
  match s with
  | EmptyString => [""]
  | String d s' =>
      if Ascii.eqb d c then "" :: split_char c s'
      else match split_char c s' with
           | [] => [String d ""]
           | p :: ps => String d p :: ps
           end
  end.

(** [s.split(pred).next()]: the text before the first matching byte. *)
Fixpoint take_until (p : ascii -> bool) (s : string) : string :=
  match s with
  | EmptyString => ""
  | String c s' => if p c then "" else String c (take_until p s')
  end.

(** [s.find(c)] followed by [&s[idx..]] *)
Fixpoint find_from (c : ascii) (s : string) : option string :=
  match s with
  | EmptyString => None
  | String d s' => if Ascii.eqb d c then Some s else find_from c s'
  end.

Fixpoint trim_start (s : string) : string :=
  match s with
  | EmptyString => ""
  | String c s' => if is_whitespace c then trim_start s' else s
  end.

Fixpoint trim_end (s : string) : string :=
  match s with
  | EmptyString => ""
  | String c s' =>
      let t := trim_end s' in
      if is_whitespace c && is_empty t then "" else String c t
  end.

Definition trim (s : string) : string := trim_end (trim_start s).

(** [s.split_whitespace()] *)
Fixpoint split_whitespace (s : string) : list string :=
  match s with
  | EmptyString => []
  | String c s' =>
      if is_whitespace c then split_whitespace s'
      else match s' with
           | EmptyString => [String c ""]
           | String d _ =>
               if is_whitespace d then String c "" :: split_whitespace s'
               else match split_whitespace s' with
                    | [] => [String c ""]
                    | p :: ps => String c p :: ps
                    end
           end
  end.

(** [pieces.str_join(sep)] *)
Fixpoint str_join (sep : string) (l : list string) : string :=
  match l with
  | [] => ""
  | [x] => x
  | x :: l' => x ++ sep ++ str_join sep l'
  end.

(** [s.to_lowercase()] on ASCII text. *)
Definition lower_byte (c : ascii) : ascii :=
  if in_range 65 90 (byte_of c) then ascii_of_N (byte_of c + 32) else c.

Fixpoint to_lowercase (s : string) : string :=
  match s with
  | EmptyString => ""
  | String c s' => String (lower_byte c) (to_lowercase s')
  end.

(** [format!("{:?}", s)] for ASCII text. *)
Fixpoint escape_debug (s : string) : string :=
  match s with
  | EmptyString => ""
  | String c s' =>
      let rest := escape_debug s' in
      if byte_of c =? 9 then "\t" ++ rest
      else if byte_of c =? 10 then "\n" ++ rest
      else if byte_of c =? 13 then "\r" ++ rest
      else if (byte_of c =? 34) || (byte_of c =? 92) then String "\" (String c rest)
      else String c rest
  end.

Definition debug_str (s : string) : string :=
  String (ascii_of_N 34) (escape_debug s) ++ String (ascii_of_N 34) "".

(** ** Integers *)

Definition digit (d : N) : ascii := ascii_of_N (48 + d).

Fixpoint to_digits (fuel : nat) (n : N) (acc : string) : string :=
  match fuel with
  | O => acc
  | S fuel =>
      let acc := String (digit (n mod 10)) acc in
      if n <? 10 then acc else to_digits fuel (n / 10) acc
  end.

(** [u64::to_string]; twenty digits hold every [u64]. *)
Definition u64_to_string (n : N) : string := to_digits 20 n "".

Fixpoint parse_digits (s : string) (acc : N) : option N :=
  match s with
  | EmptyString => Some acc
  | String c s' =>
      if in_range 48 57 (byte_of c) then
        let acc := acc * 10 + (byte_of c - 48) in
        if acc <=? u64_max then parse_digits s' acc else None
      else None
  end.

(** [s.parse::<u64>()]: an optional leading [+], at least one digit, no overflow. *)
Definition parse_u64 (s : string) : option N :=
  let digits := match s with
                | String c s' => if byte_of c =? 43 then s' else s
                | EmptyString => s
                end in
  if is_empty digits then None else parse_digits digits 0.

(** ** Sorting: [Vec<String>::sort], lexicographic on bytes *)

Fixpoint insert_sorted (x : string) (l : list string) : list string :=
  match l with
  | [] => [x]
  | y :: l' => if String.leb x y then x :: l else y :: insert_sorted x l'
  end.

Definition sort_strings (l : list string) : list string := foldr insert_sorted [] l.

(** [dedup]: drops repeated neighbours. *)
Fixpoint dedup (l : list string) : list string :=
  match l with
  | x :: ((y :: _) as l') => if String.eqb x y then dedup l' else x :: dedup l'
  | _ => l
  end.

(** ** Laws *)

Lemma string_length_app (a b : string) : String.length (a ++ b) = (String.length a + String.length b)%nat.
Proof. induction a; cbn; congruence. Qed.

Lemma digit_value d : d < 10 -> byte_of (digit d) = 48 + d.
Proof. intros H. unfold byte_of, digit. apply N_ascii_embedding. lia. Qed.

Lemma parse_digits_digit d s acc :
  d < 10 -> acc * 10 + d <= u64_max ->
  parse_digits (String (digit d) s) acc = parse_digits s (acc * 10 + d).
Proof.
  intros Hd Hacc. cbn [parse_digits]. rewrite digit_value by done.
  unfold in_range. replace (48 <=? 48 + d) with true by (symmetry; apply N.leb_le; lia).
  replace (48 + d <=? 57) with true by (symmetry; apply N.leb_le; lia). cbn [andb].
  replace (48 + d - 48) with d by lia.
  by replace (_ <=? u64_max) with true by (symmetry; apply N.leb_le; lia).
Qed.

Lemma parse_to_digits fuel n acc :
  n < 10 ^ N.of_nat fuel -> n <= u64_max ->
  (0 < fuel)%nat ->
  parse_digits (to_digits fuel n acc) 0 = parse_digits acc n.
Proof.
  revert n acc. induction fuel as [|fuel IH]; [lia|]. intros n acc Hn Hmax _.
  cbn [to_digits]. destruct (N.ltb_spec n 10) as [Hlt|Hge].
  - rewrite N.mod_small by done. by rewrite parse_digits_digit by lia.
  - assert (n = 10 * (n / 10) + n mod 10) as Hdiv by (apply N.div_mod; lia).
    assert (n mod 10 < 10) by (apply N.mod_upper_bound; lia).
    destruct fuel as [|fuel]; [change (10 ^ N.of_nat 1) with 10 in Hn; lia|].
    assert (n / 10 <= u64_max /\ n / 10 * 10 + n mod 10 = n) as [Hq Hn'].
    { generalize dependent (n / 10). generalize dependent (n mod 10). lia. }
    rewrite IH; [| |done|lia].
    + rewrite parse_digits_digit by lia. by rewrite Hn'.
    + apply N.Div0.div_lt_upper_bound. rewrite <- N.pow_succ_r'.
      by rewrite <- Nat2N.inj_succ.
Qed.

Lemma digit_in_range d : d < 10 -> in_range 48 57 (byte_of (digit d)) = true.
Proof.
  intros Hd. rewrite digit_value by done. unfold in_range.
  apply andb_true_intro. split; apply N.leb_le; lia.
Qed.

Lemma mod10_digit n : in_range 48 57 (byte_of (digit (n mod 10))) = true.
Proof. apply digit_in_range, N.mod_upper_bound. lia. Qed.

Lemma to_digits_cons fuel d n acc :
  in_range 48 57 (byte_of d) = true ->
  exists c s, to_digits fuel n (String d acc) = String c s /\ in_range 48 57 (byte_of c) = true.
Proof.
  revert d n acc; induction fuel as [|fuel IH]; intros d n acc Hd; cbn [to_digits]; [eauto|].
  pose proof (mod10_digit n). destruct (n <? 10); eauto.
Qed.

Lemma to_digits_all (p : ascii -> bool) fuel n acc :
  (forall d, d < 10 -> p (digit d) = true) -> str_all p acc = true -> str_all p (to_digits fuel n acc) = true.
Proof.
  intros Hp. revert n acc. induction fuel as [|fuel IH]; intros n acc Ha; cbn [to_digits]; [done|].
  assert (str_all p (String (digit (n mod 10)) acc) = true) as Ha'.
  { cbn [str_all]. rewrite Hp, Ha; [done|]. apply N.mod_lt. lia. }
  destruct (n <? 10); [done|]. by apply IH.
Qed.

Lemma u64_to_string_all (p : ascii -> bool) n :
  (forall d, d < 10 -> p (digit d) = true) -> str_all p (u64_to_string n) = true.
Proof. intros Hp. by apply to_digits_all. Qed.

Lemma to_digits_nonempty fuel n acc :
  (0 < fuel)%nat ->
  exists c s, to_digits fuel n acc = String c s /\ in_range 48 57 (byte_of c) = true.
Proof.
  destruct fuel as [|fuel]; [lia|]. intros _. cbn [to_digits].
  pose proof (mod10_digit n). destruct (n <? 10); eauto using to_digits_cons.
Qed.

(** Printing and parsing a [u64] are inverse. *)
Lemma parse_u64_to_string n : n <= u64_max -> parse_u64 (u64_to_string n) = Some n.
Proof.
  intros Hn. unfold parse_u64, u64_to_string.
  destruct (to_digits_nonempty 20 n "") as (c & s & Heq & Hc); [lia|].
  assert ((byte_of c =? 43) = false) as H43.
  { apply N.eqb_neq. intros E. by rewrite E in Hc. }
  rewrite Heq, H43. cbn [is_empty]. rewrite <- Heq.
  apply parse_to_digits; [|done|lia]. unfold u64_max in Hn. cbn. lia.
Qed.

Lemma parse_digits_u64 s acc n : acc <= u64_max -> parse_digits s acc = Some n -> n <= u64_max.
Proof.
  revert acc; induction s as [|c s IH]; intros acc Hacc; cbn [parse_digits].
  - by intros [= <-].
  - destruct (in_range 48 57 (byte_of c)); [|done].
    destruct (N.leb_spec (acc * 10 + (byte_of c - 48)) u64_max); [|done]. by apply IH.
Qed.

Lemma parse_u64_bound s n : parse_u64 s = Some n -> u64 n.
Proof.
  unfold parse_u64. destruct (is_empty _); [done|]. apply parse_digits_u64. done.
Qed.

Lemma str_all_app p a b : str_all p (a ++ b) = str_all p a && str_all p b.
Proof. induction a as [|c a IH]; simpl; [done|]. by rewrite IH, andb_assoc. Qed.

Lemma str_all_impl (p q : ascii -> bool) s :
  (forall c, p c = true -> q c = true) -> str_all p s = true -> str_all q s = true.
Proof.
  intros Hpq. induction s as [|c s IH]; simpl; [done|].
  intros [H1 H2]%andb_prop. by rewrite Hpq, IH.
Qed.

Lemma app_empty_r s : s ++ "" = s.
Proof. induction s; simpl; congruence. Qed.

Lemma string_app_assoc (a b c : string) : (a ++ b) ++ c = a ++ b ++ c.
Proof. induction a; simpl; congruence. Qed.

Lemma str_strip_prefix_app p s : str_strip_prefix p (p ++ s) = Some s.
Proof. induction p as [|c p IH]; simpl; [done|]. by rewrite Ascii.eqb_refl. Qed.

Lemma str_strip_prefix_some p s r : str_strip_prefix p s = Some r -> s = p ++ r.
Proof.
  revert s; induction p as [|c p IH]; intros [|d s]; simpl; intros H; simplify_eq; try done.
  destruct (Ascii.eqb_spec c d) as [->|]; [|done]. f_equal. by apply IH.
Qed.

Lemma str_strip_prefix_char_none c p s :
  str_all (fun d => negb (Ascii.eqb d c)) s = true ->
  s <> "" -> str_strip_prefix (String c p) s = None.
Proof.
  destruct s as [|d s]; [done|]. simpl. intros [Hd _]%andb_prop _.
  rewrite Ascii.eqb_sym. by destruct (Ascii.eqb d c).
Qed.

(** Splitting at the first separator that the left part does not contain. *)
Lemma split_once_char c a b :
  str_all (fun d => negb (Ascii.eqb d c)) a = true ->
  split_once (String c "") (a ++ String c b) = Some (a, b).
Proof.
  induction a as [|d a IH]; simpl; [by rewrite Ascii.eqb_refl|].
  intros [Hd Ha]%andb_prop. rewrite Ascii.eqb_sym.
  destruct (Ascii.eqb d c); [done|]. by rewrite IH.
Qed.

Lemma split_once_char_none c a :
  str_all (fun d => negb (Ascii.eqb d c)) a = true -> split_once (String c "") a = None.
Proof.
  induction a as [|d a IH]; simpl; [done|]. intros [Hd Ha]%andb_prop.
  rewrite Ascii.eqb_sym. destruct (Ascii.eqb d c); [done|]. by rewrite IH.
Qed.

Lemma split_char_none c a :
  str_all (fun d => negb (Ascii.eqb d c)) a = true -> split_char c a = [a].
Proof.
  induction a as [|d a IH]; simpl; [done|]. intros [Hd Ha]%andb_prop.
  destruct (Ascii.eqb d c); [done|]. by rewrite IH.
Qed.

Lemma split_char_app c a b :
  str_all (fun d => negb (Ascii.eqb d c)) a = true ->
  split_char c (a ++ String c b) = a :: split_char c b.
Proof.
  induction a as [|d a IH]; simpl; [by rewrite Ascii.eqb_refl|].
  intros [Hd Ha]%andb_prop. destruct (Ascii.eqb d c); [done|]. by rewrite IH.
Qed.

(** [split] undoes [str_join] when no piece contains the separator. *)
Lemma split_join c l :
  l <> [] -> Forall (fun s => str_all (fun d => negb (Ascii.eqb d c)) s = true) l ->
  split_char c (str_join (String c "") l) = l.
Proof.
  induction l as [|x l IH]; [done|]. intros _ [Hx Hl]%Forall_cons.
  destruct l as [|y l]; [by apply split_char_none|].
  change (str_join (String c "") (x :: y :: l)) with (x ++ String c (str_join (String c "") (y :: l))).
  rewrite split_char_app by done. by rewrite IH.
Qed.

Lemma trim_end_app a b :
  trim_end (a ++ b) = if is_empty (trim_end b) then trim_end a else a ++ trim_end b.
Proof.
  induction a as [|c a IH]; simpl.
  - by destruct (trim_end b).
  - rewrite IH. destruct (is_empty (trim_end b)) eqn:Hb; [done|].
    destruct (a ++ trim_end b) eqn:Hab; [|by rewrite andb_false_r].
    destruct a; [|done]. simpl in Hab. by rewrite Hab in Hb.
Qed.

Lemma trim_end_solid s : str_all (fun c => negb (is_whitespace c)) s = true -> trim_end s = s.
Proof.
  induction s as [|c s IH]; simpl; [done|]. intros [Hc Hs]%andb_prop.
  rewrite IH by done. by destruct (is_whitespace c).
Qed.

Lemma trim_start_solid c s :
  is_whitespace c = false -> trim_start (String c s) = String c s.
Proof. simpl. by intros ->. Qed.

(** [split_whitespace] undoes joining solid words with single spaces. *)
Lemma split_whitespace_word w :
  w <> "" -> str_all (fun c => negb (is_whitespace c)) w = true -> split_whitespace w = [w].
Proof.
  induction w as [|c w IH]; [done|]. intros _. simpl. intros [Hc Hw]%andb_prop.
  destruct (is_whitespace c); [done|]. destruct w as [|d w]; [done|].
  destruct (is_whitespace d) eqn:Hd; [simpl in Hw; by rewrite Hd in Hw|].
  by rewrite IH.
Qed.

Lemma split_whitespace_app w s :
  w <> "" -> str_all (fun c => negb (is_whitespace c)) w = true ->
  split_whitespace (w ++ " " ++ s) = w :: split_whitespace s.
Proof.
  induction w as [|c w IH]; [done|]. intros _. simpl. intros [Hc Hw]%andb_prop.
  destruct (is_whitespace c); [done|]. destruct w as [|d w]; [done|].
  simpl in *. destruct (is_whitespace d) eqn:Hd; [done|].
  rewrite IH by done. done.
Qed.

Lemma split_whitespace_join l :
  Forall (fun w => w <> "" /\ str_all (fun c => negb (is_whitespace c)) w = true) l ->
  split_whitespace (str_join " " l) = l.
Proof.
  induction l as [|x l IH]; [done|]. intros [[Hne Hx] Hl]%Forall_cons.
  destruct l as [|y l]; [by apply split_whitespace_word|].
  change (str_join " " (x :: y :: l)) with (x ++ " " ++ str_join " " (y :: l)).
  rewrite split_whitespace_app by done. by rewrite IH.
Qed.

Lemma insert_sorted_perm x l : insert_sorted x l ≡ₚ x :: l.
Proof.
  induction l as [|y l IH]; simpl; [done|]. destruct (String.leb x y); [done|].
  rewrite IH. apply Permutation_swap.
Qed.

Lemma sort_strings_perm l : sort_strings l ≡ₚ l.
Proof. induction l as [|x l IH]; simpl; [done|]. by rewrite insert_sorted_perm, IH. Qed.

Lemma dedup_in x l : In x (dedup l) <-> In x l.
Proof.
  induction l as [|a l IH]; [done|]. destruct l as [|b l]; [done|].
  cbn [dedup]. destruct (String.eqb_spec a b) as [->|].
  - rewrite IH. simpl. tauto.
  - cbn [In] in *. rewrite IH. tauto.
Qed.

(** ** Sorted lists *)

Lemma leb_cons c s d t :
  String.leb (String c s) (String d t) = true <->
    byte_of c < byte_of d \/ (c = d /\ String.leb s t = true).
Proof.
  unfold String.leb. cbn. unfold Ascii.compare. fold (byte_of c) (byte_of d).
  destruct (N.compare_spec (byte_of c) (byte_of d)) as [He|Hl|Hg].
  - assert (c = d) as ->.
    { unfold byte_of in He. rewrite <- (ascii_N_embedding c), <- (ascii_N_embedding d). by f_equal. }
    split; [by right|]. intros [?|[_ ?]]; [lia|done].
  - split; [by left|done].
  - split; [done|]. intros [?|[-> ?]]; lia.
Qed.

Lemma leb_trans a b c : String.leb a b = true -> String.leb b c = true -> String.leb a c = true.
Proof.
  revert b c. induction a as [|x a IH]; intros [|y b] [|z c]; try done.
  rewrite !leb_cons. intros [?|[-> ?]] [?|[-> ?]]; [left; lia|by left|by left|right].
  split; [done|]. by eapply IH.
Qed.

Definition sorted (l : list string) : Prop := StronglySorted (fun a b => String.leb a b = true) l.

Lemma insert_sorted_sorted x l : sorted l -> sorted (insert_sorted x l).
Proof.
  unfold sorted. induction 1 as [|y l Hl IH Hy]; cbn; [by repeat constructor|].
  destruct (String.leb x y) eqn:Hxy.
  - constructor; [by constructor|]. constructor; [done|].
    eapply Forall_impl; [exact Hy|]. cbn. intros z. by apply leb_trans.
  - constructor; [done|]. rewrite insert_sorted_perm. constructor; [|done].
    destruct (String.leb_total x y); [congruence|done].
Qed.

Lemma sort_strings_sorted l : sorted (sort_strings l).
Proof. induction l as [|x l IH]; [constructor|]. by apply insert_sorted_sorted. Qed.

(** [sort] then [dedup] leaves each string once. *)
Lemma dedup_sorted_nodup l : sorted l -> NoDup (dedup l).
Proof.
  unfold sorted. induction 1 as [|x l Hl IH Hx]; [constructor|].
  destruct l as [|y l]; [apply NoDup_singleton|]. cbn [dedup].
  destruct (String.eqb_spec x y) as [->|Hne]; [done|]. constructor; [|done].
  change (x ∉ dedup (y :: l)). intros Hin. apply list_elem_of_In in Hin.
  apply (dedup_in x (y :: l)) in Hin. apply Hne.
  apply Forall_cons in Hx as [Hxy Hx]. apply String.leb_antisym; [done|].
  destruct Hin as [<-|Hin]; [by destruct (String.leb_total y y)|].
  apply StronglySorted_inv in Hl as [_ Hy]. rewrite Forall_forall in Hy.
  by apply Hy, list_elem_of_In.
Qed.

Lemma dedup_sorted l : sorted l -> sorted (dedup l).
Proof.
  unfold sorted. induction 1 as [|x l Hl IH Hx]; [constructor|].
  destruct l as [|y l]; [by repeat constructor|]. cbn [dedup].
  destruct (String.eqb x y); [done|]. constructor; [done|]. apply Forall_forall. intros z Hz.
  apply list_elem_of_In in Hz. apply (dedup_in z (y :: l)) in Hz.
  rewrite Forall_forall in Hx. by apply Hx, list_elem_of_In.
Qed.
