(* ===== verification/Errors.v ===== *)
(** * Protocol errors ([src/crates/tus-protocol/src/error.rs])

    The [Error] enum with its display text, the HTTP status each variant maps to
    and the framework-neutral error response.  A boxed error source and an
    [io::Error] are represented by their display text. *)

From S2P Require Import Prelude Text.
Local Open Scope string_scope.
Local Open Scope N_scope.

Definition TUS_VERSION : string := "1.0.0".
Definition TUS_RESUMABLE : string := "1.0.0".

Module Error.
Inductive t : Type :=
| NotFound (id : string)
| AlreadyExists (id : string)
| OffsetMismatch (expected actual : N)
| SizeExceeded (size max : N)
| InvalidContentType (expected actual : string)
| MissingHeader (name : string)
| MissingTusResumable
| UnsupportedTusVersion (version : string)
| InvalidHeader (header message : string)
| Locked (id : string)
| LockTimeout (id : string)
| Expired (id : string)
| ChecksumMismatch (expected actual : string)
| UnsupportedChecksum (algorithm : string)
| ExtensionNotSupported (ext : string)
| InvalidMetadata (message : string)
| ConcatenationError (message : string)
| NotPartialUpload (id : string)
| IncompleteUpload (id : string)
| RangeNotSatisfiable (size : N)
| StorageKeyMissing
| Storage (source : string)
| StateStore (source : string)
| Hook (source : string)
| HookRejected (status_code : N) (message : string)
| LengthRequired
| Io (message : string)
| Internal (message : string)
| MethodNotAllowed (method : string)
| FinalUploadModificationForbidden (id : string)
| CompletedUploadModificationForbidden (id : string)
| InvalidUploadId (message : string).

#[global] Instance eq_dec : EqDecision t.
Proof. solve_decision. Defined.

(** [Display], the [#[error(..)]] attributes. *)
Definition to_string (e : t) : string :=
  match e with
  | NotFound id => "upload not found: " ++ id
  | AlreadyExists id => "upload already exists: " ++ id
  | OffsetMismatch expected actual =>
      "offset mismatch: expected " ++ u64_to_string expected
        ++ ", got " ++ u64_to_string actual
  | SizeExceeded size max =>
      "upload size " ++ u64_to_string size ++ " exceeds maximum " ++ u64_to_string max
  | InvalidContentType expected actual =>
      "invalid content type: expected " ++ expected ++ ", got " ++ actual
  | MissingHeader name => "missing required header: " ++ name
  | MissingTusResumable => "missing Tus-Resumable header"
  | UnsupportedTusVersion v => "unsupported TUS version: " ++ v
  | InvalidHeader header message =>
      "invalid header value for " ++ header ++ ": " ++ message
  | Locked id => "upload is locked: " ++ id
  | LockTimeout id => "lock acquisition timeout for upload: " ++ id
  | Expired id => "upload has expired: " ++ id
  | ChecksumMismatch expected actual =>
      "checksum mismatch: expected " ++ expected ++ ", got " ++ actual
  | UnsupportedChecksum a => "unsupported checksum algorithm: " ++ a
  | ExtensionNotSupported x => "extension not supported: " ++ x
  | InvalidMetadata m => "invalid metadata: " ++ m
  | ConcatenationError m => "concatenation error: " ++ m
  | NotPartialUpload id => "upload " ++ id ++ " is not a partial upload"
  | IncompleteUpload id => "upload " ++ id ++ " is incomplete"
  | RangeNotSatisfiable size =>
      "range not satisfiable for resource of size " ++ u64_to_string size
  | StorageKeyMissing => "storage key not set for upload"
  | Storage _ => "storage error"
  | StateStore _ => "state store error"
  | Hook _ => "hook error"
  | HookRejected _ message => "hook rejected: " ++ message
  | LengthRequired => "length required: request must declare Content-Length"
  | Io m => "io error: " ++ m
  | Internal m => "internal error: " ++ m
  | MethodNotAllowed m => "method not allowed: " ++ m
  | FinalUploadModificationForbidden id => "cannot modify final upload: " ++ id
  | CompletedUploadModificationForbidden id => "cannot modify completed upload: " ++ id
  | InvalidUploadId m => "invalid upload id: " ++ m
  end.

Definition status_code (e : t) : N :=
  match e with
  | NotFound _ => 404
  | AlreadyExists _ => 409
  | OffsetMismatch _ _ => 409
  | SizeExceeded _ _ => 413
  | InvalidContentType _ _ => 415
  | MissingHeader _ => 400
  | MissingTusResumable => 412
  | UnsupportedTusVersion _ => 412
  | InvalidHeader _ _ => 400
  | Locked _ => 423
  | LockTimeout _ => 423
  | Expired _ => 410
  | ChecksumMismatch _ _ => 460
  | UnsupportedChecksum _ => 400
  | ExtensionNotSupported _ => 400
  | InvalidMetadata _ => 400
  | ConcatenationError _ => 400
  | NotPartialUpload _ => 400
  | IncompleteUpload _ => 400
  | RangeNotSatisfiable _ => 416
  | StorageKeyMissing => 500
  | Storage _ => 500
  | StateStore _ => 500
  | Hook _ => 500
  | HookRejected status_code _ =>
      if in_range 100 599 status_code then status_code else 500
  | LengthRequired => 411
  | Io _ => 500
  | Internal _ => 500
  | MethodNotAllowed _ => 405
  | FinalUploadModificationForbidden _ => 403
  | CompletedUploadModificationForbidden _ => 403
  | InvalidUploadId _ => 400
  end.

Definition should_expose_details (e : t) : bool :=
  match e with
  | Storage _ | StateStore _ | Hook _ | Io _ | Internal _ => false
  | _ => true
  end.
End Error.

Record ErrorResponse := {
  er_status : N;
  er_headers : list (string * string);
  er_body : string;
}.

Definition error_response (e : Error.t) : ErrorResponse :=
  {| er_status := Error.status_code e;
     er_headers :=
       ("tus-resumable", TUS_RESUMABLE) ::
       match e with
       | Error.MissingTusResumable | Error.UnsupportedTusVersion _ =>
           [("tus-version", TUS_RESUMABLE)]
       | Error.OffsetMismatch expected _ => [("upload-offset", u64_to_string expected)]
       | Error.RangeNotSatisfiable size => [("content-range", "bytes */" ++ u64_to_string size)]
       | _ => []
       end;
     er_body :=
       if Error.should_expose_details e then Error.to_string e
       else "Internal server error" |}.

(** [Result<T>] of the crate, and its [async] counterpart over a world [W]. *)
Abbreviation result := (outcome Error.t).
Abbreviation M := (prog Error.t).

(** every error becomes a response with a status between 100 and 599 and
    the protocol version as its first header; an offset mismatch tells the
    expected offset; and an internal error (500) answers with the fixed text
    only, apart from the two errors whose text is the hook's or the protocol's
    own. *)
Theorem error_response_safe e :
  100 <= er_status (error_response e) <= 599 /\
  head (er_headers (error_response e)) = Some ("tus-resumable", TUS_RESUMABLE) /\
  (forall expected actual, e = Error.OffsetMismatch expected actual ->
     In ("upload-offset", u64_to_string expected) (er_headers (error_response e))) /\
  (500 = er_status (error_response e) ->
     er_body (error_response e) = "Internal server error" \/
     e = Error.StorageKeyMissing \/ exists s m, e = Error.HookRejected s m).
Proof.
  repeat split.
  1-2: destruct e; cbn; try (vm_compute; congruence);
    match goal with |- context [in_range 100 599 ?s] =>
      destruct (in_range 100 599 s) eqn:Hr; [|vm_compute; congruence] end;
    unfold in_range in Hr; apply andb_prop in Hr as [?%N.leb_le ?%N.leb_le]; done.
  - intros expected actual ->. cbn. auto.
  - destruct e; cbn; intros H; try discriminate H; eauto 10.
Qed.
