(* ===== verification/Crates.v ===== *)
(** * Interfaces of the third-party crates the protocol core relies on

    The core calls [http] (header maps), [base64], [percent-encoding], [chrono],
    [sha1]/[sha2]/[md5]/[crc32fast] and iterates over hash maps whose order is
    unspecified.  None of that code is in the repository: it enters the model as
    the operations of the classes below, with the documented behaviour the core
    relies on as their laws. *)

From stdpp Require Export gmap.
From Stdlib Require Export Strings.Byte.
From S2P Require Import Prelude Text.
Local Open Scope string_scope.

(** [Bytes], [Vec<u8>] *)
Abbreviation bytes := (list Byte.byte).

#[export] Instance byte_eq_dec : EqDecision Byte.byte := Byte.byte_eq_dec.

Definition bytes_len (b : bytes) : N := N.of_nat (length b).

Lemma bytes_len_app a b : bytes_len (a ++ b) = (bytes_len a + bytes_len b)%N.
Proof. unfold bytes_len. rewrite length_app. lia. Qed.

(** ** [http]: header maps, names and values *)
Class HttpLib := {
  HeaderMap : Type;
  HeaderValue : Type;
  header_map_new : HeaderMap;
  header_get : HeaderMap -> string -> option HeaderValue;
  header_get_all : HeaderMap -> string -> list HeaderValue;
  header_insert : string -> HeaderValue -> HeaderMap -> HeaderMap;
  (** [HeaderValue::to_str] and the display text of its error *)
  header_to_str : HeaderValue -> string + string;
  header_value_from_str : string -> string + HeaderValue;
  (** [HeaderValue::from_static], documented to panic on an invalid value; the
      core passes it literals only *)
  header_value_from_static : string -> HeaderValue;
  (** [HeaderName::try_from], returning the normalised name *)
  header_name_try_from : string -> option string;
}.

(** Characters a header value may hold: visible ASCII, space and tab. *)
Definition visible (c : ascii) : bool := in_range 32 126 (byte_of c).

(** Lower-case header-name characters. *)
Definition name_char (c : ascii) : bool := in_range 97 122 (byte_of c) || (byte_of c =? 45)%N.

Class HttpLaws `{HttpLib} := {
  header_get_new n : header_get header_map_new n = None;
  header_get_insert_eq n v h : header_get (header_insert n v h) n = Some v;
  header_get_insert_ne n m v h :
    n <> m -> header_get (header_insert n v h) m = header_get h m;
  header_from_to_str s v : header_value_from_str s = inr v -> header_to_str v = inr s;
  header_from_static s :
    str_all visible s = true -> header_value_from_str s = inr (header_value_from_static s);
  header_name_lower n :
    n <> "" -> str_all name_char n = true -> header_name_try_from n = Some n;
}.

(** ** [base64] (the [STANDARD] engine) *)
Class Base64 := {
  b64_encode : bytes -> string;
  (** [decode] and the display text of its error *)
  b64_decode : string -> string + bytes;
}.

Definition b64_char (c : ascii) : bool :=
  in_range 65 90 (byte_of c) || in_range 97 122 (byte_of c) || in_range 48 57 (byte_of c)
  || (byte_of c =? 43)%N || (byte_of c =? 47)%N || (byte_of c =? 61)%N.

Class Base64Laws `{Base64} := {
  b64_decode_encode b : b64_decode (b64_encode b) = inr b;
  b64_encode_chars b : str_all b64_char (b64_encode b) = true;
  b64_encode_nil b : b64_encode b = "" <-> b = [];
}.

(** ** [percent-encoding] *)
Class PercentEncoding := {
  NON_ALPHANUMERIC : ascii -> bool;
  utf8_percent_encode : string -> (ascii -> bool) -> string;
}.

Definition alphanumeric (c : ascii) : bool :=
  in_range 65 90 (byte_of c) || in_range 97 122 (byte_of c) || in_range 48 57 (byte_of c).

Class PercentLaws `{PercentEncoding} := {
  non_alphanumeric_spec c : (byte_of c < 128)%N -> NON_ALPHANUMERIC c = negb (alphanumeric c);
  percent_encode_unreserved s set :
    str_all (fun c => (byte_of c <? 128)%N && negb (set c)) s = true ->
    utf8_percent_encode s set = s;
}.

(** ** [chrono]: [DateTime<Utc>] is an instant in nanoseconds *)
Abbreviation DateTime := Z.
(** [std::time::Duration], in nanoseconds. *)
Abbreviation Duration := N.

Class Chrono := {
  (** [chrono::Duration::from_std] and the display text of its error *)
  chrono_from_std : Duration -> string + Z;
  (** [DateTime + Duration]; [None] is the documented overflow panic *)
  datetime_add : DateTime -> Z -> option DateTime;
  (** [format("%a, %d %b %Y %H:%M:%S GMT")] *)
  format_http_date : DateTime -> string;
}.

(** ** Iteration order of [std::collections::HashMap] *)
Class HashOrder := {
  hash_iter {V : Type} : gmap string V -> list (string * V);
  hash_iter_perm {V : Type} (m : gmap string V) : hash_iter m ≡ₚ map_to_list m;
}.

(** ** Digest crates *)
Record DigestImpl := {
  digest_state : Type;
  digest_new : digest_state;
  digest_update : digest_state -> bytes -> digest_state;
  digest_finalize : digest_state -> bytes;
}.

Class Digests := {
  sha1_impl : DigestImpl;
  sha256_impl : DigestImpl;
  md5_impl : DigestImpl;
  crc32_impl : DigestImpl;
}.

(** Incremental hashing: feeding chunks is feeding their concatenation. *)
Definition digest_incremental (d : DigestImpl) : Prop :=
  forall chunks : list bytes,
    digest_finalize d (foldl (digest_update d) (digest_new d) chunks)
      = digest_finalize d (digest_update d (digest_new d) (concat chunks)).

Class DigestLaws `{Digests} := {
  sha1_incremental : digest_incremental sha1_impl;
  sha256_incremental : digest_incremental sha256_impl;
  md5_incremental : digest_incremental md5_impl;
  crc32_incremental : digest_incremental crc32_impl;
}.

(** ** [tokio::sync::Semaphore]: only its permit count is relied on *)
Class TokioSemaphore := {
  Semaphore : Type;
  semaphore_new : nat -> Semaphore;
  (** [try_acquire_owned], and [acquire_owned] once it resolves *)
  semaphore_try_acquire : Semaphore -> option Semaphore;
  (** dropping an [OwnedSemaphorePermit] *)
  semaphore_release : Semaphore -> Semaphore;
  semaphore_available_permits : Semaphore -> nat;
}.

Class SemaphoreLaws `{TokioSemaphore} := {
  available_new n : semaphore_available_permits (semaphore_new n) = n;
  try_acquire_some s s' :
    semaphore_try_acquire s = Some s' ->
    semaphore_available_permits s = Datatypes.S (semaphore_available_permits s');
  try_acquire_none s :
    semaphore_try_acquire s = None -> semaphore_available_permits s = 0%nat;
  available_release s :
    semaphore_available_permits (semaphore_release s)
      = Datatypes.S (semaphore_available_permits s);
}.
