(* ===== verification/Config.v ===== *)
(** * Server configuration ([config.rs]) and checksum hashers ([checksum.rs])

    [Config] with its builders and accessors, the [Extension] and
    [ChecksumAlgorithm] enums with their names and parsers, the upload URL, and
    the incremental [Hasher].  The build modelled is the one with the [checksum]
    Cargo feature on, which the standalone server uses. *)

From S2P Require Import Prelude Text Errors Crates.
Local Open Scope string_scope.
Local Open Scope N_scope.

Module Extension.
Inductive t :=
| Creation
| CreationWithUpload
| CreationDeferLength
| Termination
| Expiration
| Concatenation
| ConcatenationUnfinished
| Checksum
| ChecksumTrailer.

#[global] Instance eq_dec : EqDecision t.
Proof. solve_decision. Defined.

Definition as_str (e : t) : string :=
  match e with
  | Creation => "creation"
  | CreationWithUpload => "creation-with-upload"
  | CreationDeferLength => "creation-defer-length"
  | Termination => "termination"
  | Expiration => "expiration"
  | Concatenation => "concatenation"
  | ConcatenationUnfinished => "concatenation-unfinished"
  | Checksum => "checksum"
  | ChecksumTrailer => "checksum-trailer"
  end.

(** [Extension::supported()] of a build with the [checksum] feature. *)
Definition supported : list t :=
  [Creation; CreationWithUpload; CreationDeferLength; Termination; Expiration;
   Concatenation; ConcatenationUnfinished; Checksum; ChecksumTrailer].

Definition from_str (s : string) : result t :=
  if (s =? "creation")%string then Ok Creation
  else if (s =? "creation-with-upload")%string then Ok CreationWithUpload
  else if (s =? "creation-defer-length")%string then Ok CreationDeferLength
  else if (s =? "termination")%string then Ok Termination
  else if (s =? "expiration")%string then Ok Expiration
  else if (s =? "concatenation")%string then Ok Concatenation
  else if (s =? "concatenation-unfinished")%string then Ok ConcatenationUnfinished
  else if (s =? "checksum")%string then Ok Checksum
  else if (s =? "checksum-trailer")%string then Ok ChecksumTrailer
  else Err (Error.ExtensionNotSupported s).

Definition index (e : t) : nat :=
  match e with
  | Creation => 0 | CreationWithUpload => 1 | CreationDeferLength => 2
  | Termination => 3 | Expiration => 4 | Concatenation => 5
  | ConcatenationUnfinished => 6 | Checksum => 7 | ChecksumTrailer => 8
  end%nat.

#[global] Program Instance countable : Countable t :=
  inj_countable index (fun n => supported !! n) _.
Next Obligation. by intros []. Qed.
End Extension.

Module ChecksumAlgorithm.
Inductive t := Sha1 | Sha256 | Md5 | Crc32.

#[global] Instance eq_dec : EqDecision t.
Proof. solve_decision. Defined.

Definition as_str (a : t) : string :=
  match a with Sha1 => "sha1" | Sha256 => "sha256" | Md5 => "md5" | Crc32 => "crc32" end.

Definition from_str (s : string) : result t :=
  let s := to_lowercase s in
  if (s =? "sha1")%string then Ok Sha1
  else if (s =? "sha256")%string then Ok Sha256
  else if (s =? "md5")%string then Ok Md5
  else if (s =? "crc32")%string then Ok Crc32
  else Err (Error.UnsupportedChecksum s).

#[global] Program Instance countable : Countable t :=
  inj_countable (fun a => match a with Sha1 => 0 | Sha256 => 1 | Md5 => 2 | Crc32 => 3 end)%nat
    (fun n => [Sha1; Sha256; Md5; Crc32] !! n) _.
Next Obligation. by intros []. Qed.
End ChecksumAlgorithm.

Definition DEFAULT_MAX_INTAKE_BUFFER : N := 8 * 1024 * 1024.

Record Config := {
  max_size : option N;
  extensions : gset Extension.t;
  checksum_algorithms_set : gset ChecksumAlgorithm.t;
  expiration : option Duration;
  lock_timeout : Duration;
  base_path : string;
  base_url : option string;
  respect_forwarded_headers : bool;
  max_chunk_size : option N;
  max_intake_buffer : option N;
  disable_download : bool;
  allow_empty_creation : bool;
}.

Definition seconds (n : N) : Duration := n * 1000000000.

Definition Config_default : Config := {|
  max_size := None;
  extensions := {[ Extension.Creation; Extension.Termination; Extension.CreationDeferLength ]};
  checksum_algorithms_set := ∅;
  expiration := None;
  lock_timeout := seconds 30;
  base_path := "/files";
  base_url := None;
  respect_forwarded_headers := false;
  max_chunk_size := None;
  max_intake_buffer := Some DEFAULT_MAX_INTAKE_BUFFER;
  disable_download := false;
  allow_empty_creation := true;
|}.

Definition with_extensions_set (exts : gset Extension.t) (c : Config) : Config := {|
  max_size := max_size c; extensions := exts;
  checksum_algorithms_set := checksum_algorithms_set c; expiration := expiration c;
  lock_timeout := lock_timeout c; base_path := base_path c; base_url := base_url c;
  respect_forwarded_headers := respect_forwarded_headers c;
  max_chunk_size := max_chunk_size c; max_intake_buffer := max_intake_buffer c;
  disable_download := disable_download c; allow_empty_creation := allow_empty_creation c |}.

Definition with_algorithms_set (algs : gset ChecksumAlgorithm.t) (c : Config) : Config := {|
  max_size := max_size c; extensions := extensions c;
  checksum_algorithms_set := algs; expiration := expiration c;
  lock_timeout := lock_timeout c; base_path := base_path c; base_url := base_url c;
  respect_forwarded_headers := respect_forwarded_headers c;
  max_chunk_size := max_chunk_size c; max_intake_buffer := max_intake_buffer c;
  disable_download := disable_download c; allow_empty_creation := allow_empty_creation c |}.

Definition all_extensions : Config :=
  with_algorithms_set
    {[ ChecksumAlgorithm.Sha1; ChecksumAlgorithm.Sha256;
       ChecksumAlgorithm.Md5; ChecksumAlgorithm.Crc32 ]}
    (with_extensions_set (list_to_set Extension.supported) Config_default).

(** ** Builders *)

Definition with_max_size (size : N) (c : Config) : Config := {|
  max_size := Some size; extensions := extensions c;
  checksum_algorithms_set := checksum_algorithms_set c; expiration := expiration c;
  lock_timeout := lock_timeout c; base_path := base_path c; base_url := base_url c;
  respect_forwarded_headers := respect_forwarded_headers c;
  max_chunk_size := max_chunk_size c; max_intake_buffer := max_intake_buffer c;
  disable_download := disable_download c; allow_empty_creation := allow_empty_creation c |}.

Definition is_checksum_extension (ext : Extension.t) : bool :=
  match ext with Extension.Checksum | Extension.ChecksumTrailer => true | _ => false end.

(** [try_with_extension]: with the [checksum] feature every extension is
    serviceable; a checksum extension also enables Checksum and SHA-1. *)
Definition try_with_extension (ext : Extension.t) (c : Config) : result Config :=
  let c := with_extensions_set ({[ ext ]} ∪ extensions c) c in
  Ok (if is_checksum_extension ext then
        let c := with_extensions_set ({[ Extension.Checksum ]} ∪ extensions c) c in
        if decide (checksum_algorithms_set c = ∅)
        then with_algorithms_set ({[ ChecksumAlgorithm.Sha1 ]} ∪ checksum_algorithms_set c) c
        else c
      else c).

Definition with_extension (ext : Extension.t) (c : Config) : outcome Error.t Config :=
  match try_with_extension ext c with Ok c => Ok c | _ => Panic end.

Definition without_extension (ext : Extension.t) (c : Config) : Config :=
  with_extensions_set (extensions c ∖ {[ ext ]}) c.

Definition with_expiration (d : Duration) (c : Config) : Config := {|
  max_size := max_size c; extensions := {[ Extension.Expiration ]} ∪ extensions c;
  checksum_algorithms_set := checksum_algorithms_set c; expiration := Some d;
  lock_timeout := lock_timeout c; base_path := base_path c; base_url := base_url c;
  respect_forwarded_headers := respect_forwarded_headers c;
  max_chunk_size := max_chunk_size c; max_intake_buffer := max_intake_buffer c;
  disable_download := disable_download c; allow_empty_creation := allow_empty_creation c |}.

Definition with_max_chunk_size (size : N) (c : Config) : Config := {|
  max_size := max_size c; extensions := extensions c;
  checksum_algorithms_set := checksum_algorithms_set c; expiration := expiration c;
  lock_timeout := lock_timeout c; base_path := base_path c; base_url := base_url c;
  respect_forwarded_headers := respect_forwarded_headers c;
  max_chunk_size := Some size; max_intake_buffer := max_intake_buffer c;
  disable_download := disable_download c; allow_empty_creation := allow_empty_creation c |}.

Definition with_max_intake_buffer (size : N) (c : Config) : Config := {|
  max_size := max_size c; extensions := extensions c;
  checksum_algorithms_set := checksum_algorithms_set c; expiration := expiration c;
  lock_timeout := lock_timeout c; base_path := base_path c; base_url := base_url c;
  respect_forwarded_headers := respect_forwarded_headers c;
  max_chunk_size := max_chunk_size c; max_intake_buffer := Some size;
  disable_download := disable_download c; allow_empty_creation := allow_empty_creation c |}.

Definition without_intake_buffer_limit (c : Config) : Config := {|
  max_size := max_size c; extensions := extensions c;
  checksum_algorithms_set := checksum_algorithms_set c; expiration := expiration c;
  lock_timeout := lock_timeout c; base_path := base_path c; base_url := base_url c;
  respect_forwarded_headers := respect_forwarded_headers c;
  max_chunk_size := max_chunk_size c; max_intake_buffer := None;
  disable_download := disable_download c; allow_empty_creation := allow_empty_creation c |}.

Definition with_lock_timeout (timeout : Duration) (c : Config) : Config := {|
  max_size := max_size c; extensions := extensions c;
  checksum_algorithms_set := checksum_algorithms_set c; expiration := expiration c;
  lock_timeout := timeout; base_path := base_path c; base_url := base_url c;
  respect_forwarded_headers := respect_forwarded_headers c;
  max_chunk_size := max_chunk_size c; max_intake_buffer := max_intake_buffer c;
  disable_download := disable_download c; allow_empty_creation := allow_empty_creation c |}.

Definition with_base_path (path : string) (c : Config) : Config := {|
  max_size := max_size c; extensions := extensions c;
  checksum_algorithms_set := checksum_algorithms_set c; expiration := expiration c;
  lock_timeout := lock_timeout c; base_path := path; base_url := base_url c;
  respect_forwarded_headers := respect_forwarded_headers c;
  max_chunk_size := max_chunk_size c; max_intake_buffer := max_intake_buffer c;
  disable_download := disable_download c; allow_empty_creation := allow_empty_creation c |}.

Definition with_base_url (url : string) (c : Config) : Config := {|
  max_size := max_size c; extensions := extensions c;
  checksum_algorithms_set := checksum_algorithms_set c; expiration := expiration c;
  lock_timeout := lock_timeout c; base_path := base_path c; base_url := Some url;
  respect_forwarded_headers := respect_forwarded_headers c;
  max_chunk_size := max_chunk_size c; max_intake_buffer := max_intake_buffer c;
  disable_download := disable_download c; allow_empty_creation := allow_empty_creation c |}.

Definition with_respect_forwarded_headers (c : Config) : Config := {|
  max_size := max_size c; extensions := extensions c;
  checksum_algorithms_set := checksum_algorithms_set c; expiration := expiration c;
  lock_timeout := lock_timeout c; base_path := base_path c; base_url := base_url c;
  respect_forwarded_headers := true;
  max_chunk_size := max_chunk_size c; max_intake_buffer := max_intake_buffer c;
  disable_download := disable_download c; allow_empty_creation := allow_empty_creation c |}.

Definition without_download (c : Config) : Config := {|
  max_size := max_size c; extensions := extensions c;
  checksum_algorithms_set := checksum_algorithms_set c; expiration := expiration c;
  lock_timeout := lock_timeout c; base_path := base_path c; base_url := base_url c;
  respect_forwarded_headers := respect_forwarded_headers c;
  max_chunk_size := max_chunk_size c; max_intake_buffer := max_intake_buffer c;
  disable_download := true; allow_empty_creation := allow_empty_creation c |}.

Definition with_checksum (a : ChecksumAlgorithm.t) (c : Config) : Config :=
  let c := with_algorithms_set ({[ a ]} ∪ checksum_algorithms_set c) c in
  let c := with_algorithms_set ({[ ChecksumAlgorithm.Sha1 ]} ∪ checksum_algorithms_set c) c in
  with_extensions_set ({[ Extension.Checksum ]} ∪ extensions c) c.

Definition without_empty_creation (c : Config) : Config := {|
  max_size := max_size c; extensions := extensions c;
  checksum_algorithms_set := checksum_algorithms_set c; expiration := expiration c;
  lock_timeout := lock_timeout c; base_path := base_path c; base_url := base_url c;
  respect_forwarded_headers := respect_forwarded_headers c;
  max_chunk_size := max_chunk_size c; max_intake_buffer := max_intake_buffer c;
  disable_download := disable_download c; allow_empty_creation := false |}.

(** ** Accessors *)

Definition has_extension (c : Config) (ext : Extension.t) : bool :=
  bool_decide (ext ∈ extensions c).

Definition supports_checksum_algorithm (c : Config) (a : ChecksumAlgorithm.t) : bool :=
  bool_decide (a ∈ checksum_algorithms_set c).

(** [sort_by_key(as_str)] on the configured set. *)
Fixpoint insert_algorithm (x : ChecksumAlgorithm.t) (l : list ChecksumAlgorithm.t) :=
  match l with
  | [] => [x]
  | y :: l' =>
      if String.leb (ChecksumAlgorithm.as_str x) (ChecksumAlgorithm.as_str y)
      then x :: l else y :: insert_algorithm x l'
  end.

Definition checksum_algorithms (c : Config) : list ChecksumAlgorithm.t :=
  foldr insert_algorithm [] (elements (checksum_algorithms_set c)).

Definition extensions_string (c : Config) : string :=
  str_join "," (sort_strings (map Extension.as_str (elements (extensions c)))).

Definition checksum_algorithms_string (c : Config) : string :=
  str_join "," (map ChecksumAlgorithm.as_str (checksum_algorithms c)).

Section upload_url.
Context `{PercentEncoding}.

(** RFC 3986 unreserved characters stay as they are. *)
Definition PATH_SEGMENT_ENCODE (c : ascii) : bool :=
  NON_ALPHANUMERIC c
  && negb (Ascii.eqb c "-") && negb (Ascii.eqb c "_")
  && negb (Ascii.eqb c ".") && negb (Ascii.eqb c "~").

Definition upload_url (c : Config) (upload_id : string) (request_base_url : option string)
    : string :=
  let upload_id := utf8_percent_encode upload_id PATH_SEGMENT_ENCODE in
  let base := match base_url c with Some b => Some b | None => request_base_url end in
  match base with
  | Some base => base ++ base_path c ++ "/" ++ upload_id
  | None => base_path c ++ "/" ++ upload_id
  end.
End upload_url.

(** ** Checksum hashers *)

Section hasher.
Context `{Digests}.

Definition algorithm_impl (a : ChecksumAlgorithm.t) : DigestImpl :=
  match a with
  | ChecksumAlgorithm.Sha1 => sha1_impl
  | ChecksumAlgorithm.Sha256 => sha256_impl
  | ChecksumAlgorithm.Md5 => md5_impl
  | ChecksumAlgorithm.Crc32 => crc32_impl
  end.

(** [HasherInner]: one constructor per algorithm, each with its crate's state. *)
Inductive Hasher :=
| HasherOf (a : ChecksumAlgorithm.t) (inner : digest_state (algorithm_impl a)).

Definition Hasher_new (a : ChecksumAlgorithm.t) : Hasher :=
  HasherOf a (digest_new (algorithm_impl a)).

Definition Hasher_algorithm (h : Hasher) : ChecksumAlgorithm.t :=
  match h with HasherOf a _ => a end.

Definition Hasher_update (h : Hasher) (data : bytes) : Hasher :=
  match h with HasherOf a inner => HasherOf a (digest_update (algorithm_impl a) inner data) end.

Definition Hasher_finalize (h : Hasher) : bytes :=
  match h with HasherOf a inner => digest_finalize (algorithm_impl a) inner end.

(** [checksum::calculate] *)
Definition calculate (a : ChecksumAlgorithm.t) (data : bytes) : bytes :=
  Hasher_finalize (Hasher_update (Hasher_new a) data).

Lemma Hasher_update_fold a s chunks :
  foldl Hasher_update (HasherOf a s) chunks
    = HasherOf a (foldl (digest_update (algorithm_impl a)) s chunks).
Proof. revert s; induction chunks as [|c cs IH]; intros s; [done|]. apply IH. Qed.

(** Hashing chunk by chunk is hashing the whole body. *)
Lemma Hasher_incremental `{!DigestLaws} a chunks :
  Hasher_finalize (foldl Hasher_update (Hasher_new a) chunks) = calculate a (concat chunks).
Proof.
  unfold Hasher_new, calculate. rewrite Hasher_update_fold.
  destruct a; [apply sha1_incremental|apply sha256_incremental
    |apply md5_incremental|apply crc32_incremental].
Qed.

Lemma Hasher_algorithm_fold h chunks :
  Hasher_algorithm (foldl Hasher_update h chunks) = Hasher_algorithm h.
Proof. revert h; induction chunks as [|c cs IH]; intros h; [done|]. cbn. rewrite IH. by destruct h. Qed.
End hasher.

(** ** Properties *)

Lemma has_extension_insert c ext e :
  has_extension (with_extensions_set ({[ ext ]} ∪ extensions c) c) e
    = bool_decide (e = ext) || has_extension c e.
Proof.
  unfold has_extension. cbn. repeat case_bool_decide; set_solver.
Qed.

Lemma extension_roundtrip e : Extension.from_str (Extension.as_str e) = Ok e.
Proof. by destruct e. Qed.

Lemma algorithm_roundtrip a : ChecksumAlgorithm.from_str (ChecksumAlgorithm.as_str a) = Ok a.
Proof. by destruct a. Qed.
