(* ===== verification/State.v ===== *)
(** * Upload state ([state.rs], [expiration.rs], [extensions.rs], the handle of
    [storage.rs])

    The data the protocol persists: byte-preserving metadata values and maps, the
    opaque storage handle, the [UploadState] record with its accessors and
    setters, and the protocol-expiration policy. *)

From S2P Require Import Prelude Text Errors Crates.
Local Open Scope string_scope.
Local Open Scope N_scope.

(** ** UTF-8 validity ([std::str::from_utf8]) *)

Definition byte_N (b : Byte.byte) : N := Byte.to_N b.
Definition continuation (b : Byte.byte) : bool := in_range 128 191 (byte_N b).

Fixpoint utf8_valid (s : bytes) : bool :=
  match s with
  | [] => true
  | a :: s1 =>
      let a := byte_N a in
      if a <? 128 then utf8_valid s1
      else match s1 with
      | [] => false
      | b :: s2 =>
          if in_range 194 223 a then continuation b && utf8_valid s2
          else match s2 with
          | [] => false
          | c :: s3 =>
              if in_range 224 239 a then
                (if a =? 224 then in_range 160 191 (byte_N b)
                 else if a =? 237 then in_range 128 159 (byte_N b)
                 else continuation b)
                && continuation c && utf8_valid s3
              else match s3 with
              | [] => false
              | d :: s4 =>
                  in_range 240 244 a
                  && (if a =? 240 then in_range 144 191 (byte_N b)
                      else if a =? 244 then in_range 128 143 (byte_N b)
                      else continuation b)
                  && continuation c && continuation d && utf8_valid s4
              end
          end
      end
  end.

(** ** Metadata *)

(** [MetadataValue(Vec<u8>)] *)
Abbreviation MetadataValue := bytes.

Definition MetadataValue_as_str (v : MetadataValue) : option string :=
  if utf8_valid v then Some (string_of_list_byte v) else None.

(** [UploadMetadata(HashMap<String, MetadataValue>)] *)
Abbreviation UploadMetadata := (gmap string MetadataValue).

(** What [Serialize] hands to the self-describing format: a plain string for
    text, a one-entry map for binary values. *)
Inductive PersistedMetadataValue :=
| PersistedText (value : string)
| PersistedBinary (base64 : string).

Section metadata_serde.
Context `{Base64}.

Definition MetadataValue_serialize (v : MetadataValue) : PersistedMetadataValue :=
  match MetadataValue_as_str v with
  | Some value => PersistedText value
  | None => PersistedBinary (b64_encode v)
  end.

(** [Deserialize]; the error is the custom [serde] error's text. *)
Definition MetadataValue_deserialize (p : PersistedMetadataValue) : string + MetadataValue :=
  match p with
  | PersistedText value => inr (list_byte_of_string value)
  | PersistedBinary base64 => b64_decode base64
  end.

Lemma metadata_value_roundtrip `{!Base64Laws} v :
  MetadataValue_deserialize (MetadataValue_serialize v) = inr v.
Proof.
  unfold MetadataValue_serialize, MetadataValue_as_str.
  destruct (utf8_valid v); cbn.
  - by rewrite list_byte_of_string_of_list_byte.
  - apply b64_decode_encode.
Qed.
End metadata_serde.

(** ** Storage handles *)

Record StorageHandle := {
  handle_key : string;
  handle_internal : gmap string string;
}.

#[export] Instance StorageHandle_eq_dec : EqDecision StorageHandle.
Proof. solve_decision. Defined.

Definition StorageHandle_new (key : string) : StorageHandle :=
  {| handle_key := key; handle_internal := ∅ |}.

Definition StorageHandle_from_parts (key : string) (internal : gmap string string) :=
  {| handle_key := key; handle_internal := internal |}.

Definition StorageHandle_set_internal (k v : string) (h : StorageHandle) : StorageHandle :=
  {| handle_key := handle_key h; handle_internal := <[k := v]> (handle_internal h) |}.

Definition StorageHandle_remove_internal (k : string) (h : StorageHandle) : StorageHandle :=
  {| handle_key := handle_key h; handle_internal := delete k (handle_internal h) |}.

(** ** [UploadConcat] *)

Inductive UploadConcat :=
| Partial
| Final (part_urls : list string).

(** ** Protocol expiration *)

Record ProtocolExpiration := {
  pe_expires_at : option DateTime;
  pe_is_complete : bool;
  pe_is_partial : bool;
}.

Definition is_eligible (p : ProtocolExpiration) : bool :=
  negb (pe_is_complete p) || pe_is_partial p.

Definition pe_expires_before (p : ProtocolExpiration) (before : DateTime) : bool :=
  is_eligible p &&
  match pe_expires_at p with Some expires => (expires <? before)%Z | None => false end.

Definition pe_header `{Chrono} (p : ProtocolExpiration) : option string :=
  if negb (is_eligible p) then None else format_http_date <$> pe_expires_at p.

(** ** [UploadState] *)

Definition UPLOAD_STATE_SCHEMA_VERSION : N := 1.

Module UploadState.
Record t := mk {
  schema_version : N;
  id : string;
  offset : N;
  length : option N;
  storage_key : option string;
  created_at : DateTime;
  expires_at : option DateTime;
  is_partial : bool;
  is_final : bool;
  parts : option (list string);
  metadata : UploadMetadata;
  internal : gmap string string;
}.

#[global] Instance eq_dec : EqDecision t.
Proof. solve_decision. Defined.

(** [UploadState::new], with the instant [Utc::now()] read for it. *)
Definition new (id : string) (now : DateTime) : t :=
  mk UPLOAD_STATE_SCHEMA_VERSION id 0 None None now None false false None ∅ ∅.

Definition set_offset (o : N) (s : t) : t :=
  mk (schema_version s) (id s) o (length s) (storage_key s) (created_at s) (expires_at s)
     (is_partial s) (is_final s) (parts s) (metadata s) (internal s).

Definition set_length (l : N) (s : t) : t :=
  mk (schema_version s) (id s) (offset s) (Some l) (storage_key s) (created_at s)
     (expires_at s) (is_partial s) (is_final s) (parts s) (metadata s) (internal s).

Definition storage_handle (s : t) : option StorageHandle :=
  (fun key => StorageHandle_from_parts key (internal s)) <$> storage_key s.

Definition require_storage_handle (s : t) : result StorageHandle :=
  match storage_handle s with
  | Some h => Ok h
  | None => Err Error.StorageKeyMissing
  end.

Definition set_storage_handle (h : StorageHandle) (s : t) : t :=
  mk (schema_version s) (id s) (offset s) (length s) (Some (handle_key h)) (created_at s)
     (expires_at s) (is_partial s) (is_final s) (parts s) (metadata s) (handle_internal h).

Definition set_expiration (e : DateTime) (s : t) : t :=
  mk (schema_version s) (id s) (offset s) (length s) (storage_key s) (created_at s)
     (Some e) (is_partial s) (is_final s) (parts s) (metadata s) (internal s).

Definition mark_partial (s : t) : t :=
  mk (schema_version s) (id s) (offset s) (length s) (storage_key s) (created_at s)
     (expires_at s) true (is_final s) (parts s) (metadata s) (internal s).

Definition mark_final (ps : list string) (s : t) : t :=
  mk (schema_version s) (id s) (offset s) (length s) (storage_key s) (created_at s)
     (expires_at s) (is_partial s) true (Some ps) (metadata s) (internal s).

Definition set_metadata (m : UploadMetadata) (s : t) : t :=
  mk (schema_version s) (id s) (offset s) (length s) (storage_key s) (created_at s)
     (expires_at s) (is_partial s) (is_final s) (parts s) m (internal s).

Definition is_complete (s : t) : bool :=
  match length s with
  | Some l => l <=? offset s
  | None => false
  end.

(** [ProtocolExpiration::for_upload] *)
Definition protocol_expiration (s : t) : ProtocolExpiration :=
  {| pe_expires_at := expires_at s; pe_is_complete := is_complete s;
     pe_is_partial := is_partial s |}.

Definition expires_before (s : t) (before : DateTime) : bool :=
  pe_expires_before (protocol_expiration s) before.

Definition remaining (s : t) : option N :=
  (fun l => saturating_sub l (offset s)) <$> length s.

Definition expires_header `{Chrono} (s : t) : option string :=
  pe_header (protocol_expiration s).

(** *** Well-formedness: the offset never passes the declared length, and both
    are [u64]s. *)
Definition wf (s : t) : Prop :=
  u64 (offset s) /\
  (forall l, length s = Some l -> u64 l /\ offset s <= l).

Lemma storage_handle_set h s : storage_handle (set_storage_handle h s) = Some h.
Proof. unfold storage_handle, StorageHandle_from_parts. cbn. by destruct h. Qed.

Lemma complete_exact s l :
  wf s -> length s = Some l -> is_complete s = (offset s =? l).
Proof.
  intros [_ Hl] Hlen. unfold is_complete. rewrite Hlen. destruct (Hl _ Hlen) as [_ Hle].
  destruct (N.leb_spec l (offset s)), (N.eqb_spec (offset s) l); lia.
Qed.

(** Completed deliverable uploads never expire; anything else expires exactly
    when its deadline is before the cutoff. *)
Lemma expires_before_iff s before :
  expires_before s before = true <->
    (is_complete s = false \/ is_partial s = true) /\
    exists e, expires_at s = Some e /\ (e < before)%Z.
Proof.
  unfold expires_before, pe_expires_before, is_eligible. cbn.
  rewrite andb_true_iff, orb_true_iff, negb_true_iff.
  destruct (expires_at s) as [e|]; [rewrite Z.ltb_lt|]; split.
  - intros [? ?]; eauto.
  - intros [? (e' & [= ->] & ?)]; auto.
  - by intros [_ ?].
  - by intros [_ (? & ? & _)].
Qed.
End UploadState.

Abbreviation UploadState := UploadState.t.
