(* ===== verification/Headers.v ===== *)
(** * Request parsing ([protocol/upload_id.rs], [protocol/headers.rs])

    Validation of upload ids and parsing of the TUS request headers from an HTTP
    header map, with the deferred [Upload-Checksum] error, and the encoder of the
    [Upload-Metadata] response header ([protocol/head.rs]). *)

From S2P Require Import Prelude Text Errors Crates Config State.
Local Open Scope string_scope.
Local Open Scope N_scope.
Local Open Scope prog_scope.

(** ** Upload ids *)

Definition MAX_UPLOAD_ID_LEN : N := 256.

Definition str_len (s : string) : N := N.of_nat (String.length s).

(** The scan over [id.chars()]. *)
Fixpoint check_id_chars (cs : list N) : result unit :=
  match cs with
  | [] => Ok tt
  | c :: cs =>
      if (c =? 47) || (c =? 92) then
        Err (Error.InvalidUploadId "id contains a path separator")
      else if is_control c then
        Err (Error.InvalidUploadId "id contains a control character")
      else check_id_chars cs
  end.

(** [<UploadId as FromStr>::from_str]; a validated id is the string itself. *)
Definition UploadId_from_str (id : string) : result string :=
  if is_empty id then Err (Error.InvalidUploadId "id is empty")
  else if MAX_UPLOAD_ID_LEN <? str_len id then
    Err (Error.InvalidUploadId
      ("id is " ++ u64_to_string (str_len id) ++ " bytes; max "
        ++ u64_to_string MAX_UPLOAD_ID_LEN))
  else check? check_id_chars (chars id) in Ok id.

Definition valid_upload_id (id : string) : bool := is_ok (UploadId_from_str id).

(** ** Parsed headers *)

Record UploadChecksum := {
  uc_algorithm : ChecksumAlgorithm.t;
  uc_digest : bytes;
}.

Inductive UploadChecksumParseError :=
| UnsupportedAlgorithm (algorithm : string)
| Invalid (message : string).

Definition UploadChecksumParseError_from_error (e : Error.t) : UploadChecksumParseError :=
  match e with
  | Error.UnsupportedChecksum algorithm => UnsupportedAlgorithm algorithm
  | Error.InvalidHeader _ message => Invalid message
  | other => Invalid (Error.to_string other)
  end.

Definition UploadChecksumParseError_to_error (e : UploadChecksumParseError) : Error.t :=
  match e with
  | UnsupportedAlgorithm algorithm => Error.UnsupportedChecksum algorithm
  | Invalid message => Error.InvalidHeader "Upload-Checksum" message
  end.

Record Headers := {
  h_upload_offset : option N;
  h_upload_length : option N;
  h_upload_defer_length : bool;
  h_upload_metadata : option UploadMetadata;
  h_upload_checksum : option UploadChecksum;
  h_upload_checksum_error : option UploadChecksumParseError;
  h_upload_concat : option UploadConcat;
  h_content_length : option N;
  h_content_type : option string;
  h_transfer_encoding : option string;
  h_host_header : option string;
  h_forwarded_host : option string;
  h_forwarded_proto : option string;
}.

(** [Headers::default()] *)
Definition Headers_default : Headers :=
  Build_Headers None None false None None None None None None None None None None.

(** [base_url]: the origin derived from forwarded headers, when trusted. *)
Definition Headers_base_url (h : Headers) (config : Config) : option string :=
  let '(host, scheme) :=
    if respect_forwarded_headers config then
      (match h_forwarded_host h with Some x => Some x | None => h_host_header h end,
       h_forwarded_proto h)
    else (h_host_header h, None) in
  match scheme, host with
  | Some s, Some h => Some (s ++ "://" ++ h)
  | _, _ => None
  end.

Definition OFFSET_OCTET_STREAM : string := "application/offset+octet-stream".

Definition validate_patch_content_type (h : Headers) : result unit :=
  match h_content_type h with
  | Some ct =>
      if starts_with OFFSET_OCTET_STREAM ct then Ok tt
      else Err (Error.InvalidContentType OFFSET_OCTET_STREAM ct)
  | None => Err (Error.InvalidContentType OFFSET_OCTET_STREAM "missing")
  end.

(** ** Parsers *)

(** [is_valid_metadata_key] *)
Definition metadata_key_byte (c : ascii) : bool :=
  in_range 33 126 (byte_of c) && negb (Ascii.eqb c ",").

Definition is_valid_metadata_key (key : string) : bool :=
  negb (is_empty key) && str_all metadata_key_byte key.

Section parsers.
Context `{HttpLib} `{Base64}.

(** [headers.get(name).and_then(|v| v.to_str().ok())] *)
Definition get_str (headers : HeaderMap) (name : string) : option string :=
  match header_get headers name with
  | Some v => match header_to_str v with inr s => Some s | inl _ => None end
  | None => None
  end.

Definition parse_u64_header (headers : HeaderMap) (name : string) : result (option N) :=
  match get_str headers name with
  | Some value =>
      match parse_u64 value with
      | Some n => Ok (Some n)
      | None => Err (Error.InvalidHeader name ("invalid integer: " ++ value))
      end
  | None => Ok None
  end.

(** One [key base64] pair of [Upload-Metadata]. *)
Definition parse_metadata_pair (metadata : UploadMetadata) (piece : string)
    : result UploadMetadata :=
  let piece := trim piece in
  if is_empty piece then Ok metadata else
  let '(key, encoded) :=
    match split_once " " piece with
    | Some (k, v) => (k, Some v)
    | None => (piece, None)
    end in
  if is_empty key then Err (Error.InvalidMetadata "empty key")
  else if negb (is_valid_metadata_key key) then
    Err (Error.InvalidMetadata ("invalid characters in key " ++ debug_str key))
  else
    let? decoded_value :=
      match encoded with
      | Some v =>
          match b64_decode v with
          | inr b => Ok b
          | inl e =>
              Err (Error.InvalidMetadata ("invalid base64 for key " ++ key ++ ": " ++ e))
          end
      | None => Ok []
      end in
    match metadata !! key with
    | Some _ => Err (Error.InvalidMetadata ("duplicate key: " ++ key))
    | None => Ok (<[key := decoded_value]> metadata)
    end.

Fixpoint parse_metadata_pairs (metadata : UploadMetadata) (pairs : list string)
    : result UploadMetadata :=
  match pairs with
  | [] => Ok metadata
  | p :: pairs =>
      let? metadata := parse_metadata_pair metadata p in
      parse_metadata_pairs metadata pairs
  end.

(** The text of the header, once present and not empty. *)
Definition parse_upload_metadata_value (value : string) : result UploadMetadata :=
  parse_metadata_pairs ∅ (split_char "," value).

Definition parse_upload_metadata (headers : HeaderMap) : result (option UploadMetadata) :=
  match get_str headers "upload-metadata" with
  | Some v =>
      if is_empty v then Ok None
      else let? m := parse_upload_metadata_value v in Ok (Some m)
  | None => Ok None
  end.

Definition parse_upload_checksum_value (value : string) : result UploadChecksum :=
  match split_once " " value with
  | None => Err (Error.InvalidHeader "Upload-Checksum" "expected 'algorithm checksum' format")
  | Some (alg, sum) =>
      let? algorithm := ChecksumAlgorithm.from_str alg in
      match b64_decode sum with
      | inr b => Ok {| uc_algorithm := algorithm; uc_digest := b |}
      | inl e => Err (Error.InvalidHeader "Upload-Checksum" ("invalid base64: " ++ e))
      end
  end.

Definition parse_upload_checksum (headers : HeaderMap) : result (option UploadChecksum) :=
  match header_get headers "upload-checksum" with
  | Some value =>
      match header_to_str value with
      | inr value => let? c := parse_upload_checksum_value value in Ok (Some c)
      | inl _ => Err (Error.InvalidHeader "Upload-Checksum" "expected a valid UTF-8 value")
      end
  | None => Ok None
  end.

Definition parse_upload_concat_value (value : string) : result UploadConcat :=
  if (value =? "partial")%string then Ok Partial
  else match str_strip_prefix "final;" value with
  | Some urls_str =>
      let urls := split_whitespace urls_str in
      match urls with
      | [] =>
          Err (Error.InvalidHeader "Upload-Concat"
                 "final upload requires at least one partial URL")
      | _ => Ok (Final urls)
      end
  | None => Err (Error.InvalidHeader "Upload-Concat" ("invalid value: " ++ value))
  end.

Definition parse_upload_concat (headers : HeaderMap) : result (option UploadConcat) :=
  match get_str headers "upload-concat" with
  | Some value => let? c := parse_upload_concat_value value in Ok (Some c)
  | None => Ok None
  end.

Definition parse_defer_length (headers : HeaderMap) : result bool :=
  match header_get headers "upload-defer-length" with
  | Some value =>
      match header_to_str value with
      | inr s =>
          if (s =? "1")%string then Ok true
          else Err (Error.InvalidHeader "Upload-Defer-Length" ("expected 1, got " ++ s))
      | inl error => Err (Error.InvalidHeader "Upload-Defer-Length" error)
      end
  | None => Ok false
  end.

Definition validate_tus_resumable (headers : HeaderMap) : result unit :=
  match get_str headers "tus-resumable" with
  | Some version =>
      if (version =? TUS_RESUMABLE)%string then Ok tt
      else Err (Error.UnsupportedTusVersion version)
  | None => Err Error.MissingTusResumable
  end.

(** [Headers::from_headers] *)
Definition Headers_from_headers (headers : HeaderMap) : result Headers :=
  check? validate_tus_resumable headers in
  let? upload_offset := parse_u64_header headers "upload-offset" in
  let? upload_length := parse_u64_header headers "upload-length" in
  let? upload_defer_length := parse_defer_length headers in
  let? content_length := parse_u64_header headers "content-length" in
  let content_type := get_str headers "content-type" in
  let transfer_encoding_values :=
    omap (fun v => match header_to_str v with inr s => Some s | inl _ => None end)
      (header_get_all headers "transfer-encoding") in
  let transfer_encoding :=
    match transfer_encoding_values with
    | [] => None
    | l => Some (str_join "," l)
    end in
  let? upload_metadata := parse_upload_metadata headers in
  let '(upload_checksum, upload_checksum_error) :=
    match parse_upload_checksum headers with
    | Ok checksum => (checksum, None)
    | Err error => (None, Some (UploadChecksumParseError_from_error error))
    | Panic => (None, None)
    end in
  let? upload_concat := parse_upload_concat headers in
  Ok {| h_upload_offset := upload_offset;
        h_upload_length := upload_length;
        h_upload_defer_length := upload_defer_length;
        h_upload_metadata := upload_metadata;
        h_upload_checksum := upload_checksum;
        h_upload_checksum_error := upload_checksum_error;
        h_upload_concat := upload_concat;
        h_content_length := content_length;
        h_content_type := content_type;
        h_transfer_encoding := transfer_encoding;
        h_host_header := get_str headers "host";
        h_forwarded_host := get_str headers "x-forwarded-host";
        h_forwarded_proto := get_str headers "x-forwarded-proto" |}.

(** [encode_upload_metadata] of [head.rs], over the pairs in iteration order. *)
Definition encode_metadata_pair (kv : string * MetadataValue) : string :=
  kv.1 ++ " " ++ b64_encode kv.2.

Definition encode_upload_metadata `{HashOrder} (m : UploadMetadata) : string :=
  if decide (m = ∅) then ""
  else str_join "," (map encode_metadata_pair (hash_iter m)).
End parsers.
