(* ===== verification/Hooks.v ===== *)
(** * Lifecycle hooks ([hooks.rs])

    Hook events, the snapshots hooks see, pre-hook results, and the two built-in
    executors: the ordered [HookChain] and the no-op executor.  A hook is a pair
    of programs over the hooks' own state [H]. *)

From S2P Require Import Prelude Text Errors Crates State.
Local Open Scope string_scope.
Local Open Scope N_scope.
Local Open Scope prog_scope.

Module HookEvent.
Inductive t :=
| PreCreate | PostCreate | PreReceive | PostReceive
| PreFinish | PostFinish | PreTerminate | PostTerminate.

#[global] Instance eq_dec : EqDecision t.
Proof. solve_decision. Defined.

Definition all : list t :=
  [PreCreate; PostCreate; PreReceive; PostReceive;
   PreFinish; PostFinish; PreTerminate; PostTerminate].

Definition is_pre (e : t) : bool :=
  match e with PreCreate | PreReceive | PreFinish | PreTerminate => true | _ => false end.

Definition as_str (e : t) : string :=
  match e with
  | PreCreate => "pre-create"
  | PostCreate => "post-create"
  | PreReceive => "pre-receive"
  | PostReceive => "post-receive"
  | PreFinish => "pre-finish"
  | PostFinish => "post-finish"
  | PreTerminate => "pre-terminate"
  | PostTerminate => "post-terminate"
  end.

Definition allows_metadata_replacement (e : t) : bool :=
  match e with PreCreate | PreReceive => true | _ => false end.
End HookEvent.

(** ** What hooks see: no storage key, no storage internals *)

Record HookUpload := {
  hu_id : string;
  hu_offset : N;
  hu_length : option N;
  hu_created_at : DateTime;
  hu_expires_at : option DateTime;
  hu_is_partial : bool;
  hu_is_final : bool;
  hu_parts : option (list string);
  hu_metadata : UploadMetadata;
}.

Definition HookUpload_from_state (s : UploadState) : HookUpload := {|
  hu_id := UploadState.id s;
  hu_offset := UploadState.offset s;
  hu_length := UploadState.length s;
  hu_created_at := UploadState.created_at s;
  hu_expires_at := UploadState.expires_at s;
  hu_is_partial := UploadState.is_partial s;
  hu_is_final := UploadState.is_final s;
  hu_parts := UploadState.parts s;
  hu_metadata := UploadState.metadata s;
|}.

Definition HookUpload_is_complete (u : HookUpload) : bool :=
  match hu_length u with Some l => l <=? hu_offset u | None => false end.

Definition HookUpload_set_metadata (m : UploadMetadata) (u : HookUpload) : HookUpload := {|
  hu_id := hu_id u; hu_offset := hu_offset u; hu_length := hu_length u;
  hu_created_at := hu_created_at u; hu_expires_at := hu_expires_at u;
  hu_is_partial := hu_is_partial u; hu_is_final := hu_is_final u;
  hu_parts := hu_parts u; hu_metadata := m |}.

Record HookRequestInfo := {
  hr_method : string;
  hr_path : string;
  hr_headers : gmap string string;
}.

Record HookContext := {
  hc_event : HookEvent.t;
  hc_upload : HookUpload;
  hc_request : HookRequestInfo;
}.

(** [HookContext::new] from an [UploadState] *)
Definition HookContext_new (event : HookEvent.t) (upload : UploadState)
    (request : HookRequestInfo) : HookContext :=
  {| hc_event := event; hc_upload := HookUpload_from_state upload; hc_request := request |}.

(** ** Pre-hook results *)

Record PreHookResult := {
  ph_proceed : bool;
  ph_metadata : option UploadMetadata;
  ph_reject_status : option N;
  ph_reject_message : option string;
  ph_response_headers : gmap string string;
}.

Definition PreHookResult_proceed : PreHookResult := {|
  ph_proceed := true; ph_metadata := None; ph_reject_status := None;
  ph_reject_message := None; ph_response_headers := ∅ |}.

Definition PreHookResult_with_metadata (m : UploadMetadata) (r : PreHookResult)
    : PreHookResult := {|
  ph_proceed := ph_proceed r; ph_metadata := Some m; ph_reject_status := ph_reject_status r;
  ph_reject_message := ph_reject_message r; ph_response_headers := ph_response_headers r |}.

Definition PreHookResult_proceed_with_metadata (m : UploadMetadata) : PreHookResult :=
  PreHookResult_with_metadata m PreHookResult_proceed.

Definition PreHookResult_reject (status : N) (message : string) : PreHookResult := {|
  ph_proceed := false; ph_metadata := None; ph_reject_status := Some status;
  ph_reject_message := Some message; ph_response_headers := ∅ |}.

Definition PreHookResult_with_response_headers (hs : gmap string string) (r : PreHookResult)
    : PreHookResult := {|
  ph_proceed := ph_proceed r; ph_metadata := ph_metadata r;
  ph_reject_status := ph_reject_status r; ph_reject_message := ph_reject_message r;
  ph_response_headers := hs |}.

Definition PreHookResult_with_header (name value : string) (r : PreHookResult) : PreHookResult :=
  PreHookResult_with_response_headers (<[name := value]> (ph_response_headers r)) r.

(** ** The executor interface

    [execute_post] returns [()]: its error type is empty. *)
Class HookExecutor (H : Type) := {
  execute_pre : HookContext -> M H PreHookResult;
  execute_post : HookContext -> prog Empty_set H unit;
}.

(** An infallible program runs inside any fallible one. *)
Fixpoint infallible {E W A} (m : prog Empty_set W A) : prog E W A :=
  match m with
  | Done (Ok a) => Done (Ok a)
  | Done (Err e) => match e with end
  | Done Panic => Done Panic
  | Act f k => Act f (fun b => infallible (k b))
  end.

Section hook_chain.
Context {H : Type}.

(** [trait Hook] *)
Record Hook := {
  hook_name : string;
  hook_events : list HookEvent.t;
  pre_hook : HookContext -> M H PreHookResult;
  post_hook : HookContext -> M H unit;
}.

(** [FnHook]: optional closures and the events they are bound to. *)
Record FnHook := {
  fn_name : string;
  fn_events : list HookEvent.t;
  fn_pre : option (HookContext -> M H PreHookResult);
  fn_post : option (HookContext -> M H unit);
}.

Definition FnHook_new (name : string) : FnHook := Build_FnHook name [] None None.

Definition FnHook_for_event (event : HookEvent.t) (f : FnHook) : FnHook :=
  if bool_decide (event ∈ fn_events f) then f
  else Build_FnHook (fn_name f) (fn_events f ++ [event])%list (fn_pre f) (fn_post f).

Definition FnHook_for_events (events : list HookEvent.t) (f : FnHook) : FnHook :=
  foldl (fun f e => FnHook_for_event e f) f events.

Definition FnHook_with_pre (p : HookContext -> M H PreHookResult) (f : FnHook) : FnHook :=
  Build_FnHook (fn_name f) (fn_events f) (Some p) (fn_post f).

Definition FnHook_with_post (p : HookContext -> M H unit) (f : FnHook) : FnHook :=
  Build_FnHook (fn_name f) (fn_events f) (fn_pre f) (Some p).

(** [impl Hook for FnHook] *)
Definition FnHook_as_hook (f : FnHook) : Hook := {|
  hook_name := fn_name f;
  hook_events := fn_events f;
  pre_hook ctx :=
    match fn_pre f with Some p => p ctx | None => ret PreHookResult_proceed end;
  post_hook ctx := match fn_post f with Some p => p ctx | None => ret tt end;
|}.

(** [HookChain]: the hooks in registration order. *)
Definition HookChain := list Hook.

Definition HookChain_with_hook (h : Hook) (c : HookChain) : HookChain := (c ++ [h])%list.

Definition HookChain_on_pre (event : HookEvent.t) (p : HookContext -> M H PreHookResult)
    (c : HookChain) : HookChain :=
  HookChain_with_hook
    (FnHook_as_hook (FnHook_with_pre p
      (FnHook_for_event event (FnHook_new ("on_" ++ HookEvent.as_str event))))) c.

Definition HookChain_on_post (event : HookEvent.t) (p : HookContext -> M H unit)
    (c : HookChain) : HookChain :=
  HookChain_with_hook
    (FnHook_as_hook (FnHook_with_post p
      (FnHook_for_event event (FnHook_new ("on_" ++ HookEvent.as_str event))))) c.

(** The loop of [execute_pre], with its three locals: the headers merged so
    far, the current upload snapshot and whether metadata changed. *)
Fixpoint chain_pre_loop (ctx : HookContext) (hooks : list Hook)
    (headers : gmap string string) (current_upload : HookUpload) (metadata_changed : bool)
    : M H PreHookResult :=
  match hooks with
  | [] =>
      ret (let result := PreHookResult_with_response_headers headers PreHookResult_proceed in
           if metadata_changed
           then PreHookResult_with_metadata (hu_metadata current_upload) result
           else result)
  | hook :: hooks =>
      if negb (bool_decide (hc_event ctx ∈ hook_events hook)) then
        chain_pre_loop ctx hooks headers current_upload metadata_changed
      else if negb (HookEvent.is_pre (hc_event ctx)) then
        chain_pre_loop ctx hooks headers current_upload metadata_changed
      else
        let hook_ctx := {| hc_event := hc_event ctx; hc_upload := current_upload;
                           hc_request := hc_request ctx |} in
        let! hook_result := pre_hook hook hook_ctx in
        let headers := ph_response_headers hook_result ∪ headers in
        if negb (ph_proceed hook_result) then
          ret {| ph_proceed := false; ph_metadata := None;
                 ph_reject_status := ph_reject_status hook_result;
                 ph_reject_message := ph_reject_message hook_result;
                 ph_response_headers := headers |}
        else
          match HookEvent.allows_metadata_replacement (hc_event ctx),
                ph_metadata hook_result with
          | true, Some metadata =>
              chain_pre_loop ctx hooks headers
                (HookUpload_set_metadata metadata current_upload) true
          | _, _ => chain_pre_loop ctx hooks headers current_upload metadata_changed
          end
  end.

Definition chain_execute_pre (chain : HookChain) (ctx : HookContext) : M H PreHookResult :=
  chain_pre_loop ctx chain ∅ (hc_upload ctx) false.

(** Post-hook errors are logged and swallowed: [swallow] keeps the panic. *)
Fixpoint swallow {A} (m : M H A) : prog Empty_set H unit :=
  match m with
  | Done Panic => Done Panic
  | Done _ => Done (Ok tt)
  | Act f k => Act f (fun b => swallow (k b))
  end.

Fixpoint chain_execute_post (chain : HookChain) (ctx : HookContext)
    : prog Empty_set H unit :=
  match chain with
  | [] => ret tt
  | hook :: hooks =>
      if negb (bool_decide (hc_event ctx ∈ hook_events hook)) then
        chain_execute_post hooks ctx
      else if HookEvent.is_pre (hc_event ctx) then chain_execute_post hooks ctx
      else
        do! swallow (post_hook hook ctx) in
        chain_execute_post hooks ctx
  end.

Definition HookChain_executor (chain : HookChain) : HookExecutor H := {|
  execute_pre := chain_execute_pre chain;
  execute_post := chain_execute_post chain;
|}.

(** [NoopHookExecutor] *)
Definition NoopHookExecutor : HookExecutor H := {|
  execute_pre _ := ret PreHookResult_proceed;
  execute_post _ := ret tt;
|}.
End hook_chain.
Arguments Hook H : clear implicits.
Arguments FnHook H : clear implicits.
Arguments HookChain H : clear implicits.

Lemma run_infallible {E W A} (m : prog Empty_set W A) w :
  run (infallible (E:=E) m) w =
    match run m w with
    | (Ok a, w') => (Ok a, w')
    | (Err e, w') => match e with end
    | (Panic, w') => (Panic, w')
    end.
Proof.
  revert w; induction m as [[a|e|]|C f k IH]; intros w; try done.
  change (infallible (E:=E) (Act f k)) with (Act f (fun b => infallible (E:=E) (k b))).
  rewrite !run_Act. destruct (f w). apply IH.
Qed.

Lemma run_swallow {H A} (m : M H A) h :
  run (swallow m) h =
    match run m h with
    | (Panic, h') => (Panic, h')
    | (_, h') => (Ok tt, h')
    end.
Proof.
  revert h; induction m as [[a|e|]|C f k IH]; intros h; try done.
  change (swallow (Act f k)) with (Act f (fun b => swallow (k b))).
  rewrite !run_Act. destruct (f h). apply IH.
Qed.
#[export] Hint Rewrite @run_infallible @run_swallow : run.
