(* ===== verification/Backends.v ===== *)
(** * Backend seams ([storage.rs], [state.rs], [locking.rs], [runtime.rs])

    The traits the protocol core is generic over, as classes over the backend's
    own state, with the contract each trait documents as a class of laws; the
    chunk streams handed to storage; and the [World] the handlers run in: one
    component per trait parameter of [Protocol], plus the clock and the id
    generator. *)

From S2P Require Import Prelude Text Errors Crates Config State Headers Hooks.
Local Open Scope string_scope.
Local Open Scope N_scope.
Local Open Scope prog_scope.

(** ** Chunk streams

    A [ByteStream] is what polling it to its end yields.  Each poll result comes
    with the write the stream makes to the shared [DeferredBodyError] cell while
    producing it, if any; the cell is the polled program's [&mut] local. *)

Definition DeferredBodyError := option Error.t.

Record StreamItem := {
  si_chunk : string + bytes;
  si_deferred : option Error.t;
}.

Abbreviation ByteStream := (list StreamItem).

Inductive ChunkStream :=
| Buffered (b : bytes)
| Streamed (s : ByteStream).

(** The content of the cell after polling [items]. *)
Definition cell_after (items : ByteStream) (cell : DeferredBodyError) : DeferredBodyError :=
  foldl (fun c i => match si_deferred i with Some e => Some e | None => c end) cell items.

(** [while let Some(chunk) = stream.next().await { buffer.extend(chunk?) }] *)
Fixpoint drain {S} (s : ByteStream) (buffer : bytes) : M (DeferredBodyError * S) bytes :=
  match s with
  | [] => ret buffer
  | i :: s =>
      do! modify_local (fun cell => cell_after [i] cell) in
      match si_chunk i with
      | inl e => throw (Error.Io e)
      | inr b => drain s (buffer ++ b)%list
      end
  end.

(** The data of a chunk stream that ends without an error. *)
Fixpoint stream_data (s : ByteStream) : option bytes :=
  match s with
  | [] => Some []
  | i :: s =>
      match si_chunk i, stream_data s with
      | inr b, Some rest => Some (b ++ rest)%list
      | _, _ => None
      end
  end.

Definition chunk_data (c : ChunkStream) : option bytes :=
  match c with Buffered b => Some b | Streamed s => stream_data s end.

Definition chunk_items (c : ChunkStream) : ByteStream :=
  match c with Buffered _ => [] | Streamed s => s end.

Record AppendRequest := {
  ar_handle : StorageHandle;
  ar_expected_offset : N;
  ar_data : ChunkStream;
  ar_completes_upload : bool;
}.

Record ConcatRequest := {
  cr_target : StorageHandle;
  cr_parts : list StorageHandle;
}.

Inductive WriteMode := CreateNew | Update.

#[export] Instance WriteMode_eq_dec : EqDecision WriteMode.
Proof. solve_decision. Defined.

(** [LockGuard]: the id it locks and the release callback, represented by the
    resource the callback captures (a semaphore permit, a lock file). *)
Record LockGuard := {
  guard_upload_id : string;
  guard_release : option nat;
}.

(** [LockGuard::new] and [LockGuard::with_release] *)
Definition LockGuard_new (upload_id : string) : LockGuard :=
  {| guard_upload_id := upload_id; guard_release := None |}.
Definition LockGuard_with_release (upload_id : string) (release : nat) : LockGuard :=
  {| guard_upload_id := upload_id; guard_release := Some release |}.

(** ** The traits *)

Class Storage (S : Type) := {
  storage_create : string -> M S StorageHandle;
  storage_append : AppendRequest -> M (DeferredBodyError * S) StorageHandle;
  storage_concat : ConcatRequest -> M S StorageHandle;
  storage_delete : StorageHandle -> M S unit;
  storage_size : StorageHandle -> M S (option N);
}.

(** [StorageReader]: the whole object, and a half-open range of it. *)
Class StorageReader (S : Type) := {
  storage_stream : StorageHandle -> M S ByteStream;
  storage_stream_range : StorageHandle -> N -> option N -> M S ByteStream;
}.

Class StateStore (St : Type) := {
  state_set : UploadState -> WriteMode -> M St unit;
  state_get : string -> M St (option UploadState);
  state_delete : string -> M St unit;
  state_list_expired : DateTime -> M St (list string);
}.

Class UploadInventory (St : Type) := {
  list_upload_ids : N -> N -> M St (list string);
}.

Class Locker (L : Type) := {
  locker_lock : string -> Duration -> M L LockGuard;
  locker_try_lock : string -> M L (option LockGuard);
  drop_guard : LockGuard -> L -> L;
}.

(** The clock ([Utc::now]) and the id generator ([Uuid::new_v4]). *)
Class Env (E : Type) := {
  utc_now : E -> DateTime * E;
  new_v4 : E -> string * E;
}.

(** [NoopLocker] *)
Definition NoopLocker (L : Type) : Locker L := {|
  locker_lock upload_id _ := ret (LockGuard_new upload_id);
  locker_try_lock upload_id := ret (Some (LockGuard_new upload_id));
  drop_guard _ l := l;
|}.

(** ** The documented contracts

    Each is stated over an abstract view of the backend: the bytes stored under
    each key, the record kept for each id, the locks held.  A backend
    reports failures as errors and does not panic. *)

Class StorageLaws (S : Type) `{Storage S} := {
  stored : S -> gmap string bytes;
  storage_create_spec id s :
    wp (storage_create id) (fun r s' =>
      match r with
      | Ok h => stored s' = <[handle_key h := []]> (stored s)
      | Err _ => stored s' = stored s
      | Panic => False
      end) s;
  storage_append_spec req cell s :
    wp (storage_append req) (fun r cs =>
      match r with
      | Ok h =>
          exists old data,
            stored s !! handle_key (ar_handle req) = Some old /\
            bytes_len old = ar_expected_offset req /\
            chunk_data (ar_data req) = Some data /\
            handle_key h = handle_key (ar_handle req) /\
            stored cs.2 = <[handle_key h := (old ++ data)%list]> (stored s) /\
            cs.1 = cell_after (chunk_items (ar_data req)) cell
      | Err _ =>
          stored cs.2 = stored s /\
          exists k, cs.1 = cell_after (take k (chunk_items (ar_data req))) cell
      | Panic => False
      end) (cell, s);
  storage_concat_spec req s :
    wp (storage_concat req) (fun r s' =>
      match r with
      | Ok h =>
          exists datas,
            mapM (fun p => stored s !! handle_key p) (cr_parts req) = Some datas /\
            handle_key h = handle_key (cr_target req) /\
            stored s' = <[handle_key h := concat datas]> (stored s)
      | Err _ => stored s' = stored s
      | Panic => False
      end) s;
  storage_delete_spec h s :
    wp (storage_delete h) (fun r s' =>
      match r with
      | Ok _ => stored s' = delete (handle_key h) (stored s)
      | Err _ => stored s' = stored s
      | Panic => False
      end) s;
  storage_size_spec h s :
    wp (storage_size h) (fun r s' =>
      stored s' = stored s /\
      match r with
      | Ok n => n = bytes_len <$> stored s !! handle_key h
      | Err _ => True
      | Panic => False
      end) s;
}.

(** Reading yields the stored bytes, ranges clamped to the object. *)
Definition slice (start stop : N) (data : bytes) : bytes :=
  take (N.to_nat (stop - start)) (drop (N.to_nat start) data).

Class StorageReaderLaws (S : Type) `{StorageLaws S} `{!StorageReader S} := {
  storage_stream_spec h s :
    wp (storage_stream h) (fun r s' =>
      stored s' = stored s /\
      match r with
      | Ok items => stream_data items = stored s !! handle_key h /\ stored s !! handle_key h <> None
      | Err _ => True
      | Panic => False
      end) s;
  storage_stream_range_spec h start stop s :
    wp (storage_stream_range h start stop) (fun r s' =>
      stored s' = stored s /\
      match r with
      | Ok items =>
          exists data, stored s !! handle_key h = Some data /\
            stream_data items =
              Some (slice (N.min start (bytes_len data))
                      (N.min (default (bytes_len data) stop) (bytes_len data)) data)
      | Err _ => True
      | Panic => False
      end) s;
}.

Class StateStoreLaws (St : Type) `{StateStore St} := {
  records : St -> gmap string UploadState;
  state_set_spec st mode s :
    wp (state_set st mode) (fun r s' =>
      match r with
      | Ok _ =>
          records s' = <[UploadState.id st := st]> (records s) /\
          (mode = CreateNew -> records s !! UploadState.id st = None)
      | Err _ => records s' = records s
      | Panic => False
      end) s;
  state_get_spec id s :
    wp (state_get id) (fun r s' =>
      records s' = records s /\
      match r with
      | Ok o => o = records s !! id
      | Err _ => True
      | Panic => False
      end) s;
  state_delete_spec id s :
    wp (state_delete id) (fun r s' =>
      match r with
      | Ok _ => records s' = delete id (records s)
      | Err _ => records s' = records s
      | Panic => False
      end) s;
  state_list_expired_spec before s :
    wp (state_list_expired before) (fun r s' =>
      records s' = records s /\
      match r with
      | Ok ids =>
          forall id, In id ids ->
            exists key st, records s !! key = Some st /\ UploadState.id st = id /\
              UploadState.expires_before st before = true
      | Err _ => True
      | Panic => False
      end) s;
}.

Class LockerLaws (L : Type) `{Locker L} := {
  locker_inv : L -> Prop;
  (** the ids held, each with what its guard releases *)
  held : L -> gmap string (option nat);
  locker_lock_spec id timeout l :
    locker_inv l ->
    wp (locker_lock id timeout) (fun r l' =>
      locker_inv l' /\
      match r with
      | Ok g =>
          guard_upload_id g = id /\ held l !! id = None /\
          held l' = <[id := guard_release g]> (held l)
      | Err _ => held l' = held l
      | Panic => False
      end) l;
  locker_try_lock_spec id l :
    locker_inv l ->
    wp (locker_try_lock id) (fun r l' =>
      locker_inv l' /\
      match r with
      | Ok (Some g) =>
          guard_upload_id g = id /\ held l !! id = None /\
          held l' = <[id := guard_release g]> (held l)
      | Ok None => is_Some (held l !! id) /\ held l' = held l
      | Err _ => held l' = held l
      | Panic => False
      end) l;
  drop_guard_spec g l :
    locker_inv l -> held l !! guard_upload_id g = Some (guard_release g) ->
    locker_inv (drop_guard g l) /\ held (drop_guard g l) = delete (guard_upload_id g) (held l);
}.

Class HookLaws (H : Type) `{HookExecutor H} := {
  execute_pre_no_panic ctx h : wp (execute_pre ctx) (fun r _ => r <> Panic) h;
  execute_post_no_panic ctx h : wp (execute_post ctx) (fun r _ => r <> Panic) h;
}.

(** ** The world of a handler *)

Record World (S St L H E : Type) := mkWorld {
  w_storage : S;
  w_states : St;
  w_locks : L;
  w_hooks : H;
  w_env : E;
}.
Arguments mkWorld {S St L H E}.
Arguments w_storage {S St L H E}.
Arguments w_states {S St L H E}.
Arguments w_locks {S St L H E}.
Arguments w_hooks {S St L H E}.
Arguments w_env {S St L H E}.

Section world.
Context {S St L H E : Type}.
Local Abbreviation W := (World S St L H E).

Definition set_storage (s : S) (w : W) : W :=
  mkWorld s (w_states w) (w_locks w) (w_hooks w) (w_env w).
Definition set_states (s : St) (w : W) : W :=
  mkWorld (w_storage w) s (w_locks w) (w_hooks w) (w_env w).
Definition set_locks (l : L) (w : W) : W :=
  mkWorld (w_storage w) (w_states w) l (w_hooks w) (w_env w).
Definition set_hooks (h : H) (w : W) : W :=
  mkWorld (w_storage w) (w_states w) (w_locks w) h (w_env w).
Definition set_env (e : E) (w : W) : W :=
  mkWorld (w_storage w) (w_states w) (w_locks w) (w_hooks w) e.

Definition on_storage {A} (m : M S A) : M W A := focus w_storage set_storage m.
Definition on_states {A} (m : M St A) : M W A := focus w_states set_states m.
Definition on_locks {A} (m : M L A) : M W A := focus w_locks set_locks m.
Definition on_hooks {A} (m : M H A) : M W A := focus w_hooks set_hooks m.

(** A storage operation that also polls a stream: the cell is borrowed. *)
Definition on_storage_cell {T A} (m : M (T * S) A) : M (T * W) A :=
  focus (fun tw => (tw.1, w_storage tw.2)) (fun ts tw => (ts.1, set_storage ts.2 tw.2)) m.

Definition on_env {A} (f : E -> A * E) : M W A :=
  act (fun w => let '(a, e) := f (w_env w) in (a, set_env e w)).

(** A guard kept in scope for the rest of the function. *)
Definition with_guard `{Locker L} {A} (g : LockGuard) (body : M W A) : M W A :=
  finally body (fun w => set_locks (drop_guard g (w_locks w)) w).

(** A [Vec<LockGuard>] kept in scope: dropped in vector order. *)
Definition with_guards `{Locker L} {A} (gs : list LockGuard) (body : M W A) : M W A :=
  finally body (fun w => foldl (fun w g => set_locks (drop_guard g (w_locks w)) w) w gs).

(** [state.is_expired()] reads the clock. *)
Definition is_expired `{Env E} (s : UploadState) : M W bool :=
  let! now := on_env utc_now in
  ret (UploadState.expires_before s now).

(** [Hook::execute_post] through [execute_post_best_effort]. *)
Definition execute_post_best_effort `{HookExecutor H} (ctx : HookContext) : M W unit :=
  on_hooks (infallible (execute_post ctx)).

(** *** Rules *)

Lemma wp_on_storage {A} (m : M S A) (Q : result A -> W -> Prop) w :
  wp m (fun r s => Q r (set_storage s w)) (w_storage w) -> wp (on_storage m) Q w.
Proof.
  unfold wp, on_storage. rewrite run_focus; [|done..|by intros []].
  by destruct (run m (w_storage w)).
Qed.

Lemma wp_on_states {A} (m : M St A) (Q : result A -> W -> Prop) w :
  wp m (fun r s => Q r (set_states s w)) (w_states w) -> wp (on_states m) Q w.
Proof.
  unfold wp, on_states. rewrite run_focus; [|done..|by intros []].
  by destruct (run m (w_states w)).
Qed.

Lemma wp_on_locks {A} (m : M L A) (Q : result A -> W -> Prop) w :
  wp m (fun r s => Q r (set_locks s w)) (w_locks w) -> wp (on_locks m) Q w.
Proof.
  unfold wp, on_locks. rewrite run_focus; [|done..|by intros []].
  by destruct (run m (w_locks w)).
Qed.

Lemma wp_on_hooks {A} (m : M H A) (Q : result A -> W -> Prop) w :
  wp m (fun r s => Q r (set_hooks s w)) (w_hooks w) -> wp (on_hooks m) Q w.
Proof.
  unfold wp, on_hooks. rewrite run_focus; [|done..|by intros []].
  by destruct (run m (w_hooks w)).
Qed.

Lemma wp_on_storage_cell {T A} (m : M (T * S) A) (Q : result A -> T * W -> Prop) t w :
  wp m (fun r ts => Q r (ts.1, set_storage ts.2 w)) (t, w_storage w) ->
  wp (on_storage_cell m) Q (t, w).
Proof.
  unfold wp, on_storage_cell. rewrite run_focus.
  - cbn. by destruct (run m (t, w_storage w)) as [r [t' s']].
  - by intros [] [].
  - by intros [] [] [].
  - by intros [? []].
Qed.

Lemma wp_on_env {A} (f : E -> A * E) (Q : result A -> W -> Prop) w :
  Q (Ok (f (w_env w)).1) (set_env (f (w_env w)).2 w) -> wp (on_env f) Q w.
Proof. intros HQ. apply wp_act. by destruct (f (w_env w)). Qed.

Lemma wp_with_guard `{Locker L} {A} g (body : M W A) (Q : result A -> W -> Prop) w :
  wp body (fun r w' => Q r (set_locks (drop_guard g (w_locks w')) w')) w ->
  wp (with_guard g body) Q w.
Proof. apply wp_finally. Qed.

Lemma wp_is_expired `{Env E} s (Q : result bool -> W -> Prop) w :
  Q (Ok (UploadState.expires_before s (utc_now (w_env w)).1))
    (set_env (utc_now (w_env w)).2 w) ->
  wp (is_expired s) Q w.
Proof. intros HQ. unfold is_expired. apply wp_bind, wp_on_env. by apply wp_done. Qed.
End world.

(** [wp] steps through the world components. *)
Ltac world_step :=
  lazymatch goal with
  | |- wp (on_storage _) _ _ => apply wp_on_storage
  | |- wp (on_states _) _ _ => apply wp_on_states
  | |- wp (on_locks _) _ _ => apply wp_on_locks
  | |- wp (on_hooks _) _ _ => apply wp_on_hooks
  | |- wp (on_storage_cell _) _ (_, _) => apply wp_on_storage_cell
  | |- wp (on_env _) _ _ => apply wp_on_env
  | |- wp (with_guard _ _) _ _ => apply wp_with_guard
  | |- wp (is_expired _) _ _ => apply wp_is_expired
  | _ => wp_step
  end; cbv beta; cbn [outcome_map fst snd].

(** Uses a specification and continues with what it says of outcome and world. *)
Ltac wp_use spec r w H :=
  eapply wp_mono; [apply spec | cbv beta; intros r w H].
