(* ===== verification/Memory.v ===== *)
(** * In-memory backends ([storage/memory.rs], [state/memory.rs])

    [MemoryStorage] and [MemoryStateStore] as instances of the backend traits,
    with proofs that they meet the traits' contracts.  Poisoning of the inner
    [RwLock]s is not modelled: no code panics while holding them. *)

From S2P Require Import Prelude Text Errors Crates Config State Headers Hooks Backends.
Local Open Scope string_scope.
Local Open Scope N_scope.
Local Open Scope prog_scope.

(** ** [MemoryStorage]: [RwLock<HashMap<String, BytesMut>>] *)

Abbreviation MemoryStorage := (gmap string bytes).

Definition memory_size_mismatch (len expected_offset : N) (key : string) : Error.t :=
  Error.Internal ("memory storage size " ++ u64_to_string len
    ++ " does not match expected offset " ++ u64_to_string expected_offset
    ++ " for key " ++ key).

(** The entry lookup and offset check done before and after draining the body. *)
Definition memory_check_offset (key : string) (expected_offset : N) (s : MemoryStorage)
    : result bytes :=
  match s !! key with
  | None => Err (Error.NotFound key)
  | Some entry =>
      if negb (bytes_len entry =? expected_offset)
      then Err (memory_size_mismatch (bytes_len entry) expected_offset key)
      else Ok entry
  end.

Definition memory_create (upload_id : string) : M MemoryStorage StorageHandle :=
  let key := "memory://" ++ upload_id in
  do! act (fun s => (tt, <[key := []]> s)) in
  ret (StorageHandle_new key).

Definition memory_append (request : AppendRequest)
    : M (DeferredBodyError * MemoryStorage) StorageHandle :=
  let handle := ar_handle request in
  let expected_offset := ar_expected_offset request in
  let key := handle_key handle in
  do! try_act (fun cs => (memory_check_offset key expected_offset cs.2, cs)) in
  let! data :=
    match ar_data request with
    | Buffered b => ret b
    | Streamed stream => drain stream []
    end in
  try_act (fun cs =>
    match memory_check_offset key expected_offset cs.2 with
    | Ok entry => (Ok handle, (cs.1, <[key := (entry ++ data)%list]> cs.2))
    | Err e => (Err e, cs)
    | Panic => (Panic, cs)
    end).

(** The parts copied so far, in order. *)
Fixpoint memory_combine (s : MemoryStorage) (parts : list StorageHandle) (combined : bytes)
    : result bytes :=
  match parts with
  | [] => Ok combined
  | part :: parts =>
      match s !! handle_key part with
      | None => Err (Error.NotFound (handle_key part))
      | Some part_data => memory_combine s parts (combined ++ part_data)%list
      end
  end.

Definition memory_concat (request : ConcatRequest) : M MemoryStorage StorageHandle :=
  let target := cr_target request in
  let! combined := try_act (fun s => (memory_combine s (cr_parts request) [], s)) in
  do! act (fun s => (tt, <[handle_key target := combined]> s)) in
  ret target.

Definition memory_delete (handle : StorageHandle) : M MemoryStorage unit :=
  act (fun s => (tt, delete (handle_key handle) s)).

Definition memory_size (handle : StorageHandle) : M MemoryStorage (option N) :=
  act (fun s => (option_map bytes_len (s !! handle_key handle), s)).

#[export] Instance MemoryStorage_Storage : Storage MemoryStorage := {|
  storage_create := memory_create;
  storage_append := memory_append;
  storage_concat := memory_concat;
  storage_delete := memory_delete;
  storage_size := memory_size;
|}.

(** [stream::once(async move { Ok(data) })] *)
Definition stream_once (data : bytes) : ByteStream :=
  [ {| si_chunk := inr data; si_deferred := None |} ].

Definition memory_stream (handle : StorageHandle) : M MemoryStorage ByteStream :=
  try_act (fun s =>
    (match s !! handle_key handle with
     | Some data => Ok (stream_once data)
     | None => Err (Error.NotFound (handle_key handle))
     end, s)).

Definition memory_stream_range (handle : StorageHandle) (start : N) (stop : option N)
    : M MemoryStorage ByteStream :=
  try_act (fun s =>
    (match s !! handle_key handle with
     | Some data =>
         let len := bytes_len data in
         let start := N.min start len in
         let stop := N.min (default len stop) len in
         Ok (stream_once (if start <=? stop then slice start stop data else []))
     | None => Err (Error.NotFound (handle_key handle))
     end, s)).

#[export] Instance MemoryStorage_StorageReader : StorageReader MemoryStorage := {|
  storage_stream := memory_stream;
  storage_stream_range := memory_stream_range;
|}.

(** ** [MemoryStateStore]: [RwLock<HashMap<String, UploadState>>] *)

Abbreviation MemoryStateStore := (gmap string UploadState).

Section memory_state.
Context `{HashOrder}.

Definition validate_upload_id (id : string) : result unit :=
  check? UploadId_from_str id in Ok tt.

Definition memory_set (state : UploadState) (mode : WriteMode) : M MemoryStateStore unit :=
  do! of_outcome (validate_upload_id (UploadState.id state)) in
  try_act (fun states =>
    if bool_decide (mode = CreateNew) && bool_decide (is_Some (states !! UploadState.id state))
    then (Err (Error.AlreadyExists (UploadState.id state)), states)
    else (Ok tt, <[UploadState.id state := state]> states)).

Definition memory_get (id : string) : M MemoryStateStore (option UploadState) :=
  do! of_outcome (validate_upload_id id) in
  act (fun states => (states !! id, states)).

Definition memory_state_delete (id : string) : M MemoryStateStore unit :=
  do! of_outcome (validate_upload_id id) in
  act (fun states => (tt, delete id states)).

(** [states.values().filter(..).map(..)], in the map's iteration order. *)
Definition memory_expired (before : DateTime) (states : MemoryStateStore) : list string :=
  omap (fun kv => if UploadState.expires_before kv.2 before
                  then Some (UploadState.id kv.2) else None) (hash_iter states).

Definition memory_list_expired (before : DateTime) : M MemoryStateStore (list string) :=
  act (fun states => (memory_expired before states, states)).

#[export] Instance MemoryStateStore_StateStore : StateStore MemoryStateStore := {|
  state_set := memory_set;
  state_get := memory_get;
  state_delete := memory_state_delete;
  state_list_expired := memory_list_expired;
|}.

Definition memory_list_upload_ids (limit offset : N) : M MemoryStateStore (list string) :=
  act (fun states =>
    (take (N.to_nat limit) (drop (N.to_nat offset)
       (sort_strings (map fst (hash_iter states)))), states)).

#[export] Instance MemoryStateStore_UploadInventory : UploadInventory MemoryStateStore := {|
  list_upload_ids := memory_list_upload_ids;
|}.
End memory_state.

(** ** The contracts hold *)

Lemma wp_drain {S} (stream : ByteStream) buffer cell (s : S) :
  wp (drain stream buffer) (fun r cs =>
    cs.2 = s /\
    match r with
    | Ok b => exists data, stream_data stream = Some data /\ b = (buffer ++ data)%list /\
        cs.1 = cell_after stream cell
    | Err _ => exists k, cs.1 = cell_after (take k stream) cell
    | Panic => False
    end) (cell, s).
Proof.
  revert buffer cell. induction stream as [|i stream IH]; intros buffer cell; cbn [drain].
  - apply wp_done. split; [done|]. exists []. by rewrite app_nil_r.
  - wp_steps. destruct (si_chunk i) as [e|b] eqn:Hi.
    + apply wp_done. split; [done|]. by exists 1%nat.
    + eapply wp_mono; [apply IH|]. cbv beta. intros r [c' s'] [Heq Hr]. cbn in Heq; subst s'. split; [done|].
      destruct r as [x|e|]; [|destruct Hr as [k Hk]|done].
      * destruct Hr as (data & Hd & -> & Hc). exists (b ++ data)%list.
        cbn [stream_data]. rewrite Hi, Hd. by rewrite <- app_assoc.
      * exists (Datatypes.S k). done.
Qed.

Lemma memory_combine_spec s parts acc :
  match memory_combine s parts acc with
  | Ok b => exists datas, mapM (fun p => s !! handle_key p) parts = Some datas /\
      b = (acc ++ concat datas)%list
  | Err _ => mapM (fun p => s !! handle_key p) parts = None
  | Panic => False
  end.
Proof.
  revert acc. induction parts as [|p ps IH]; intros acc; cbn [memory_combine].
  - exists []. cbn. by rewrite app_nil_r.
  - cbn. destruct (s !! handle_key p) as [d|] eqn:Hd; cbn; [|done].
    specialize (IH (acc ++ d)%list). destruct (memory_combine s ps (acc ++ d)%list) as [b|e|]; [|by rewrite IH|done].
    destruct IH as (ds & -> & ->). exists (d :: ds). cbn. by rewrite <- app_assoc.
Qed.

#[export, refine] Instance MemoryStorage_Laws : StorageLaws MemoryStorage :=
  {| stored := fun s => s |}.
Proof.
  - intros id s. cbn. unfold memory_create. wp_steps. done.
  - intros req cell s. cbn. unfold memory_append.
    apply wp_bind, wp_try_act. cbn. unfold memory_check_offset.
    destruct (s !! handle_key (ar_handle req)) as [old|] eqn:Hold; [|split; [done|by exists 0%nat]].
    destruct (N.eqb_spec (bytes_len old) (ar_expected_offset req)) as [Hlen|];
      cbn; [|split; [done|by exists 0%nat]].
    apply wp_bind.
    assert (wp (match ar_data req with Buffered b => ret b | Streamed st => drain st [] end)
      (fun r cs => cs.2 = s /\
        match r with
        | Ok b => chunk_data (ar_data req) = Some b /\
            cs.1 = cell_after (chunk_items (ar_data req)) cell
        | Err _ => exists k, cs.1 = cell_after (take k (chunk_items (ar_data req))) cell
        | Panic => False
        end) (cell, s)) as Hdata.
    { destruct (ar_data req) as [b|st]; [by apply wp_done|].
      eapply wp_mono; [apply wp_drain|]. cbv beta. intros [x|e|] [c' s'] [Heq Hr]; cbn in Heq; subst s'; split; try done.
      destruct Hr as (data & Hd & -> & Hc). done. }
    eapply wp_mono; [apply Hdata|]. cbv beta. intros [data|e|] [c' s'] [Heq Hr]; cbn in Heq; subst s'; [|done|done].
    apply wp_try_act. cbn. rewrite Hold. destruct (N.eqb_spec (bytes_len old) (ar_expected_offset req)); [|done].
    cbn. destruct Hr as [Hd Hc]. exists old, data. done.
  - intros req s. cbn. unfold memory_concat. apply wp_bind, wp_try_act. cbn.
    pose proof (memory_combine_spec s (cr_parts req) []) as Hspec.
    destruct (memory_combine s (cr_parts req) []) as [b|e|]; [|done|done].
    wp_steps. destruct Hspec as (ds & Hds & ->). eauto.
  - intros h s. cbn. unfold memory_delete. by wp_steps.
  - intros h s. cbn. unfold memory_size. by wp_steps.
Defined.

Lemma slice_empty start stop data : stop <= start -> slice start stop data = [].
Proof. intros H. unfold slice. by replace (stop - start) with 0 by lia. Qed.

#[export] Instance MemoryStorage_ReaderLaws : StorageReaderLaws MemoryStorage.
Proof.
  split.
  - intros h s. cbn. unfold memory_stream. wp_steps. split; [done|].
    destruct (s !! handle_key h) as [d|]; [|done]. cbn. by rewrite app_nil_r.
  - intros h start stop s. cbn. unfold memory_stream_range. wp_steps. split; [done|].
    destruct (s !! handle_key h) as [d|]; [|done]. exists d. split; [done|].
    destruct (N.leb_spec (N.min start (bytes_len d)) (N.min (default (bytes_len d) stop) (bytes_len d)));
      cbn; rewrite ?app_nil_r; [done|]. by rewrite slice_empty by lia.
Qed.

Section memory_state_laws.
Context `{HashOrder}.

Lemma validate_upload_id_no_panic id : validate_upload_id id <> Panic.
Proof.
  unfold validate_upload_id, UploadId_from_str.
  destruct (is_empty id); [done|]. destruct (_ <? _); [done|].
  assert (forall cs, check_id_chars cs <> Panic) as Hcs.
  { induction cs as [|c cs IH]; cbn; [done|]. by repeat case_match. }
  specialize (Hcs (chars id)). by destruct (check_id_chars (chars id)).
Qed.

#[export, refine] Instance MemoryStateStore_Laws : StateStoreLaws MemoryStateStore :=
  {| records := fun s => s |}.
Proof.
  - intros st mode s. cbn. unfold memory_set. apply wp_bind, wp_done.
    pose proof (validate_upload_id_no_panic (UploadState.id st)).
    destruct (validate_upload_id (UploadState.id st)); [|done|done].
    apply wp_try_act. cbn. repeat case_bool_decide; cbn; try done.
    split; [done|]. intros _. by apply eq_None_not_Some.
  - intros id s. cbn. unfold memory_get. apply wp_bind, wp_done.
    pose proof (validate_upload_id_no_panic id).
    destruct (validate_upload_id id); [|done|done]. by wp_steps.
  - intros id s. cbn. unfold memory_state_delete. apply wp_bind, wp_done.
    pose proof (validate_upload_id_no_panic id).
    destruct (validate_upload_id id); [|done|done]. by wp_steps.
  - intros before s. cbn. unfold memory_list_expired. wp_steps. split; [done|].
    intros id Hin. unfold memory_expired in Hin.
    apply list_elem_of_In, list_elem_of_omap in Hin as ([key st] & Hkv & Heq).
    rewrite hash_iter_perm in Hkv. apply elem_of_map_to_list in Hkv.
    cbn in Heq. destruct (UploadState.expires_before st before) eqn:He; simplify_eq. eauto.
Defined.
End memory_state_laws.

(** ** What the backends do beyond the contracts *)

(** ** [MemoryStorage] *)

(** an append either adds the whole body at the expected offset of an existing
    object, or changes nothing. *)
Theorem memory_append_all_or_nothing req cell (s : MemoryStorage) r cell' s' :
  run (memory_append req) (cell, s) = (r, (cell', s')) ->
  match r with
  | Ok h => exists old data,
      h = ar_handle req /\ s !! handle_key h = Some old /\
      bytes_len old = ar_expected_offset req /\ chunk_data (ar_data req) = Some data /\
      s' = <[handle_key h := (old ++ data)%list]> s
  | Err _ => s' = s
  | Panic => False
  end.
Proof.
  intros Hrun. assert (forall h, r = Ok h -> h = ar_handle req) as Hh.
  { revert Hrun. unfold memory_append. rewrite run_bind, run_try_act.
    destruct (memory_check_offset _ _ _); cbn; [|by intros [= <- _ _]|by intros [= <- _ _]].
    rewrite run_bind. destruct (run _ (cell, s)) as [[d|e|] [c1 s1]]; [|by intros [= <- _ _]..].
    rewrite run_try_act. destruct (memory_check_offset _ _ _); cbn; intros [= <- _ _]; by intros h [= <-]. }
  pose proof (wp_run _ _ _ _ _ (storage_append_spec req cell s) Hrun) as Hr. cbn in Hr.
  destruct r as [h|e|]; [|by destruct Hr|done]. rewrite (Hh h eq_refl) in *.
  destruct Hr as (old & data & Hold & Hlen & Hdata & _ & -> & _). by exists old, data.
Qed.

(** concatenation stores the parts' bytes in the order of the parts; with a
    missing part it stores nothing. *)
Theorem memory_concat_in_order req (s : MemoryStorage) :
  run (memory_concat req) s =
    match memory_combine s (cr_parts req) [] with
    | Ok _ =>
        (Ok (cr_target req),
         <[handle_key (cr_target req) :=
             concat (map (fun p => default [] (s !! handle_key p)) (cr_parts req))]> s)
    | Err e => (Err e, s)
    | Panic => (Panic, s)
    end /\
  (is_ok (memory_combine s (cr_parts req) []) = true <->
   Forall (fun p => is_Some (s !! handle_key p)) (cr_parts req)).
Proof.
  pose proof (memory_combine_spec s (cr_parts req) []) as Hc.
  unfold memory_concat. rewrite run_bind, run_try_act.
  destruct (memory_combine s (cr_parts req) []) as [b|e|]; [| |done]; cbn.
  - destruct Hc as (ds & Hds & ->). rewrite run_bind, run_act. cbn.
    apply mapM_Some in Hds. split.
    + unfold ret. rewrite run_Done. do 3 f_equal.
      induction Hds as [|p d ps ds Hp Hds IH]; cbn; [done|]. by rewrite Hp, IH.
    + split; [intros _|done]. eapply Forall2_Forall_l; [exact Hds|].
      apply Forall_forall. intros d _ p Hp. eauto.
  - split; [done|]. split; [done|]. intros Hall. exfalso.
    apply eq_None_not_Some in Hc. apply Hc. apply mapM_is_Some. exact Hall.
Qed.

(** ** [MemoryStateStore] *)

Section states.
Context `{HashOrder}.
#[local] Set Default Proof Using "All".

(** [CreateNew] never replaces a record: it stores the record exactly when no
    record has its id, and reports the clash otherwise. *)
Theorem memory_create_new state (s : MemoryStateStore) :
  is_ok (UploadId_from_str (UploadState.id state)) = true ->
  run (memory_set state CreateNew) s =
    match s !! UploadState.id state with
    | Some _ => (Err (Error.AlreadyExists (UploadState.id state)), s)
    | None => (Ok tt, <[UploadState.id state := state]> s)
    end.
Proof.
  intros Hid. unfold memory_set, validate_upload_id. rewrite run_bind. unfold of_outcome. rewrite run_Done.
  destruct (UploadId_from_str (UploadState.id state)); [|done..]. cbn. rewrite run_try_act.
  rewrite bool_decide_true by done. cbn.
  destruct (s !! UploadState.id state) eqn:Hs; [rewrite bool_decide_true by eauto|rewrite bool_decide_false]; [done..|].
  by intros [? ?].
Qed.

(** *** The inventory *)

(** the inventory lists every stored id once, in order, and its pages are the
    consecutive parts of that list. *)
Theorem inventory_pages (s : MemoryStateStore) :
  exists ids, sorted ids /\ NoDup ids /\ (forall id, id ∈ ids <-> is_Some (s !! id)) /\
    forall limit offset,
      run (memory_list_upload_ids limit offset) s
        = (Ok (take (N.to_nat limit) (drop (N.to_nat offset) ids)), s).
Proof.
  assert (map fst (hash_iter s) ≡ₚ map fst (map_to_list s)) as Hp by (by rewrite hash_iter_perm).
  exists (sort_strings (map fst (hash_iter s))). split_and!.
  - apply sort_strings_sorted.
  - rewrite sort_strings_perm, Hp. apply NoDup_fst_map_to_list.
  - intros id. rewrite sort_strings_perm, Hp, list_elem_of_fmap. split.
    + intros ([k v] & -> & Hk). apply elem_of_map_to_list in Hk. cbn. eauto.
    + intros [v Hv]. exists (id, v). split; [done|]. by apply elem_of_map_to_list.
  - done.
Qed.

(** the expired uploads the store lists are exactly those past the cutoff. *)
Theorem memory_lists_expired before (s : MemoryStateStore) id :
  (forall key st, s !! key = Some st -> UploadState.id st = key) ->
  In id (memory_expired before s) <->
    exists st, s !! id = Some st /\
      (UploadState.is_complete st = false \/ UploadState.is_partial st = true) /\
      exists e, UploadState.expires_at st = Some e /\ (e < before)%Z.
Proof.
  intros Hids. unfold memory_expired. rewrite <- list_elem_of_In, list_elem_of_omap. split.
  - intros ([key st] & Hk & Heq). rewrite hash_iter_perm in Hk.
    apply elem_of_map_to_list in Hk. cbn in Heq.
    destruct (UploadState.expires_before st before) eqn:He; [|done]. injection Heq as <-.
    exists st. rewrite (Hids _ _ Hk). split; [done|]. by apply UploadState.expires_before_iff.
  - intros (st & Hst & He). exists (id, st). rewrite hash_iter_perm.
    split; [by apply elem_of_map_to_list|]. cbn.
    apply UploadState.expires_before_iff in He. rewrite He. by rewrite (Hids _ _ Hst).
Qed.
End states.
