(* ===== verification/Locking.v ===== *)
(** * In-memory locking ([locking/memory.rs])

    [MemoryLocker]: a map from upload ids to reference-counted single-permit
    semaphores.  The semaphores live in a heap, so a stale reference to an entry
    that was removed from the map stays distinguishable from the current entry.
    The operations are programs of atomic actions: one per access to the map
    under its mutex, to a reference count or to a semaphore.  Waiting for a permit
    is the gap before the [acquire] action: when that action finds no permit, the
    timeout has elapsed. *)

From S2P Require Import Prelude Text Errors Crates Config State Headers Hooks Backends.
Local Open Scope string_scope.
Local Open Scope prog_scope.

Section memory_locker.
Context `{TokioSemaphore}.

(** [Arc<Semaphore>]: the shared semaphore and its strong count. *)
Record ArcSemaphore := {
  as_sem : Semaphore;
  as_strong : nat;
}.

Record MemoryLocker := {
  ml_locks : gmap string nat;
  ml_heap : gmap nat ArcSemaphore;
  ml_next : nat;
}.

Definition MemoryLocker_new : MemoryLocker :=
  {| ml_locks := ∅; ml_heap := ∅; ml_next := 0 |}.

Definition with_heap (h : gmap nat ArcSemaphore) (l : MemoryLocker) : MemoryLocker :=
  {| ml_locks := ml_locks l; ml_heap := h; ml_next := ml_next l |}.

(** [Arc::clone] and the drop of an [Arc]. *)
Definition arc_clone (k : nat) (l : MemoryLocker) : MemoryLocker :=
  with_heap (alter (fun a => {| as_sem := as_sem a; as_strong := S (as_strong a) |}) k
               (ml_heap l)) l.

Definition arc_drop (k : nat) (l : MemoryLocker) : MemoryLocker :=
  match ml_heap l !! k with
  | Some {| as_sem := s; as_strong := S (S n) |} =>
      with_heap (<[k := {| as_sem := s; as_strong := S n |}]> (ml_heap l)) l
  | Some _ => with_heap (delete k (ml_heap l)) l
  | None => l
  end.

Definition is_locked (upload_id : string) (l : MemoryLocker) : bool :=
  match ml_locks l !! upload_id with
  | Some k =>
      match ml_heap l !! k with
      | Some a => Nat.eqb (semaphore_available_permits (as_sem a)) 0
      | None => false
      end
  | None => false
  end.

(** [entry]: a clone of the semaphore for an id, created on demand. *)
Definition entry (upload_id : string) (l : MemoryLocker) : nat * MemoryLocker :=
  match ml_locks l !! upload_id with
  | Some k => (k, arc_clone k l)
  | None =>
      let k := ml_next l in
      (k, arc_clone k
            {| ml_locks := <[upload_id := k]> (ml_locks l);
               ml_heap := <[k := {| as_sem := semaphore_new 1; as_strong := 1 |}]> (ml_heap l);
               ml_next := S k |})
  end.

Definition remove_if_idle (upload_id : string) (l : MemoryLocker) : MemoryLocker :=
  match ml_locks l !! upload_id with
  | Some k =>
      match ml_heap l !! k with
      | Some a =>
          if Nat.eqb (as_strong a) 1
             && Nat.eqb (semaphore_available_permits (as_sem a)) 1
          then arc_drop k {| ml_locks := delete upload_id (ml_locks l);
                             ml_heap := ml_heap l; ml_next := ml_next l |}
          else l
      | None => l
      end
  | None => l
  end.

(** [Arc::clone(&semaphore).try_acquire_owned()], and [acquire_owned] under the
    timeout once it resolves: the permit owns the clone, which a failed attempt
    drops again. *)
Definition acquire (k : nat) (l : MemoryLocker) : bool * MemoryLocker :=
  match ml_heap l !! k with
  | Some a =>
      match semaphore_try_acquire (as_sem a) with
      | Some s =>
          (true, with_heap (<[k := {| as_sem := s; as_strong := S (as_strong a) |}]>
                              (ml_heap l)) l)
      | None => (false, l)
      end
  | None => (false, l)
  end.

(** Returning a permit to its semaphore; its [Arc] is dropped after. *)
Definition release (k : nat) (l : MemoryLocker) : MemoryLocker :=
  with_heap (alter (fun a => {| as_sem := semaphore_release (as_sem a);
                                as_strong := as_strong a |}) k (ml_heap l)) l.

Definition do_ {E W} (f : W -> W) : prog E W unit := act (fun w => (tt, f w)).

(** ** [impl Locker for MemoryLocker]

    The continuations of [lock] and [try_lock] after each await point. *)

Definition lock_elapsed (upload_id : string) (k : nat) : M MemoryLocker LockGuard :=
  do! do_ (arc_drop k) in
  do! do_ (remove_if_idle upload_id) in
  throw (Error.LockTimeout upload_id).

Definition lock_granted (upload_id : string) (k : nat) : M MemoryLocker LockGuard :=
  do! do_ (arc_drop k) in
  ret (LockGuard_with_release upload_id k).

Definition lock_await (upload_id : string) (k : nat) : M MemoryLocker LockGuard :=
  let! permit := act (acquire k) in
  if (permit : bool) then lock_granted upload_id k else lock_elapsed upload_id k.

Definition memory_lock (upload_id : string) (timeout : Duration) : M MemoryLocker LockGuard :=
  let! k := act (entry upload_id) in
  lock_await upload_id k.

Definition try_lock_granted (upload_id : string) (k : nat)
    : M MemoryLocker (option LockGuard) :=
  do! do_ (arc_drop k) in
  ret (Some (LockGuard_with_release upload_id k)).

Definition try_lock_refused (upload_id : string) (k : nat)
    : M MemoryLocker (option LockGuard) :=
  do! do_ (arc_drop k) in
  do! do_ (remove_if_idle upload_id) in
  ret None.

Definition try_lock_acquire (upload_id : string) (k : nat)
    : M MemoryLocker (option LockGuard) :=
  let! permit := act (acquire k) in
  if (permit : bool) then try_lock_granted upload_id k else try_lock_refused upload_id k.

Definition memory_try_lock (upload_id : string) : M MemoryLocker (option LockGuard) :=
  let! k := act (entry upload_id) in
  try_lock_acquire upload_id k.

(** The release callback, step by step. *)
Definition release_guard (g : LockGuard) : M MemoryLocker unit :=
  match guard_release g with
  | Some k =>
      do! do_ (release k) in
      do! do_ (arc_drop k) in
      do_ (remove_if_idle (guard_upload_id g))
  | None => ret tt
  end.

Definition memory_drop_guard (g : LockGuard) (l : MemoryLocker) : MemoryLocker :=
  (run (release_guard g) l).2.

#[export] Instance MemoryLocker_Locker : Locker MemoryLocker := {|
  locker_lock := memory_lock;
  locker_try_lock := memory_try_lock;
  drop_guard := memory_drop_guard;
|}.

(** ** Between operations: every entry is held, none is idle *)

Record quiescent (l : MemoryLocker) : Prop := {
  quiescent_entry id k :
    ml_locks l !! id = Some k ->
    exists s, ml_heap l !! k = Some {| as_sem := s; as_strong := 2 |} /\
      semaphore_available_permits s = 0;
  quiescent_inj id id' k :
    ml_locks l !! id = Some k -> ml_locks l !! id' = Some k -> id = id';
  quiescent_heap k :
    is_Some (ml_heap l !! k) -> k < ml_next l /\ exists id, ml_locks l !! id = Some k;
}.

(** The ids whose semaphore has no permit left, with the semaphore. *)
Definition memory_held (l : MemoryLocker) : gmap string (option nat) :=
  omap (fun k =>
    match ml_heap l !! k with
    | Some a =>
        if Nat.eqb (semaphore_available_permits (as_sem a)) 0 then Some (Some k) else None
    | None => None
    end) (ml_locks l).

Lemma held_quiescent l :
  quiescent l -> memory_held l = Some <$> ml_locks l.
Proof.
  intros Hq. apply map_eq; intros id. unfold memory_held.
  rewrite lookup_omap, lookup_fmap. destruct (ml_locks l !! id) as [k|] eqn:Hk; [|done]. cbn.
  destruct (quiescent_entry _ Hq _ _ Hk) as (s & -> & Hs). cbn. by rewrite Hs.
Qed.

Lemma held_lookup l id :
  quiescent l -> memory_held l !! id = Some <$> ml_locks l !! id.
Proof. intros Hq. by rewrite held_quiescent, lookup_fmap. Qed.

Lemma quiescent_new : quiescent MemoryLocker_new.
Proof. split; cbn; intros *; rewrite ?lookup_empty; try done; by intros [? ?]. Qed.

Context `{!SemaphoreLaws}.
#[local] Set Default Proof Using "All".

Lemma acquire_fresh :
  exists s, semaphore_try_acquire (semaphore_new 1) = Some s /\
    semaphore_available_permits s = 0.
Proof.
  pose proof (available_new 1) as Hn.
  destruct (semaphore_try_acquire (semaphore_new 1)) as [s|] eqn:Hs.
  - apply try_acquire_some in Hs. exists s. split; [done|]. lia.
  - apply try_acquire_none in Hs. lia.
Qed.

(** The world a successful acquisition leaves. *)
Definition taken (upload_id : string) (s : Semaphore) (l : MemoryLocker) : MemoryLocker := {|
  ml_locks := <[upload_id := ml_next l]> (ml_locks l);
  ml_heap := <[ml_next l := {| as_sem := s; as_strong := 2 |}]> (ml_heap l);
  ml_next := S (ml_next l);
|}.

Lemma quiescent_taken id s l :
  quiescent l -> ml_locks l !! id = None -> semaphore_available_permits s = 0 ->
  quiescent (taken id s l).
Proof.
  intros Hq Hid Hs.
  assert (forall id' k, ml_locks l !! id' = Some k -> k < ml_next l) as Hlt.
  { intros id' k Hk. destruct (quiescent_entry _ Hq _ _ Hk) as (? & Hh & _).
    by destruct (quiescent_heap _ Hq k) as [? _]; [rewrite Hh|]. }
  split; cbn.
  - intros id' k. rewrite lookup_insert_Some. intros [[<- <-]|[Hne Hk]].
    + rewrite lookup_insert_eq. eauto.
    + rewrite lookup_insert_ne by (apply Hlt in Hk; lia). by eapply (quiescent_entry _ Hq).
  - intros id1 id2 k. rewrite !lookup_insert_Some.
    intros [[<- <-]|[? Hk1]] [[<- ?]|[? Hk2]]; try done.
    + apply Hlt in Hk2; lia.
    + subst. apply Hlt in Hk1; lia.
    + by eapply (quiescent_inj _ Hq).
  - intros k. rewrite lookup_insert_is_Some. intros [<-|[Hne Hk]].
    + split; [lia|]. exists id. by rewrite lookup_insert_eq.
    + apply (quiescent_heap _ Hq) in Hk as (? & id' & Hk). split; [lia|].
      exists id'. rewrite lookup_insert_ne; [done|]. congruence.
Qed.

Lemma held_taken id s l :
  quiescent l -> ml_locks l !! id = None -> semaphore_available_permits s = 0 ->
  memory_held (taken id s l) = <[id := Some (ml_next l)]> (memory_held l).
Proof.
  intros Hq Hid Hs. rewrite !held_quiescent by eauto using quiescent_taken.
  cbn. by rewrite fmap_insert.
Qed.

(** *** The two ways an acquisition goes, between operations *)

Lemma entry_free id l :
  ml_locks l !! id = None ->
  entry id l = (ml_next l, taken id (semaphore_new 1) l).
Proof.
  intros Hid. unfold entry, arc_clone, taken, with_heap. rewrite Hid. cbn.
  by rewrite alter_insert_eq.
Qed.

Lemma acquire_taken id s s' l :
  semaphore_try_acquire s = Some s' ->
  arc_drop (ml_next l) (acquire (ml_next l) (taken id s l)).2 = taken id s' l /\
  (acquire (ml_next l) (taken id s l)).1 = true.
Proof.
  intros Hs. unfold acquire, taken. cbn. rewrite lookup_insert_eq. cbn. rewrite Hs. cbn.
  unfold arc_drop, with_heap. cbn. rewrite lookup_insert_eq. cbn.
  by rewrite !insert_insert_eq.
Qed.

Lemma with_heap_id l : with_heap (ml_heap l) l = l.
Proof. by destruct l. Qed.

(** A held id: the attempt leaves the locker as it was. *)
Lemma refused_held id k l :
  quiescent l -> ml_locks l !! id = Some k ->
  entry id l = (k, arc_clone k l) /\
  acquire k (arc_clone k l) = (false, arc_clone k l) /\
  arc_drop k (arc_clone k l) = l /\ remove_if_idle id l = l.
Proof.
  intros Hq Hk. destruct (quiescent_entry _ Hq _ _ Hk) as (s & Hh & Hs).
  repeat split.
  - unfold entry. by rewrite Hk.
  - unfold acquire, arc_clone. cbn. rewrite lookup_alter_eq, Hh. cbn.
    destruct (semaphore_try_acquire s) as [s'|] eqn:Ht; [|done].
    apply try_acquire_some in Ht. lia.
  - unfold arc_drop, arc_clone. cbn. rewrite lookup_alter_eq, Hh. cbn.
    rewrite insert_alter_id by done. by destruct l.
  - unfold remove_if_idle. by rewrite Hk, Hh.
Qed.

Lemma run_memory_lock_held id t k l :
  quiescent l -> ml_locks l !! id = Some k ->
  run (memory_lock id t) l = (Err (Error.LockTimeout id), l).
Proof.
  intros Hq Hk. destruct (refused_held id k l Hq Hk) as (He & Ha & Hd & Hr).
  unfold memory_lock, lock_await, lock_elapsed, do_. autorewrite with run. rewrite He. cbn.
  autorewrite with run. rewrite Ha. cbn. autorewrite with run. cbn.
  autorewrite with run. by rewrite Hd, Hr.
Qed.

Lemma run_memory_try_lock_held id k l :
  quiescent l -> ml_locks l !! id = Some k ->
  run (memory_try_lock id) l = (Ok None, l).
Proof.
  intros Hq Hk. destruct (refused_held id k l Hq Hk) as (He & Ha & Hd & Hr).
  unfold memory_try_lock, try_lock_acquire, try_lock_refused, do_. autorewrite with run.
  rewrite He. cbn. autorewrite with run. rewrite Ha. cbn. autorewrite with run. cbn.
  autorewrite with run. by rewrite Hd, Hr.
Qed.

Lemma run_memory_lock_free id t l :
  ml_locks l !! id = None ->
  exists s, semaphore_available_permits s = 0 /\
    run (memory_lock id t) l =
      (Ok (LockGuard_with_release id (ml_next l)), taken id s l).
Proof.
  intros Hk. destruct acquire_fresh as (s & Hs & Hz). exists s. split; [done|].
  destruct (acquire_taken id _ _ l Hs) as [Hd Ha].
  unfold memory_lock, lock_await, lock_granted, do_. autorewrite with run.
  rewrite (entry_free _ _ Hk). cbn. autorewrite with run. rewrite Ha.
  autorewrite with run. cbn. by rewrite Hd.
Qed.

Lemma run_memory_try_lock_free id l :
  ml_locks l !! id = None ->
  exists s, semaphore_available_permits s = 0 /\
    run (memory_try_lock id) l =
      (Ok (Some (LockGuard_with_release id (ml_next l))), taken id s l).
Proof.
  intros Hk. destruct acquire_fresh as (s & Hs & Hz). exists s. split; [done|].
  destruct (acquire_taken id _ _ l Hs) as [Hd Ha].
  unfold memory_try_lock, try_lock_acquire, try_lock_granted, do_. autorewrite with run.
  rewrite (entry_free _ _ Hk). cbn. autorewrite with run. rewrite Ha.
  autorewrite with run. cbn. by rewrite Hd.
Qed.

(** Dropping a guard removes the entry of its id altogether. *)
Lemma memory_drop_guard_held id k l :
  quiescent l -> ml_locks l !! id = Some k ->
  memory_drop_guard (LockGuard_with_release id k) l =
    {| ml_locks := delete id (ml_locks l); ml_heap := delete k (ml_heap l);
       ml_next := ml_next l |}.
Proof.
  intros Hq Hk. destruct (quiescent_entry _ Hq _ _ Hk) as (s & Hh & Hs).
  unfold memory_drop_guard, release_guard, do_. cbn. autorewrite with run. cbn.
  unfold release, remove_if_idle, with_heap, arc_drop. cbn. rewrite lookup_alter_eq, Hh. cbn.
  rewrite Hk, lookup_insert_eq. cbn. rewrite available_release, Hs. cbn.
  unfold with_heap. cbn. by rewrite delete_insert_eq, delete_alter_eq.
Qed.

Lemma quiescent_dropped id k l :
  quiescent l -> ml_locks l !! id = Some k ->
  quiescent {| ml_locks := delete id (ml_locks l); ml_heap := delete k (ml_heap l);
               ml_next := ml_next l |}.
Proof.
  intros Hq Hk. split; cbn.
  - intros id' k' [Hne Hk']%lookup_delete_Some.
    rewrite lookup_delete_ne; [by eapply (quiescent_entry _ Hq)|].
    intros <-. by apply Hne, (quiescent_inj _ Hq _ _ _ Hk Hk').
  - intros id1 id2 k' [_ H1]%lookup_delete_Some [_ H2]%lookup_delete_Some.
    by eapply (quiescent_inj _ Hq).
  - intros k' [a [Hne Ha]%lookup_delete_Some].
    destruct (quiescent_heap _ Hq k') as (Hlt & id' & Hid'); [eauto|]. split; [done|].
    exists id'. rewrite lookup_delete_ne; [done|]. intros <-. congruence.
Qed.

Lemma guard_eta g k :
  guard_release g = Some k -> g = LockGuard_with_release (guard_upload_id g) k.
Proof. destruct g; cbn. by intros ->. Qed.

#[export, refine] Instance MemoryLocker_Laws : LockerLaws MemoryLocker :=
  {| locker_inv := quiescent; held := memory_held |}.
Proof.
  - intros id t l Hq. unfold wp. cbn [locker_lock MemoryLocker_Locker].
    rewrite !held_lookup by done. destruct (ml_locks l !! id) as [k|] eqn:Hk.
    + by rewrite (run_memory_lock_held _ _ _ _ Hq Hk).
    + destruct (run_memory_lock_free id t l Hk) as (s & Hs & ->).
      split_and!; eauto using quiescent_taken, held_taken.
  - intros id l Hq. unfold wp. cbn [locker_try_lock MemoryLocker_Locker].
    rewrite !held_lookup by done. destruct (ml_locks l !! id) as [k|] eqn:Hk.
    + rewrite (run_memory_try_lock_held _ _ _ Hq Hk). cbn. eauto.
    + destruct (run_memory_try_lock_free id l Hk) as (s & Hs & ->).
      split_and!; eauto using quiescent_taken, held_taken.
  - intros g l Hq. rewrite held_lookup by done.
    destruct (ml_locks l !! guard_upload_id g) as [k|] eqn:Hk; [|done]. cbn. intros [= Hg].
    rewrite (guard_eta g k) by done. cbn [drop_guard MemoryLocker_Locker].
    rewrite (memory_drop_guard_held _ _ _ Hq Hk).
    pose proof (quiescent_dropped _ _ _ Hq Hk) as Hq'. split; [done|].
    rewrite !held_quiescent by done. cbn. by rewrite fmap_delete.
Defined.
End memory_locker.
