(* ===== verification/Interleaving.v ===== *)
(** * Interleaved use of [MemoryLocker]

    A pool of tasks takes atomic steps in any order.  Each task locks an upload
    id with [lock] or [try_lock], passes through a critical section and drops its
    guard; the programs are those of [Locking.v].  The file proves, for every
    interleaving, that at most one task is inside the critical section of an id,
    and that the map is empty again when every task is done. *)

From S2P Require Import Prelude Text Errors Crates Config State Headers Hooks Backends Locking.
From stdpp Require Import relations.
Local Open Scope string_scope.
Local Open Scope prog_scope.

(** ** Pools of programs *)

(** One atomic action of a program. *)
Definition prog_step {E W A} (m : prog E W A) (w : W) : option (prog E W A * W) :=
  match m with
  | Done _ => None
  | Act f k => let '(b, w') := f w in Some (k b, w')
  end.

(** Tasks by number. *)
Fixpoint task {T : Type} (ps : list T) (i : nat) : option T :=
  match ps, i with
  | [], _ => None
  | p :: _, O => Some p
  | _ :: ps, S i => task ps i
  end.

Fixpoint set_task {T : Type} (ps : list T) (i : nat) (t : T) : list T :=
  match ps, i with
  | [], _ => []
  | _ :: ps, O => t :: ps
  | p :: ps, S i => p :: set_task ps i t
  end.

(** A scheduler picks any unfinished task. *)
Inductive pool_step {E W A} : list (prog E W A) * W -> list (prog E W A) * W -> Prop :=
| pool_step_intro ps w i m m' w' :
    task ps i = Some m -> prog_step m w = Some (m', w') ->
    pool_step (ps, w) (set_task ps i m', w').

Lemma pool_trans {E W A} (c1 c2 c3 : list (prog E W A) * W) :
  rtc pool_step c1 c2 -> rtc pool_step c2 c3 -> rtc pool_step c1 c3.
Proof. induction 1; [done|]. intros Hc. eapply rtc_l; eauto. Qed.

(** Runs task [i] one step, if it can take one; a schedule is a list of tasks. *)
Definition advance {E W A} (i : nat) (c : list (prog E W A) * W) : list (prog E W A) * W :=
  match task c.1 i with
  | Some m => match prog_step m c.2 with
              | Some (m', w') => (set_task c.1 i m', w')
              | None => c
              end
  | None => c
  end.

Definition run_schedule {E W A} (order : list nat) (c : list (prog E W A) * W) :=
  foldl (fun c i => advance i c) c order.

Lemma run_schedule_steps {E W A} order (c : list (prog E W A) * W) :
  rtc pool_step c (run_schedule order c).
Proof.
  unfold run_schedule. revert c. induction order as [|i order IH]; intros c; cbn; [apply rtc_refl|].
  eapply pool_trans; [|apply IH].
  unfold advance. destruct c as [ps w]. cbn. destruct (task ps i) as [m|] eqn:Hm; [|apply rtc_refl].
  destruct (prog_step m w) as [[m' w']|] eqn:Hs; [|apply rtc_refl]. eapply rtc_l; [by econstructor|apply rtc_refl].
Qed.

(** ** Sums over task lists *)

Lemma sum_insert {A} (f : A -> nat) ts i t t' :
  ts !! i = Some t ->
  sum_list_with f (<[i := t']> ts) + f t = sum_list_with f ts + f t'.
Proof.
  revert i; induction ts as [|u ts IH]; intros [|i] Hi; simplify_eq/=; [lia|].
  specialize (IH _ Hi). lia.
Qed.

Lemma sum_zero {A} (f : A -> nat) ts :
  (forall i t, ts !! i = Some t -> f t = 0) -> sum_list_with f ts = 0.
Proof.
  induction ts as [|t ts IH]; intros H; cbn; [done|].
  rewrite (H 0 t eq_refl), IH; [done|]. intros i u Hi. by apply (H (S i)).
Qed.

Lemma sum_elem {A} (f : A -> nat) ts i t : ts !! i = Some t -> f t <= sum_list_with f ts.
Proof.
  revert i; induction ts as [|u ts IH]; intros [|i] Hi; simplify_eq/=; [lia|].
  specialize (IH _ Hi). lia.
Qed.

Lemma sum_le {A} (f g : A -> nat) ts :
  (forall i t, ts !! i = Some t -> f t <= g t) -> sum_list_with f ts <= sum_list_with g ts.
Proof.
  induction ts as [|t ts IH]; intros H; cbn; [lia|].
  pose proof (H 0 t eq_refl). enough (sum_list_with f ts <= sum_list_with g ts) by lia.
  apply IH. intros i u Hi. by apply (H (S i)).
Qed.

Section clients.
Context `{TokioSemaphore}.
Variable timeout : Duration.

(** ** The tasks

    The world is the locker and, per id, how many tasks are in its critical
    section. *)
Abbreviation LockerWorld := (MemoryLocker * gmap string nat)%type.

Definition inside (id : string) (w : LockerWorld) : nat := default 0 (w.2 !! id).
Definition enter (id : string) (w : LockerWorld) : LockerWorld :=
  (w.1, <[id := S (inside id w)]> w.2).
Definition leave (id : string) (w : LockerWorld) : LockerWorld :=
  (w.1, <[id := pred (inside id w)]> w.2).

Definition on_locker {A} (m : M MemoryLocker A) : M LockerWorld A :=
  focus fst (fun l w => (l, w.2)) m.

Definition locking (m : M MemoryLocker LockGuard) : M LockerWorld (option LockGuard) :=
  let! r := attempt (on_locker m) in
  ret (match r with inl _ => None | inr g => Some g end).

Definition use_guard (id : string) (o : option LockGuard) : M LockerWorld unit :=
  match o with
  | Some g =>
      do! do_ (enter id) in
      do! do_ (leave id) in
      on_locker (release_guard g)
  | None => ret tt
  end.

Definition client (blocking : bool) (id : string) : M LockerWorld unit :=
  let! o := if blocking then locking (memory_lock id timeout)
            else on_locker (memory_try_lock id) in
  use_guard id o.

(** ** Where a task stands *)

Inductive Phase :=
| Start (blocking : bool) (id : string)
| Waiting (blocking : bool) (id : string) (k : nat)
| Granted (blocking : bool) (id : string) (k : nat)
| Refused (blocking : bool) (id : string) (k : nat)
| ReapRefused (blocking : bool) (id : string)
| Entering (id : string) (k : nat)
| Inside (id : string) (k : nat)
| Releasing (id : string) (k : nat)
| PermitReturned (id : string) (k : nat)
| Reaping (id : string)
| Finished.

Definition phase_prog (p : Phase) : M LockerWorld unit :=
  match p with
  | Start b id => client b id
  | Waiting true id k => let! o := locking (lock_await id k) in use_guard id o
  | Waiting false id k => let! o := on_locker (try_lock_acquire id k) in use_guard id o
  | Granted true id k => let! o := locking (lock_granted id k) in use_guard id o
  | Granted false id k => let! o := on_locker (try_lock_granted id k) in use_guard id o
  | Refused true id k => let! o := locking (lock_elapsed id k) in use_guard id o
  | Refused false id k => let! o := on_locker (try_lock_refused id k) in use_guard id o
  | ReapRefused true id =>
      let! o := locking (do! do_ (remove_if_idle id) in throw (Error.LockTimeout id)) in
      use_guard id o
  | ReapRefused false id =>
      let! o := on_locker (do! do_ (remove_if_idle id) in ret None) in
      use_guard id o
  | Entering id k => use_guard id (Some (LockGuard_with_release id k))
  | Inside id k =>
      do! do_ (leave id) in on_locker (release_guard (LockGuard_with_release id k))
  | Releasing id k => on_locker (release_guard (LockGuard_with_release id k))
  | PermitReturned id k =>
      on_locker (do! do_ (arc_drop k) in do_ (remove_if_idle id))
  | Reaping id => on_locker (do_ (remove_if_idle id))
  | Finished => ret tt
  end.

Definition phase_step (p : Phase) (w : LockerWorld) : option (Phase * LockerWorld) :=
  let '(l, n) := w in
  match p with
  | Start b id => let '(k, l) := entry id l in Some (Waiting b id k, (l, n))
  | Waiting b id k =>
      let '(permit, l) := acquire k l in
      Some (if (permit : bool) then Granted b id k else Refused b id k, (l, n))
  | Granted b id k => Some (Entering id k, (arc_drop k l, n))
  | Refused b id k => Some (ReapRefused b id, (arc_drop k l, n))
  | ReapRefused _ id | Reaping id => Some (Finished, (remove_if_idle id l, n))
  | Entering id k => Some (Inside id k, enter id w)
  | Inside id k => Some (Releasing id k, leave id w)
  | Releasing id k => Some (PermitReturned id k, (release k l, n))
  | PermitReturned id k => Some (Reaping id, (arc_drop k l, n))
  | Finished => None
  end.

(** The phases are exactly the steps of the programs. *)
Lemma phase_prog_step p w :
  prog_step (phase_prog p) w =
    match phase_step p w with
    | Some pw => Some (phase_prog pw.1, pw.2)
    | None => None
    end.
Proof.
  destruct w as [l n].
  destruct p as [[] ?|[] ? k|[] ? ?|[] ? ?|[] ?|? ?|? ?|? ?|? ?|?|]; try reflexivity; cbn.
  all: lazy [prog_step client locking memory_lock lock_await memory_try_lock
    try_lock_acquire bind attempt focus act on_locker fst snd].
  1-2: by destruct (entry id l).
  1-2: by destruct (acquire k l) as [[] ?].
Qed.

(** ** What a phase owns *)

(** The semaphore a task references (with its id), how often, with how many of
    its permits; the id whose entry it will try to reap; the critical section it
    is in. *)
Definition holds (p : Phase) : option (string * nat) :=
  match p with
  | Waiting _ id k | Granted _ id k | Refused _ id k | Entering id k | Inside id k
  | Releasing id k | PermitReturned id k => Some (id, k)
  | _ => None
  end.

Definition nrefs (p : Phase) : nat :=
  match p with
  | Granted _ _ _ => 2
  | Waiting _ _ _ | Refused _ _ _ | Entering _ _ | Inside _ _ | Releasing _ _
  | PermitReturned _ _ => 1
  | _ => 0
  end.

Definition npermits (p : Phase) : nat :=
  match p with
  | Granted _ _ _ | Entering _ _ | Inside _ _ | Releasing _ _ => 1
  | _ => 0
  end.

Definition at_sem (k : nat) (f : Phase -> nat) (p : Phase) : nat :=
  match holds p with
  | Some (_, k') => if decide (k' = k) then f p else 0
  | None => 0
  end.
Abbreviation refs k := (at_sem k nrefs).
Abbreviation permits k := (at_sem k npermits).

Definition reaps (id : string) (p : Phase) : nat :=
  match p with
  | ReapRefused _ id' | Reaping id' => if decide (id' = id) then 1 else 0
  | _ => 0
  end.

Definition is_inside (id : string) (p : Phase) : nat :=
  match p with Inside id' _ => if decide (id' = id) then 1 else 0 | _ => 0 end.

(** ** The invariant of the pool *)

(** The reference count of an entry is exact, its single permit is accounted
    for, and an entry nobody references is about to be reaped. *)
Record entry_ok (ts : list Phase) (id : string) (k : nat) (a : ArcSemaphore) : Prop := {
  entry_strong : as_strong a = S (sum_list_with (refs k) ts);
  entry_permit :
    semaphore_available_permits (as_sem a) + sum_list_with (permits k) ts = 1;
  entry_used : 0 < sum_list_with (refs k) ts + sum_list_with (reaps id) ts;
}.

Record pool_inv (ts : list Phase) (w : LockerWorld) : Prop := {
  inv_entry id k :
    ml_locks w.1 !! id = Some k ->
    exists a, ml_heap w.1 !! k = Some a /\ entry_ok ts id k a;
  inv_inj id id' k :
    ml_locks w.1 !! id = Some k -> ml_locks w.1 !! id' = Some k -> id = id';
  inv_heap k :
    is_Some (ml_heap w.1 !! k) -> k < ml_next w.1 /\ exists id, ml_locks w.1 !! id = Some k;
  inv_holds i t id k :
    ts !! i = Some t -> holds t = Some (id, k) -> ml_locks w.1 !! id = Some k;
  inv_inside id : inside id w = sum_list_with (is_inside id) ts;
}.

Lemma permits_refs k p : permits k p <= refs k p.
Proof. unfold at_sem. destruct p; cbn; repeat case_decide; lia. Qed.

Lemma inside_permits id k p :
  holds p = Some (id, k) \/ is_inside id p = 0 -> is_inside id p <= permits k p.
Proof.
  unfold at_sem. destruct p; cbn; try lia. intros [[= -> ->]|Hz]; [|lia].
  by rewrite !decide_True.
Qed.

(** Mutual exclusion is a consequence of the invariant. *)
Lemma inv_exclusive ts w id : pool_inv ts w -> inside id w <= 1.
Proof.
  intros HI. rewrite (inv_inside _ _ HI).
  destruct (ml_locks w.1 !! id) as [k|] eqn:Hk.
  - destruct (inv_entry _ _ HI _ _ Hk) as (a & _ & Ha).
    pose proof (entry_permit _ _ _ _ Ha).
    enough (sum_list_with (is_inside id) ts <= sum_list_with (permits k) ts) by lia.
    apply sum_le. intros i t Hi. apply inside_permits.
    destruct (holds t) as [[id' k']|] eqn:Hh; [|right; by destruct t].
    destruct (decide (id' = id)) as [->|Hne].
    + left. by rewrite (inv_holds _ _ HI _ _ _ _ Hi Hh) in Hk; simplify_eq.
    + right. destruct t; cbn in *; simplify_eq; try done. by rewrite decide_False.
  - rewrite sum_zero; [lia|]. intros i t Hi. destruct t; cbn; try done.
    case_decide; [subst|done]. by rewrite (inv_holds _ _ HI _ _ _ _ Hi eq_refl) in Hk.
Qed.

(** A finished pool leaves no entry behind. *)
Lemma inv_finished ts w :
  pool_inv ts w -> Forall (fun t => t = Finished) ts -> ml_locks w.1 = ∅ /\ ml_heap w.1 = ∅.
Proof.
  intros HI Hts. assert (ml_locks w.1 = ∅) as He.
  { apply map_eq; intros id. rewrite lookup_empty.
    destruct (ml_locks w.1 !! id) as [k|] eqn:Hk; [|done].
    destruct (inv_entry _ _ HI _ _ Hk) as (a & _ & Ha).
    pose proof (entry_used _ _ _ _ Ha) as Hu.
    rewrite !sum_zero in Hu; [lia| |]; intros i t Hi;
      by rewrite (Forall_lookup_1 _ _ _ _ Hts Hi). }
  split; [done|]. apply map_eq; intros k. rewrite lookup_empty.
  destruct (ml_heap w.1 !! k) as [a|] eqn:Hk; [|done].
  destruct (inv_heap _ _ HI k) as (_ & id & Hid); [eauto|].
  by rewrite He, lookup_empty in Hid.
Qed.

(** ** Every step preserves the invariant *)

Definition touches (id : string) (k : nat) (p : Phase) : Prop :=
  holds p = None \/ holds p = Some (id, k).

Lemma touches_other id k k' f p : touches id k p -> k' <> k -> at_sem k' f p = 0.
Proof. unfold at_sem. intros [->| ->] Hne; [done|]. by rewrite decide_False. Qed.

Lemma inv_fresh ts w k f : pool_inv ts w -> ml_next w.1 <= k -> sum_list_with (at_sem k f) ts = 0.
Proof.
  intros HI Hk. apply sum_zero. intros i t Hi. unfold at_sem.
  destruct (holds t) as [[id k']|] eqn:Hh; [|done]. rewrite decide_False; [done|]. intros ->.
  destruct (inv_entry _ _ HI _ _ (inv_holds _ _ HI _ _ _ _ Hi Hh)) as (a & Ha & _).
  destruct (inv_heap _ _ HI k) as [? _]; [eauto|lia].
Qed.

Ltac sum_steps Hi t' :=
  repeat match goal with
  | |- context [sum_list_with ?f (<[?i := t']> ?ts)] =>
      lazymatch goal with
      | _ : sum_list_with f (<[i := t']> ts) + _ = _ |- _ => fail
      | _ => pose proof (sum_insert f ts i _ t' Hi)
      end
  end.

(** A step that changes the counts of one entry. *)
Lemma inv_adjust ts l n i t t' id k a a' :
  pool_inv ts (l, n) -> ts !! i = Some t ->
  ml_locks l !! id = Some k -> ml_heap l !! k = Some a ->
  touches id k t -> touches id k t' -> (forall id', reaps id' t = 0) ->
  as_strong a' + refs k t = as_strong a + refs k t' ->
  semaphore_available_permits (as_sem a') + permits k t'
    = semaphore_available_permits (as_sem a) + permits k t ->
  0 < refs k t' + reaps id t' ->
  (forall id', is_inside id' t' = is_inside id' t) ->
  pool_inv (<[i := t']> ts) (with_heap (<[k := a']> (ml_heap l)) l, n).
Proof.
  intros HI Hi Hk Ha Ht Ht' Hre Hstrong Hperm Hused Hins. split; cbn.
  - intros id1 k1 Hk1. destruct (inv_entry _ _ HI _ _ Hk1) as (a1 & Ha1 & Hok).
    cbn in Ha1. pose proof (entry_strong _ _ _ _ Hok). pose proof (entry_permit _ _ _ _ Hok).
    pose proof (entry_used _ _ _ _ Hok).
    destruct (decide (k1 = k)) as [->|Hne].
    + assert (id1 = id) as -> by (by eapply (inv_inj _ _ HI)). simplify_eq.
      rewrite lookup_insert_eq. eexists; split; [done|]. specialize (Hre id).
      pose proof (sum_elem (refs k) ts i t Hi). split; sum_steps Hi t'; lia.
    + rewrite lookup_insert_ne by done. eexists; split; [done|].
      pose proof (touches_other _ _ _ nrefs _ Ht Hne). pose proof (touches_other _ _ _ npermits _ Ht Hne).
      pose proof (touches_other _ _ _ nrefs _ Ht' Hne). pose proof (touches_other _ _ _ npermits _ Ht' Hne).
      specialize (Hre id1). split; sum_steps Hi t'; lia.
  - apply (inv_inj _ _ HI).
  - intros k1 Hk1. apply (inv_heap _ _ HI). cbn. destruct (decide (k1 = k)) as [->|]; [eauto|].
    by rewrite lookup_insert_ne in Hk1.
  - intros j u id1 k1 [(-> & <- & _)|[_ Hu]]%list_lookup_insert_Some Hh.
    + destruct Ht'; by simplify_eq.
    + by eapply (inv_holds _ _ HI).
  - intros id1. pose proof (inv_inside _ _ HI id1) as Hin. specialize (Hins id1).
    unfold inside in *. cbn in *. sum_steps Hi t'. lia.
Qed.

(** A step into or out of the critical section. *)
Lemma inv_section ts l n n' i t t' :
  pool_inv ts (l, n) -> ts !! i = Some t ->
  holds t' = holds t -> nrefs t' = nrefs t -> npermits t' = npermits t ->
  (forall id, reaps id t' = reaps id t) ->
  (forall id, inside id (l, n') + is_inside id t = inside id (l, n) + is_inside id t') ->
  pool_inv (<[i := t']> ts) (l, n').
Proof.
  intros HI Hi Hh Hr Hp Hre Hins. split; cbn.
  - intros id k Hk. destruct (inv_entry _ _ HI _ _ Hk) as (a & Ha & Hok).
    exists a. split; [done|]. destruct Hok.
    assert (refs k t' = refs k t /\ permits k t' = permits k t) as [? ?].
    { unfold at_sem. by rewrite Hh, Hr, Hp. }
    specialize (Hre id). split; sum_steps Hi t'; lia.
  - apply (inv_inj _ _ HI).
  - apply (inv_heap _ _ HI).
  - intros j u id1 k1 [(-> & <- & _)|[_ Hu]]%list_lookup_insert_Some Hu'.
    + rewrite Hh in Hu'. by eapply (inv_holds _ _ HI).
    + by eapply (inv_holds _ _ HI).
  - intros id. pose proof (inv_inside _ _ HI id). specialize (Hins id). sum_steps Hi t'. lia.
Qed.

(** The creation of an entry by [entry]. *)
Lemma inv_create ts l n i t t' id s :
  pool_inv ts (l, n) -> ts !! i = Some t -> ml_locks l !! id = None ->
  semaphore_available_permits s = 1 ->
  holds t = None -> (forall id', reaps id' t = 0) -> (forall id', is_inside id' t = 0) ->
  holds t' = Some (id, ml_next l) -> nrefs t' = 1 -> npermits t' = 0 ->
  (forall id', is_inside id' t' = 0) ->
  pool_inv (<[i := t']> ts) (taken id s l, n).
Proof.
  intros HI Hi Hid Hs Ht Hre Hin Ht' Hr Hp Hin'.
  assert (forall f, at_sem (ml_next l) f t' = f t') as Hnew.
  { intros f. unfold at_sem. by rewrite Ht', decide_True. }
  assert (forall f k', at_sem k' f t = 0) as Hold by (intros; unfold at_sem; by rewrite Ht).
  split; cbn.
  - intros id1 k1. rewrite lookup_insert_Some. intros [[<- <-]|[Hne Hk1]].
    + rewrite lookup_insert_eq. eexists; split; [done|].
      pose proof (inv_fresh ts _ (ml_next l) nrefs HI (le_n _)).
      pose proof (inv_fresh ts _ (ml_next l) npermits HI (le_n _)).
      pose proof (Hnew nrefs). pose proof (Hnew npermits). pose proof (Hold nrefs (ml_next l)).
      pose proof (Hold npermits (ml_next l)).
      split; cbn; sum_steps Hi t'; lia.
    + destruct (inv_entry _ _ HI _ _ Hk1) as (a & Ha & Hok). cbn in Ha.
      assert (k1 <> ml_next l) as Hk by (destruct (inv_heap _ _ HI k1) as [Hlt _]; [eauto|cbn in Hlt; lia]).
      rewrite lookup_insert_ne by done. exists a. split; [done|]. destruct Hok.
      assert (forall f, at_sem k1 f t' = 0) as Hz.
      { intros f. unfold at_sem. by rewrite Ht', decide_False. }
      pose proof (Hz nrefs). pose proof (Hz npermits). pose proof (Hold nrefs k1).
      pose proof (Hold npermits k1). specialize (Hre id1). split; sum_steps Hi t'; lia.
  - intros id1 id2 k1. rewrite !lookup_insert_Some.
    assert (forall id', ml_locks l !! id' = Some (ml_next l) -> False) as Hno.
    { intros id' Hk. destruct (inv_entry _ _ HI _ _ Hk) as (a & Ha & _).
      destruct (inv_heap _ _ HI (ml_next l)) as [Hlt _]; [eauto|cbn in Hlt; lia]. }
    intros [[<- <-]|[? Hk1]] [[<- ?]|[? Hk2]]; try done.
    + by apply Hno in Hk2.
    + subst. by apply Hno in Hk1.
    + by eapply (inv_inj _ _ HI).
  - intros k1. rewrite lookup_insert_is_Some. intros [<-|[Hne Hk1]].
    + split; [lia|]. exists id. by rewrite lookup_insert_eq.
    + apply (inv_heap _ _ HI) in Hk1 as (? & id' & Hk1). cbn in *. split; [lia|].
      exists id'. rewrite lookup_insert_ne; [done|]. congruence.
  - intros j u id1 k1 [(-> & <- & _)|[_ Hu]]%list_lookup_insert_Some Hu'.
    + rewrite Ht' in Hu'. simplify_eq. by rewrite lookup_insert_eq.
    + pose proof (inv_holds _ _ HI _ _ _ _ Hu Hu') as Hk1. cbn in Hk1.
      rewrite lookup_insert_ne; [done|]. congruence.
  - intros id1. pose proof (inv_inside _ _ HI id1) as H1. unfold inside in *. cbn in *.
    specialize (Hin id1). specialize (Hin' id1). sum_steps Hi t'. lia.
Qed.

(** A task that ends without holding anything. *)
Lemma inv_done ts l n i t :
  pool_inv ts (l, n) -> ts !! i = Some t ->
  holds t = None -> (forall id, is_inside id t = 0) ->
  (forall id k, ml_locks l !! id = Some k ->
     reaps id t = 0 \/ 0 < sum_list_with (refs k) ts) ->
  pool_inv (<[i := Finished]> ts) (l, n).
Proof.
  intros HI Hi Ht Hin Hre.
  assert (forall f k, at_sem k f t = 0 /\ at_sem k f Finished = 0) as Hold.
  { intros; unfold at_sem; by rewrite Ht. }
  split; cbn.
  - intros id k Hk. destruct (inv_entry _ _ HI _ _ Hk) as (a & Ha & Hok).
    exists a. split; [done|]. destruct Hok. specialize (Hre _ _ Hk).
    destruct (Hold nrefs k), (Hold npermits k). assert (reaps id Finished = 0) by done.
    split; sum_steps Hi Finished; lia.
  - apply (inv_inj _ _ HI).
  - apply (inv_heap _ _ HI).
  - intros j u id k [(-> & <- & _)|[_ Hu]]%list_lookup_insert_Some Hu'; [done|].
    by eapply (inv_holds _ _ HI).
  - intros id. rewrite (inv_inside _ _ HI id). specialize (Hin id).
    assert (is_inside id Finished = 0) by done. sum_steps Hi Finished. lia.
Qed.

(** Nobody is left behind by the removal of an unreferenced entry. *)
Lemma inv_remove ts l n id k :
  pool_inv ts (l, n) -> ml_locks l !! id = Some k -> sum_list_with (refs k) ts = 0 ->
  pool_inv ts ({| ml_locks := delete id (ml_locks l); ml_heap := delete k (ml_heap l);
                  ml_next := ml_next l |}, n).
Proof.
  intros HI Hk Hz. split; cbn.
  - intros id1 k1 [Hne Hk1]%lookup_delete_Some.
    rewrite lookup_delete_ne; [by apply (inv_entry _ _ HI)|].
    intros <-. by apply Hne, (inv_inj _ _ HI _ _ _ Hk Hk1).
  - intros id1 id2 k1 [_ Hk1]%lookup_delete_Some [_ Hk2]%lookup_delete_Some.
    by eapply (inv_inj _ _ HI).
  - intros k1 [a [Hne Ha]%lookup_delete_Some].
    destruct (inv_heap _ _ HI k1) as (Hlt & id1 & Hid1); [eauto|]. split; [done|].
    exists id1. rewrite lookup_delete_ne; [done|]. intros <-. cbn in *. congruence.
  - intros j u id1 k1 Hu Hh. pose proof (inv_holds _ _ HI _ _ _ _ Hu Hh) as Hk1. cbn in Hk1.
    rewrite lookup_delete_ne; [done|]. intros <-. simplify_eq.
    pose proof (sum_elem (refs k) ts j u Hu).
    enough (0 < refs k u) by lia. unfold at_sem. rewrite Hh, decide_True by done.
    destruct u; cbn in *; simplify_eq; lia.
  - apply (inv_inside _ _ HI).
Qed.

Lemma inv_reap ts l n i t id :
  pool_inv ts (l, n) -> ts !! i = Some t ->
  holds t = None -> (forall id', id' <> id -> reaps id' t = 0) ->
  (forall id', is_inside id' t = 0) ->
  pool_inv (<[i := Finished]> ts) (remove_if_idle id l, n).
Proof.
  intros HI Hi Ht Hre Hin. unfold remove_if_idle.
  destruct (ml_locks l !! id) as [k|] eqn:Hk.
  2: { eapply inv_done; eauto. intros id' k' Hk'. left. apply Hre. congruence. }
  destruct (inv_entry _ _ HI _ _ Hk) as (a & Ha & Hok). cbn in Ha. rewrite Ha.
  destruct Hok as [Hs Hp _].
  destruct (Nat.eqb_spec (as_strong a) 1) as [H1|H1]; cbn.
  2: { eapply inv_done; eauto. intros id' k' Hk'.
       destruct (decide (id' = id)) as [->|]; [|left; auto]. simplify_eq. right. lia. }
  assert (sum_list_with (permits k) ts <= sum_list_with (refs k) ts) as Hle
    by (apply sum_le; intros; apply permits_refs).
  destruct (Nat.eqb_spec (semaphore_available_permits (as_sem a)) 1) as [H2|H2]; [|lia].
  unfold arc_drop, with_heap. cbn. rewrite Ha. destruct a as [sem strong]. cbn in *. subst strong.
  assert (sum_list_with (refs k) ts = 0) as Hz by lia. rewrite Hz.
  apply (inv_done _ _ _ _ t); [by apply inv_remove|done..|].
  cbn. intros id' k' [Hne _]%lookup_delete_Some. left. by apply Hre.
Qed.

Lemma alter_as_insert {A} (f : A -> A) (m : gmap nat A) k a :
  m !! k = Some a -> alter f k m = <[k := f a]> m.
Proof.
  intros Ha. apply map_eq; intros j. destruct (decide (j = k)) as [->|Hne].
  - by rewrite lookup_alter_eq, lookup_insert_eq, Ha.
  - by rewrite lookup_alter_ne, lookup_insert_ne.
Qed.

Lemma arc_drop_insert l k s m :
  ml_heap l !! k = Some {| as_sem := s; as_strong := S (S m) |} ->
  arc_drop k l = with_heap (<[k := {| as_sem := s; as_strong := S m |}]> (ml_heap l)) l.
Proof. unfold arc_drop. by intros ->. Qed.

(** The shape every phase that holds a reference starts from. *)
Lemma inv_held ts l n i t id k :
  pool_inv ts (l, n) -> ts !! i = Some t -> holds t = Some (id, k) ->
  exists s m, ml_locks l !! id = Some k /\
    ml_heap l !! k = Some {| as_sem := s; as_strong := S (nrefs t + m) |} /\
    semaphore_available_permits s + npermits t <= 1 /\
    refs k t = nrefs t /\ permits k t = npermits t.
Proof.
  intros HI Hi Hh. pose proof (inv_holds _ _ HI _ _ _ _ Hi Hh) as Hk. cbn in Hk.
  destruct (inv_entry _ _ HI _ _ Hk) as ([s m] & Ha & [Hs Hp _]). cbn in *.
  assert (forall f, at_sem k f t = f t) as Hat.
  { intros f. unfold at_sem. by rewrite Hh, decide_True. }
  pose proof (sum_elem (refs k) ts i t Hi) as Hr. pose proof (sum_elem (permits k) ts i t Hi).
  rewrite (Hat npermits) in *. rewrite (Hat nrefs) in *.
  exists s, (sum_list_with (refs k) ts - nrefs t). rewrite Ha. repeat split; try done.
  - do 2 f_equal. lia.
  - lia.
Qed.

Lemma at_sem_same id k f p : holds p = Some (id, k) -> at_sem k f p = f p.
Proof. unfold at_sem. intros ->. by rewrite decide_True. Qed.

Lemma at_sem_none k f p : holds p = None -> at_sem k f p = 0.
Proof. unfold at_sem. by intros ->. Qed.

Ltac adjust t t' :=
  match goal with
  | |- pool_inv (<[?i := t']> _) (with_heap _ _, _) =>
      eapply (inv_adjust _ _ _ i t t');
      [eassumption|eassumption|eassumption|eassumption
      |unfold touches; cbn; auto|unfold touches; cbn; auto|done| | | |done];
      unfold at_sem; cbn; rewrite ?decide_True by done; try lia
  end.

Context `{!SemaphoreLaws}.
#[local] Set Default Proof Using "All".

Lemma start_inv ts l n i b id :
  pool_inv ts (l, n) -> ts !! i = Some (Start b id) ->
  pool_inv (<[i := Waiting b id (entry id l).1]> ts) ((entry id l).2, n).
Proof.
  intros HI Hi. destruct (ml_locks l !! id) as [k|] eqn:Hk.
  - unfold entry. rewrite Hk. cbn. destruct (inv_entry _ _ HI _ _ Hk) as (a & Ha & _).
    cbn in Ha. unfold arc_clone. rewrite (alter_as_insert _ _ _ _ Ha).
    adjust (Start b id) (Waiting b id k).
  - rewrite entry_free by done. cbn.
    apply (inv_create _ _ _ _ (Start b id)); try done. apply available_new.
Qed.

Lemma waiting_inv ts l n i b id k :
  pool_inv ts (l, n) -> ts !! i = Some (Waiting b id k) ->
  pool_inv (<[i := if (acquire k l).1 then Granted b id k else Refused b id k]> ts)
    ((acquire k l).2, n).
Proof.
  intros HI Hi. destruct (inv_held _ _ _ _ _ _ _ HI Hi eq_refl) as (s & m & Hk & Ha & Hp & _).
  unfold acquire. rewrite Ha. cbn. destruct (semaphore_try_acquire s) as [s'|] eqn:Hs; cbn.
  - apply try_acquire_some in Hs. adjust (Waiting b id k) (Granted b id k).
  - by apply (inv_section _ _ n _ _ (Waiting b id k)).
Qed.

Lemma section_inv ts l n i id k :
  pool_inv ts (l, n) -> ts !! i = Some (Inside id k) ->
  pool_inv (<[i := Releasing id k]> ts) (leave id (l, n)).
Proof.
  intros HI Hi. apply (inv_section _ _ n _ _ (Inside id k)); try done.
  intros id'. pose proof (inv_inside _ _ HI id') as Hin. pose proof (sum_elem (is_inside id') ts i _ Hi).
  unfold inside in *. cbn in *. case_decide; [subst|by rewrite lookup_insert_ne by done; lia].
  rewrite lookup_insert_eq. cbn. lia.
Qed.

Lemma phase_step_inv ts w i t t' w' :
  pool_inv ts w -> ts !! i = Some t -> phase_step t w = Some (t', w') ->
  pool_inv (<[i := t']> ts) w'.
Proof.
  destruct w as [l n]. intros HI Hi Hstep.
  destruct t as [b id|b id k|b id k|b id k|b id|id k|id k|id k|id k|id|]; cbn in Hstep;
    try (destruct (inv_held _ _ _ _ _ _ _ HI Hi eq_refl) as (s & m & Hk & Ha & Hp & _);
         cbn in Ha, Hp).
  - pose proof (start_inv _ _ _ _ _ _ HI Hi). destruct (entry id l). by simplify_eq.
  - pose proof (waiting_inv _ _ _ _ _ _ _ HI Hi). destruct (acquire k l). by simplify_eq.
  - simplify_eq. rewrite (arc_drop_insert _ _ _ _ Ha). adjust (Granted b id k) (Entering id k).
  - simplify_eq. rewrite (arc_drop_insert _ _ _ _ Ha). adjust (Refused b id k) (ReapRefused b id).
  - simplify_eq. apply (inv_reap _ _ _ _ (ReapRefused b id)); try done.
    intros id' Hne. cbn. by rewrite decide_False.
  - simplify_eq. apply (inv_section _ _ n _ _ (Entering id k)); try done.
    intros id'. unfold inside. cbn. case_decide; [subst; rewrite lookup_insert_eq|rewrite lookup_insert_ne by done]; cbn; lia.
  - simplify_eq. by apply section_inv.
  - simplify_eq. unfold release. rewrite (alter_as_insert _ _ _ _ Ha).
    pose proof (available_release s). adjust (Releasing id k) (PermitReturned id k).
  - simplify_eq. rewrite (arc_drop_insert _ _ _ _ Ha). adjust (PermitReturned id k) (Reaping id).
  - simplify_eq. apply (inv_reap _ _ _ _ (Reaping id)); try done.
    intros id' Hne. cbn. by rewrite decide_False.
  - done.
Qed.

(** ** Reachable pools of programs *)

Fixpoint clients (tasks : list (bool * string)) : list (M LockerWorld unit) :=
  match tasks with
  | [] => []
  | t :: tasks => client t.1 t.2 :: clients tasks
  end.

Definition initial (tasks : list (bool * string)) : list (M LockerWorld unit) * LockerWorld :=
  (clients tasks, (MemoryLocker_new, ∅)).

Fixpoint progs (ts : list Phase) : list (M LockerWorld unit) :=
  match ts with
  | [] => []
  | t :: ts => phase_prog t :: progs ts
  end.

Definition start (t : bool * string) : Phase := Start t.1 t.2.

Lemma clients_progs tasks : clients tasks = progs (map start tasks).
Proof. induction tasks as [|t ts IH]; [done|]. cbn. by rewrite IH. Qed.

Lemma task_progs ts i m :
  task (progs ts) i = Some m -> exists t, m = phase_prog t /\ ts !! i = Some t.
Proof.
  revert i. induction ts as [|t ts IH]; intros [|i]; cbn; try done; [|apply IH].
  intros [= <-]. eauto.
Qed.

Lemma progs_task ts i t : ts !! i = Some t -> task (progs ts) i = Some (phase_prog t).
Proof. revert i. induction ts as [|u ts IH]; intros [|i]; cbn; [done..|by intros [= ->]|apply IH]. Qed.

Lemma set_progs ts i t : set_task (progs ts) i (phase_prog t) = progs (<[i := t]> ts).
Proof. revert i. induction ts as [|u ts IH]; intros [|i]; cbn; [done..|]. by rewrite IH. Qed.

(** Every reachable pool is a list of phases that satisfies the invariant. *)
Definition represented (c : list (M LockerWorld unit) * LockerWorld) : Prop :=
  exists ts, c.1 = progs ts /\ pool_inv ts c.2.

Lemma initial_represented tasks : represented (initial tasks).
Proof.
  exists (map start tasks). split.
  - apply clients_progs.
  - assert (forall t i, map start tasks !! i = Some t ->
              exists b id, t = Start b id) as Hs.
    { intros t i Hi. apply list_lookup_fmap_Some in Hi as ([b id] & -> & _). eauto. }
    split; cbn; intros *; rewrite ?lookup_empty; try done; try by intros [? ?].
    + intros Hi Hh. by destruct (Hs _ _ Hi) as (b & id' & ->).
    + unfold inside. cbn. rewrite lookup_empty. symmetry. apply sum_zero.
      intros i t Hi. by destruct (Hs _ _ Hi) as (b & id' & ->).
Qed.

Lemma represented_step c c' : represented c -> pool_step c c' -> represented c'.
Proof.
  intros (ts & Hps & HI) Hstep. destruct Hstep as [ps w i m m' w' Hi Hm]. cbn in *. subst ps.
  apply task_progs in Hi as (t & -> & Hi).
  rewrite phase_prog_step in Hm. destruct (phase_step t w) as [[t' w1]|] eqn:Ht; [|done].
  cbn in Hm. injection Hm as <- <-. exists (<[i := t']> ts). split.
  - apply set_progs.
  - by eapply phase_step_inv.
Qed.

Lemma reachable_represented tasks c :
  rtc pool_step (initial tasks) c -> represented c.
Proof.
  intros Hr. pose proof (initial_represented tasks) as Hinit. revert Hinit.
  induction Hr; eauto using represented_step.
Qed.

(** ** The guarantees of the locker *)

(** C12: whatever the scheduler does, at most one task is inside the critical
    section of an upload id. *)
Theorem locker_mutual_exclusion tasks c id :
  rtc pool_step (initial tasks) c -> inside id c.2 <= 1.
Proof.
  intros (ts & _ & HI)%reachable_represented. by eapply inv_exclusive.
Qed.

Lemma phase_finished p w : prog_step (phase_prog p) w = None -> p = Finished.
Proof.
  rewrite phase_prog_step. destruct w as [l n]. destruct p; cbn; try done.
  - by destruct (entry id l).
  - by destruct (acquire k l).
Qed.

(** when every task is done, successfully or not, the locker's map holds no
    entry and no semaphore is left alive. *)
Theorem locker_leaves_nothing tasks c :
  rtc pool_step (initial tasks) c -> (forall i m, task c.1 i = Some m -> prog_step m c.2 = None) ->
  ml_locks c.2.1 = ∅ /\ ml_heap c.2.1 = ∅.
Proof.
  intros (ts & Hps & HI)%reachable_represented Hdone. apply (inv_finished ts); [done|].
  apply Forall_forall. intros t [i Hi]%list_elem_of_lookup.
  apply (phase_finished _ c.2), (Hdone i). rewrite Hps. by apply progs_task.
Qed.

(** ** Termination *)

(** The steps a task has left. *)
Definition phase_fuel (p : Phase) : nat :=
  match p with
  | Start _ _ => 8
  | Waiting _ _ _ => 7
  | Granted _ _ _ => 6
  | Entering _ _ => 5
  | Inside _ _ => 4
  | Releasing _ _ => 3
  | PermitReturned _ _ | Refused _ _ _ => 2
  | Reaping _ | ReapRefused _ _ => 1
  | Finished => 0
  end.

Lemma phase_step_fuel t w t' w' :
  phase_step t w = Some (t', w') -> phase_fuel t' < phase_fuel t.
Proof.
  destruct w as [l n]. destruct t; cbn; intros Hs; try (injection Hs as <- <-; cbn; lia); [| |done].
  - destruct (entry id l). injection Hs as <- <-. cbn. lia.
  - destruct (acquire k l) as [[] ?]; injection Hs as <- <-; cbn; lia.
Qed.

Lemma pool_steps_fuel n ts w c :
  nsteps pool_step n (progs ts, w) c -> n <= sum_list_with phase_fuel ts.
Proof.
  revert ts w. induction n as [|n IH]; intros ts w Hn; [lia|].
  inversion Hn as [|? ? c1 ? Hstep Hrest]; subst.
  inversion Hstep as [ps w0 i m m' w' Hi Hm]; subst.
  apply task_progs in Hi as (t & -> & Hi).
  rewrite phase_prog_step in Hm. destruct (phase_step t w) as [[t' w1]|] eqn:Ht; [|done].
  cbn in Hm. injection Hm as <- <-. rewrite set_progs in Hrest. apply IH in Hrest.
  pose proof (sum_insert phase_fuel ts i t t' Hi). apply phase_step_fuel in Ht. lia.
Qed.

(** no schedule runs forever: every task is done after at most eight atomic
    steps of its own. *)
Theorem locker_terminates tasks n c :
  nsteps pool_step n (initial tasks) c -> n <= 8 * length tasks.
Proof.
  unfold initial. intros Hn.
  rewrite clients_progs in Hn. apply pool_steps_fuel in Hn. clear c. revert n Hn.
  induction tasks as [|t ts IH]; cbn in *; intros n Hn; [lia|].
  specialize (IH _ (Nat.le_refl _)). lia.
Qed.
End clients.
