(* ===== verification/Lifecycle.v ===== *)
(** * Lifecycle transitions ([lifecycle.rs], [lifecycle/pre_hook.rs],
    [finish.rs], [termination.rs], [recovery.rs], [creation.rs])

    The steps the request handlers are composed from: the expiration guard, the
    pre-hook gates, completion hook timing, termination, crash recovery of
    offsets and completions, and the creation-time rules. *)

From S2P Require Import Prelude Text Errors Crates Config State Headers Hooks Backends.
Local Open Scope string_scope.
Local Open Scope N_scope.
Local Open Scope prog_scope.

(** ** Pre-hook gates *)

Inductive PreHookGate := GateCreate | GateReceive | GateFinish | GateTerminate.

Definition gate_event (g : PreHookGate) : HookEvent.t :=
  match g with
  | GateCreate => HookEvent.PreCreate
  | GateReceive => HookEvent.PreReceive
  | GateFinish => HookEvent.PreFinish
  | GateTerminate => HookEvent.PreTerminate
  end.

Record PreHookEffects := {
  replace_metadata : bool;
  propagate_response_headers : bool;
}.

Definition gate_effects (g : PreHookGate) : PreHookEffects :=
  match g with
  | GateCreate | GateReceive =>
      {| replace_metadata := true; propagate_response_headers := true |}
  | GateFinish => {| replace_metadata := false; propagate_response_headers := false |}
  | GateTerminate => {| replace_metadata := false; propagate_response_headers := true |}
  end.

Definition rejection_error (r : PreHookResult) : Error.t :=
  Error.HookRejected (default 400 (ph_reject_status r)) (default "" (ph_reject_message r)).

Record PreHookOutcome := {
  po_state : UploadState;
  po_response_headers : gmap string string;
}.

(** What a gate makes of a result that proceeds. *)
Definition gate_outcome (g : PreHookGate) (result : PreHookResult) (state : UploadState)
    : PreHookOutcome := {|
  po_state :=
    if replace_metadata (gate_effects g) then
      match ph_metadata result with
      | Some metadata => UploadState.set_metadata metadata state
      | None => state
      end
    else state;
  po_response_headers :=
    if propagate_response_headers (gate_effects g) then ph_response_headers result else ∅;
|}.

(** ** Creation rules *)

Record CreationRequest := {
  cq_upload_length : option N;
  cq_upload_defer_length : bool;
  cq_upload_metadata : option UploadMetadata;
  cq_upload_concat : option UploadConcat;
  cq_has_body : bool;
}.

Definition CreationRequest_from_headers (h : Headers) (has_body : bool) : CreationRequest := {|
  cq_upload_length := h_upload_length h;
  cq_upload_defer_length := h_upload_defer_length h;
  cq_upload_metadata := h_upload_metadata h;
  cq_upload_concat := h_upload_concat h;
  cq_has_body := has_body;
|}.

Inductive CreationTransition :=
| TransitionUpload (state : UploadState)
| TransitionFinal (state : UploadState) (part_urls : list string).

Definition is_some {A} (o : option A) : bool := match o with Some _ => true | None => false end.

(** The guards of [prepare_creation], in order. *)
Definition validate_creation (config : Config) (request : CreationRequest) : result unit :=
  if negb (has_extension config Extension.Creation) then
    Err (Error.ExtensionNotSupported "creation")
  else if is_some (cq_upload_concat request)
          && negb (has_extension config Extension.Concatenation) then
    Err (Error.ExtensionNotSupported "concatenation")
  else
    let is_final_upload :=
      match cq_upload_concat request with Some (Final _) => true | _ => false end in
    check?
      (if is_final_upload then
         if is_some (cq_upload_length request) || cq_upload_defer_length request then
           Err (Error.InvalidHeader "Upload-Length"
                  "Upload-Length and Upload-Defer-Length must not be set on a final concatenation upload")
         else if cq_has_body request then
           Err (Error.InvalidHeader "Upload-Concat"
                  "a final concatenation upload must not include a request body")
         else Ok tt
       else
         if negb (is_some (cq_upload_length request))
            && negb (cq_upload_defer_length request) then
           Err (Error.MissingHeader "Upload-Length or Upload-Defer-Length")
         else if is_some (cq_upload_length request) && cq_upload_defer_length request then
           Err (Error.InvalidHeader "Upload-Defer-Length"
                  "Upload-Length and Upload-Defer-Length are mutually exclusive")
         else if cq_upload_defer_length request
                 && negb (has_extension config Extension.CreationDeferLength) then
           Err (Error.ExtensionNotSupported "creation-defer-length")
         else if cq_upload_defer_length request && negb (allow_empty_creation config)
                 && negb (cq_has_body request) then
           Err (Error.ExtensionNotSupported "creation-defer-length")
         else Ok tt) in
    if cq_has_body request && negb (has_extension config Extension.CreationWithUpload) then
      Err (Error.ExtensionNotSupported "creation-with-upload")
    else if negb (cq_has_body request) && negb is_final_upload
            && negb (allow_empty_creation config) then
      Err (Error.InvalidHeader "Upload-Length" "empty creation requests are disabled")
    else
      match cq_upload_length request, max_size config with
      | Some length, Some max =>
          if max <? length then Err (Error.SizeExceeded length max) else Ok tt
      | _, _ => Ok tt
      end.

Section lifecycle.
Context {S St L H E : Type}.
Context `{!Storage S, !StateStore St, !Locker L, !HookExecutor H, !Env E}.
Local Abbreviation W := (World S St L H E).

(** Rejects protocol-expired uploads. *)
Definition ensure_active (state : UploadState) : M W unit :=
  let! expired := is_expired state in
  if (expired : bool) then throw (Error.Expired (UploadState.id state)) else ret tt.

(** [PreHookGate::run] *)
Definition run_gate (g : PreHookGate) (request_info : HookRequestInfo) (state : UploadState)
    : M W PreHookOutcome :=
  let ctx := HookContext_new (gate_event g) state request_info in
  let! result := on_hooks (execute_pre ctx) in
  if negb (ph_proceed result) then throw (rejection_error result)
  else ret (gate_outcome g result state).

(** [UploadCompletion] *)
Definition finish_gate (request_info : HookRequestInfo) (state : UploadState) : M W unit :=
  do! run_gate GateFinish request_info state in
  ret tt.

Definition after_commit (request_info : HookRequestInfo) (state : UploadState) : M W unit :=
  execute_post_best_effort (HookContext_new HookEvent.PostFinish state request_info).

Definition after_commit_if_complete (request_info : HookRequestInfo) (state : UploadState)
    : M W unit :=
  if UploadState.is_complete state then after_commit request_info state else ret tt.

Definition run_post_event (event : HookEvent.t) (request_info : HookRequestInfo)
    (state : UploadState) : M W unit :=
  execute_post_best_effort (HookContext_new event state request_info).

(** [UploadTerminator::terminate]; the result is the response headers. *)
Definition terminate (request_info : HookRequestInfo) (state : UploadState)
    : M W (gmap string string) :=
  let! pre_terminate := run_gate GateTerminate request_info state in
  let response_headers := po_response_headers pre_terminate in
  do! match UploadState.storage_handle state with
      | Some handle => on_storage (storage_delete handle)
      | None => ret tt
      end in
  do! on_states (state_delete (UploadState.id state)) in
  do! run_post_event HookEvent.PostTerminate request_info state in
  ret response_headers.

(** ** Recovery *)

Definition size_exceeds_length (actual_offset length : N) (state : UploadState) : Error.t :=
  Error.Internal ("storage size " ++ u64_to_string actual_offset
    ++ " exceeds declared length " ++ u64_to_string length
    ++ " for upload " ++ UploadState.id state).

Definition detect_stored_completion (state : UploadState) : M W (option N) :=
  if UploadState.is_complete state || UploadState.is_partial state then ret None
  else match UploadState.length state with
  | None => ret None
  | Some length =>
      match UploadState.storage_handle state with
      | None => ret None
      | Some handle =>
          let! size := on_storage (storage_size handle) in
          let actual_offset := default 0 size in
          if length <? actual_offset then
            throw (size_exceeds_length actual_offset length state)
          else if negb (actual_offset =? length) then ret None
          else ret (Some length)
      end
  end.

Definition stored_bytes_complete_upload (state : UploadState) : M W bool :=
  let! o := detect_stored_completion state in
  ret (is_some o).

(** Functions with a [&mut UploadState] argument run over [UploadState * W]. *)
Definition reconcile_stored_completion (request_info : HookRequestInfo)
    : M (UploadState * W) bool :=
  let! state := get_local in
  let! detected := lift (detect_stored_completion state) in
  match detected with
  | None => ret false
  | Some length =>
      do! lift (finish_gate request_info (UploadState.set_offset length state)) in
      do! modify_local (UploadState.set_offset length) in
      let! state := get_local in
      do! lift (on_states (state_set state Update)) in
      do! lift (after_commit request_info state) in
      ret true
  end.

Definition reconcile_storage_offset : M (UploadState * W) unit :=
  let! state := get_local in
  let! actual_offset :=
    lift match UploadState.storage_handle state with
         | Some handle =>
             let! size := on_storage (storage_size handle) in
             ret (default 0 size)
         | None => ret 0
         end in
  if actual_offset =? UploadState.offset state then ret tt
  else
    do! match UploadState.length state with
        | Some length =>
            if length <? actual_offset
            then throw (size_exceeds_length actual_offset length state)
            else ret tt
        | None => ret tt
        end in
    do! modify_local (UploadState.set_offset actual_offset) in
    let! state := get_local in
    lift (on_states (state_set state Update)).

Definition reconcile_state_offset : M (UploadState * W) unit := reconcile_storage_offset.

(** ** [prepare_creation] *)

Context `{Chrono}.

(** [UploadState::new_random] *)
Definition new_random : M W UploadState :=
  let! id := on_env new_v4 in
  let! now := on_env utc_now in
  ret (UploadState.new id now).

Definition prepare_creation (config : Config) (request : CreationRequest)
    : M W CreationTransition :=
  do! of_outcome (validate_creation config request) in
  let! state := new_random in
  let state :=
    match cq_upload_length request with
    | Some length => UploadState.set_length length state
    | None => state
    end in
  let state :=
    match cq_upload_metadata request with
    | Some metadata => UploadState.set_metadata metadata state
    | None => state
    end in
  let! state :=
    match expiration config with
    | Some d =>
        match chrono_from_std d with
        | inl error => throw (Error.Internal error)
        | inr d =>
            let! now := on_env utc_now in
            match datetime_add now d with
            | Some deadline => ret (UploadState.set_expiration deadline state)
            | None => panic
            end
        end
    | None => ret state
    end in
  match cq_upload_concat request with
  | Some Partial => ret (TransitionUpload (UploadState.mark_partial state))
  | Some (Final part_urls) => ret (TransitionFinal state part_urls)
  | None => ret (TransitionUpload state)
  end.
End lifecycle.
