(* ===== verification/Intake.v ===== *)
(** * Body intake ([protocol/body.rs], [lifecycle/receive/body.rs])

    Turning a request body and its headers into validated upload bytes: buffered
    collection, the validating stream used when the length is declared, checksum
    verification in one piece and incrementally, and the limits enforced on the
    way. *)

From S2P Require Import Prelude Text Errors Crates Config State Headers Hooks Backends.
Local Open Scope string_scope.
Local Open Scope N_scope.
Local Open Scope prog_scope.

Section intake.
Context `{HttpLib, Base64, Digests}.

(** ** Request bodies *)

Inductive BodyFrame :=
| Data (b : bytes)
| Trailers (headers : HeaderMap).

(** Frames as the adapter delivers them; an [io::Error] is its display text. *)
Definition BodyStream := list (string + BodyFrame).

Inductive RequestBody :=
| Absent
| BodyBytes (b : bytes)
| BodyStreamed (s : BodyStream).

Definition is_supplied (b : RequestBody) : bool :=
  match b with Absent => false | _ => true end.

(** [RequestBody::from_chunk_stream] *)
Definition from_chunk_stream (c : ChunkStream) : RequestBody :=
  match c with
  | Buffered b => BodyBytes b
  | Streamed s =>
      BodyStreamed (map (fun i => match si_chunk i with inl e => inl e | inr b => inr (Data b) end) s)
  end.

Record IntakeBody := {
  ib_data : ChunkStream;
  ib_size : N;
  ib_supplied : bool;
  ib_deferred_error : DeferredBodyError;
}.

(** ** Limits and lengths *)

Definition enforce_body_limit (current_len next_len : N) (body_limit : option N)
    : result unit :=
  match body_limit with
  | None => Ok tt
  | Some limit =>
      let next_total := saturating_add current_len next_len in
      if limit <? next_total then Err (Error.SizeExceeded next_total limit) else Ok tt
  end.

Definition content_length_mismatch (content_length actual_len : N) : Error.t :=
  Error.InvalidHeader "Content-Length"
    ("declared content length " ++ u64_to_string content_length
      ++ " does not match body size " ++ u64_to_string actual_len).

Definition validate_content_length (headers : Headers) (actual_len : N) : result unit :=
  match h_content_length headers with
  | Some content_length =>
      if negb (content_length =? actual_len)
      then Err (content_length_mismatch content_length actual_len) else Ok tt
  | None => Ok tt
  end.

(** ** Checksums *)

Definition validate_checksum_algorithm (config : Config) (a : ChecksumAlgorithm.t)
    : result unit :=
  if has_extension config Extension.Checksum && negb (supports_checksum_algorithm config a)
  then Err (Error.UnsupportedChecksum (ChecksumAlgorithm.as_str a)) else Ok tt.

Definition effective_checksum (config : Config) (headers : Headers)
    (trailers : option HeaderMap) : result (option UploadChecksum) :=
  match h_upload_checksum headers with
  | Some c => Ok (Some c)
  | None =>
      if negb (has_extension config Extension.ChecksumTrailer) then Ok None
      else match trailers with
           | Some t => parse_upload_checksum t
           | None => Ok None
           end
  end.

Definition checksum_mismatch (expected calculated : bytes) : Error.t :=
  Error.ChecksumMismatch (b64_encode expected) (b64_encode calculated).

Definition verify_checksum (config : Config) (checksum : option UploadChecksum) (body : bytes)
    : result unit :=
  match checksum with
  | None => Ok tt
  | Some c =>
      if negb (has_extension config Extension.Checksum) then Ok tt
      else
        check? validate_checksum_algorithm config (uc_algorithm c) in
        let calculated := calculate (uc_algorithm c) body in
        if negb (bool_decide (calculated = uc_digest c))
        then Err (checksum_mismatch (uc_digest c) calculated) else Ok tt
  end.

(** [hashers.into_iter().find(..)] *)
Fixpoint find_hasher (a : ChecksumAlgorithm.t) (hs : list Hasher) : option Hasher :=
  match hs with
  | [] => None
  | h :: hs => if bool_decide (Hasher_algorithm h = a) then Some h else find_hasher a hs
  end.

Definition verify_streamed_checksum (config : Config) (checksum : option UploadChecksum)
    (hashers : list Hasher) : result unit :=
  match checksum with
  | None => Ok tt
  | Some c =>
      if negb (has_extension config Extension.Checksum) then Ok tt
      else
        check? validate_checksum_algorithm config (uc_algorithm c) in
        match find_hasher (uc_algorithm c) hashers with
        | None =>
            Err (Error.Internal
              ("no streaming digest was computed for checksum algorithm "
                ++ ChecksumAlgorithm.as_str (uc_algorithm c)))
        | Some h =>
            let calculated := Hasher_finalize h in
            if negb (bool_decide (calculated = uc_digest c))
            then Err (checksum_mismatch (uc_digest c) calculated) else Ok tt
        end
  end.

Definition validate_before_polling (config : Config) (headers : Headers)
    (body_limit : option N) : result unit :=
  check?
    (if has_extension config Extension.Checksum then
       match h_upload_checksum_error headers with
       | Some deferred => Err (UploadChecksumParseError_to_error deferred)
       | None =>
           match h_upload_checksum headers with
           | Some c => validate_checksum_algorithm config (uc_algorithm c)
           | None => Ok tt
           end
       end
     else Ok tt) in
  match h_content_length headers, body_limit with
  | Some content_length, Some limit =>
      if limit <? content_length then Err (Error.SizeExceeded content_length limit) else Ok tt
  | _, _ => Ok tt
  end.

(** ** Buffered collection *)

Definition collect_buffered (config : Config) (headers : Headers) (body_limit : option N)
    (supplied : bool) (body : bytes) (trailers : option HeaderMap) : result IntakeBody :=
  check? enforce_body_limit 0 (bytes_len body) body_limit in
  check? validate_content_length headers (bytes_len body) in
  let? checksum := effective_checksum config headers trailers in
  check? verify_checksum config checksum body in
  Ok {| ib_data := Buffered body; ib_size := bytes_len body; ib_supplied := supplied;
        ib_deferred_error := None |}.

(** The polling loop of [collect_frames]. *)
Fixpoint collect_stream (frames : BodyStream) (body_limit : option N) (buffer : bytes)
    (trailers : option HeaderMap) : result (bytes * option HeaderMap) :=
  match frames with
  | [] => Ok (buffer, trailers)
  | inl e :: _ => Err (Error.Io e)
  | inr (Data b) :: frames =>
      check? enforce_body_limit (bytes_len buffer) (bytes_len b) body_limit in
      collect_stream frames body_limit (buffer ++ b)%list trailers
  | inr (Trailers headers) :: frames =>
      collect_stream frames body_limit buffer (Some headers)
  end.

Definition collect_frames (body : RequestBody) (body_limit : option N)
    : result (bytes * option HeaderMap) :=
  match body with
  | Absent => Ok ([], None)
  | BodyBytes b => check? enforce_body_limit 0 (bytes_len b) body_limit in Ok (b, None)
  | BodyStreamed frames => collect_stream frames body_limit [] None
  end.

(** ** The validating stream *)

Record BodyPolicy := {
  bp_config : Config;
  bp_headers : Headers;
  bp_body_limit : option N;
}.

Record StreamingBodyState := {
  sb_stream : BodyStream;
  sb_policy : BodyPolicy;
  sb_bytes_seen : N;
  sb_trailers : option HeaderMap;
  sb_done : bool;
  sb_hashers : list Hasher;
}.

Definition streaming_hashers (policy : BodyPolicy) : list Hasher :=
  if negb (has_extension (bp_config policy) Extension.Checksum) then []
  else match h_upload_checksum (bp_headers policy) with
  | Some c => [Hasher_new (uc_algorithm c)]
  | None =>
      if has_extension (bp_config policy) Extension.ChecksumTrailer
      then map Hasher_new (checksum_algorithms (bp_config policy))
      else []
  end.

(** [StreamingBodyState::new] *)
Definition StreamingBodyState_new (stream : BodyStream) (policy : BodyPolicy)
    : StreamingBodyState := {|
  sb_stream := stream; sb_policy := policy; sb_bytes_seen := 0; sb_trailers := None;
  sb_done := false; sb_hashers := streaming_hashers policy |}.

Definition sb_with_stream (s : BodyStream) (st : StreamingBodyState) : StreamingBodyState := {|
  sb_stream := s; sb_policy := sb_policy st; sb_bytes_seen := sb_bytes_seen st;
  sb_trailers := sb_trailers st; sb_done := sb_done st; sb_hashers := sb_hashers st |}.

Definition sb_with_trailers (t : HeaderMap) (st : StreamingBodyState) : StreamingBodyState := {|
  sb_stream := sb_stream st; sb_policy := sb_policy st; sb_bytes_seen := sb_bytes_seen st;
  sb_trailers := Some t; sb_done := sb_done st; sb_hashers := sb_hashers st |}.

Definition sb_finished (st : StreamingBodyState) : StreamingBodyState := {|
  sb_stream := sb_stream st; sb_policy := sb_policy st; sb_bytes_seen := sb_bytes_seen st;
  sb_trailers := sb_trailers st; sb_done := true; sb_hashers := sb_hashers st |}.

Definition accept_data (b : bytes) (st : StreamingBodyState) : result StreamingBodyState :=
  let next_size := saturating_add (sb_bytes_seen st) (bytes_len b) in
  check?
    match bp_body_limit (sb_policy st) with
    | Some limit =>
        if limit <? next_size then Err (Error.SizeExceeded next_size limit) else Ok tt
    | None => Ok tt
    end in
  check?
    match h_content_length (bp_headers (sb_policy st)) with
    | Some content_length =>
        if content_length <? next_size
        then Err (content_length_mismatch content_length next_size) else Ok tt
    | None => Ok tt
    end in
  Ok {| sb_stream := sb_stream st; sb_policy := sb_policy st; sb_bytes_seen := next_size;
        sb_trailers := sb_trailers st; sb_done := sb_done st;
        sb_hashers := map (fun h => Hasher_update h b) (sb_hashers st) |}.

(** [StreamingBodyState::finish]: validation at the end of the stream. *)
Definition sb_finish (st : StreamingBodyState) : result unit :=
  check? validate_content_length (bp_headers (sb_policy st)) (sb_bytes_seen st) in
  let? checksum :=
    effective_checksum (bp_config (sb_policy st)) (bp_headers (sb_policy st)) (sb_trailers st) in
  verify_streamed_checksum (bp_config (sb_policy st)) checksum (sb_hashers st).

(** [store_validation_error]: the error goes to the shared cell, its text to
    the stream's consumer as an [io::Error]. *)
Definition store_validation_error (e : Error.t) : StreamItem :=
  {| si_chunk := inl (Error.to_string e); si_deferred := Some e |}.

(** The polling loop of [next_chunk]; [None] ends the stream. *)
Fixpoint next_chunk_loop (frames : BodyStream) (st : StreamingBodyState)
    : option StreamItem * StreamingBodyState :=
  match frames with
  | [] =>
      let st := sb_finished (sb_with_stream [] st) in
      match sb_finish st with
      | Ok _ => (None, st)
      | Err error => (Some (store_validation_error error), st)
      | Panic => (None, st)
      end
  | inl error :: frames =>
      (Some {| si_chunk := inl error; si_deferred := Some (Error.Internal error) |},
       sb_finished (sb_with_stream frames st))
  | inr (Data b) :: frames =>
      let st := sb_with_stream frames st in
      match accept_data b st with
      | Ok st => (Some {| si_chunk := inr b; si_deferred := None |}, st)
      | Err error => (Some (store_validation_error error), sb_finished st)
      | Panic => (None, st)
      end
  | inr (Trailers headers) :: frames => next_chunk_loop frames (sb_with_trailers headers st)
  end.

Definition next_chunk (st : StreamingBodyState) : option StreamItem * StreamingBodyState :=
  if sb_done st then (None, st) else next_chunk_loop (sb_stream st) st.

(** [stream::unfold(state, next_chunk)], polled to its end. *)
Fixpoint unfold_stream (fuel : nat) (st : StreamingBodyState) : ByteStream :=
  match fuel with
  | O => []
  | S fuel =>
      match next_chunk st with
      | (None, _) => []
      | (Some item, st) => item :: unfold_stream fuel st
      end
  end.

(** Each poll consumes a frame or ends the stream: one more poll than frames
    is enough (see [unfold_stream_fuel]). *)
Definition validated_stream (config : Config) (headers : Headers) (body_limit : option N)
    (stream : BodyStream) : ByteStream :=
  unfold_stream (Datatypes.S (length stream))
    (StreamingBodyState_new stream
       {| bp_config := config; bp_headers := headers; bp_body_limit := body_limit |}).

(** ** [body::prepare] *)
Definition prepare_body (config : Config) (headers : Headers) (body_limit : option N)
    (body : RequestBody) : result IntakeBody :=
  let supplied := is_supplied body in
  check? validate_before_polling config headers body_limit in
  match body with
  | Absent => collect_buffered config headers body_limit supplied [] None
  | BodyBytes b => collect_buffered config headers body_limit supplied b None
  | BodyStreamed stream =>
      match h_content_length headers with
      | Some content_length =>
          Ok {| ib_data := Streamed (validated_stream config headers body_limit stream);
                ib_size := content_length;
                ib_supplied := supplied;
                ib_deferred_error := None |}
      | None =>
          match min_some [body_limit; max_intake_buffer config] with
          | None => Err Error.LengthRequired
          | Some effective_limit =>
              let? (body, trailers) :=
                collect_frames (BodyStreamed stream) (Some effective_limit) in
              collect_buffered config headers (Some effective_limit) supplied body trailers
          end
      end
  end.
End intake.
