(* ===== verification/Receive.v ===== *)
(** * Byte receive ([lifecycle/receive.rs])

    Accepting request bytes for an upload, by [PATCH] or Creation-With-Upload:
    preflight checks, the hook gate and body intake, the projection of the new
    offset, the commit to storage and state, and the rollback of a creation whose
    initial bytes could not be accepted. *)

From S2P Require Import Prelude Text Errors Crates Config State Headers Hooks Backends Lifecycle.
From S2P Require Import Intake.
Local Open Scope string_scope.
Local Open Scope N_scope.
Local Open Scope prog_scope.

Record ReceiveRequest := {
  rq_client_offset : N;
  rq_upload_length : option N;
}.

Record ReceiveProjection := {
  projected_offset : N;
  completes_upload : bool;
}.

Inductive ReceiveBodyKind := KindPatch | KindCreationWithUpload.

Record PreparedReceiveBody := {
  pr_data : ChunkStream;
  pr_projection : ReceiveProjection;
  pr_response_headers : gmap string string;
  pr_deferred_error : DeferredBodyError;
}.

(** ** Limits and projections *)

Definition receive_body_size_limit (config : Config) (state : UploadState) : option N :=
  min_some
    [ max_chunk_size config;
      (fun m => saturating_sub m (UploadState.offset state)) <$> max_size config;
      (fun l => saturating_sub l (UploadState.offset state)) <$> UploadState.length state ].

Definition creation_with_upload_body_size_limit (config : Config) (state : UploadState)
    : option N :=
  min_some
    [ (fun m => saturating_sub m (UploadState.offset state)) <$> max_size config;
      (fun l => saturating_sub l (UploadState.offset state)) <$> UploadState.length state ].

Definition receive_body_limit (config : Config) (state : UploadState) (kind : ReceiveBodyKind)
    : option N :=
  match kind with
  | KindPatch => receive_body_size_limit config state
  | KindCreationWithUpload => creation_with_upload_body_size_limit config state
  end.

Definition validate_receive_body (config : Config) (state : UploadState) (body_len : N)
    : result ReceiveProjection :=
  check?
    match max_chunk_size config with
    | Some max_chunk =>
        if max_chunk <? body_len then Err (Error.SizeExceeded body_len max_chunk) else Ok tt
    | None => Ok tt
    end in
  let projected := saturating_add (UploadState.offset state) body_len in
  check?
    match max_size config with
    | Some max => if max <? projected then Err (Error.SizeExceeded projected max) else Ok tt
    | None => Ok tt
    end in
  check?
    match UploadState.length state with
    | Some length =>
        if length <? projected then Err (Error.SizeExceeded projected length) else Ok tt
    | None => Ok tt
    end in
  Ok {| projected_offset := projected;
        completes_upload :=
          match UploadState.length state with
          | Some length => projected =? length
          | None => false
          end |}.

Definition validate_creation_with_upload_body (config : Config) (state : UploadState)
    (body_len : N) : result ReceiveProjection :=
  let projected := saturating_add (UploadState.offset state) body_len in
  check?
    match max_size config with
    | Some max => if max <? projected then Err (Error.SizeExceeded projected max) else Ok tt
    | None => Ok tt
    end in
  check?
    match UploadState.length state with
    | Some length =>
        if length <? projected then Err (Error.SizeExceeded projected length) else Ok tt
    | None => Ok tt
    end in
  Ok {| projected_offset := projected;
        completes_upload :=
          match UploadState.length state with
          | Some length => projected =? length
          | None => false
          end |}.

Definition validate_body_for_receive (config : Config) (state : UploadState) (body_len : N)
    (kind : ReceiveBodyKind) : result ReceiveProjection :=
  match kind with
  | KindPatch => validate_receive_body config state body_len
  | KindCreationWithUpload => validate_creation_with_upload_body config state body_len
  end.

Definition apply_receive_commit (projection : ReceiveProjection) (handle : StorageHandle)
    (state : UploadState) : UploadState :=
  UploadState.set_offset (projected_offset projection)
    (UploadState.set_storage_handle handle state).

(** The upload-length part of [prepare_receive]: a deferred length is fixed once. *)
Definition apply_upload_length (config : Config) (upload_length : option N)
    (state : UploadState) : result UploadState :=
  match upload_length with
  | None => Ok state
  | Some length =>
      match UploadState.length state with
      | Some existing =>
          if negb (length =? existing) then
            Err (Error.InvalidHeader "Upload-Length"
              ("cannot change Upload-Length after it is set (existing: "
                ++ u64_to_string existing ++ ", provided: " ++ u64_to_string length ++ ")"))
          else Ok state
      | None =>
          check?
            match max_size config with
            | Some max =>
                if max <? length then Err (Error.SizeExceeded length max) else Ok tt
            | None => Ok tt
            end in
          Ok (UploadState.set_length length state)
      end
  end.

Section receive.
Context {S St L H E : Type}.
Context `{!Storage S, !StateStore St, !HookExecutor H, !Env E}.
Context `{HttpLib, Base64, Digests}.
Local Abbreviation W := (World S St L H E).

Definition prepare_receive (config : Config) (request : ReceiveRequest)
    : M (UploadState * W) unit :=
  let! state := get_local in
  do! lift (ensure_active state) in
  if UploadState.is_final state then
    throw (Error.FinalUploadModificationForbidden (UploadState.id state))
  else if UploadState.is_complete state then
    throw (Error.CompletedUploadModificationForbidden (UploadState.id state))
  else if negb (rq_client_offset request =? UploadState.offset state) then
    throw (Error.OffsetMismatch (UploadState.offset state) (rq_client_offset request))
  else
    let! state := of_outcome (apply_upload_length config (rq_upload_length request) state) in
    set_local state.

Definition collect_receive_body (config : Config) (headers : Headers) (state : UploadState)
    (request_body : RequestBody) (kind : ReceiveBodyKind) : result IntakeBody :=
  prepare_body config headers (receive_body_limit config state kind) request_body.

Definition prepare_receive_body (config : Config) (request_info : HookRequestInfo)
    (headers : Headers) (request_body : RequestBody) (kind : ReceiveBodyKind)
    : M (UploadState * W) PreparedReceiveBody :=
  let! state := get_local in
  let! pre_receive := lift (run_gate GateReceive request_info state) in
  let response_headers := po_response_headers pre_receive in
  do! set_local (po_state pre_receive) in
  let! state := get_local in
  let! collected := of_outcome (collect_receive_body config headers state request_body kind) in
  do! debug_assert (match kind with
                    | KindCreationWithUpload => ib_supplied collected
                    | KindPatch => true
                    end) in
  let! projection :=
    of_outcome (validate_body_for_receive config state (ib_size collected) kind) in
  ret {| pr_data := ib_data collected; pr_projection := projection;
         pr_response_headers := response_headers;
         pr_deferred_error := ib_deferred_error collected |}.

Definition commit_receive_body (prepared : PreparedReceiveBody) : M (UploadState * W) unit :=
  let! state := get_local in
  let! handle := of_outcome (UploadState.require_storage_handle state) in
  let request := {|
    ar_handle := handle;
    ar_expected_offset := UploadState.offset state;
    ar_data := pr_data prepared;
    ar_completes_upload := completes_upload (pr_projection prepared) |} in
  let! (appended, deferred_error) :=
    lift (borrow (pr_deferred_error prepared)
            (attempt (on_storage_cell (storage_append request)))) in
  match appended with
  | inl error => throw (default error deferred_error)
  | inr handle =>
      match deferred_error with
      | Some error => throw error
      | None =>
          do! modify_local (apply_receive_commit (pr_projection prepared) handle) in
          let! state := get_local in
          lift (on_states (state_set state Update))
      end
  end.

(** [ByteReceiver::receive_patch]; the result is the response headers. *)
Definition receive_patch (config : Config) (request_info : HookRequestInfo)
    (headers : Headers) (request : ReceiveRequest) (request_body : RequestBody)
    : M (UploadState * W) (gmap string string) :=
  do! prepare_receive config request in
  let! prepared := prepare_receive_body config request_info headers request_body KindPatch in
  let response_headers := pr_response_headers prepared in
  let completes := completes_upload (pr_projection prepared) in
  do! commit_receive_body prepared in
  let! state := get_local in
  do! lift (run_post_event HookEvent.PostReceive request_info state) in
  do! (if completes then
         do! lift (finish_gate request_info state) in
         lift (after_commit request_info state)
       else ret tt) in
  ret response_headers.

Definition rollback_storage (state : UploadState) : M W unit :=
  match UploadState.storage_handle state with
  | Some handle =>
      do! attempt (on_storage (storage_delete handle)) in
      ret tt
  | None => ret tt
  end.

Definition rollback_creation (state : UploadState) : M W unit :=
  do! rollback_storage state in
  do! attempt (on_states (state_delete (UploadState.id state))) in
  ret tt.

(** The part of [receive_creation_with_upload] after [PreCreate], over its
    [let mut state]. *)
Definition receive_initial_bytes (config : Config) (request_info : HookRequestInfo)
    (headers : Headers) (request_body : RequestBody) (response_headers : gmap string string)
    : M (UploadState * W) (gmap string string) :=
  let! prepared :=
    prepare_receive_body config request_info headers request_body KindCreationWithUpload in
  let response_headers := pr_response_headers prepared ∪ response_headers in
  let! state := get_local in
  let! handle := lift (on_storage (storage_create (UploadState.id state))) in
  do! modify_local (UploadState.set_storage_handle handle) in
  let! state := get_local in
  let! created := lift (attempt (on_states (state_set state CreateNew))) in
  match created with
  | inl err =>
      do! lift (rollback_storage state) in
      throw err
  | inr _ =>
      let! committed := attempt (commit_receive_body prepared) in
      let! state := get_local in
      match committed with
      | inl err =>
          do! lift (rollback_creation state) in
          throw err
      | inr _ =>
          do! (if UploadState.is_complete state then
                 let! finished := lift (attempt (finish_gate request_info state)) in
                 match finished with
                 | inl err =>
                     do! lift (rollback_creation state) in
                     throw err
                 | inr _ => ret tt
                 end
               else ret tt) in
          do! lift (run_post_event HookEvent.PostCreate request_info state) in
          do! lift (run_post_event HookEvent.PostReceive request_info state) in
          do! lift (after_commit_if_complete request_info state) in
          ret response_headers
      end
  end.

(** [ByteReceiver::receive_creation_with_upload]: response headers and state. *)
Definition receive_creation_with_upload (config : Config) (request_info : HookRequestInfo)
    (headers : Headers) (state : UploadState) (request_body : RequestBody)
    : M W (gmap string string * UploadState) :=
  let! pre_create := run_gate GateCreate request_info state in
  borrow (po_state pre_create)
    (receive_initial_bytes config request_info headers request_body
       (po_response_headers pre_create)).
End receive.
