(* ===== verification/FinalUpload.v ===== *)
(** * Final upload materialization ([lifecycle/final_upload.rs])

    Planning a final upload from its partial uploads, locking the parts while
    storage concatenates them, creating the final record, and the repair and
    recovery a read performs on a planned final upload. *)

From S2P Require Import Prelude Text Errors Crates Config State Headers Hooks Backends Lifecycle.
Local Open Scope string_scope.
Local Open Scope N_scope.
Local Open Scope prog_scope.

Record FinalUploadStatus := {
  fs_total_length : option N;
  fs_current_offset : N;
  fs_all_complete : bool;
}.

Definition expected_offset (s : FinalUploadStatus) : N :=
  if fs_all_complete s then default (fs_current_offset s) (fs_total_length s)
  else fs_current_offset s.

Definition ready_to_materialize (s : FinalUploadStatus) : bool :=
  fs_all_complete s && is_some (fs_total_length s).

Record FinalUploadPlan := {
  fp_part_ids : list string;
  fp_parts : list UploadState;
  fp_status : FinalUploadStatus;
}.

Record CreatedFinalUpload := {
  cf_state : UploadState;
  cf_status : FinalUploadStatus;
  cf_response_headers : gmap string string;
}.

Record FinalUploadResponseFacts := {
  rf_offset : option N;
  rf_length : option N;
}.

Definition response_facts (c : CreatedFinalUpload) : FinalUploadResponseFacts := {|
  rf_offset :=
    if fs_all_complete (cf_status c) then Some (UploadState.offset (cf_state c)) else None;
  rf_length := UploadState.length (cf_state c);
|}.

Definition enforce_final_upload_size (config : Config) (status : FinalUploadStatus)
    : result unit :=
  match fs_total_length status, max_size config with
  | Some total, Some max => if max <? total then Err (Error.SizeExceeded total max) else Ok tt
  | _, _ => Ok tt
  end.

Definition apply_final_upload_plan (part_ids : list string) (status : FinalUploadStatus)
    (state : UploadState) : UploadState :=
  let state := UploadState.mark_final part_ids state in
  let state :=
    match fs_total_length status with
    | Some total_length => UploadState.set_length total_length state
    | None => state
    end in
  UploadState.set_offset (expected_offset status) state.

(** [parts.iter().filter_map(expires_at).min()] *)
Fixpoint earliest_expiration (parts : list UploadState) : option DateTime :=
  match parts with
  | [] => None
  | p :: parts =>
      match UploadState.expires_at p, earliest_expiration parts with
      | Some e, Some m => Some (Z.min e m)
      | Some e, None => Some e
      | None, m => m
      end
  end.

Definition cap_planned_final_upload_expiration (parts : list UploadState) (state : UploadState)
    : UploadState :=
  if UploadState.is_complete state then state
  else match earliest_expiration parts with
  | None => state
  | Some earliest =>
      let should_cap :=
        match UploadState.expires_at state with
        | Some expires_at => (earliest <? expires_at)%Z
        | None => true
        end in
      if should_cap then UploadState.set_expiration earliest state else state
  end.

(** [parts.iter().map(require_storage_handle).collect()] *)
Fixpoint storage_handles (parts : list UploadState) : result (list StorageHandle) :=
  match parts with
  | [] => Ok []
  | p :: parts =>
      let? h := UploadState.require_storage_handle p in
      let? hs := storage_handles parts in
      Ok (h :: hs)
  end.

(** Extracts an upload id from a part URL of [Upload-Concat: final;...]. *)
Definition extract_partial_id (url base_path : string) : option string :=
  let path :=
    match split_once "://" url with
    | Some (_, rest) => find_from "/" rest
    | None => Some url
    end in
  match path with
  | None => None
  | Some path =>
      let path := take_until (fun c => Ascii.eqb c "?" || Ascii.eqb c "#") path in
      let expected_prefix :=
        if ends_with_char "/" base_path then base_path else base_path ++ "/" in
      match str_strip_prefix expected_prefix path with
      | None => None
      | Some id =>
          if is_empty id || contains_char "/" id then None
          else match UploadId_from_str id with Ok id => Some id | _ => None end
      end
  end.

Section final_upload.
Context {S St L H E : Type}.
Context `{!Storage S, !StateStore St, !Locker L, !HookExecutor H, !Env E}.
Local Abbreviation W := (World S St L H E).

(** ** Summaries and plans *)

(** The loop of [summarize_final_parts] with its four locals. *)
Fixpoint summarize_loop (parts : list UploadState) (total_length current_offset : N)
    (all_complete length_known : bool) : M W FinalUploadStatus :=
  match parts with
  | [] =>
      ret {| fs_total_length := if length_known then Some total_length else None;
             fs_current_offset := current_offset;
             fs_all_complete := all_complete && length_known |}
  | p :: parts =>
      let! expired := is_expired p in
      if (expired : bool) then throw (Error.Expired (UploadState.id p))
      else
        let current_offset := saturating_add current_offset (UploadState.offset p) in
        let '(total_length, all_complete, length_known) :=
          match UploadState.length p with
          | Some l => (saturating_add total_length l, all_complete, length_known)
          | None => (total_length, false, false)
          end in
        let all_complete := if UploadState.is_complete p then all_complete else false in
        summarize_loop parts total_length current_offset all_complete length_known
  end.

Definition summarize_final_parts (parts : list UploadState) : M W FinalUploadStatus :=
  summarize_loop parts 0 0 true true.

(** The loop of [load_final_upload_plan] over the part URLs. *)
Fixpoint load_plan_loop (config : Config) (part_urls : list string)
    : M W (list string * list UploadState) :=
  match part_urls with
  | [] => ret ([], [])
  | url :: part_urls =>
      let! id :=
        match extract_partial_id url (base_path config) with
        | Some id => ret id
        | None =>
            throw (Error.InvalidHeader "Upload-Concat"
              ("partial URL not under base path " ++ debug_str (base_path config)
                ++ ": " ++ url))
        end in
      let! found := on_states (state_get id) in
      match found with
      | None =>
          throw (Error.InvalidHeader "Upload-Concat" ("partial upload not found: " ++ id))
      | Some part_state =>
          if negb (UploadState.is_partial part_state) then throw (Error.NotPartialUpload id)
          else if negb (UploadState.is_complete part_state)
                  && negb (has_extension config Extension.ConcatenationUnfinished) then
            throw (Error.IncompleteUpload id)
          else
            let! expired := is_expired part_state in
            if (expired : bool) then throw (Error.Expired id)
            else
              let! (part_ids, parts) := load_plan_loop config part_urls in
              ret (id :: part_ids, part_state :: parts)
      end
  end.

Definition load_final_upload_plan (config : Config) (part_urls : list string)
    : M W FinalUploadPlan :=
  let! (part_ids, parts) := load_plan_loop config part_urls in
  let! status := summarize_final_parts parts in
  ret {| fp_part_ids := part_ids; fp_parts := parts; fp_status := status |}.

Fixpoint load_parts_loop (state : UploadState) (part_ids : list string)
    : M W (list UploadState) :=
  match part_ids with
  | [] => ret []
  | part_id :: part_ids =>
      let! found := on_states (state_get part_id) in
      match found with
      | None => throw (Error.Expired (UploadState.id state))
      | Some part_state =>
          let! expired := is_expired part_state in
          if (expired : bool) then throw (Error.Expired (UploadState.id state))
          else
            let! parts := load_parts_loop state part_ids in
            ret (part_state :: parts)
      end
  end.

Definition load_final_upload_status (state : UploadState) : M W (option FinalUploadPlan) :=
  match UploadState.parts state with
  | None => ret None
  | Some part_ids =>
      let! parts := load_parts_loop state part_ids in
      let! summary := attempt (summarize_final_parts parts) in
      match summary with
      | inl (Error.Expired _) => throw (Error.Expired (UploadState.id state))
      | inl err => throw err
      | inr status =>
          ret (Some {| fp_part_ids := part_ids; fp_parts := parts; fp_status := status |})
      end
  end.

(** ** Part locks *)

Definition drop_guards (gs : list LockGuard) (w : W) : W :=
  foldl (fun w g => set_locks (drop_guard g (w_locks w)) w) w gs.

(** The guards taken so far are dropped when a part cannot be locked. *)
Fixpoint lock_parts_loop (ordered : list string) (guards : list LockGuard)
    : M W (list LockGuard) :=
  match ordered with
  | [] => ret guards
  | part_id :: ordered =>
      let! taken := attempt (on_locks (locker_try_lock part_id)) in
      match taken with
      | inl e => do! act (fun w => (tt, drop_guards guards w)) in throw e
      | inr None =>
          do! act (fun w => (tt, drop_guards guards w)) in
          throw (Error.Locked part_id)
      | inr (Some guard) => lock_parts_loop ordered (guards ++ [guard])%list
      end
  end.

Definition lock_parts (part_ids : list string) : M W (list LockGuard) :=
  lock_parts_loop (dedup (sort_strings part_ids)) [].

(** ** Materialization *)

Definition materialize_final_upload (state : UploadState) (parts : list UploadState)
    : M W UploadState :=
  let! target := of_outcome (UploadState.require_storage_handle state) in
  let! handles := of_outcome (storage_handles parts) in
  let! handle := on_storage (storage_concat {| cr_target := target; cr_parts := handles |}) in
  ret (UploadState.set_storage_handle handle state).

Definition rollback_final_upload_storage (state : UploadState) : M W unit :=
  match UploadState.storage_handle state with
  | None => ret tt
  | Some handle =>
      do! attempt (on_storage (storage_delete handle)) in
      ret tt
  end.

Definition final_storage_size (state : UploadState) : M W N :=
  match UploadState.storage_handle state with
  | None => ret 0
  | Some handle =>
      let! size := on_storage (storage_size handle) in
      ret (default 0 size)
  end.

(** ** Creation *)

(** [create_final_upload] once the plan is settled and its locks are held. *)
Definition create_planned_upload (config : Config) (request_info : HookRequestInfo)
    (state : UploadState) (plan : FinalUploadPlan) : M W CreatedFinalUpload :=
  let parts := fp_parts plan in
  let status := fp_status plan in
  do! of_outcome (enforce_final_upload_size config status) in
  let state := apply_final_upload_plan (fp_part_ids plan) status state in
  let state := cap_planned_final_upload_expiration parts state in
  let! pre_create := run_gate GateCreate request_info state in
  let state := po_state pre_create in
  do! (if fs_all_complete status then finish_gate request_info state else ret tt) in
  let! handle := on_storage (storage_create (UploadState.id state)) in
  let state := UploadState.set_storage_handle handle state in
  let! state :=
    if ready_to_materialize status then
      let! materialized := attempt (materialize_final_upload state parts) in
      match materialized with
      | inl err =>
          do! rollback_final_upload_storage state in
          throw err
      | inr state => ret state
      end
    else ret state in
  let! created := attempt (on_states (state_set state CreateNew)) in
  match created with
  | inl err =>
      do! rollback_final_upload_storage state in
      throw err
  | inr _ =>
      do! run_post_event HookEvent.PostCreate request_info state in
      do! (if fs_all_complete status then after_commit request_info state else ret tt) in
      ret {| cf_state := state; cf_status := status;
             cf_response_headers := po_response_headers pre_create |}
  end.

Definition create_final_upload (config : Config) (request_info : HookRequestInfo)
    (state : UploadState) (part_urls : list string) : M W CreatedFinalUpload :=
  let! plan := load_final_upload_plan config part_urls in
  if ready_to_materialize (fp_status plan) then
    let! guards := lock_parts (fp_part_ids plan) in
    with_guards guards
      (let! plan := load_final_upload_plan config part_urls in
       create_planned_upload config request_info state plan)
  else create_planned_upload config request_info state plan.

(** ** Repair on read *)

Record PlannedFinalUploadRefresh := {
  pf_parts : list UploadState;
  pf_status : FinalUploadStatus;
  pf_actual_size : option N;
}.

Definition refresh_inspect (state : UploadState) (parts : list UploadState)
    (status : FinalUploadStatus) : M W PlannedFinalUploadRefresh :=
  let! actual_size :=
    if ready_to_materialize status then
      let! n := final_storage_size state in
      ret (Some n)
    else ret None in
  ret {| pf_parts := parts; pf_status := status; pf_actual_size := actual_size |}.

Definition needs_materialization (r : PlannedFinalUploadRefresh) : bool :=
  match pf_actual_size r, fs_total_length (pf_status r) with
  | Some actual_size, Some total_length => negb (actual_size =? total_length)
  | _, _ => false
  end.

Definition will_complete (r : PlannedFinalUploadRefresh) (state : UploadState) : bool :=
  ready_to_materialize (pf_status r)
  && (negb (UploadState.is_complete state) || needs_materialization r).

(** [expect("ready final upload has total length")] *)
Definition completed_state (r : PlannedFinalUploadRefresh) (state : UploadState)
    : result UploadState :=
  match fs_total_length (pf_status r) with
  | Some total_length =>
      Ok (UploadState.set_offset total_length (UploadState.set_length total_length state))
  | None => Panic
  end.

(** [refresh_length] and [refresh_offset]: the state, and whether it changed. *)
Definition refresh_length (r : PlannedFinalUploadRefresh) (state : UploadState)
    : bool * UploadState :=
  match fs_total_length (pf_status r) with
  | None => (false, state)
  | Some total_length =>
      if bool_decide (UploadState.length state = Some total_length) then (false, state)
      else (true, UploadState.set_length total_length state)
  end.

Definition refresh_offset (r : PlannedFinalUploadRefresh) (state : UploadState)
    : bool * UploadState :=
  let e := expected_offset (pf_status r) in
  if UploadState.offset state =? e then (false, state)
  else (true, UploadState.set_offset e state).

(** [repair_final_upload] once the plan is settled and its locks are held. *)
Definition repair_with_plan (request_info : HookRequestInfo) (plan : FinalUploadPlan)
    : M (UploadState * W) bool :=
  let! state := get_local in
  let! refresh := lift (refresh_inspect state (fp_parts plan) (fp_status plan)) in
  let '(changed, state) := refresh_length refresh state in
  do! set_local state in
  let completes := will_complete refresh state in
  do! (if completes then
         let! completed := of_outcome (completed_state refresh state) in
         lift (finish_gate request_info completed)
       else ret tt) in
  let! changed :=
    if needs_materialization refresh then
      let! state := lift (materialize_final_upload state (pf_parts refresh)) in
      do! set_local state in
      ret true
    else ret changed in
  let! state := get_local in
  let '(offset_changed, state) := refresh_offset refresh state in
  do! set_local state in
  let changed := changed || offset_changed in
  do! (if changed then lift (on_states (state_set state Update)) else ret tt) in
  do! (if completes then lift (after_commit request_info state) else ret tt) in
  ret true.

Definition repair_final_upload (request_info : HookRequestInfo) : M (UploadState * W) bool :=
  let! state := get_local in
  let! loaded := lift (load_final_upload_status state) in
  match loaded with
  | None => ret false
  | Some plan =>
      if ready_to_materialize (fp_status plan) then
        let! guards := lift (lock_parts (fp_part_ids plan)) in
        finally
          (let! fresh := lift (load_final_upload_status state) in
           match fresh with
           | None => ret false
           | Some plan => repair_with_plan request_info plan
           end)
          (fun tw => (tw.1, drop_guards guards tw.2))
      else repair_with_plan request_info plan
  end.

Definition recover_materialized_final_upload : M (UploadState * W) bool :=
  let! state := get_local in
  match UploadState.length state, UploadState.storage_handle state with
  | Some length, Some handle =>
      let! size := lift (on_storage (storage_size handle)) in
      let actual_size := default 0 size in
      if negb (actual_size =? length) then ret false
      else
        do! (if negb (UploadState.offset state =? length) then
               do! modify_local (UploadState.set_offset length) in
               let! state := get_local in
               lift (on_states (state_set state Update))
             else ret tt) in
        ret true
  | _, _ => ret false
  end.

(** [FinalUploadMaterializer::prepare_read] *)
Definition prepare_read (request_info : HookRequestInfo) : M (UploadState * W) bool :=
  let! state := get_local in
  if negb (UploadState.is_final state) then ret false
  else
    let! recovered := recover_materialized_final_upload in
    if (recovered : bool) then ret true
    else
      let! state := get_local in
      do! lift (ensure_active state) in
      do! repair_final_upload request_info in
      ret true.
End final_upload.
