(* ===== verification/Access.v ===== *)
(** * Upload access and reclamation ([lifecycle/access.rs],
    [lifecycle/reclamation.rs])

    What must hold before an upload is mutated, observed, downloaded or
    reclaimed, and the scan that removes protocol-expired uploads. *)

From S2P Require Import Prelude Text Errors Crates Config State Headers Hooks Backends Lifecycle.
From S2P Require Import FinalUpload.
Local Open Scope string_scope.
Local Open Scope N_scope.
Local Open Scope prog_scope.

Record UploadAccessFacts := {
  af_offset : option N;
  af_length : option N;
  af_defer_length : bool;
}.

Definition for_regular_upload (state : UploadState) : UploadAccessFacts := {|
  af_offset := Some (UploadState.offset state);
  af_length := UploadState.length state;
  af_defer_length := negb (is_some (UploadState.length state));
|}.

Definition for_final_upload (state : UploadState) : UploadAccessFacts := {|
  af_offset :=
    if UploadState.is_complete state then Some (UploadState.offset state) else None;
  af_length := UploadState.length state;
  af_defer_length := false;
|}.

(** ** Reclamation reports *)

Inductive ExpiredUploadReclamationOutcome :=
| Removed (upload_id : string)
| OutcomeLocked (upload_id : string)
| MissingState (upload_id : string)
| NoLongerExpired (upload_id : string)
| StorageDeleteFailed (upload_id : string) (error : Error.t)
| StateDeleteFailed (upload_id : string) (error : Error.t)
| Failed (upload_id : string) (error : Error.t).

Definition outcome_upload_id (o : ExpiredUploadReclamationOutcome) : string :=
  match o with
  | Removed id | OutcomeLocked id | MissingState id | NoLongerExpired id
  | StorageDeleteFailed id _ | StateDeleteFailed id _ | Failed id _ => id
  end.

Definition is_failure (o : ExpiredUploadReclamationOutcome) : bool :=
  match o with
  | StorageDeleteFailed _ _ | StateDeleteFailed _ _ | Failed _ _ => true
  | _ => false
  end.

Definition is_removed (o : ExpiredUploadReclamationOutcome) : bool :=
  match o with Removed _ => true | _ => false end.

(** The outcomes in candidate order. *)
Definition ExpiredUploadReclamationReport := list ExpiredUploadReclamationOutcome.

Definition report_removed (r : ExpiredUploadReclamationReport) : nat :=
  length (List.filter is_removed r).

Definition report_has_failures (r : ExpiredUploadReclamationReport) : bool :=
  existsb is_failure r.

Section access.
Context {S St L H E : Type}.
Context `{!Storage S, !StateStore St, !Locker L, !HookExecutor H, !Env E}.
Local Abbreviation W := (World S St L H E).

Definition prepare_regular_upload_access (request_info : HookRequestInfo)
    : M (UploadState * W) unit :=
  do! reconcile_stored_completion request_info in
  let! state := get_local in
  do! lift (ensure_active state) in
  reconcile_state_offset.

Definition prepare_upload_mutation_access (request_info : HookRequestInfo)
    : M (UploadState * W) unit :=
  let! state := get_local in
  if UploadState.is_final state then
    do! lift (ensure_active state) in
    throw (Error.FinalUploadModificationForbidden (UploadState.id state))
  else prepare_regular_upload_access request_info.

(** The [debug_assert!] on [prepare_read]'s answer is checked as in a debug build. *)
Definition prepare_upload_read_access (request_info : HookRequestInfo)
    : M (UploadState * W) UploadAccessFacts :=
  let! state := get_local in
  if UploadState.is_final state then
    let! prepared := prepare_read request_info in
    if negb prepared then panic
    else
      let! state := get_local in
      do! lift (ensure_active state) in
      ret (for_final_upload state)
  else
    do! prepare_regular_upload_access request_info in
    let! state := get_local in
    ret (for_regular_upload state).

Definition prepare_upload_observation_access (request_info : HookRequestInfo)
    : M (UploadState * W) UploadAccessFacts :=
  prepare_upload_read_access request_info.

Definition prepare_upload_download_access (request_info : HookRequestInfo)
    : M (UploadState * W) UploadAccessFacts :=
  let! prepared := prepare_upload_read_access request_info in
  let! state := get_local in
  if negb (UploadState.is_complete state)
  then throw (Error.IncompleteUpload (UploadState.id state))
  else ret prepared.

(** Detects a stored completion without recording it: reclamation has no
    request context to run the finish hooks in. *)
Definition prepare_upload_reclamation_access (state : UploadState) : M W bool :=
  let! complete := stored_bytes_complete_upload state in
  if (complete : bool) then ret false else is_expired state.

(** ** Reclamation *)

(** [reclaim_expired_upload] once the candidate is locked. *)
Definition reclaim_locked_upload (upload_id : string)
    : M W ExpiredUploadReclamationOutcome :=
  let! found := attempt (on_states (state_get upload_id)) in
  match found with
  | inl error => ret (Failed upload_id error)
  | inr None => ret (MissingState upload_id)
  | inr (Some state) =>
      let! access := attempt (prepare_upload_reclamation_access state) in
      match access with
      | inl error => ret (Failed upload_id error)
      | inr false => ret (NoLongerExpired upload_id)
      | inr true =>
          let! deleted :=
            match UploadState.storage_handle state with
            | Some handle => attempt (on_storage (storage_delete handle))
            | None => ret (inr tt)
            end in
          match deleted with
          | inl error => ret (StorageDeleteFailed upload_id error)
          | inr _ =>
              let! removed := attempt (on_states (state_delete (UploadState.id state))) in
              match removed with
              | inl error => ret (StateDeleteFailed upload_id error)
              | inr _ => ret (Removed upload_id)
              end
          end
      end
  end.

Definition reclaim_expired_upload (upload_id : string)
    : M W ExpiredUploadReclamationOutcome :=
  let! locked := attempt (on_locks (locker_try_lock upload_id)) in
  match locked with
  | inl error => ret (Failed upload_id error)
  | inr None => ret (OutcomeLocked upload_id)
  | inr (Some guard) => with_guard guard (reclaim_locked_upload upload_id)
  end.

(** [for upload_id in upload_ids { report.push(..) }] *)
Fixpoint reclaim_loop (upload_ids : list string) (report : ExpiredUploadReclamationReport)
    : M W ExpiredUploadReclamationReport :=
  match upload_ids with
  | [] => ret report
  | upload_id :: upload_ids =>
      let! outcome := reclaim_expired_upload upload_id in
      reclaim_loop upload_ids (report ++ [outcome])%list
  end.

Definition reclaim_expired_uploads (before : DateTime)
    : M W ExpiredUploadReclamationReport :=
  let! upload_ids := on_states (state_list_expired before) in
  reclaim_loop upload_ids [].
End access.
