(* ===== verification/Response.v ===== *)
(** * Responses ([protocol/response.rs], [protocol/options.rs],
    [protocol/hook_context.rs] and the download headers of
    [protocol/download.rs])

    Building the framework-neutral responses, the capabilities response, the
    request facts hooks see, and the parsing of the [Range] header. *)

From S2P Require Import Prelude Text Errors Crates Config State Headers Hooks Backends Lifecycle.
Local Open Scope string_scope.
Local Open Scope N_scope.
Local Open Scope prog_scope.

Section response.
Context `{HttpLib}.

Record Response := {
  rs_status : N;
  rs_headers : HeaderMap;
  rs_body : bytes;
}.

Definition Response_new (status : N) : Response := {|
  rs_status := status;
  rs_headers :=
    header_insert "tus-resumable" (header_value_from_static TUS_RESUMABLE) header_map_new;
  rs_body := [];
|}.

(** Invalid names or values are dropped. *)
Definition with_header (name value : string) (r : Response) : Response :=
  match header_name_try_from name, header_value_from_str value with
  | Some n, inr v =>
      {| rs_status := rs_status r; rs_headers := header_insert n v (rs_headers r);
         rs_body := rs_body r |}
  | _, _ => r
  end.

Definition with_body (body : bytes) (r : Response) : Response :=
  {| rs_status := rs_status r; rs_headers := rs_headers r; rs_body := body |}.

(** [for (name, value) in response_headers { response = response.with_header(..) }] *)
Definition with_hook_headers `{HashOrder} (headers : gmap string string) (r : Response)
    : Response :=
  foldl (fun r kv => with_header kv.1 kv.2 r) r (hash_iter headers).

(** ** [OPTIONS] *)

Definition options (config : Config) : Response :=
  let response := with_header "tus-version" TUS_RESUMABLE (Response_new 200) in
  let exts := extensions_string config in
  let response :=
    if negb (is_empty exts) then with_header "tus-extension" exts response else response in
  let response :=
    match max_size config with
    | Some m => with_header "tus-max-size" (u64_to_string m) response
    | None => response
    end in
  if has_extension config Extension.Checksum then
    let algorithms := checksum_algorithms_string config in
    if negb (is_empty algorithms)
    then with_header "tus-checksum-algorithm" algorithms response else response
  else response.

(** ** Download headers *)

Definition content_type (state : UploadState) : string :=
  let value :=
    match UploadState.metadata state !! "content-type" with
    | Some v => Some v
    | None => UploadState.metadata state !! "mimetype"
    end in
  match value ≫= MetadataValue_as_str with
  | Some v =>
      match header_value_from_str v with
      | inr _ => v
      | inl _ => "application/octet-stream"
      end
  | None => "application/octet-stream"
  end.

Definition insert_header (name value : string) (headers : HeaderMap) : result HeaderMap :=
  match header_value_from_str value with
  | inr v => Ok (header_insert name v headers)
  | inl err => Err (Error.Internal ("failed to build download response: " ++ err))
  end.

Definition download_headers (state : UploadState) : result HeaderMap :=
  let headers := header_map_new in
  let headers := header_insert "tus-resumable" (header_value_from_static TUS_RESUMABLE) headers in
  let headers := header_insert "cache-control" (header_value_from_static "no-store") headers in
  let headers := header_insert "accept-ranges" (header_value_from_static "bytes") headers in
  insert_header "content-type" (content_type state) headers.
End response.

(** ** [Range] *)

Definition range_error (message : string) : Error.t := Error.InvalidHeader "Range" message.

(** An inclusive byte range; [size - 1] is reached with a positive size only. *)
Definition parse_range (value : option string) (size : N) : result (option (N * N)) :=
  match value with
  | None => Ok None
  | Some value =>
      match str_strip_prefix "bytes=" value with
      | None => Err (range_error "only bytes ranges are supported")
      | Some spec =>
          if contains_char "," spec then
            Err (range_error "multiple ranges are not supported")
          else if size =? 0 then Err (Error.RangeNotSatisfiable size)
          else match split_once "-" spec with
          | None => Err (range_error "range must be in the form bytes=start-end")
          | Some (start, stop) =>
              if is_empty start then
                match parse_u64 stop with
                | None => Err (range_error "invalid suffix byte count")
                | Some suffix_len =>
                    if suffix_len =? 0 then Err (Error.RangeNotSatisfiable size)
                    else
                      let start := saturating_sub size (N.min suffix_len size) in
                      Ok (Some (start, size - 1))
                end
              else
                match parse_u64 start with
                | None => Err (range_error "invalid range start")
                | Some start =>
                    if size <=? start then Err (Error.RangeNotSatisfiable size)
                    else
                      let? stop :=
                        if is_empty stop then Ok (size - 1)
                        else match parse_u64 stop with
                        | None => Err (range_error "invalid range end")
                        | Some parsed => Ok (N.min parsed (size - 1))
                        end in
                      if stop <? start then
                        Err (range_error "range start must be less than or equal to range end")
                      else Ok (Some (start, stop))
                end
          end
      end
  end.

(** ** Request facts for hooks *)

Inductive HookRequestMethod := Post | Patch | Head | Get | Delete.

Definition method_as_str (m : HookRequestMethod) : string :=
  match m with
  | Post => "POST" | Patch => "PATCH" | Head => "HEAD" | Get => "GET" | Delete => "DELETE"
  end.

Record HookRequestFacts := {
  hf_method : HookRequestMethod;
  hf_upload_id : option string;
  hf_headers : option Headers;
}.

Definition facts_post (headers : Headers) : HookRequestFacts :=
  {| hf_method := Post; hf_upload_id := None; hf_headers := Some headers |}.
Definition facts_patch (headers : Headers) (upload_id : string) : HookRequestFacts :=
  {| hf_method := Patch; hf_upload_id := Some upload_id; hf_headers := Some headers |}.
Definition facts_head (upload_id : string) : HookRequestFacts :=
  {| hf_method := Head; hf_upload_id := Some upload_id; hf_headers := None |}.
Definition facts_get (upload_id : string) : HookRequestFacts :=
  {| hf_method := Get; hf_upload_id := Some upload_id; hf_headers := None |}.
Definition facts_delete (headers : Headers) (upload_id : string) : HookRequestFacts :=
  {| hf_method := Delete; hf_upload_id := Some upload_id; hf_headers := Some headers |}.

Definition insert_some (name : string) (value : option string) (m : gmap string string)
    : gmap string string :=
  match value with Some v => <[name := v]> m | None => m end.

Definition post_headers (h : Headers) : gmap string string :=
  let m := insert_some "upload-offset" (u64_to_string <$> h_upload_offset h) ∅ in
  let m := insert_some "upload-length" (u64_to_string <$> h_upload_length h) m in
  let m := if h_upload_defer_length h then <["upload-defer-length" := "1"]> m else m in
  let m := insert_some "content-type" (h_content_type h) m in
  insert_some "content-length" (u64_to_string <$> h_content_length h) m.

Definition patch_headers (h : Headers) : gmap string string :=
  let m := insert_some "upload-offset" (u64_to_string <$> h_upload_offset h) ∅ in
  let m := insert_some "upload-length" (u64_to_string <$> h_upload_length h) m in
  let m := insert_some "content-type" (h_content_type h) m in
  insert_some "content-length" (u64_to_string <$> h_content_length h) m.

Definition delete_headers (h : Headers) : gmap string string :=
  insert_some "content-type" (h_content_type h) ∅.

Definition selected_headers (f : HookRequestFacts) : gmap string string :=
  match hf_headers f with
  | None => ∅
  | Some headers =>
      match hf_method f with
      | Post => post_headers headers
      | Patch => patch_headers headers
      | Delete => delete_headers headers
      | Head | Get => ∅
      end
  end.

Definition facts_path (f : HookRequestFacts) (config : Config) : string :=
  match hf_upload_id f with
  | Some upload_id => base_path config ++ "/" ++ upload_id
  | None => base_path config
  end.

Definition into_request_info (f : HookRequestFacts) (config : Config) : HookRequestInfo := {|
  hr_method := method_as_str (hf_method f);
  hr_path := facts_path f config;
  hr_headers := selected_headers f;
|}.
