(* ===== verification/Protocol.v ===== *)
(** * Request handlers ([protocol/{delete,head,patch,post,download}.rs])

    The handlers of [Protocol], composed from the lifecycle steps the way the
    code composes them: the unlocked existence check, the per-upload lock held
    for the rest of the request, the authoritative reload, and the transition. *)

From S2P Require Import Prelude Text Errors Crates Config State Headers Hooks Backends Lifecycle.
From S2P Require Import Intake Receive FinalUpload Access Response.
Local Open Scope string_scope.
Local Open Scope N_scope.
Local Open Scope prog_scope.

Section handlers.
Context {S St L H E : Type}.
Context `{!Storage S, !StateStore St, !Locker L, !HookExecutor H, !Env E}.
Context `{HttpLib, Base64, Digests, PercentEncoding, Chrono, HashOrder}.
Local Abbreviation W := (World S St L H E).

(** [self.state_store.get(id).await?.ok_or_else(|| Error::NotFound(..))?] *)
Definition load_state (upload_id : string) : M W UploadState :=
  let! found := on_states (state_get upload_id) in
  match found with
  | Some state => ret state
  | None => throw (Error.NotFound upload_id)
  end.

(** The unlocked existence check, then [body] on the reloaded state under the
    upload's lock. *)
Definition with_locked_upload {A} (config : Config) (upload_id : string)
    (body : UploadState -> M W A) : M W A :=
  do! load_state upload_id in
  let! guard := on_locks (locker_lock upload_id (lock_timeout config)) in
  with_guard guard
    (let! state := load_state upload_id in
     body state).

(** ** [DELETE] *)

Definition delete_upload (config : Config) (headers : Headers) (upload_id : string)
    : M W Response :=
  let request_info := into_request_info (facts_delete headers upload_id) config in
  if negb (has_extension config Extension.Termination) then
    throw (Error.ExtensionNotSupported "termination")
  else
    with_locked_upload config upload_id (fun state =>
      do! ensure_active state in
      let! response_headers := terminate request_info state in
      ret (with_hook_headers response_headers (Response_new 204))).

(** ** [HEAD] *)

Definition upload_expires_header (config : Config) (state : UploadState) (r : Response)
    : Response :=
  if has_extension config Extension.Expiration then
    match UploadState.expires_header state with
    | Some expires => with_header "upload-expires" expires r
    | None => r
    end
  else r.

Definition concat_value (config : Config) (state : UploadState) : string :=
  match UploadState.parts state with
  | Some ((_ :: _) as parts) =>
      "final;" ++ str_join " " (map (fun id => base_path config ++ "/" ++ id) parts)
  | _ => "final"
  end.

Definition head_response (config : Config) (facts : UploadAccessFacts) (state : UploadState)
    : Response :=
  let response := with_header "cache-control" "no-store" (Response_new 200) in
  let response :=
    match af_offset facts with
    | Some offset => with_header "upload-offset" (u64_to_string offset) response
    | None => response
    end in
  let response :=
    match af_length facts with
    | Some length => with_header "upload-length" (u64_to_string length) response
    | None =>
        if af_defer_length facts then with_header "upload-defer-length" "1" response
        else response
    end in
  let response :=
    if decide (UploadState.metadata state = ∅) then response
    else with_header "upload-metadata"
           (encode_upload_metadata (UploadState.metadata state)) response in
  let response := upload_expires_header config state response in
  if has_extension config Extension.Concatenation then
    if UploadState.is_partial state then with_header "upload-concat" "partial" response
    else if UploadState.is_final state then
      with_header "upload-concat" (concat_value config state) response
    else response
  else response.

Definition head (config : Config) (upload_id : string) : M W Response :=
  let request_info := into_request_info (facts_head upload_id) config in
  with_locked_upload config upload_id (fun state =>
    let! (facts, state) := borrow state (prepare_upload_observation_access request_info) in
    ret (head_response config facts state)).

(** ** [PATCH] *)

Definition patch_response (config : Config) (state : UploadState)
    (response_headers : gmap string string) : Response :=
  let response :=
    with_header "upload-offset" (u64_to_string (UploadState.offset state)) (Response_new 204) in
  with_hook_headers response_headers (upload_expires_header config state response).

(** The body of [patch] under the lock, over its [let mut state]. *)
Definition patch_locked (config : Config) (request_info : HookRequestInfo)
    (headers : Headers) (client_offset : N) (body : RequestBody)
    : M (UploadState * W) (gmap string string) :=
  do! prepare_upload_mutation_access request_info in
  receive_patch config request_info headers
    {| rq_client_offset := client_offset; rq_upload_length := h_upload_length headers |} body.

Definition patch (config : Config) (headers : Headers) (upload_id : string)
    (body : RequestBody) : M W Response :=
  do! of_outcome (validate_patch_content_type headers) in
  let request_info := into_request_info (facts_patch headers upload_id) config in
  let! client_offset :=
    of_outcome match h_upload_offset headers with
               | Some o => Ok o
               | None => Err (Error.MissingHeader "Upload-Offset")
               end in
  with_locked_upload config upload_id (fun state =>
    let! (response_headers, state) :=
      borrow state (patch_locked config request_info headers client_offset body) in
    ret (patch_response config state response_headers)).

(** ** [POST] *)

(** The creation of an upload without initial bytes. *)
Definition create_empty (request_info : HookRequestInfo) (state : UploadState)
    : M W (UploadState * gmap string string) :=
  let! pre_create := run_gate GateCreate request_info state in
  let state := po_state pre_create in
  let response_headers := po_response_headers pre_create in
  let! handle := on_storage (storage_create (UploadState.id state)) in
  let state := UploadState.set_storage_handle handle state in
  let! created := attempt (on_states (state_set state CreateNew)) in
  match created with
  | inl err =>
      do! rollback_storage state in
      throw err
  | inr _ =>
      do! (if UploadState.is_complete state then
             let! finished := attempt (finish_gate request_info state) in
             match finished with
             | inl err =>
                 do! rollback_creation state in
                 throw err
             | inr _ => ret tt
             end
           else ret tt) in
      do! run_post_event HookEvent.PostCreate request_info state in
      do! after_commit_if_complete request_info state in
      ret (state, response_headers)
  end.

Definition location (config : Config) (headers : Headers) (state : UploadState) : string :=
  upload_url config (UploadState.id state) (Headers_base_url headers config).

Definition post_response (config : Config) (headers : Headers)
    (is_creation_with_upload : bool) (state : UploadState)
    (response_headers : gmap string string) : Response :=
  let response := with_header "location" (location config headers state) (Response_new 201) in
  let response :=
    if is_creation_with_upload
    then with_header "upload-offset" (u64_to_string (UploadState.offset state)) response
    else response in
  with_hook_headers response_headers (upload_expires_header config state response).

Definition final_upload_response (config : Config) (headers : Headers)
    (created : CreatedFinalUpload) : Response :=
  let facts := response_facts created in
  let response :=
    with_header "location" (location config headers (cf_state created)) (Response_new 201) in
  let response :=
    match rf_offset facts with
    | Some offset => with_header "upload-offset" (u64_to_string offset) response
    | None => response
    end in
  let response :=
    match rf_length facts with
    | Some length => with_header "upload-length" (u64_to_string length) response
    | None => response
    end in
  with_hook_headers (cf_response_headers created)
    (upload_expires_header config (cf_state created) response).

Definition is_creation_with_upload (config : Config) (headers : Headers) (has_body : bool)
    : bool :=
  has_body && has_extension config Extension.CreationWithUpload
  && match h_content_type headers with
     | Some ct => starts_with OFFSET_OCTET_STREAM ct
     | None => false
     end.

Definition post (config : Config) (headers : Headers) (body : RequestBody) : M W Response :=
  let request_info := into_request_info (facts_post headers) config in
  let has_body := is_supplied body in
  do! of_outcome (if has_body then validate_patch_content_type headers else Ok tt) in
  let! transition := prepare_creation config (CreationRequest_from_headers headers has_body) in
  match transition with
  | TransitionFinal state part_urls =>
      let! created := create_final_upload config request_info state part_urls in
      ret (final_upload_response config headers created)
  | TransitionUpload state =>
      let with_upload := is_creation_with_upload config headers has_body in
      let! (state, response_headers) :=
        if with_upload then
          let! (response_headers, state) :=
            receive_creation_with_upload config request_info headers state body in
          ret (state, response_headers)
        else create_empty request_info state in
      ret (post_response config headers with_upload state response_headers)
  end.

(** ** [GET] *)

Record DownloadResponse := {
  dr_status : N;
  dr_headers : HeaderMap;
  dr_body : ByteStream;
}.

Context `{!StorageReader S}.

(** The response for a prepared download. *)
Definition download_prepared (range : option string) (state : UploadState)
    : M W DownloadResponse :=
  let size := UploadState.offset state in
  let! range := of_outcome (parse_range range size) in
  let! headers := of_outcome (download_headers state) in
  match range with
  | Some (start, stop) =>
      let! handle := of_outcome (UploadState.require_storage_handle state) in
      let! headers :=
        of_outcome (insert_header "content-length" (u64_to_string (stop - start + 1)) headers) in
      let! headers :=
        of_outcome (insert_header "content-range"
          ("bytes " ++ u64_to_string start ++ "-" ++ u64_to_string stop
             ++ "/" ++ u64_to_string size) headers) in
      let! body := on_storage (storage_stream_range handle start (Some (stop + 1))) in
      ret {| dr_status := 206; dr_headers := headers; dr_body := body |}
  | None =>
      if size =? 0 then
        let! headers := of_outcome (insert_header "content-length" "0" headers) in
        ret {| dr_status := 200; dr_headers := headers; dr_body := [] |}
      else
        let! handle := of_outcome (UploadState.require_storage_handle state) in
        let! headers :=
          of_outcome (insert_header "content-length" (u64_to_string size) headers) in
        let! body := on_storage (storage_stream handle) in
        ret {| dr_status := 200; dr_headers := headers; dr_body := body |}
  end.

Definition download (config : Config) (upload_id : string) (range : option string)
    : M W DownloadResponse :=
  if disable_download config then throw (Error.MethodNotAllowed "GET")
  else
    let request_info := into_request_info (facts_get upload_id) config in
    with_locked_upload config upload_id (fun state =>
      let! (_, state) := borrow state (prepare_upload_download_access request_info) in
      download_prepared range state).

(** ** Everything a server does: the methods of [ProtocolHandle], and the
    reclamation scan it runs beside them *)

Inductive Request :=
| RequestPost (headers : Headers) (body : RequestBody)
| RequestHead (upload_id : string)
| RequestDownload (upload_id : string) (range : option string)
| RequestPatch (headers : Headers) (upload_id : string) (body : RequestBody)
| RequestDelete (headers : Headers) (upload_id : string)
| RequestOptions
| RequestReclaim (before : DateTime).

Definition handle (config : Config) (r : Request) : M W unit :=
  match r with
  | RequestPost headers body => do! post config headers body in ret tt
  | RequestHead upload_id => do! head config upload_id in ret tt
  | RequestDownload upload_id range => do! download config upload_id range in ret tt
  | RequestPatch headers upload_id body => do! patch config headers upload_id body in ret tt
  | RequestDelete headers upload_id => do! delete_upload config headers upload_id in ret tt
  | RequestOptions => let! _ := ret (options config) in ret tt
  | RequestReclaim before => do! reclaim_expired_uploads before in ret tt
  end.

(** Worlds reached by serving requests one after another. *)
Inductive served (config : Config) (w : W) : W -> Prop :=
| served_none : served config w w
| served_step w1 r : served config w w1 -> served config w (run (handle config r) w1).2.
End handlers.
