(* ===== verification/Streaming.v ===== *)
(** * The validating stream equals buffered intake

    A body with a declared length is validated while it streams to storage; any
    other body is buffered and validated in one piece.  The two accept the same
    bodies with the same bytes: limits, declared length and checksums (header or
    trailer) are enforced alike, chunk by chunk or at once. *)

From S2P Require Import Prelude Text Errors Crates Config State Headers Hooks Backends Intake.
Local Open Scope string_scope.
Local Open Scope N_scope.
Local Open Scope prog_scope.

(** ** Intake does not panic *)

Section pure.
Context `{HttpLib, Base64, Digests}.

Lemma algorithm_no_panic s : ChecksumAlgorithm.from_str s <> Panic.
Proof. unfold ChecksumAlgorithm.from_str. pure. Qed.
#[local] Hint Resolve algorithm_no_panic : no_panic.

Lemma parse_checksum_no_panic h : parse_upload_checksum h <> Panic.
Proof. unfold parse_upload_checksum, parse_upload_checksum_value. pure. Qed.
#[local] Hint Resolve parse_checksum_no_panic : no_panic.

Lemma collect_buffered_no_panic c h l s b t : collect_buffered c h l s b t <> Panic.
Proof.
  unfold collect_buffered, enforce_body_limit, validate_content_length, effective_checksum,
    verify_checksum, validate_checksum_algorithm. pure.
Qed.
#[local] Hint Resolve collect_buffered_no_panic : no_panic.

Lemma collect_stream_no_panic f l b t : collect_stream f l b t <> Panic.
Proof.
  revert b t; induction f as [|[e|[d|hs]] f IH]; intros b t; cbn [collect_stream];
    unfold enforce_body_limit; pure; apply IH.
Qed.
#[local] Hint Resolve collect_stream_no_panic : no_panic.

Lemma prepare_body_no_panic c h l b : prepare_body c h l b <> Panic.
Proof.
  unfold prepare_body, validate_before_polling, validate_checksum_algorithm, collect_frames.
  pure.
Qed.

(** The prepared body says whether the request had one. *)
Lemma collect_buffered_supplied c h l s b t ib :
  collect_buffered c h l s b t = Ok ib -> ib_supplied ib = s.
Proof.
  unfold collect_buffered. intros Hok.
  destruct (enforce_body_limit _ _ _); cbn in Hok; [|done..].
  destruct (validate_content_length _ _); cbn in Hok; [|done..].
  destruct (effective_checksum _ _ _); cbn in Hok; [|done..].
  destruct (verify_checksum _ _ _); cbn in Hok; [|done..]. by injection Hok as <-.
Qed.

Lemma prepare_body_supplied c h l b ib : prepare_body c h l b = Ok ib -> ib_supplied ib = is_supplied b.
Proof.
  unfold prepare_body. destruct (validate_before_polling c h l) as [[]|e|]; [|done..]. cbn [outcome_bind].
  destruct b as [|b|stream]; [apply collect_buffered_supplied..|].
  destruct (h_content_length h); [by intros [= <-]|]. destruct (min_some _); [|done].
  destruct (collect_frames _ _) as [[b t]|e|]; [|done..]. apply collect_buffered_supplied.
Qed.
End pure.
#[export] Hint Resolve algorithm_no_panic parse_checksum_no_panic prepare_body_no_panic : no_panic.

Section streaming.
Context `{HttpLib, Base64, Digests}.

(** The stream without fuel, by recursion on the frames left. *)
Fixpoint stream_from (frames : BodyStream) (st : StreamingBodyState) : ByteStream :=
  match frames with
  | [] =>
      match sb_finish st with
      | Err error => [store_validation_error error]
      | _ => []
      end
  | inl error :: _ => [ {| si_chunk := inl error; si_deferred := Some (Error.Internal error) |} ]
  | inr (Data b) :: frames =>
      match accept_data b st with
      | Ok st => {| si_chunk := inr b; si_deferred := None |} :: stream_from frames st
      | Err error => [store_validation_error error]
      | Panic => []
      end
  | inr (Trailers headers) :: frames => stream_from frames (sb_with_trailers headers st)
  end.

(** The frames left are not read by the validation itself. *)
Lemma accept_with_stream f b st :
  accept_data b (sb_with_stream f st) =
    match accept_data b st with
    | Ok st' => Ok (sb_with_stream f st')
    | Err e => Err e
    | Panic => Panic
    end.
Proof.
  destruct st as [s p n t d h]. unfold accept_data. cbn.
  destruct (bp_body_limit p) as [l|]; cbn; [destruct (l <? _); [done|]; cbn|];
    (destruct (h_content_length (bp_headers p)) as [c|]; cbn; [by destruct (c <? _)|done]).
Qed.

Lemma stream_from_with_stream f g st : stream_from f (sb_with_stream g st) = stream_from f st.
Proof.
  revert st; induction f as [|[e|[b|hs]] f IH]; intros st; cbn [stream_from].
  - by destruct st.
  - done.
  - rewrite accept_with_stream. destruct (accept_data b st); [|done|done]. by rewrite IH.
  - change (sb_with_trailers hs (sb_with_stream g st))
      with (sb_with_stream g (sb_with_trailers hs st)). apply IH.
Qed.

Lemma accept_keeps_done b st st' : accept_data b st = Ok st' -> sb_done st' = sb_done st.
Proof.
  unfold accept_data. intros Hok.
  destruct (match bp_body_limit _ with Some _ => _ | None => _ end); cbn in Hok; [|done|done].
  destruct (match h_content_length _ with Some _ => _ | None => _ end); cbn in Hok; [|done|done].
  by simplify_eq.
Qed.

Lemma unfold_done fuel st : sb_done st = true -> unfold_stream fuel st = [].
Proof. destruct fuel; cbn; [done|]. unfold next_chunk. by intros ->. Qed.

(** Each poll consumes a frame or ends the stream. *)
Lemma unfold_loop frames fuel st :
  (List.length frames <= fuel)%nat -> sb_done st = false ->
  match next_chunk_loop frames st with
  | (None, _) => []
  | (Some item, st') => item :: unfold_stream fuel st'
  end = stream_from frames st.
Proof.
  revert fuel st; induction frames as [|[e|[b|hs]] frames IH]; intros fuel st Hfuel Hdone;
    cbn [next_chunk_loop stream_from].
  - replace (sb_finish (sb_finished (sb_with_stream [] st))) with (sb_finish st) by (by destruct st).
    destruct (sb_finish st); [done| |done]. by rewrite unfold_done.
  - by rewrite unfold_done.
  - rewrite accept_with_stream. destruct (accept_data b st) as [st'|e|] eqn:Hacc; [|by rewrite unfold_done|done].
    f_equal. destruct fuel as [|fuel]; [cbn in Hfuel; lia|]. cbn [unfold_stream].
    unfold next_chunk. assert (sb_done st' = false) as Hd by (by rewrite (accept_keeps_done _ _ _ Hacc)).
    cbn [sb_done sb_with_stream sb_stream]. rewrite Hd.
    rewrite IH; [apply stream_from_with_stream|cbn in Hfuel; lia|done].
  - apply IH; [cbn in Hfuel; lia|done].
Qed.

Lemma unfold_stream_from fuel st :
  (List.length (sb_stream st) < fuel)%nat -> sb_done st = false ->
  unfold_stream fuel st = stream_from (sb_stream st) st.
Proof.
  intros Hfuel Hdone. destruct fuel as [|fuel]; [lia|]. cbn [unfold_stream].
  unfold next_chunk. rewrite Hdone. apply unfold_loop; [lia|done].
Qed.

(** polling past the end yields nothing, so one poll more than frames shows
    the whole stream. *)
Theorem unfold_stream_fuel config headers limit stream fuel :
  (List.length stream < fuel)%nat ->
  unfold_stream fuel
    (StreamingBodyState_new stream
       {| bp_config := config; bp_headers := headers; bp_body_limit := limit |})
    = validated_stream config headers limit stream.
Proof. intros Hfuel. unfold validated_stream. rewrite !unfold_stream_from by (cbn; lia || done). done. Qed.

(** ** Checksums: incremental and in one piece *)

Lemma insert_algorithm_elem a x l : a ∈ insert_algorithm x l <-> a = x \/ a ∈ l.
Proof.
  induction l as [|y l IH]; cbn [insert_algorithm]; [set_solver|].
  destruct (String.leb _ _); set_solver.
Qed.

Lemma supports_listed config a :
  supports_checksum_algorithm config a = true <-> a ∈ checksum_algorithms config.
Proof.
  unfold supports_checksum_algorithm, checksum_algorithms. rewrite bool_decide_eq_true.
  rewrite <- elem_of_elements. induction (elements (checksum_algorithms_set config)) as [|x l IH];
    cbn; [done|]. rewrite insert_algorithm_elem, <- IH. set_solver.
Qed.

(** The hashers of a policy after the chunks seen so far. *)
Definition fed (policy : BodyPolicy) (chunks : list bytes) : list Hasher :=
  map (fun h => foldl Hasher_update h chunks) (streaming_hashers policy).

Lemma find_fed a algs chunks :
  a ∈ algs ->
  find_hasher a (map (fun h => foldl Hasher_update h chunks) (map Hasher_new algs))
    = Some (foldl Hasher_update (Hasher_new a) chunks).
Proof.
  induction algs as [|b algs IH]; [set_solver|]. intros Ha. cbn.
  rewrite Hasher_algorithm_fold. cbn. case_bool_decide; [by subst|]. apply IH. set_solver.
Qed.

Lemma verify_streamed_fed `{!DigestLaws} policy trailers chunks checksum :
  effective_checksum (bp_config policy) (bp_headers policy) trailers = Ok checksum ->
  verify_streamed_checksum (bp_config policy) checksum (fed policy chunks)
    = verify_checksum (bp_config policy) checksum (concat chunks).
Proof.
  intros Heff. unfold verify_streamed_checksum, verify_checksum, fed, streaming_hashers.
  destruct checksum as [c|]; [|done].
  destruct (has_extension (bp_config policy) Extension.Checksum) eqn:Hext; cbn; [|done].
  unfold validate_checksum_algorithm. rewrite Hext. cbn.
  destruct (supports_checksum_algorithm (bp_config policy) (uc_algorithm c)) eqn:Hsup; cbn; [|done].
  enough (exists algs, uc_algorithm c ∈ algs /\
    match h_upload_checksum (bp_headers policy) with
    | Some c => [Hasher_new (uc_algorithm c)]
    | None => if has_extension (bp_config policy) Extension.ChecksumTrailer
              then map Hasher_new (checksum_algorithms (bp_config policy)) else []
    end = map Hasher_new algs) as (algs & Hin & ->).
  { rewrite find_fed by done. by rewrite Hasher_incremental. }
  unfold effective_checksum in Heff. destruct (h_upload_checksum (bp_headers policy)) as [c'|].
  - simplify_eq. exists [uc_algorithm c]. set_solver.
  - destruct (has_extension (bp_config policy) Extension.ChecksumTrailer); [|done]. cbn in Heff.
    exists (checksum_algorithms (bp_config policy)). split; [|done]. by apply supports_listed.
Qed.

(** ** The two intakes accept alike *)

Fixpoint frames_len (frames : BodyStream) : N :=
  match frames with
  | [] => 0
  | inr (Data b) :: frames => bytes_len b + frames_len frames
  | _ :: frames => frames_len frames
  end.

(** What buffering accepts after [buffer] and [trailers]. *)
Definition buffered_accepts (config : Config) (headers : Headers) (limit : option N)
    (frames : BodyStream) (buffer : bytes) (trailers : option HeaderMap) : option bytes :=
  match collect_stream frames limit buffer trailers with
  | Ok (d, t) =>
      match collect_buffered config headers limit true d t with Ok _ => Some d | _ => None end
  | _ => None
  end.

Lemma collect_stream_grows frames limit buffer t d t' :
  collect_stream frames limit buffer t = Ok (d, t') -> bytes_len buffer <= bytes_len d.
Proof.
  revert buffer t; induction frames as [|[e|[b|hs]] frames IH]; intros buffer t; cbn [collect_stream].
  - intros [= -> ->]. lia.
  - done.
  - destruct (enforce_body_limit _ _ _); cbn; [|done|done].
    intros Hc%IH. rewrite bytes_len_app in Hc. lia.
  - apply IH.
Qed.

Lemma enforce_ok cur next limit :
  cur + next <= u64_max ->
  enforce_body_limit cur next limit =
    match limit with
    | Some l => if l <? cur + next then Err (Error.SizeExceeded (cur + next) l) else Ok tt
    | None => Ok tt
    end.
Proof. intros Hle. unfold enforce_body_limit. by rewrite saturating_add_exact. Qed.

Lemma sb_finish_no_panic st : sb_finish st <> Panic.
Proof.
  unfold sb_finish, validate_content_length, effective_checksum, verify_streamed_checksum,
    validate_checksum_algorithm. pure.
Qed.

Lemma buffered_too_long config headers limit frames buffer t n :
  h_content_length headers = Some n -> n < bytes_len buffer ->
  buffered_accepts config headers limit frames buffer t = None.
Proof.
  intros Hn Hlt. unfold buffered_accepts.
  destruct (collect_stream frames limit buffer t) as [[d t']|e|] eqn:Hc; [|done|done].
  apply collect_stream_grows in Hc. unfold collect_buffered, validate_content_length.
  destruct (enforce_body_limit _ _ _); cbn; [|done|done]. rewrite Hn.
  destruct (N.eqb_spec n (bytes_len d)); [lia|done].
Qed.

Section accepts.
Variable policy : BodyPolicy.
Variable n : N.
Hypothesis declared : h_content_length (bp_headers policy) = Some n.
Local Abbreviation limit := (bp_body_limit policy).

(** The streaming state after [chunks], none of which broke the limit. *)
Record streaming (chunks : list bytes) (st : StreamingBodyState) : Prop := {
  st_policy : sb_policy st = policy;
  st_seen : sb_bytes_seen st = bytes_len (concat chunks);
  st_hashers : sb_hashers st = fed policy chunks;
  st_limit l : limit = Some l -> bytes_len (concat chunks) <= l;
}.

Lemma finish_accepts `{!DigestLaws} chunks st :
  streaming chunks st -> bytes_len (concat chunks) <= u64_max ->
  is_ok (sb_finish st)
    = is_ok (collect_buffered (bp_config policy) (bp_headers policy) limit true
               (concat chunks) (sb_trailers st)).
Proof using declared.
  intros [Hp Hs Hh Hl] Hmax. unfold sb_finish, collect_buffered. rewrite Hp, Hs, Hh.
  rewrite enforce_ok by lia. change (0 + ?x) with x.
  replace (match limit with
           | Some l => if l <? bytes_len (concat chunks) then _ else Ok tt
           | None => Ok tt end) with (Ok tt : result unit).
  2: { destruct limit as [l|]; [|done]. specialize (Hl l eq_refl).
       destruct (N.ltb_spec l (bytes_len (concat chunks))); [lia|done]. }
  cbn. destruct (validate_content_length _ _); cbn; [|done|done].
  destruct (effective_checksum _ _ _) as [c|e|] eqn:Heff; cbn; [|done|done].
  rewrite (verify_streamed_fed _ _ _ _ Heff). by destruct (verify_checksum _ _ _).
Qed.

Lemma accept_streaming chunks st b :
  streaming chunks st -> bytes_len (concat chunks) + bytes_len b <= u64_max ->
  match accept_data b st with
  | Ok st' => streaming (chunks ++ [b]) st' /\ sb_trailers st' = sb_trailers st /\
      bytes_len (concat chunks) + bytes_len b <= n
  | Err _ =>
      (exists l, limit = Some l /\ l < bytes_len (concat chunks) + bytes_len b) \/
      n < bytes_len (concat chunks) + bytes_len b
  | Panic => False
  end.
Proof using declared.
  intros [Hp Hs Hh Hl] Hmax. unfold accept_data. rewrite Hp, Hs, Hh, declared.
  rewrite saturating_add_exact by done.
  destruct limit as [l|] eqn:Hlim; cbn; [destruct (N.ltb_spec l (bytes_len (concat chunks) + bytes_len b)); cbn; [eauto|]|];
    (destruct (N.ltb_spec n (bytes_len (concat chunks) + bytes_len b)); cbn; [eauto|]).
  all: split; [|split; [done|lia]]; split; cbn; rewrite ?Hp; try done.
  all: rewrite ?concat_app, ?bytes_len_app; cbn; rewrite ?app_nil_r; try done.
  all: try (unfold fed; rewrite map_map; apply map_ext; intros h; by rewrite foldl_app).
  - intros l' Hl'. rewrite Hlim in Hl'. by simplify_eq.
  - congruence.
Qed.

Lemma stream_from_accepts `{!DigestLaws} frames chunks st :
  streaming chunks st -> bytes_len (concat chunks) + frames_len frames <= u64_max ->
  (fun d => (concat chunks ++ d)%list) <$> stream_data (stream_from frames st)
    = buffered_accepts (bp_config policy) (bp_headers policy) limit frames
        (concat chunks) (sb_trailers st).
Proof using declared.
  revert chunks st; induction frames as [|[e|[b|hs]] frames IH]; intros chunks st Hst Hmax;
    cbn [stream_from frames_len] in *.
  - pose proof (finish_accepts chunks st Hst ltac:(lia)) as Hf.
    unfold buffered_accepts. cbn [collect_stream].
    pose proof (sb_finish_no_panic st).
    destruct (sb_finish st), (collect_buffered _ _ _ _ _ _); cbn in *; try done.
    by rewrite app_nil_r.
  - done.
  - pose proof (accept_streaming chunks st b Hst ltac:(lia)) as Hacc.
    pose proof (enforce_ok (bytes_len (concat chunks)) (bytes_len b) limit ltac:(lia)) as Henf.
    assert (concat (chunks ++ [b]) = concat chunks ++ b)%list as Hcat.
    { rewrite concat_app. cbn. by rewrite app_nil_r. }
    destruct (accept_data b st) as [st'|err|]; [| |done].
    + destruct Hacc as (Hst' & Ht & Hn).
      assert (bytes_len (concat (chunks ++ [b])) = bytes_len (concat chunks) + bytes_len b) as Hlen.
      { by rewrite Hcat, bytes_len_app. }
      unfold buffered_accepts in *. cbn [collect_stream]. rewrite Henf.
      replace (match limit with Some l => if l <? _ then _ else Ok tt | None => Ok tt end)
        with (Ok tt : result unit).
      2: { destruct limit as [l|] eqn:Hlim; [|done]. pose proof (st_limit _ _ Hst' l Hlim).
           destruct (N.ltb_spec l (bytes_len (concat chunks) + bytes_len b)); [lia|done]. }
      cbn. rewrite <- Hcat, <- Ht, <- IH by (done || lia). cbn.
      destruct (stream_data (stream_from frames st')) as [d|]; [|done]. cbn.
      by rewrite Hcat, app_assoc.
    + cbn. destruct Hacc as [(l & Hl & Hlt)|Hlt].
      * unfold buffered_accepts. cbn [collect_stream]. rewrite Henf, Hl.
        by destruct (N.ltb_spec l (bytes_len (concat chunks) + bytes_len b)); [|lia].
      * destruct (enforce_body_limit (bytes_len (concat chunks)) (bytes_len b) limit) eqn:He.
        -- unfold buffered_accepts. cbn [collect_stream]. rewrite He. cbn.
           fold (buffered_accepts (bp_config policy) (bp_headers policy) limit frames
                   (concat chunks ++ b)%list (sb_trailers st)).
           symmetry. apply (buffered_too_long _ _ _ _ _ _ n declared). by rewrite bytes_len_app.
        -- unfold buffered_accepts. cbn [collect_stream]. by rewrite He.
        -- unfold buffered_accepts. cbn [collect_stream]. by rewrite He.
  - apply (IH chunks (sb_with_trailers hs st)); [|lia]. by destruct Hst.
Qed.
End accepts.

#[local] Arguments validated_stream : simpl never.

Lemma validated_from config headers limit stream :
  validated_stream config headers limit stream =
    stream_from stream (StreamingBodyState_new stream
      {| bp_config := config; bp_headers := headers; bp_body_limit := limit |}).
Proof. unfold validated_stream. by rewrite unfold_stream_from by (cbn; lia || done). Qed.

(** C18: the streamed intake hands storage exactly the bytes the buffered intake
    would have accepted. *)
Theorem streamed_equals_buffered `{!DigestLaws} config headers limit stream n :
  h_content_length headers = Some n -> frames_len stream <= u64_max ->
  stream_data (validated_stream config headers limit stream)
    = buffered_accepts config headers limit stream [] None.
Proof.
  intros Hn Hmax. rewrite validated_from.
  set (policy := {| bp_config := config; bp_headers := headers; bp_body_limit := limit |}).
  pose proof (stream_from_accepts policy n Hn stream [] (StreamingBodyState_new stream policy)) as Heq.
  cbn in Heq. rewrite option_fmap_id in Heq. apply Heq; [|exact Hmax].
  split; cbn; try done; [|intros l _; apply N.le_0_l]. unfold fed. cbn. by rewrite map_id.
Qed.

(** ** What a prepared body holds *)

Fixpoint frames_data (frames : BodyStream) : bytes :=
  match frames with
  | [] => []
  | inr (Data b) :: frames => (b ++ frames_data frames)%list
  | _ :: frames => frames_data frames
  end.

(** The bytes a client sent. *)
Definition body_content (body : RequestBody) : bytes :=
  match body with
  | Absent => []
  | BodyBytes b => b
  | BodyStreamed frames => frames_data frames
  end.

Lemma accept_data_ok b st st' :
  accept_data b st = Ok st' ->
  sb_bytes_seen st' = saturating_add (sb_bytes_seen st) (bytes_len b) /\
  sb_policy st' = sb_policy st.
Proof.
  unfold accept_data. intros Hok.
  destruct (match bp_body_limit _ with Some _ => _ | None => _ end); cbn in Hok; [|done|done].
  destruct (match h_content_length _ with Some _ => _ | None => _ end); cbn in Hok; [|done|done].
  by simplify_eq.
Qed.

(** A stream that ends well carried every data frame, as many bytes as were
    declared, and left no deferred error. *)
Lemma stream_from_ends frames st n d cell :
  h_content_length (bp_headers (sb_policy st)) = Some n ->
  stream_data (stream_from frames st) = Some d ->
  d = frames_data frames /\ cell_after (stream_from frames st) cell = cell /\
  (sb_bytes_seen st + bytes_len d <= u64_max -> sb_bytes_seen st + bytes_len d = n).
Proof.
  revert st d cell; induction frames as [|[e|[b|hs]] frames IH]; intros st d cell Hn;
    cbn [stream_from frames_data].
  - pose proof (sb_finish_no_panic st). unfold sb_finish, validate_content_length in *.
    rewrite Hn in *. destruct (N.eqb_spec n (sb_bytes_seen st)) as [Heq|]; cbn; [|done].
    intros Hd. assert (d = []) as ->.
    { by destruct (let? _ := _ in _); simplify_eq/=. }
    split; [done|]. split; [by destruct (let? _ := _ in _)|].
    rewrite Heq. change (bytes_len []) with 0. lia.
  - done.
  - destruct (accept_data b st) as [st'|e|] eqn:Hacc; [|done|].
    + cbn. destruct (stream_data (stream_from frames st')) as [d'|] eqn:Hd'; [|done]. intros [= <-].
      apply accept_data_ok in Hacc as [Hseen Hp]. rewrite <- Hp in Hn.
      destruct (IH st' d' cell Hn Hd') as (-> & Hc & Hlen). split; [done|]. split; [done|].
      rewrite bytes_len_app. intros Hmax.
      rewrite Hseen, saturating_add_exact in Hlen by (unfold u64; lia).
      specialize (Hlen ltac:(lia)). lia.
    + unfold accept_data in Hacc. pose proof Hacc.
      destruct (match bp_body_limit _ with Some _ => _ | None => _ end) eqn:He; cbn in Hacc;
        [|done|by repeat case_match].
      destruct (match h_content_length _ with Some _ => _ | None => _ end) eqn:He2; cbn in Hacc;
        [done|done|by repeat case_match].
  - apply (IH (sb_with_trailers hs st) d cell Hn).
Qed.

Lemma collect_stream_data frames limit buffer t d t' :
  collect_stream frames limit buffer t = Ok (d, t') -> d = (buffer ++ frames_data frames)%list.
Proof.
  revert buffer t; induction frames as [|[e|[b|hs]] frames IH]; intros buffer t;
    cbn [collect_stream frames_data].
  - intros [= <- _]. by rewrite app_nil_r.
  - done.
  - destruct (enforce_body_limit _ _ _); cbn; [|done|done]. intros ->%IH. by rewrite <- app_assoc.
  - apply IH.
Qed.

Lemma collect_buffered_ok c h l s b t ib :
  collect_buffered c h l s b t = Ok ib ->
  ib_data ib = Buffered b /\ ib_size ib = bytes_len b /\ ib_deferred_error ib = None.
Proof.
  unfold collect_buffered. intros Hok.
  destruct (enforce_body_limit _ _ _); cbn in Hok; [|done|done].
  destruct (validate_content_length _ _); cbn in Hok; [|done|done].
  destruct (effective_checksum _ _ _); cbn in Hok; [|done|done].
  destruct (verify_checksum _ _ _); cbn in Hok; [|done|done]. by simplify_eq.
Qed.

(** Storage reads exactly the client's bytes out of a prepared body, in the
    declared size, and no validation error is pending when it has. *)
Lemma prepared_body config headers limit body ib data :
  prepare_body config headers limit body = Ok ib ->
  chunk_data (ib_data ib) = Some data ->
  data = body_content body /\
  cell_after (chunk_items (ib_data ib)) (ib_deferred_error ib) = None /\
  (bytes_len data <= u64_max -> ib_size ib = bytes_len data).
Proof.
  unfold prepare_body. intros Hok Hdata.
  destruct (validate_before_polling _ _ _); cbn [outcome_bind] in Hok; [|done|done].
  assert (forall b l t, collect_buffered config headers l (is_supplied body) b t = Ok ib ->
            data = b /\ cell_after (chunk_items (ib_data ib)) (ib_deferred_error ib) = None /\
            (bytes_len data <= u64_max -> ib_size ib = bytes_len data)) as Hbuf.
  { intros b l t (Hd & Hs & He)%collect_buffered_ok. rewrite Hd in *. cbn in *.
    simplify_eq. by rewrite Hs, He. }
  destruct body as [|b|frames]; [by eapply Hbuf|by eapply Hbuf|].
  destruct (h_content_length headers) as [n|] eqn:Hn.
  - injection Hok as <-. cbn [ib_data chunk_data chunk_items ib_deferred_error ib_size] in *.
    rewrite validated_from in Hdata. rewrite validated_from.
    edestruct (stream_from_ends frames) as (-> & Hc & Hlen); [|exact Hdata|]; [exact Hn|].
    split; [done|]. split; [done|]. intros Hmax. symmetry. by apply Hlen.
  - destruct (min_some _) as [l|]; [|done]. cbn in Hok.
    destruct (collect_stream frames (Some l) [] None) as [[d t]|e|] eqn:Hc; cbn in Hok; [|done|done].
    apply collect_stream_data in Hc. destruct (Hbuf _ _ _ Hok) as (-> & ? & ?). by subst.
Qed.
End streaming.
