(* ===== verification/Contracts.v ===== *)
(** * Handler contracts, part one: locks and panics

    What every handler owes whatever its outcome: the locks held afterwards are
    the locks held before (an error, a hook veto or a panic included), and no
    panic is reachable.  Both are proved compositionally, against the documented
    contracts of the backend traits only. *)

From S2P Require Import Prelude Text Errors Crates Config State Headers Hooks Backends Lifecycle.
From S2P Require Import Intake Receive FinalUpload Access Response Protocol.
Local Open Scope string_scope.
Local Open Scope N_scope.
Local Open Scope prog_scope.

(** ** Programs that keep a preorder on worlds *)

Definition keeps {X A} (R : X -> X -> Prop) (m : M X A) : Prop :=
  forall w, wp m (fun _ w' => R w w') w.

(** Programs over a borrowed local keep a relation on the world below it. *)
Definition below {T X} (R : X -> X -> Prop) : T * X -> T * X -> Prop :=
  fun a b => R a.2 b.2.

#[export] Instance below_preorder {T X} (R : X -> X -> Prop) `{!PreOrder R} :
  PreOrder (below (T:=T) R).
Proof.
  split; [intros ?; unfold below; reflexivity|].
  intros a b c; unfold below. apply transitivity.
Qed.

Section keeps.
Context {X : Type} (R : X -> X -> Prop) `{!PreOrder R}.

Lemma keeps_done {A} (r : result A) : keeps R (Done r).
Proof using All. intros w. apply wp_done. reflexivity. Qed.

Lemma keeps_bind {A B} (m : M X A) (k : A -> M X B) :
  keeps R m -> (forall a, keeps R (k a)) -> keeps R (bind m k).
Proof using All.
  intros Hm Hk w. apply wp_bind. eapply wp_mono; [apply Hm|]. cbv beta.
  intros [a|e|] w' Hw'; [|done|done].
  eapply wp_mono; [apply Hk|]. cbv beta. intros r w'' Hw''. by transitivity w'.
Qed.

Lemma keeps_attempt {A} (m : M X A) : keeps R m -> keeps R (attempt m).
Proof using All.
  intros Hm w. apply wp_attempt. eapply wp_mono; [apply Hm|]. by intros [a|e|] w' Hw'.
Qed.

Lemma keeps_lift {T A} (m : M X A) : keeps R m -> keeps (below (T:=T) R) (lift m).
Proof using All.
  intros Hm [t w]. apply wp_lift. eapply wp_mono; [apply Hm|]. by intros.
Qed.

Lemma keeps_borrow {T A} (t : T) (m : M (T * X) A) :
  keeps (below R) m -> keeps R (borrow t m).
Proof using All.
  intros Hm w. apply wp_borrow. eapply wp_mono; [apply Hm|]. by intros r [t' w'].
Qed.

Lemma keeps_local {T A} (f : T * X -> A * (T * X)) :
  (forall t w, (f (t, w)).2.2 = w) -> keeps (below R) (act f).
Proof using All.
  intros Hf [t w]. apply wp_act. specialize (Hf t w).
  destruct (f (t, w)) as [a [t' w']]. cbn in *. subst w'. unfold below; cbn. reflexivity.
Qed.
End keeps.

(** ** Programs whose results have a property *)

Definition yields {X A} (P : A -> Prop) (m : M X A) : Prop :=
  forall w, wp m (fun r _ => forall a, r = Ok a -> P a) w.

Section yields.
Context {X A B : Type}.

Lemma yields_done (P : A -> Prop) (r : result A) : (forall a, r = Ok a -> P a) -> yields P (Done r : M X A).
Proof. intros Hr w. by apply wp_done. Qed.

Lemma yields_bind (P : B -> Prop) (m : M X A) (k : A -> M X B) :
  (forall a, yields P (k a)) -> yields P (bind m k).
Proof.
  intros Hk w. apply wp_bind, wp_intro. intros [a|e|] w' _; [apply Hk|done..].
Qed.

Lemma yields_then (Q : A -> Prop) (P : B -> Prop) (m : M X A) (k : A -> M X B) :
  yields Q m -> (forall a, Q a -> yields P (k a)) -> yields P (bind m k).
Proof.
  intros Hm Hk w. apply wp_bind. wp_use Hm r w' Hr. destruct r as [a|e|]; [|done..]. by apply Hk, Hr.
Qed.

Lemma yields_finally (P : A -> Prop) (m : M X A) f : yields P m -> yields P (finally m f).
Proof. intros Hm w. apply wp_finally. by wp_use Hm r w' Hr. Qed.
End yields.

Create HintDb yields.
Ltac yields :=
  repeat first
    [ solve [eauto with yields nocore]
    | lazymatch goal with
      | |- yields _ (bind _ _) => apply yields_bind; intro
      | |- yields _ (Done (Ok _)) => apply yields_done; intros ? [= <-]
      | |- yields _ (Done _) => apply yields_done; done
      | |- yields _ (ret _) => apply yields_done; intros ? [= <-]
      | |- yields _ (throw _) => apply yields_done; done
      | |- yields _ panic => apply yields_done; done
      | |- yields _ (finally _ _) => apply yields_finally
      | |- yields _ (if ?b then _ else _) => destruct b
      | |- yields _ (match ?x with _ => _ end) => destruct x
      end ].

(** ** Locks *)

Section locks.
Context {S St L H E : Type}.
Context `{!Storage S, !StateStore St, LockerLaws L, !HookExecutor H, !Env E}.
Local Abbreviation W := (World S St L H E).

Definition balanced (w w' : W) : Prop :=
  locker_inv (w_locks w) ->
  locker_inv (w_locks w') /\ held (w_locks w') = held (w_locks w).

#[export] Instance balanced_preorder : PreOrder balanced.
Proof.
  split; [done|]. intros a b c Hab Hbc Ha. destruct (Hab Ha) as [Hb ?].
  destruct (Hbc Hb). split; congruence.
Qed.

(** Actions on the other components do not touch the locks. *)
Lemma keeps_storage {A} (m : M S A) : keeps balanced (on_storage m).
Proof. intros w. apply wp_on_storage, wp_intro. done. Qed.
Lemma keeps_states {A} (m : M St A) : keeps balanced (on_states m).
Proof. intros w. apply wp_on_states, wp_intro. done. Qed.
Lemma keeps_hooks {A} (m : M H A) : keeps balanced (on_hooks m).
Proof. intros w. apply wp_on_hooks, wp_intro. done. Qed.
Lemma keeps_env {A} (f : E -> A * E) : keeps balanced (on_env f).
Proof. intros w. apply wp_on_env. done. Qed.
Lemma keeps_storage_cell {T A} (m : M (T * S) A) :
  keeps (below balanced) (on_storage_cell (St:=St) (L:=L) (H:=H) (E:=E) m).
Proof. intros [t w]. apply wp_on_storage_cell, wp_intro. done. Qed.
End locks.

Create HintDb keeps.
#[export] Hint Resolve keeps_storage keeps_states keeps_hooks keeps_env keeps_storage_cell : keeps.

(** Structural steps; calls are closed by the [keeps] database. *)
Ltac keeps_step :=
  lazymatch goal with
  | |- forall _, _ => intro
  | |- keeps _ (bind _ _) => apply keeps_bind; [typeclasses eauto| |intro]
  | |- keeps _ (attempt _) => apply keeps_attempt; [typeclasses eauto|]
  | |- keeps _ (lift _) => apply keeps_lift; [typeclasses eauto|]
  | |- keeps _ (borrow _ _) => apply keeps_borrow; [typeclasses eauto|]
  | |- keeps _ (Done _) => apply keeps_done; typeclasses eauto
  | |- keeps _ (ret _) => apply keeps_done; typeclasses eauto
  | |- keeps _ (throw _) => apply keeps_done; typeclasses eauto
  | |- keeps _ panic => apply keeps_done; typeclasses eauto
  | |- keeps _ (debug_assert _) => unfold debug_assert
  | |- keeps _ (of_outcome _) => apply keeps_done; typeclasses eauto
  | |- keeps _ get_local => apply keeps_local; [typeclasses eauto|done]
  | |- keeps _ (set_local _) => apply keeps_local; [typeclasses eauto|done]
  | |- keeps _ (modify_local _) => apply keeps_local; [typeclasses eauto|done]
  | |- keeps _ (if ?b then _ else _) => destruct b
  | |- keeps _ (match ?x with _ => _ end) => destruct x
  | |- keeps _ (let _ := _ in _) => cbv zeta
  end.
Ltac keeps := repeat first [solve [eauto with keeps nocore] | keeps_step].

(** ** Guards *)

Section guards.
Context {S St L H E : Type}.
Context `{!Storage S, !StateStore St, LockerLaws L, !HookExecutor H, !Env E}.
Local Abbreviation W := (World S St L H E).
Local Abbreviation bal := (balanced (S:=S) (St:=St) (L:=L) (H:=H) (E:=E)).

(** A body run under a guard that was just taken gives the lock back. *)
Lemma bal_with_guard {A} g (body : M W A) (base : gmap string (option nat)) w :
  keeps bal body ->
  locker_inv (w_locks w) -> base !! guard_upload_id g = None ->
  held (w_locks w) = <[guard_upload_id g := guard_release g]> base ->
  wp (with_guard g body) (fun _ w' => locker_inv (w_locks w') /\ held (w_locks w') = base) w.
Proof.
  intros Hbody Hinv Hbase Hheld. apply wp_with_guard. eapply wp_mono; [apply Hbody|].
  cbv beta. intros r w' Hb. destruct (Hb Hinv) as [Hinv' Hheld'].
  destruct (drop_guard_spec g (w_locks w') Hinv') as [Hi Hh].
  { by rewrite Hheld', Hheld, lookup_insert_eq. }
  cbn. split; [done|]. by rewrite Hh, Hheld', Hheld, delete_insert_id.
Qed.

(** The locker with [gs] taken on top of [base]. *)
Definition guard_map (gs : list LockGuard) : gmap string (option nat) :=
  list_to_map (map (fun g => (guard_upload_id g, guard_release g)) gs).

Record holding (base : gmap string (option nat)) (gs : list LockGuard) (l : L) : Prop := {
  holding_inv : locker_inv l;
  holding_nodup : NoDup (map guard_upload_id gs);
  holding_base g : In g gs -> base !! guard_upload_id g = None;
  holding_held : held l = guard_map gs ∪ base;
}.

Lemma guard_map_keys gs :
  (map (fun g => (guard_upload_id g, guard_release g)) gs).*1 = map guard_upload_id gs.
Proof. induction gs as [|g gs IH]; [done|]. cbn. by rewrite IH. Qed.

Lemma holding_drop base g gs l :
  holding base (g :: gs) l -> holding base gs (drop_guard g l).
Proof.
  intros [Hinv Hnd Hbase Hheld]. cbn in Hnd. apply NoDup_cons in Hnd as [Hg Hnd].
  assert (guard_map (g :: gs) = <[guard_upload_id g := guard_release g]> (guard_map gs)) as Hmap by done.
  rewrite Hmap in Hheld.
  destruct (drop_guard_spec g l Hinv) as [Hi Hh].
  { rewrite Hheld. apply lookup_union_Some_l, lookup_insert_eq. }
  split; [done|done|intros g' Hin; apply Hbase; by right|].
  rewrite Hh, Hheld, delete_union, delete_insert_id.
  - rewrite (delete_id base); [done|]. apply Hbase. by left.
  - apply not_elem_of_list_to_map_1. by rewrite guard_map_keys.
Qed.

Lemma holding_drop_all base gs (w : W) :
  holding base gs (w_locks w) ->
  locker_inv (w_locks (drop_guards gs w)) /\ held (w_locks (drop_guards gs w)) = base.
Proof.
  revert w; induction gs as [|g gs IH]; intros w Hh.
  - destruct Hh as [Hinv _ _ Hheld]. split; [done|].
    cbn. rewrite Hheld. apply (left_id_L ∅ (∪)).
  - unfold drop_guards. cbn. apply IH. by apply holding_drop in Hh.
Qed.

Lemma holding_push base gs g l l' id :
  holding base gs l ->
  locker_inv l' -> guard_upload_id g = id -> held l !! id = None ->
  held l' = <[id := guard_release g]> (held l) ->
  holding base (gs ++ [g])%list l'.
Proof.
  intros [Hinv Hnd Hbase Hheld] Hinv' <- Hnone Hl'. rewrite Hheld in *.
  apply lookup_union_None in Hnone as [Hg Hb].
  assert (guard_upload_id g ∉ map guard_upload_id gs) as Hnin.
  { rewrite <- guard_map_keys. by apply not_elem_of_list_to_map_2. }
  split; [done| | |].
  - rewrite map_app. apply NoDup_app. split_and!; [done| |apply NoDup_singleton].
    intros x Hx Hx'. cbn in Hx'. apply list_elem_of_singleton in Hx'. by subst.
  - intros g' [Hin|[<-|[]]]%in_app_iff; auto.
  - rewrite Hl'. unfold guard_map. rewrite map_app. cbn.
    rewrite list_to_map_snoc by (by rewrite guard_map_keys).
    by rewrite insert_union_l.
Qed.

(** Part locks: all taken, or none kept. *)
Lemma lock_parts_loop_spec base ids gs (w : W) :
  holding base gs (w_locks w) ->
  wp (lock_parts_loop ids gs) (fun r w' =>
    match r with
    | Ok gs' => holding base gs' (w_locks w')
    | Err _ => locker_inv (w_locks w') /\ held (w_locks w') = base
    | Panic => False
    end) w.
Proof.
  revert gs w; induction ids as [|id ids IH]; intros gs w Hh; cbn [lock_parts_loop].
  - by apply wp_done.
  - apply wp_bind, wp_attempt, wp_on_locks.
    eapply wp_mono; [apply locker_try_lock_spec, (holding_inv _ _ _ Hh)|].
    cbv beta. intros [[g|]|e|] l' [Hinv' Hr]; cbn.
    + destruct Hr as (Hg & Hnone & Hheld). apply IH. cbn. by eapply holding_push.
    + wp_steps. destruct Hr as [_ Hr]. apply holding_drop_all. cbn.
      destruct Hh. split; try done. congruence.
    + wp_steps. apply holding_drop_all. cbn. destruct Hh. split; try done. congruence.
    + done.
Qed.

Lemma lock_parts_spec ids (w : W) :
  locker_inv (w_locks w) ->
  wp (lock_parts ids) (fun r w' =>
    match r with
    | Ok gs => holding (held (w_locks w)) gs (w_locks w')
    | Err _ => locker_inv (w_locks w') /\ held (w_locks w') = held (w_locks w)
    | Panic => False
    end) w.
Proof.
  intros Hinv. apply lock_parts_loop_spec. split; [done|constructor|done|].
  symmetry. apply (left_id_L ∅ (∪)).
Qed.

(** The guards are those of the distinct ids, in the order they are taken. *)
Lemma lock_parts_loop_ids base ids gs (w : W) :
  holding base gs (w_locks w) ->
  wp (lock_parts_loop ids gs) (fun r _ =>
    forall gs', r = Ok gs' -> map guard_upload_id gs' = (map guard_upload_id gs ++ ids)%list) w.
Proof.
  revert gs w; induction ids as [|id ids IH]; intros gs w Hh; cbn [lock_parts_loop].
  - apply wp_done. intros gs' [= <-]. by rewrite app_nil_r.
  - apply wp_bind, wp_attempt, wp_on_locks.
    eapply wp_mono; [apply locker_try_lock_spec, (holding_inv _ _ _ Hh)|].
    cbv beta. intros [[g|]|e|] l' [Hinv' Hr]; cbn; [|by wp_steps|by wp_steps|done].
    destruct Hr as (Hg & Hnone & Hheld). eapply wp_mono.
    + apply IH. cbn. by eapply holding_push.
    + cbv beta. intros r w' Hr gs' ->. rewrite (Hr _ eq_refl), map_app, <- app_assoc. cbn.
      by rewrite Hg.
Qed.

(** locking the parts of a final upload takes each part once, in sorted order,
    and all of them; when one cannot be taken, none is kept. *)
Theorem lock_parts_all_or_nothing ids (w : W) r w' :
  locker_inv (w_locks w) -> run (lock_parts ids) w = (r, w') ->
  match r with
  | Ok gs =>
      sorted (map guard_upload_id gs) /\ NoDup (map guard_upload_id gs) /\
      (forall id, In id (map guard_upload_id gs) <-> In id ids) /\
      (forall id, In id ids -> held (w_locks w) !! id = None) /\
      held (w_locks w') = guard_map gs ∪ held (w_locks w)
  | Err _ => held (w_locks w') = held (w_locks w)
  | Panic => False
  end.
Proof.
  intros Hinv Hrun. pose proof (wp_run _ _ _ _ _ (lock_parts_spec ids w Hinv) Hrun) as Hspec.
  assert (holding (held (w_locks w)) [] (w_locks w)) as Hnil.
  { split; [done|constructor|done|]. symmetry. apply (left_id_L ∅ (∪)). }
  pose proof (wp_run _ _ _ _ _ (lock_parts_loop_ids _ (dedup (sort_strings ids)) [] w Hnil) Hrun) as Hids.
  cbv beta in Hids. destruct r as [gs|e|]; [|by destruct Hspec|done]. specialize (Hids _ eq_refl).
  cbn in Hids. destruct Hspec as [_ Hnd Hbase Hheld].
  assert (forall id, In id (map guard_upload_id gs) <-> In id ids) as Hin.
  { intros id. rewrite Hids, dedup_in, <- !list_elem_of_In. by rewrite sort_strings_perm. }
  split_and!; [|done|done| |done].
  - rewrite Hids. apply dedup_sorted, sort_strings_sorted.
  - intros id Hid%Hin. apply in_map_iff in Hid as (g & <- & Hg). by apply Hbase.
Qed.
End guards.

Section lock_balance.
Context {S St L H E : Type}.
Context `{!Storage S, !StateStore St, LockerLaws L, !HookExecutor H, !Env E}.
Context `{HttpLib, Base64, Digests, PercentEncoding, Chrono, HashOrder}.
Local Abbreviation W := (World S St L H E).
Local Abbreviation bal := (balanced (S:=S) (St:=St) (L:=L) (H:=H) (E:=E)).
#[local] Set Default Proof Using "All".

Lemma keeps_is_expired s : keeps bal (is_expired s).
Proof. unfold is_expired. keeps. Qed.
#[local] Hint Resolve keeps_is_expired : keeps.

Lemma keeps_ensure_active s : keeps bal (ensure_active s).
Proof. unfold ensure_active. keeps. Qed.
Lemma keeps_run_gate g ri s : keeps bal (run_gate g ri s).
Proof. unfold run_gate. keeps. Qed.
Lemma keeps_post_hook ctx : keeps bal (execute_post_best_effort ctx).
Proof. unfold execute_post_best_effort. keeps. Qed.
#[local] Hint Resolve keeps_ensure_active keeps_run_gate keeps_post_hook : keeps.

Lemma keeps_finish_gate ri s : keeps bal (finish_gate ri s).
Proof. unfold finish_gate. keeps. Qed.
Lemma keeps_after_commit ri s : keeps bal (after_commit ri s).
Proof. unfold after_commit. keeps. Qed.
Lemma keeps_run_post_event e ri s : keeps bal (run_post_event e ri s).
Proof. unfold run_post_event. keeps. Qed.
#[local] Hint Resolve keeps_finish_gate keeps_after_commit keeps_run_post_event : keeps.

Lemma keeps_detect s : keeps bal (detect_stored_completion s).
Proof. unfold detect_stored_completion. keeps. Qed.
#[local] Hint Resolve keeps_detect : keeps.

Lemma keeps_reconcile_stored_completion ri :
  keeps (below bal) (reconcile_stored_completion ri).
Proof. unfold reconcile_stored_completion. keeps. Qed.
Lemma keeps_reconcile_storage_offset : keeps (below bal) reconcile_storage_offset.
Proof. unfold reconcile_storage_offset. keeps. Qed.
#[local] Hint Resolve keeps_reconcile_stored_completion keeps_reconcile_storage_offset : keeps.

Lemma keeps_regular_access ri : keeps (below bal) (prepare_regular_upload_access ri).
Proof. unfold prepare_regular_upload_access, reconcile_state_offset. keeps. Qed.
#[local] Hint Resolve keeps_regular_access : keeps.

Lemma keeps_receive_patch config ri h rq body :
  keeps (below bal) (receive_patch config ri h rq body).
Proof.
  unfold receive_patch, prepare_receive, prepare_receive_body, commit_receive_body. keeps.
Qed.
#[local] Hint Resolve keeps_receive_patch : keeps.

Lemma keeps_receive_creation config ri h s body :
  keeps bal (receive_creation_with_upload config ri h s body).
Proof.
  unfold receive_creation_with_upload, receive_initial_bytes, prepare_receive_body,
    commit_receive_body, rollback_creation, rollback_storage, after_commit_if_complete. keeps.
Qed.
Lemma keeps_create_empty ri s : keeps bal (create_empty ri s).
Proof.
  unfold create_empty, rollback_creation, rollback_storage, after_commit_if_complete. keeps.
Qed.
Lemma keeps_prepare_creation config rq : keeps bal (prepare_creation config rq).
Proof. unfold prepare_creation, new_random. keeps. Qed.
Lemma keeps_terminate ri s : keeps bal (terminate ri s).
Proof. unfold terminate. keeps. Qed.
#[local] Hint Resolve keeps_receive_creation keeps_create_empty keeps_prepare_creation
  keeps_terminate : keeps.

(** *** Final uploads: the part locks are given back *)

Lemma keeps_summarize parts : keeps bal (summarize_final_parts parts).
Proof.
  assert (forall a b c d, keeps bal (summarize_loop parts a b c d)) as Hl.
  { induction parts as [|p parts IH]; intros; cbn [summarize_loop]; keeps. }
  apply Hl.
Qed.
Lemma keeps_load_plan config urls : keeps bal (load_plan_loop config urls).
Proof. induction urls as [|u urls IH]; cbn [load_plan_loop]; keeps. Qed.
Lemma keeps_load_parts s ids : keeps bal (load_parts_loop s ids).
Proof. induction ids as [|u urls IH]; cbn [load_parts_loop]; keeps. Qed.
#[local] Hint Resolve keeps_summarize keeps_load_plan keeps_load_parts : keeps.

Lemma keeps_load_final_plan config urls : keeps bal (load_final_upload_plan config urls).
Proof. unfold load_final_upload_plan. keeps. Qed.
Lemma keeps_load_status s : keeps bal (load_final_upload_status s).
Proof. unfold load_final_upload_status. keeps. Qed.
#[local] Hint Resolve keeps_load_final_plan keeps_load_status : keeps.

Lemma keeps_create_planned config ri s plan : keeps bal (create_planned_upload config ri s plan).
Proof.
  unfold create_planned_upload, materialize_final_upload, rollback_final_upload_storage. keeps.
Qed.
Lemma keeps_repair_with_plan ri plan : keeps (below bal) (repair_with_plan ri plan).
Proof.
  unfold repair_with_plan, refresh_inspect, final_storage_size, materialize_final_upload,
    refresh_length, refresh_offset. keeps.
Qed.
Lemma keeps_recover : keeps (below bal) recover_materialized_final_upload.
Proof. unfold recover_materialized_final_upload. keeps. Qed.
#[local] Hint Resolve keeps_create_planned keeps_repair_with_plan keeps_recover : keeps.

Lemma bal_intro {A} (m : M W A) :
  (forall w, locker_inv (w_locks w) ->
     wp m (fun _ w' => locker_inv (w_locks w') /\ held (w_locks w') = held (w_locks w)) w) ->
  keeps bal m.
Proof.
  intros Hm w. apply wp_intro. intros r w' Hrun Hinv. apply (wp_run _ _ _ _ _ (Hm w Hinv) Hrun).
Qed.

Lemma bal_intro_below {T A} (m : M (T * W) A) :
  (forall t w, locker_inv (w_locks w) ->
     wp m (fun _ tw => locker_inv (w_locks tw.2) /\ held (w_locks tw.2) = held (w_locks w)) (t, w)) ->
  keeps (below bal) m.
Proof.
  intros Hm [t w]. apply wp_intro. intros r w' Hrun Hinv.
  apply (wp_run _ _ _ _ _ (Hm t w Hinv) Hrun).
Qed.

Lemma bal_locked_parts {A} ids (body : list LockGuard -> M W A) :
  (forall gs, keeps bal (body gs)) ->
  keeps bal (let! gs := lock_parts ids in with_guards gs (body gs)).
Proof.
  intros Hbody. apply bal_intro. intros w Hinv. apply wp_bind.
  wp_use (lock_parts_spec ids w Hinv) r w1 Hh. destruct r as [gs|e|]; [|done|done].
  apply wp_finally. wp_use (Hbody gs) r w2 Hb.
  destruct Hh as [Hinv1 ? ? Hheld]. destruct (Hb Hinv1) as [? Heq].
  apply holding_drop_all. split; try done. congruence.
Qed.

Lemma bal_locked_parts_below {T A} ids (body : M (T * W) A) :
  keeps (below bal) body ->
  keeps (below bal)
    (let! gs := lift (lock_parts ids) in
     finally body (fun tw => (tw.1, drop_guards gs tw.2))).
Proof.
  intros Hbody. apply bal_intro_below. intros t w Hinv. apply wp_bind, wp_lift.
  wp_use (lock_parts_spec ids w Hinv) r w1 Hh. destruct r as [gs|e|]; [|done|done].
  apply wp_finally. wp_use Hbody r tw Hb. unfold below in Hb.
  destruct Hh as [Hinv1 ? ? Hheld]. destruct (Hb Hinv1) as [? Heq]. cbn in *.
  apply holding_drop_all. split; try done. congruence.
Qed.

Lemma keeps_create_final config ri s urls : keeps bal (create_final_upload config ri s urls).
Proof.
  unfold create_final_upload. keeps_step; [keeps|].
  keeps_step; [apply bal_locked_parts; intros gs|]; keeps.
Qed.

Lemma keeps_repair ri : keeps (below bal) (repair_final_upload ri).
Proof.
  unfold repair_final_upload. keeps_step; [keeps|]. keeps_step; [keeps|].
  destruct a0 as [plan|]; [|keeps].
  keeps_step; [apply bal_locked_parts_below|]; keeps.
Qed.
#[local] Hint Resolve keeps_create_final keeps_repair : keeps.

Lemma keeps_prepare_read ri : keeps (below bal) (prepare_read ri).
Proof. unfold prepare_read. keeps. Qed.
#[local] Hint Resolve keeps_prepare_read : keeps.

Lemma keeps_read_access ri : keeps (below bal) (prepare_upload_read_access ri).
Proof. unfold prepare_upload_read_access. keeps. Qed.
#[local] Hint Resolve keeps_read_access : keeps.

(** *** Handlers *)

Lemma keeps_load_state id : keeps bal (load_state id).
Proof. unfold load_state. keeps. Qed.
#[local] Hint Resolve keeps_load_state : keeps.

Lemma keeps_with_locked_upload {A} config id (body : UploadState -> M W A) :
  (forall s, keeps bal (body s)) -> keeps bal (with_locked_upload config id body).
Proof.
  intros Hbody. unfold with_locked_upload. apply keeps_bind; [typeclasses eauto|keeps|intros _].
  apply bal_intro. intros w Hinv. apply wp_bind, wp_on_locks.
  wp_use locker_lock_spec r l Hl; [done|]. destruct Hl as [Hinv' Hr].
  destruct r as [g|e|]; [|done|done]. destruct Hr as (Hg & Hnone & Hheld).
  apply bal_with_guard; cbn; [keeps; auto|done|by rewrite Hg|by rewrite Hg].
Qed.

Lemma keeps_delete config h id : keeps bal (delete_upload config h id).
Proof.
  unfold delete_upload. keeps_step; [keeps|]. apply keeps_with_locked_upload. keeps.
Qed.
Lemma keeps_head config id : keeps bal (head config id).
Proof.
  unfold head, prepare_upload_observation_access. apply keeps_with_locked_upload. keeps.
Qed.
Lemma keeps_patch config h id body : keeps bal (patch config h id body).
Proof.
  unfold patch, patch_locked, prepare_upload_mutation_access.
  keeps_step; [keeps|]. keeps_step; [keeps|]. apply keeps_with_locked_upload. keeps.
Qed.
Lemma keeps_post config h body : keeps bal (post config h body).
Proof. unfold post. keeps. Qed.
Lemma keeps_download `{!StorageReader S} config id range : keeps bal (download config id range).
Proof.
  unfold download, prepare_upload_download_access, download_prepared.
  keeps_step; [keeps|]. apply keeps_with_locked_upload. keeps.
Qed.

Lemma keeps_reclaim_one id : keeps bal (reclaim_expired_upload id).
Proof.
  unfold reclaim_expired_upload. apply bal_intro. intros w Hinv.
  apply wp_bind, wp_attempt, wp_on_locks.
  wp_use locker_try_lock_spec r l Hl; [done|]. destruct Hl as [Hinv' Hr].
  destruct r as [[g|]|e|]; cbn; [|by wp_steps; destruct Hr| by wp_steps|done].
  destruct Hr as (Hg & Hnone & Hheld).
  apply bal_with_guard; cbn; [|done|by rewrite Hg|by rewrite Hg].
  unfold reclaim_locked_upload, prepare_upload_reclamation_access,
    stored_bytes_complete_upload. keeps.
Qed.
#[local] Hint Resolve keeps_reclaim_one : keeps.

Lemma keeps_reclaim before : keeps bal (reclaim_expired_uploads before).
Proof.
  unfold reclaim_expired_uploads. keeps_step; [keeps|].
  assert (forall report, keeps bal (reclaim_loop a report)) as Hl; [|apply Hl].
  induction a as [|id ids IH]; intros report; cbn [reclaim_loop]; keeps.
Qed.

Lemma keeps_handle `{!StorageReader S} config r : keeps bal (handle config r).
Proof.
  destruct r; cbn [handle]; (apply keeps_bind; [typeclasses eauto| |keeps]);
    [..|keeps|]; eauto using keeps_post, keeps_head, keeps_download, keeps_patch, keeps_delete, keeps_reclaim.
Qed.

Lemma handle_balanced `{!StorageReader S} config r w :
  locker_inv (w_locks w) ->
  locker_inv (w_locks (run (handle config r) w).2) /\
  held (w_locks (run (handle config r) w).2) = held (w_locks w).
Proof.
  intros Hinv. destruct (run (handle config r) w) as [o w'] eqn:Hrun.
  apply (wp_run _ _ _ _ _ (keeps_handle config r w) Hrun Hinv).
Qed.

(** C24: whatever a request does, it gives back every lock it took. *)
Theorem handlers_release_locks `{!StorageReader S} config r w :
  locker_inv (w_locks w) ->
  locker_inv (w_locks (run (handle config r) w).2) /\
  held (w_locks (run (handle config r) w).2) = held (w_locks w).
Proof. apply handle_balanced. Qed.
End lock_balance.
