(* ===== verification/Safety.v ===== *)
(** * Handler contracts, part two: no reachable panic

    Backends that keep their contracts make no handler panic but one: the [expect]
    of the final-upload code and the [debug_assert!]s are unreachable, and what is
    left is the documented overflow of [DateTime + Duration] in a creation, before it
    has touched anything, when the configured expiration reaches past the calendar. *)

From S2P Require Import Prelude Text Errors Crates Config State Headers Hooks Backends Lifecycle.
From S2P Require Import Intake Receive FinalUpload Access Response Protocol Streaming Contracts.
Local Open Scope string_scope.
Local Open Scope N_scope.
Local Open Scope prog_scope.

(** ** Pure code *)

Lemma validate_creation_no_panic c r : validate_creation c r <> Panic.
Proof. unfold validate_creation. pure. Qed.

Lemma validate_body_no_panic c s n k : validate_body_for_receive c s n k <> Panic.
Proof.
  unfold validate_body_for_receive, validate_receive_body, validate_creation_with_upload_body.
  pure.
Qed.

Lemma apply_upload_length_no_panic c l s : apply_upload_length c l s <> Panic.
Proof. unfold apply_upload_length. pure. Qed.

Lemma require_handle_no_panic s : UploadState.require_storage_handle s <> Panic.
Proof. unfold UploadState.require_storage_handle. pure. Qed.
#[export] Hint Resolve prepare_body_no_panic validate_creation_no_panic validate_body_no_panic
  apply_upload_length_no_panic require_handle_no_panic : no_panic.

Lemma storage_handles_no_panic parts : storage_handles parts <> Panic.
Proof. induction parts as [|p parts IH]; cbn [storage_handles]; pure. Qed.

Lemma enforce_final_size_no_panic c s : enforce_final_upload_size c s <> Panic.
Proof. unfold enforce_final_upload_size. pure. Qed.

Lemma parse_range_no_panic v n : parse_range v n <> Panic.
Proof. unfold parse_range. pure. Qed.

Lemma insert_header_no_panic `{HttpLib} n v h : insert_header n v h <> Panic.
Proof. unfold insert_header. pure. Qed.
#[export] Hint Resolve storage_handles_no_panic enforce_final_size_no_panic parse_range_no_panic
  insert_header_no_panic : no_panic.

Lemma download_headers_no_panic `{HttpLib} s : download_headers s <> Panic.
Proof. unfold download_headers. pure. Qed.

Lemma patch_content_type_no_panic h : validate_patch_content_type h <> Panic.
Proof. unfold validate_patch_content_type. pure. Qed.
#[export] Hint Resolve download_headers_no_panic patch_content_type_no_panic : no_panic.

(** The [expect] of a repaired final upload: a plan that is ready has its total. *)
Lemma completed_state_no_panic r s :
  will_complete r s = true -> completed_state r s <> Panic.
Proof.
  unfold will_complete, ready_to_materialize, completed_state.
  destruct (fs_total_length (pf_status r)); [done|]. by rewrite andb_false_r.
Qed.

(** ** Safe programs *)

(** From a world satisfying [I], no panic, and [I] holds again. *)
Definition safe {X A} (I : X -> Prop) (m : M X A) : Prop :=
  forall w, I w -> wp m (fun r w' => r <> Panic /\ I w') w.

Section safe.
Context {X : Type} (I : X -> Prop).

Lemma safe_done {A} (r : result A) : r <> Panic -> safe I (Done r).
Proof. intros Hr w Hw. by apply wp_done. Qed.

Lemma safe_bind {A B} (m : M X A) (k : A -> M X B) :
  safe I m -> (forall a, safe I (k a)) -> safe I (bind m k).
Proof.
  intros Hm Hk w Hw. apply wp_bind. wp_use (Hm w Hw) r w' Hr.
  destruct Hr as [Hr Hw']. destruct r as [a|e|]; [by apply Hk|done|done].
Qed.

Lemma safe_outcome {A B} (r : result A) (k : A -> M X B) :
  r <> Panic -> (forall a, r = Ok a -> safe I (k a)) -> safe I (bind (of_outcome r) k).
Proof.
  intros Hr Hk w Hw. apply wp_bind, wp_done. destruct r as [a|e|]; [by apply Hk|done|done].
Qed.

Lemma safe_attempt {A} (m : M X A) : safe I m -> safe I (attempt m).
Proof.
  intros Hm w Hw. apply wp_attempt. wp_use (Hm w Hw) r w' Hr. by destruct r, Hr.
Qed.

Lemma safe_lift {T A} (m : M X A) : safe I m -> safe (fun tw : T * X => I tw.2) (lift m).
Proof. intros Hm [t w] Hw. apply wp_lift. by wp_use (Hm w Hw) r w' Hr. Qed.

Lemma safe_borrow {T A} (t : T) (m : M (T * X) A) :
  safe (fun tw => I tw.2) m -> safe I (borrow t m).
Proof.
  intros Hm w Hw. apply wp_borrow. wp_use (Hm (t, w) Hw) r w' Hr.
  destruct Hr as [Hr ?]. split; [|done]. by destruct r.
Qed.

Lemma safe_local {T A} (f : T * X -> A * (T * X)) :
  (forall t w, (f (t, w)).2.2 = w) -> safe (fun tw => I tw.2) (act f).
Proof.
  intros Hf [t w] Hw. apply wp_act. specialize (Hf t w).
  destruct (f (t, w)) as [a [t' w']]. cbn in *. by subst.
Qed.
End safe.

Create HintDb safe.
Ltac safe_step :=
  lazymatch goal with
  | |- forall _, _ => intro
  | |- safe _ (bind _ _) => apply safe_bind; [|intro]
  | |- safe _ (attempt _) => apply safe_attempt
  | |- safe _ (lift _) => apply (safe_lift (fun w => locker_inv (w_locks w)))
  | |- safe _ (borrow _ _) => apply safe_borrow
  | |- safe _ (Done _) => apply safe_done; pure
  | |- safe _ (ret _) => apply safe_done; discriminate
  | |- safe _ (throw _) => apply safe_done; discriminate
  | |- safe _ (of_outcome _) => apply safe_done; pure
  | |- safe _ get_local => apply (safe_local (fun w => locker_inv (w_locks w))); done
  | |- safe _ (set_local _) => apply (safe_local (fun w => locker_inv (w_locks w))); done
  | |- safe _ (modify_local _) => apply (safe_local (fun w => locker_inv (w_locks w))); done
  | |- safe _ (if ?b then _ else _) => destruct b eqn:?
  | |- safe _ (match ?x with _ => _ end) => destruct x eqn:?
  end.
Ltac safe := repeat first [solve [eauto with safe nocore] | safe_step].

Section no_panic.
Context {S St L H E : Type}.
Context `{StorageLaws S, StateStoreLaws St, LockerLaws L, HookLaws H, !Env E}.
Context `{HttpLib, Base64, Digests, PercentEncoding, Chrono, HashOrder}.
Local Abbreviation W := (World S St L H E).
Local Abbreviation inv := (fun w : W => locker_inv (w_locks w)).
Local Abbreviation inv2 := (fun tw : UploadState * W => locker_inv (w_locks tw.2)).
#[local] Set Default Proof Using "All".

Lemma safe_storage {A} (m : M S A) : (forall s, wp m (fun r _ => r <> Panic) s) -> safe inv (on_storage m).
Proof.
  intros Hm w Hw. apply wp_on_storage. by wp_use (Hm (w_storage w)) r s Hr.
Qed.
Lemma safe_states {A} (m : M St A) : (forall s, wp m (fun r _ => r <> Panic) s) -> safe inv (on_states m).
Proof.
  intros Hm w Hw. apply wp_on_states. by wp_use (Hm (w_states w)) r s Hr.
Qed.

Lemma safe_storage_create id : safe inv (on_storage (storage_create id)).
Proof. apply safe_storage. intros s. by wp_use storage_create_spec r s' Hr; destruct r. Qed.
Lemma safe_storage_concat rq : safe inv (on_storage (storage_concat rq)).
Proof. apply safe_storage. intros s. by wp_use storage_concat_spec r s' Hr; destruct r. Qed.
Lemma safe_storage_delete h : safe inv (on_storage (storage_delete h)).
Proof. apply safe_storage. intros s. by wp_use storage_delete_spec r s' Hr; destruct r. Qed.
Lemma safe_storage_size h : safe inv (on_storage (storage_size h)).
Proof. apply safe_storage. intros s. by wp_use storage_size_spec r s' Hr; destruct r, Hr. Qed.
Lemma safe_state_set s m : safe inv (on_states (state_set s m)).
Proof. apply safe_states. intros s'. by wp_use state_set_spec r s2 Hr; destruct r. Qed.
Lemma safe_state_get id : safe inv (on_states (state_get id)).
Proof. apply safe_states. intros s'. by wp_use state_get_spec r s2 Hr; destruct r, Hr. Qed.
Lemma safe_state_delete id : safe inv (on_states (state_delete id)).
Proof. apply safe_states. intros s'. by wp_use state_delete_spec r s2 Hr; destruct r. Qed.
Lemma safe_list_expired b : safe inv (on_states (state_list_expired b)).
Proof. apply safe_states. intros s'. by wp_use state_list_expired_spec r s2 Hr; destruct r, Hr. Qed.
Lemma safe_env {A} (f : E -> A * E) : safe inv (on_env f).
Proof. intros w Hw. by apply wp_on_env. Qed.
Lemma safe_pre_hook ctx : safe inv (on_hooks (execute_pre ctx)).
Proof. intros w Hw. apply wp_on_hooks. by wp_use execute_pre_no_panic r h Hr. Qed.
Lemma safe_post_hook ctx : safe inv (execute_post_best_effort ctx).
Proof.
  intros w Hw. apply wp_on_hooks. unfold wp. rewrite run_infallible.
  pose proof (execute_post_no_panic ctx (w_hooks w)) as Hp. unfold wp in Hp.
  destruct (run (execute_post ctx) (w_hooks w)) as [[a|[]|] h]; [by split|by destruct Hp].
Qed.
#[local] Hint Resolve safe_storage_create safe_storage_concat safe_storage_delete
  safe_storage_size safe_state_set safe_state_get safe_state_delete safe_list_expired safe_env
  safe_pre_hook safe_post_hook : safe.

(** The append is run with the error cell borrowed and its error caught. *)
Lemma safe_append (cell : DeferredBodyError) rq :
  safe inv (borrow cell (attempt (on_storage_cell (storage_append rq)))).
Proof.
  intros w Hw. apply wp_borrow, wp_attempt, wp_on_storage_cell.
  wp_use storage_append_spec r cs Hr. by destruct r.
Qed.
#[local] Hint Resolve safe_append : safe.

Lemma safe_is_expired s : safe inv (is_expired s).
Proof. unfold is_expired. safe. Qed.
#[local] Hint Resolve safe_is_expired : safe.
Lemma safe_ensure_active s : safe inv (ensure_active s).
Proof. unfold ensure_active. safe. Qed.
Lemma safe_run_gate g ri s : safe inv (run_gate g ri s).
Proof. unfold run_gate. safe. Qed.
#[local] Hint Resolve safe_ensure_active safe_run_gate : safe.
Lemma safe_finish_gate ri s : safe inv (finish_gate ri s).
Proof. unfold finish_gate. safe. Qed.
Lemma safe_after_commit ri s : safe inv (after_commit ri s).
Proof. unfold after_commit. safe. Qed.
Lemma safe_run_post_event e ri s : safe inv (run_post_event e ri s).
Proof. unfold run_post_event. safe. Qed.
Lemma safe_detect s : safe inv (detect_stored_completion s).
Proof. unfold detect_stored_completion. safe. Qed.
#[local] Hint Resolve safe_finish_gate safe_after_commit safe_run_post_event safe_detect : safe.

Lemma safe_reconcile_completion ri : safe inv2 (reconcile_stored_completion ri).
Proof. unfold reconcile_stored_completion. safe. Qed.
Lemma safe_reconcile_offset : safe inv2 reconcile_storage_offset.
Proof. unfold reconcile_storage_offset. safe. Qed.
#[local] Hint Resolve safe_reconcile_completion safe_reconcile_offset : safe.

Lemma safe_regular_access ri : safe inv2 (prepare_regular_upload_access ri).
Proof. unfold prepare_regular_upload_access, reconcile_state_offset. safe. Qed.

(** The [debug_assert!]: a creation's body is received only where it was supplied. *)
Lemma safe_prepare_body config ri h body kind :
  (kind = KindCreationWithUpload -> is_supplied body = true) ->
  safe inv2 (prepare_receive_body config ri h body kind).
Proof.
  intros Hk. unfold prepare_receive_body, collect_receive_body.
  do 4 (safe_step; [safe|]). cbv zeta. apply safe_outcome; [pure|]. intros ib Hib.
  rewrite (prepare_body_supplied _ _ _ _ _ Hib). safe_step; [|safe].
  destruct kind; [apply safe_done; discriminate|]. rewrite Hk by done. apply safe_done. discriminate.
Qed.

Lemma safe_receive_patch config ri h rq body : safe inv2 (receive_patch config ri h rq body).
Proof.
  unfold receive_patch, prepare_receive, commit_receive_body.
  safe_step; [safe|]. safe_step; [by apply safe_prepare_body|]. safe.
Qed.
#[local] Hint Resolve safe_regular_access safe_receive_patch : safe.

Lemma safe_receive_creation config ri h s body :
  is_supplied body = true -> safe inv (receive_creation_with_upload config ri h s body).
Proof.
  intros Hb. unfold receive_creation_with_upload, receive_initial_bytes,
    commit_receive_body, rollback_creation, rollback_storage, after_commit_if_complete.
  safe_step; [safe|]. safe_step. safe_step; [by apply safe_prepare_body|]. safe.
Qed.
Lemma safe_create_empty ri s : safe inv (create_empty ri s).
Proof.
  unfold create_empty, rollback_creation, rollback_storage, after_commit_if_complete. safe.
Qed.
Lemma safe_terminate ri s : safe inv (terminate ri s).
Proof. unfold terminate. safe. Qed.
#[local] Hint Resolve safe_receive_creation safe_create_empty safe_terminate : safe.

(** *** Final uploads *)

Lemma safe_summarize parts : safe inv (summarize_final_parts parts).
Proof.
  assert (forall a b c d, safe inv (summarize_loop parts a b c d)) as Hl; [|apply Hl].
  induction parts as [|p parts IH]; intros; cbn [summarize_loop]; safe.
Qed.
Lemma safe_load_plan config urls : safe inv (load_plan_loop config urls).
Proof. induction urls as [|u urls IH]; cbn [load_plan_loop]; safe. Qed.
Lemma safe_load_parts s ids : safe inv (load_parts_loop s ids).
Proof. induction ids as [|u urls IH]; cbn [load_parts_loop]; safe. Qed.
#[local] Hint Resolve safe_summarize safe_load_plan safe_load_parts : safe.
Lemma safe_load_final_plan config urls : safe inv (load_final_upload_plan config urls).
Proof. unfold load_final_upload_plan. safe. Qed.
Lemma safe_load_status s : safe inv (load_final_upload_status s).
Proof. unfold load_final_upload_status. safe. Qed.
#[local] Hint Resolve safe_load_final_plan safe_load_status : safe.

Lemma safe_create_planned config ri s plan : safe inv (create_planned_upload config ri s plan).
Proof.
  unfold create_planned_upload, materialize_final_upload, rollback_final_upload_storage. safe.
Qed.
#[local] Hint Resolve completed_state_no_panic : no_panic.
Lemma safe_repair_with_plan ri plan : safe inv2 (repair_with_plan ri plan).
Proof.
  unfold repair_with_plan, refresh_inspect, final_storage_size, materialize_final_upload,
    refresh_length, refresh_offset. safe.
Qed.
Lemma safe_recover : safe inv2 recover_materialized_final_upload.
Proof. unfold recover_materialized_final_upload. safe. Qed.
#[local] Hint Resolve safe_create_planned safe_repair_with_plan safe_recover : safe.

(** *** Under locks *)

Lemma safe_locked_parts {A} ids (body : list LockGuard -> M W A) :
  (forall gs, safe inv (body gs)) -> (forall gs, keeps balanced (body gs)) ->
  safe inv (let! gs := lock_parts ids in with_guards gs (body gs)).
Proof.
  intros Hs Hk w Hw. apply wp_bind. wp_use (lock_parts_spec ids w Hw) r w1 Hh.
  destruct r as [gs|e|]; [|by destruct Hh|done].
  pose proof (holding_inv _ _ _ Hh) as Hinv. apply wp_finally.
  eapply wp_mono; [apply wp_and; [apply (Hs gs), Hinv|apply (Hk gs)]|].
  cbv beta. intros r w2 [[Hr _] Hb]. split; [done|].
  destruct Hh as [_ ? ? Hheld]. destruct (Hb Hinv) as [Hinv2 Heq].
  apply (holding_drop_all (held (w_locks w)) gs w2). split; try done. congruence.
Qed.

Lemma safe_locked_parts_below {A} ids (body : M (UploadState * W) A) :
  safe inv2 body -> keeps (below balanced) body ->
  safe inv2 (let! gs := lift (lock_parts ids) in
             finally body (fun tw => (tw.1, drop_guards gs tw.2))).
Proof.
  intros Hs Hk [t w] Hw. apply wp_bind, wp_lift. wp_use (lock_parts_spec ids w Hw) r w1 Hh.
  destruct r as [gs|e|]; [|by destruct Hh|done].
  pose proof (holding_inv _ _ _ Hh) as Hinv. apply wp_finally.
  eapply wp_mono; [apply wp_and; [apply Hs, Hinv|apply Hk]|].
  cbv beta. intros r [t2 w2] [[Hr _] Hb]. split; [done|].
  destruct Hh as [_ ? ? Hheld]. destruct (Hb Hinv) as [Hinv2 Heq].
  apply (holding_drop_all (held (w_locks w)) gs w2). split; try done. cbn in *. congruence.
Qed.

Lemma safe_create_final config ri s urls : safe inv (create_final_upload config ri s urls).
Proof.
  unfold create_final_upload. safe_step; [safe|]. safe_step; [|safe].
  apply safe_locked_parts; intros gs; [safe|].
  keeps_step; [apply keeps_load_final_plan|apply keeps_create_planned].
Qed.
Lemma safe_repair ri : safe inv2 (repair_final_upload ri).
Proof.
  unfold repair_final_upload. safe_step; [safe|]. safe_step; [safe|].
  destruct a0 as [plan|]; [|safe]. safe_step; [|safe].
  apply safe_locked_parts_below; [safe|].
  keeps_step; [apply keeps_lift; [typeclasses eauto|apply keeps_load_status]|].
  keeps_step; [apply keeps_repair_with_plan|keeps].
Qed.
#[local] Hint Resolve safe_create_final safe_repair : safe.
Lemma safe_prepare_read ri : safe inv2 (prepare_read ri).
Proof. unfold prepare_read. safe. Qed.

(** [prepare_read] handles every final upload: the [debug_assert!] holds. *)
Lemma wp_any {A X} (m : M X A) (Q : result A -> X -> Prop) w : (forall r w', Q r w') -> wp m Q w.
Proof. intros HQ. apply wp_intro. auto. Qed.

Lemma prepare_read_handles ri s w :
  UploadState.is_final s = true ->
  wp (prepare_read ri) (fun r _ => r <> Ok false) (s, w).
Proof.
  intros Hf. unfold prepare_read. apply wp_bind. unfold get_local. apply wp_act. cbn.
  rewrite Hf. cbn. apply wp_bind, wp_any. intros [[]|e|] w1; [by apply wp_done| |done|done].
  apply wp_bind, wp_any. intros [s1|e|] w2; [|done|done].
  apply wp_bind, wp_any. intros [[]|e|] w3; [|done|done].
  apply wp_bind, wp_any. intros [[]|e|] w4; by try apply wp_done.
Qed.

Lemma safe_read_access ri : safe inv2 (prepare_upload_read_access ri).
Proof.
  intros [s w] Hw. unfold prepare_upload_read_access. apply wp_bind. unfold get_local at 1.
  apply wp_act. cbn. destruct (UploadState.is_final s) eqn:Hf.
  - apply wp_bind. eapply wp_mono.
    { apply wp_and; [apply (prepare_read_handles ri s w Hf)|apply (safe_prepare_read ri (s, w) Hw)]. }
    cbv beta. intros [[]|e|] w1 [Hr [Hp Hw1]]; try done. cbn.
    revert w1 Hw1. match goal with |- forall w1, _ -> wp ?m _ _ => change (safe inv2 m) end. safe.
  - revert Hw. generalize (s, w).
    match goal with |- forall w1, _ -> wp ?m _ _ => change (safe inv2 m) end. safe.
Qed.
#[local] Hint Resolve safe_read_access : safe.

(** *** Handlers *)

Lemma safe_load_state id : safe inv (load_state id).
Proof. unfold load_state. safe. Qed.
#[local] Hint Resolve safe_load_state : safe.

Lemma safe_guarded {A} g (body : M W A) base w :
  safe inv body -> keeps balanced body -> locker_inv (w_locks w) ->
  base !! guard_upload_id g = None ->
  held (w_locks w) = <[guard_upload_id g := guard_release g]> base ->
  wp (with_guard g body) (fun r w' => r <> Panic /\ locker_inv (w_locks w')) w.
Proof.
  intros Hs Hk Hw Hb Hh. eapply wp_mono.
  - apply wp_and; [apply (wp_with_guard g body (fun r _ => r <> Panic))|].
    + wp_use (Hs w Hw) r w1 Hr. apply Hr.
    + by apply (bal_with_guard g body base).
  - cbv beta. intros r w' (? & ? & _). done.
Qed.

Lemma safe_with_locked_upload {A} config id (body : UploadState -> M W A) :
  (forall s, safe inv (body s)) -> (forall s, keeps balanced (body s)) ->
  safe inv (with_locked_upload config id body).
Proof.
  intros Hs Hk. unfold with_locked_upload. apply safe_bind; [safe|intros _].
  intros w Hw. apply wp_bind, wp_on_locks. wp_use locker_lock_spec r l Hl; [done|].
  destruct Hl as [Hl Hr]. destruct r as [g|e|]; [|done|done]. destruct Hr as (Hg & Hnone & Hheld).
  apply (safe_guarded _ _ (held (w_locks w))); cbn; [safe; auto| |done|by rewrite Hg|by rewrite Hg].
  keeps_step; [apply keeps_load_state|auto].
Qed.

Lemma safe_delete config h id : safe inv (delete_upload config h id).
Proof.
  unfold delete_upload. safe_step; [safe|]. apply safe_with_locked_upload; [safe|].
  intros s. keeps_step; [apply keeps_ensure_active|]. keeps_step; [apply keeps_terminate|keeps].
Qed.

Lemma safe_head config id : safe inv (head config id).
Proof.
  unfold head, prepare_upload_observation_access.
  apply safe_with_locked_upload; [safe|]. intros s.
  keeps_step; [apply keeps_borrow; [typeclasses eauto|apply keeps_read_access]|keeps].
Qed.

Lemma safe_patch config h id body : safe inv (patch config h id body).
Proof.
  unfold patch, patch_locked, prepare_upload_mutation_access.
  safe_step; [safe|]. safe_step; [safe|]. apply safe_with_locked_upload; [safe|].
  intros s. keeps_step; [|keeps]. apply keeps_borrow; [typeclasses eauto|].
  keeps_step; [|apply keeps_receive_patch]. keeps_step; [keeps|]. keeps_step; [|apply keeps_regular_access].
  keeps_step; [|keeps]. apply keeps_lift; [typeclasses eauto|apply keeps_ensure_active].
Qed.

Lemma safe_download `{!StorageReader S, !StorageReaderLaws S} config id range :
  safe inv (download config id range).
Proof.
  unfold download, prepare_upload_download_access, download_prepared.
  safe_step; [safe|]. apply safe_with_locked_upload; intros s.
  - assert (forall h, safe inv (on_storage (storage_stream h))).
    { intros h. apply safe_storage. intros st. by wp_use storage_stream_spec r s' Hr; destruct r, Hr. }
    assert (forall h a b, safe inv (on_storage (storage_stream_range h a b))).
    { intros h a b. apply safe_storage. intros st.
      by wp_use storage_stream_range_spec r s' Hr; destruct r, Hr. }
    safe.
  - keeps_step; [|keeps]. apply keeps_borrow; [typeclasses eauto|].
    keeps_step; [apply keeps_read_access|keeps].
Qed.

(** *** Creation: the one panic left is the calendar overflow *)

(** The clock's reading when the deadline of an upload that [w] creates is computed. *)
Definition creation_clock (w : W) : DateTime :=
  (utc_now (utc_now (new_v4 (w_env w)).2).2).1.

(** The configured expiration reaches past the calendar, from that reading. *)
Definition deadline_overflows (config : Config) (w : W) : Prop :=
  exists d z, expiration config = Some d /\ chrono_from_std d = inr z /\
    datetime_add (creation_clock w) z = None.

(** Nothing happened, but that ids were drawn and the clock was read. *)
Definition untouched (w w' : W) : Prop := w' = set_env (w_env w') w.

(** A panic is the overflow, and left everything as it was. *)
Definition overflow_only (config : Config) {A} (w : W) (r : result A) (w' : W) : Prop :=
  r = Panic -> deadline_overflows config w /\ untouched w w'.

Lemma prepare_creation_panic config rq w :
  wp (prepare_creation config rq) (fun r w' =>
    overflow_only config w r w' /\ locker_inv (w_locks w') = locker_inv (w_locks w)) w.
Proof.
  unfold prepare_creation, new_random. apply wp_bind, wp_done.
  pose proof (validate_creation_no_panic config rq) as Hv. unfold overflow_only.
  destruct (validate_creation config rq) as [[]|e|]; [|by split|done].
  apply wp_bind, wp_bind, wp_on_env, wp_bind, wp_on_env, wp_done. cbv zeta. apply wp_bind.
  unfold deadline_overflows.
  destruct (expiration config) as [d|]; [|apply wp_done; by destruct (cq_upload_concat rq) as [[]|]; apply wp_done].
  destruct (chrono_from_std d) as [e|z] eqn:Hz; [by apply wp_done|]. apply wp_bind, wp_on_env.
  destruct (datetime_add _ _) eqn:Hd; apply wp_done.
  - by destruct (cq_upload_concat rq) as [[]|]; apply wp_done.
  - split; [|done]. intros _. split; [|done]. exists d, z. by split_and!.
Qed.

Lemma post_panic config h body w :
  locker_inv (w_locks w) ->
  wp (post config h body) (fun r w' => overflow_only config w r w' /\ locker_inv (w_locks w')) w.
Proof.
  intros Hw. unfold post. apply wp_bind, wp_done. unfold overflow_only.
  pose proof (patch_content_type_no_panic h) as Hct.
  destruct (is_supplied body) eqn:Hb; [destruct (validate_patch_content_type h) as [[]|e|]; [|done..]|].
  all: apply wp_bind; wp_use prepare_creation_panic r w1 Hr; destruct Hr as [Hp Hl];
    assert (locker_inv (w_locks w1)) as Hw1 by (by rewrite Hl).
  all: destruct r as [t|e|]; [|done|split; [by intros _; apply Hp|done]].
  all: match goal with |- wp ?m _ _ => assert (safe inv m) as Hm end.
  all: try (wp_use (Hm w1 Hw1) r w2 Hr; by destruct Hr).
  all: destruct t; cbv zeta; safe_step; try safe.
  by apply safe_receive_creation.
Qed.

Lemma safe_reclaim before : safe inv (reclaim_expired_uploads before).
Proof.
  unfold reclaim_expired_uploads. safe_step; [safe|].
  assert (forall report, safe inv (reclaim_loop a report)) as Hl; [|apply Hl].
  induction a as [|id ids IH]; intros report; cbn [reclaim_loop]; [safe|].
  safe_step; [|safe]. unfold reclaim_expired_upload. intros w Hw.
  apply wp_bind, wp_attempt, wp_on_locks. wp_use locker_try_lock_spec r l Hl; [done|].
  destruct Hl as [Hl Hr]. destruct r as [[g|]|e|]; cbn; [|by wp_steps|by wp_steps|done].
  destruct Hr as (Hg & Hnone & Hheld).
  apply (safe_guarded _ _ (held (w_locks w))); cbn; [| |done|by rewrite Hg|by rewrite Hg];
    unfold reclaim_locked_upload, prepare_upload_reclamation_access,
      stored_bytes_complete_upload; [safe|].
  assert (forall s, keeps balanced (detect_stored_completion (S:=S) (St:=St) (L:=L) (H:=H) (E:=E) s))
    by (intros; apply keeps_detect).
  assert (forall s, keeps balanced (is_expired (S:=S) (St:=St) (L:=L) (H:=H) (E:=E) s))
    by (intros; apply keeps_is_expired). keeps.
Qed.

(** The handlers but POST never panic. *)
Lemma handle_safe `{!StorageReader S, !StorageReaderLaws S} config r :
  (forall h body, r <> RequestPost h body) -> safe inv (handle config r).
Proof.
  intros Hr. destruct r; [by edestruct Hr| | | | | |]; cbn [handle]; (apply safe_bind; [|safe]);
    [..|safe|]; eauto using safe_head, safe_download, safe_patch, safe_delete, safe_reclaim.
Qed.

Lemma handle_panics `{!StorageReader S, !StorageReaderLaws S} config r w w' :
  locker_inv (w_locks w) -> run (handle config r) w = (Panic, w') ->
  (exists headers body, r = RequestPost headers body) /\ deadline_overflows config w /\ untouched w w'.
Proof.
  intros Hinv Hrun.
  assert ((exists headers body, r = RequestPost headers body) \/
    forall h body, r <> RequestPost h body) as [(h & body & ->)|Hr]; [destruct r; eauto| |].
  - split; [eauto|]. cbn [handle] in Hrun. revert Hrun. rewrite run_bind.
    destruct (run (post config h body) w) as [[a|e|] w1] eqn:Hp; [done|done|]. intros [= <-].
    destruct (wp_run _ _ _ _ _ (post_panic config h body w Hinv) Hp) as [Ho _]. by apply Ho.
  - by destruct (wp_run _ _ _ _ _ (handle_safe config r Hr w Hinv) Hrun).
Qed.

(** C25: a request panics only if it is a POST at a moment from which the configured
    expiration reaches past the calendar, and then it has changed no record, no stored
    byte, no lock and run no hook. *)
Theorem handlers_never_panic `{!StorageReader S, !StorageReaderLaws S} config r w w' :
  locker_inv (w_locks w) -> run (handle config r) w = (Panic, w') ->
  (exists headers body, r = RequestPost headers body) /\ deadline_overflows config w /\ untouched w w'.
Proof. apply handle_panics. Qed.
End no_panic.
