(* ===== verification/Effects.v ===== *)
(** * What the lifecycle steps change

    Specifications of the steps of [lifecycle.rs] in terms of the bytes stored
    under each key and the record kept for each id: which steps change nothing,
    what reconciliation makes of a record, and what accepting bytes commits. *)

From S2P Require Import Prelude Text Errors Crates Config State Headers Hooks Backends Lifecycle.
From S2P Require Import Intake Receive FinalUpload Access Response Protocol Streaming Contracts.
Local Open Scope string_scope.
Local Open Scope N_scope.
Local Open Scope prog_scope.

Lemma set_offset_id s : UploadState.set_offset (UploadState.offset s) s = s.
Proof. by destruct s. Qed.

Section effects.
Context {S St L H E : Type}.
Context `{StorageLaws S, StateStoreLaws St, !Locker L, !HookExecutor H, !Env E}.
Context `{HttpLib, Base64, Digests}.
Local Abbreviation W := (World S St L H E).
#[local] Set Default Proof Using "All".

(** ** The observable content of a world *)

Definition bytes_of (w : W) : gmap string bytes := stored (w_storage w).
Definition recs (w : W) : gmap string UploadState := records (w_states w).

Definition same (w w' : W) : Prop := bytes_of w' = bytes_of w /\ recs w' = recs w.

#[export] Instance same_preorder : PreOrder same.
Proof. split; [done|]. intros a b c [] []. split; congruence. Qed.

(** The size storage reports for an upload: zero when there is nothing. *)
Definition stored_size (s : UploadState) (w : W) : N :=
  match UploadState.storage_handle s with
  | Some h => default 0 (bytes_len <$> bytes_of w !! handle_key h)
  | None => 0
  end.

Lemma stored_size_same s w w' : same w w' -> stored_size s w' = stored_size s w.
Proof. intros [Hb _]. unfold stored_size. by rewrite Hb. Qed.

(** ** Steps that change nothing *)

Lemma same_env {A} (f : E -> A * E) : keeps same (on_env f).
Proof. intros w. by apply wp_on_env. Qed.
Lemma same_hooks {A} (m : M H A) : keeps same (on_hooks m).
Proof. intros w. by apply wp_on_hooks, wp_intro. Qed.
Lemma same_size h : keeps same (on_storage (storage_size h)).
Proof. intros w. apply wp_on_storage. wp_use storage_size_spec r s Hr. by destruct Hr. Qed.
Lemma same_get id : keeps same (on_states (state_get id)).
Proof. intros w. apply wp_on_states. wp_use state_get_spec r s Hr. by destruct Hr. Qed.
#[local] Hint Resolve same_env same_hooks same_size same_get : keeps.

Lemma same_is_expired s : keeps same (is_expired s).
Proof. unfold is_expired. keeps. Qed.
#[local] Hint Resolve same_is_expired : keeps.
Lemma same_ensure_active s : keeps same (ensure_active s).
Proof. unfold ensure_active. keeps. Qed.
Lemma same_run_gate g ri s : keeps same (run_gate g ri s).
Proof. unfold run_gate. keeps. Qed.
Lemma same_post_hook ctx : keeps same (execute_post_best_effort ctx).
Proof. unfold execute_post_best_effort. keeps. Qed.
#[local] Hint Resolve same_ensure_active same_run_gate same_post_hook : keeps.
Lemma same_finish_gate ri s : keeps same (finish_gate ri s).
Proof. unfold finish_gate. keeps. Qed.
Lemma same_after_commit ri s : keeps same (after_commit ri s).
Proof. unfold after_commit. keeps. Qed.
Lemma same_run_post_event e ri s : keeps same (run_post_event e ri s).
Proof. unfold run_post_event. keeps. Qed.
Lemma same_detect s : keeps same (detect_stored_completion s).
Proof. unfold detect_stored_completion. keeps. Qed.

(** Post hooks do not fail a request. *)
Lemma post_hook_ok ctx w :
  wp (execute_post_best_effort ctx) (fun r w' => same w w' /\ (r = Ok tt \/ r = Panic)) w.
Proof.
  apply wp_on_hooks. unfold wp. rewrite run_infallible.
  destruct (run (execute_post ctx) (w_hooks w)) as [[[]|[]|] h]; (split; [done|auto]).
Qed.

Lemma same_set_failed w w1 st :
  same w w1 -> records st = records (w_states w1) -> same w (set_states st w1).
Proof. intros [Hb Hr] Hst. split; [done|]. unfold recs in *. cbn. congruence. Qed.

(** ** Recovery *)

Lemma detect_spec s w :
  wp (detect_stored_completion s) (fun r w' =>
    same w w' /\
    forall l, r = Ok (Some l) ->
      UploadState.length s = Some l /\ stored_size s w = l) w.
Proof.
  unfold detect_stored_completion, stored_size.
  destruct (_ || _); [by apply wp_done|].
  destruct (UploadState.length s) as [l|]; [|by apply wp_done].
  destruct (UploadState.storage_handle s) as [h|]; [|by apply wp_done].
  apply wp_bind, wp_on_storage. wp_use storage_size_spec r s' Hr. destruct Hr as [Hs Hr].
  destruct r as [o|e|]; [|by split|done]. subst o.
  destruct (l <? _); [by apply wp_done|].
  destruct (N.eqb_spec (default 0 (bytes_len <$> stored (w_storage w) !! handle_key h)) l);
    cbn; apply wp_done; (split; [done|]); intros l' Hl; by simplify_eq.
Qed.

(** The record after recovery: its offset is what storage holds. *)
Definition reconciled (s : UploadState) (w : W) (s' : UploadState) (w' : W) : Prop :=
  s' = UploadState.set_offset (stored_size s w) s /\
  bytes_of w' = bytes_of w /\
  ((recs w' = recs w /\ stored_size s w = UploadState.offset s) \/
   (recs w' = <[UploadState.id s := s']> (recs w) /\
    forall l, UploadState.length s = Some l -> stored_size s w <= l)).

Lemma reconcile_completion_spec ri s w :
  wp (reconcile_stored_completion ri) (fun r sw =>
    match r with
    | Ok true => reconciled s w sw.1 sw.2
    | Ok false => sw.1 = s /\ same w sw.2
    | Err _ => same w sw.2
    | Panic => True
    end) (s, w).
Proof.
  unfold reconcile_stored_completion. apply wp_bind. wp_steps.
  wp_use detect_spec r w1 Hr. destruct Hr as [Hw1 Hl].
  destruct r as [[l|]|e|]; [|by apply wp_done|done|done].
  destruct (Hl l eq_refl) as [Hlen Hsize]. wp_steps.
  wp_use same_finish_gate r w2 Hw2. assert (same w w2) as Hw by (by transitivity w1).
  destruct r as [[]|e|]; [|done|done]. wp_steps.
  apply wp_on_states. wp_use state_set_spec r st Hr.
  destruct r as [[]|e|]; [|by apply (same_set_failed w w2)|done]. destruct Hr as [Hr _]. wp_steps.
  wp_use post_hook_ok r w3 Hw3. destruct Hw3 as [[Hb Hrec] Hok].
  destruct Hok as [-> | ->]; [|done]. apply wp_done. cbn. destruct Hw as [Hwb Hwr].
  split; [by rewrite Hsize|]. unfold bytes_of, recs in *. cbn in *.
  split; [congruence|]. right. split; [congruence|]. intros l' Hl'. by simplify_eq.
Qed.

Lemma reconcile_offset_spec s w :
  wp reconcile_storage_offset (fun r sw =>
    match r with
    | Ok _ => reconciled s w sw.1 sw.2
    | Err _ => same w sw.2
    | Panic => True
    end) (s, w).
Proof.
  unfold reconcile_storage_offset. apply wp_bind. wp_steps.
  eapply (wp_mono _ (fun r w' => same w w' /\ forall n, r = Ok n -> n = stored_size s w)).
  { unfold stored_size. destruct (UploadState.storage_handle s) as [h|].
    - apply wp_bind, wp_on_storage. wp_use storage_size_spec r s' Hr. destruct Hr as [Hs Hr].
      destruct r as [o|e|]; [subst o|by split|done]. apply wp_done. split; [done|]. by intros n [= <-].
    - apply wp_done. split; [done|]. by intros n [= <-]. }
  intros r w1 [Hw1 Hn]. destruct r as [n|e|]; [|done|done]. rewrite (Hn n eq_refl). clear Hn n.
  destruct (N.eqb_spec (stored_size s w) (UploadState.offset s)) as [Heq|Hne].
  - apply wp_done. cbn. split; [by rewrite Heq, set_offset_id|]. destruct Hw1. auto.
  - apply wp_bind. eapply (wp_mono _ (fun r sw => sw = (s, w1) /\
      (r = Ok tt -> forall l, UploadState.length s = Some l -> stored_size s w <= l))).
    { destruct (UploadState.length s) as [l|]; [|by apply wp_done].
      destruct (N.ltb_spec l (stored_size s w)); apply wp_done; (split; [done|]); [done|].
      intros _ l' Hl'. by simplify_eq. }
    intros r ? [-> Hl]. destruct r as [[]|e|]; [|done|done]. specialize (Hl eq_refl). wp_steps.
    apply wp_on_states. wp_use state_set_spec r st Hr. destruct Hw1 as [Hb Hrec].
    destruct r as [[]|e|]; [|by apply (same_set_failed w w1)|done].
    destruct Hr as [Hr _]. split; [done|]. unfold bytes_of, recs in *. cbn in *.
    split; [done|]. right. split; [congruence|done].
Qed.

Lemma stored_size_set_offset n s w : stored_size (UploadState.set_offset n s) w = stored_size s w.
Proof. done. Qed.

Lemma reconciled_trans s w s1 w1 w2 s2 w3 :
  reconciled s w s1 w1 -> same w1 w2 -> reconciled s1 w2 s2 w3 -> reconciled s w s2 w3.
Proof.
  intros (-> & Hb1 & Hr1) [Hb2 Hr2] (-> & Hb3 & Hr3).
  assert (stored_size (UploadState.set_offset (stored_size s w) s) w2 = stored_size s w) as Hsz.
  { unfold stored_size. cbn. by rewrite Hb2, Hb1. }
  rewrite Hsz in *. cbn in Hr3.
  split; [done|]. split; [congruence|].
  destruct Hr1 as [[Hr1 Ho]|[Hr1 Hl]], Hr3 as [[Hr3 Ho3]|[Hr3 Hl3]].
  - left. split; congruence.
  - right. split; [congruence|done].
  - right. split; [|done]. rewrite Hr3, Hr2, Hr1. by destruct s.
  - right. split; [|done]. by rewrite Hr3, Hr2, Hr1, insert_insert_eq.
Qed.

Lemma reconciled_after_same s w w1 s' w' :
  same w w1 -> reconciled s w1 s' w' -> reconciled s w s' w'.
Proof.
  intros [Hb Hr] (-> & Hb' & Hr'). assert (stored_size s w1 = stored_size s w) as Hsz.
  { unfold stored_size. by rewrite Hb. }
  rewrite Hsz in *. split; [done|]. split; [congruence|]. by rewrite <- Hr.
Qed.

Lemma reconciled_same_after s w s' w' w'' :
  reconciled s w s' w' -> same w' w'' -> reconciled s w s' w''.
Proof.
  intros (-> & Hb' & Hr') [Hb Hr]. split; [done|]. split; [congruence|]. by rewrite Hr.
Qed.

Lemma regular_access_spec ri s w :
  wp (prepare_regular_upload_access ri) (fun r sw =>
    match r with
    | Ok _ => reconciled s w sw.1 sw.2
    | Err _ => same w sw.2 \/ exists s', reconciled s w s' sw.2
    | Panic => True
    end) (s, w).
Proof.
  unfold prepare_regular_upload_access, reconcile_state_offset. apply wp_bind.
  wp_use reconcile_completion_spec r sw Hr. destruct sw as [s1 w1].
  destruct r as [b|e|]; [|by left|done]. wp_steps.
  wp_use same_ensure_active r w2 Hw2.
  assert (same w w2 /\ s1 = s \/ reconciled s w s1 w2) as Hpre.
  { destruct b; [right; by eapply reconciled_same_after|left].
    destruct Hr as [Heq Hr]. cbn in *. subst s1. split; [by transitivity w1|done]. }
  clear Hr Hw2 w1. destruct r as [[]|e|]; [|destruct Hpre as [[]|]; [by left|eauto]|done].
  wp_use reconcile_offset_spec r sw Hr. destruct sw as [s3 w3]. cbn in *.
  destruct r as [[]|e|]; [| |done].
  - destruct Hpre as [[Hw ->]|Hrec]; [by eapply reconciled_after_same|].
    by eapply (reconciled_trans s w s1 w2 w2).
  - destruct Hpre as [[Hw ->]|Hrec]; [left; by transitivity w2|].
    right. eexists. by eapply reconciled_same_after.
Qed.

(** ** Accepting bytes *)

(** What the preflight checks and the receive gate may change of a record: a
    deferred length is fixed, metadata is replaced. *)
Record evolves (s s' : UploadState) : Prop := {
  ev_id : UploadState.id s' = UploadState.id s;
  ev_offset : UploadState.offset s' = UploadState.offset s;
  ev_handle : UploadState.storage_handle s' = UploadState.storage_handle s;
  ev_final : UploadState.is_final s' = UploadState.is_final s;
  ev_partial : UploadState.is_partial s' = UploadState.is_partial s;
  ev_expires : UploadState.expires_at s' = UploadState.expires_at s;
  ev_length : forall l, UploadState.length s = Some l -> UploadState.length s' = Some l;
}.

#[export] Instance evolves_preorder : PreOrder evolves.
Proof.
  split; [done|]. intros a b c [] []. split; try congruence. auto.
Qed.

Lemma gate_evolves g result s : evolves s (po_state (gate_outcome g result s)).
Proof.
  unfold gate_outcome. cbn. destruct (replace_metadata _); [|reflexivity].
  destruct (ph_metadata result); [by split|reflexivity].
Qed.

Lemma run_gate_spec g ri s w :
  wp (run_gate g ri s) (fun r w' =>
    same w w' /\ forall po, r = Ok po -> evolves s (po_state po)) w.
Proof.
  apply wp_and; [apply same_run_gate|].
  unfold run_gate. apply wp_bind, wp_intro. intros [result|e|] w' _; [|done|done].
  destruct (ph_proceed result); cbn; apply wp_done; [|done].
  intros po [= <-]. apply gate_evolves.
Qed.

Lemma apply_length_evolves config l s s' :
  apply_upload_length config l s = Ok s' -> evolves s s'.
Proof.
  unfold apply_upload_length. destruct l as [l|]; [|by intros [= <-]].
  destruct (UploadState.length s) as [l'|] eqn:Hl.
  - destruct (negb _); [done|]. by intros [= <-].
  - destruct (match max_size config with Some _ => _ | None => _ end); cbn; [|done|done].
    intros [= <-]. split; try done. congruence.
Qed.

Lemma prepare_receive_spec config rq s w :
  wp (prepare_receive config rq) (fun r sw =>
    same w sw.2 /\
    (r = Ok tt ->
       evolves s sw.1 /\ rq_client_offset rq = UploadState.offset s /\
       UploadState.is_final s = false /\ UploadState.is_complete s = false)) (s, w).
Proof.
  unfold prepare_receive. apply wp_bind. wp_steps. wp_use same_ensure_active r w1 Hw1.
  destruct r as [[]|e|]; [|done|done].
  destruct (UploadState.is_final s); [by apply wp_done|].
  destruct (UploadState.is_complete s); [by apply wp_done|].
  destruct (N.eqb_spec (rq_client_offset rq) (UploadState.offset s)); cbn; [|by apply wp_done].
  apply wp_bind, wp_done.
  destruct (apply_upload_length config (rq_upload_length rq) s) as [s'|e'|] eqn:Hl; [|done|done].
  wp_steps. split; [done|]. intros _. split; [by eapply apply_length_evolves|done].
Qed.

(** The projection never passes the declared length. *)
Lemma projection_spec config s n kind p :
  validate_body_for_receive config s n kind = Ok p ->
  projected_offset p = saturating_add (UploadState.offset s) n /\
  completes_upload p = match UploadState.length s with
                       | Some l => projected_offset p =? l
                       | None => false
                       end /\
  (forall l, UploadState.length s = Some l -> projected_offset p <= l) /\
  (forall m, max_size config = Some m -> projected_offset p <= m).
Proof using Type.
  assert (forall A (o : option N) x (f : N -> Error.t) (k : result A) a,
    outcome_bind (match o with Some m => if m <? x then Err (f m) else Ok tt | None => Ok tt end)
      (fun _ => k) = Ok a -> k = Ok a /\ forall m, o = Some m -> x <= m) as Hguard.
  { intros A [m|] x f k a; cbn; [|by split].
    destruct (N.ltb_spec m x); cbn; [done|]. intros ->. split; [done|]. by intros m' [= <-]. }
  destruct kind; cbn; unfold validate_receive_body, validate_creation_with_upload_body; intros Hok.
  1: apply Hguard in Hok as [Hok _].
  all: apply (Hguard _ _ _ (fun max => Error.SizeExceeded _ max)) in Hok as [Hok Hmax];
    apply (Hguard _ _ _ (fun l => Error.SizeExceeded _ l)) in Hok as [Hok Hlen];
    injection Hok as <-; cbn; auto.
Qed.

(** The bytes of a request were appended to what the record accounts for. *)
Definition appended (s : UploadState) (w : W) (data : bytes) (w' : W) : Prop :=
  exists h old, UploadState.storage_handle s = Some h /\
    bytes_of w !! handle_key h = Some old /\ bytes_len old = UploadState.offset s /\
    bytes_of w' = <[handle_key h := (old ++ data)%list]> (bytes_of w).

(** The record that accounts for them: same upload, same object, the offset
    advanced by what was appended and never past the declared length. *)
Record advanced (s : UploadState) (data : bytes) (s' : UploadState) : Prop := {
  ad_id : UploadState.id s' = UploadState.id s;
  ad_handle : handle_key <$> UploadState.storage_handle s'
              = handle_key <$> UploadState.storage_handle s;
  ad_offset : bytes_len data <= u64_max ->
    UploadState.offset s' = saturating_add (UploadState.offset s) (bytes_len data);
  ad_bound : forall l, UploadState.length s' = Some l -> UploadState.offset s' <= l;
  ad_length : forall l, UploadState.length s = Some l -> UploadState.length s' = Some l;
  ad_final : UploadState.is_final s' = UploadState.is_final s;
  ad_expires : UploadState.expires_at s' = UploadState.expires_at s;
}.

Lemma advanced_evolves s s1 data s' : evolves s s1 -> advanced s1 data s' -> advanced s data s'.
Proof.
  intros [] []. split; try congruence.
  - intros Hd. rewrite ad_offset0 by done. by rewrite ev_offset0.
  - auto.
  - auto.
Qed.

Lemma appended_evolves s s1 w w1 data w' :
  evolves s s1 -> same w w1 -> appended s1 w1 data w' -> appended s w data w'.
Proof.
  intros [] [Hb _] (h & old & Hh & Ho & Hl & Hw'). exists h, old. rewrite <- Hb.
  split_and!; congruence.
Qed.

(** What a prepared body promises to the commit. *)
Record sound_body (p : PreparedReceiveBody) (s : UploadState) (content : bytes) : Prop := {
  sb_content data : chunk_data (pr_data p) = Some data -> data = content;
  sb_no_error data :
    chunk_data (pr_data p) = Some data ->
    cell_after (chunk_items (pr_data p)) (pr_deferred_error p) = None;
  sb_projected data :
    chunk_data (pr_data p) = Some data -> bytes_len data <= u64_max ->
    projected_offset (pr_projection p)
      = saturating_add (UploadState.offset s) (bytes_len data);
  sb_bound l :
    UploadState.length s = Some l -> projected_offset (pr_projection p) <= l;
  sb_completes :
    completes_upload (pr_projection p) = true ->
    exists l, UploadState.length s = Some l /\ projected_offset (pr_projection p) = l;
}.

Lemma prepare_receive_body_spec config ri hs body kind s w :
  wp (prepare_receive_body config ri hs body kind) (fun r sw =>
    same w sw.2 /\
    forall p, r = Ok p -> evolves s sw.1 /\ sound_body p sw.1 (body_content body)) (s, w).
Proof.
  unfold prepare_receive_body. apply wp_bind. wp_steps. wp_use run_gate_spec r w1 Hr.
  destruct Hr as [Hw1 Hev]. destruct r as [po|e|]; [|done|done]. specialize (Hev po eq_refl).
  wp_steps. unfold collect_receive_body.
  destruct (prepare_body _ _ _ _) as [ib|e|] eqn:Hib; [|done|done]. wp_steps.
  apply wp_debug_assert; intros _; [|done].
  destruct (validate_body_for_receive _ _ _ _) as [proj|e|] eqn:Hp; [|done|done]. wp_steps.
  split; [done|]. intros p [= <-]. split; [done|].
  apply projection_spec in Hp as (Hproj & Hc & Hlen & _).
  split; cbn; try done.
  - intros data Hd. by destruct (prepared_body _ _ _ _ _ _ Hib Hd).
  - intros data Hd. by destruct (prepared_body _ _ _ _ _ _ Hib Hd) as (_ & ? & _).
  - intros data Hd Hmax. destruct (prepared_body _ _ _ _ _ _ Hib Hd) as (_ & _ & Hs).
    by rewrite Hproj, Hs.
  - rewrite Hc. destruct (UploadState.length (po_state po)) as [l|]; [|done].
    intros Heq%N.eqb_eq. eauto.
Qed.

Lemma commit_spec p content s w :
  sound_body p s content ->
  wp (commit_receive_body p) (fun r sw =>
    match r with
    | Ok _ =>
        appended s w content sw.2 /\ advanced s content sw.1 /\
        recs sw.2 = <[UploadState.id s := sw.1]> (recs w) /\
        UploadState.offset sw.1 = projected_offset (pr_projection p) /\
        UploadState.length sw.1 = UploadState.length s
    | Err _ => same w sw.2 \/ (appended s w content sw.2 /\ recs sw.2 = recs w)
    | Panic => True
    end) (s, w).
Proof.
  intros Hsound. unfold commit_receive_body. apply wp_bind. wp_steps.
  unfold UploadState.require_storage_handle.
  destruct (UploadState.storage_handle s) as [h|] eqn:Hh; [|by left].
  apply wp_bind, wp_lift, wp_borrow, wp_attempt, wp_on_storage_cell.
  wp_use storage_append_spec r cs Hr. destruct cs as [cell st]. cbn in *.
  destruct r as [h'|e|]; [|apply wp_done; left; by destruct Hr|done].
  destruct Hr as (old & data & Hold & Hlen & Hdata & Hk & Hst & Hcell).
  rewrite (sb_no_error _ _ _ Hsound _ Hdata) in Hcell. subst cell.
  pose proof (sb_content _ _ _ Hsound _ Hdata) as ->. cbn in Hold, Hlen.
  set (w1 := set_storage st w). set (s' := apply_receive_commit (pr_projection p) h' s).
  assert (appended s w content w1) as Happ.
  { exists h, old. unfold bytes_of. cbn. rewrite Hst, Hk. by split_and!. }
  wp_steps. apply wp_on_states. wp_use state_set_spec r stt Hr.
  destruct r as [[]|e|]; [|right|done].
  - destruct Hr as [Hr _]. split; [done|]. split; [|split; [|done]].
    + split; cbn; try done.
      * rewrite Hh. cbn. by rewrite Hk.
      * intros Hmax. by apply (sb_projected _ _ _ Hsound _ Hdata).
      * apply (sb_bound _ _ _ Hsound).
    + unfold recs. cbn. by rewrite Hr.
  - split; [done|]. unfold recs. cbn. by rewrite Hr.
Qed.


Lemma same_evolves_recs s s1 w w1 w' (s' : UploadState) :
  evolves s s1 -> same w w1 -> recs w' = <[UploadState.id s1 := s']> (recs w1) ->
  recs w' = <[UploadState.id s := s']> (recs w).
Proof. intros [] [_ Hr]. by rewrite ev_id0, Hr. Qed.

Lemma receive_patch_spec config ri hs rq body s w :
  wp (receive_patch config ri hs rq body) (fun r sw =>
    match r with
    | Ok _ =>
        appended s w (body_content body) sw.2 /\ advanced s (body_content body) sw.1 /\
        recs sw.2 = <[UploadState.id s := sw.1]> (recs w) /\
        rq_client_offset rq = UploadState.offset s /\
        UploadState.is_final s = false /\ UploadState.is_complete s = false
    | Err _ =>
        same w sw.2 \/
        (appended s w (body_content body) sw.2 /\ rq_client_offset rq = UploadState.offset s /\
         (recs sw.2 = recs w \/
          exists s', advanced s (body_content body) s' /\ UploadState.is_complete s' = true /\
            recs sw.2 = <[UploadState.id s := s']> (recs w)))
    | Panic => True
    end) (s, w).
Proof.
  unfold receive_patch. apply wp_bind. wp_use prepare_receive_spec r sw Hr.
  destruct sw as [s1 w1]. destruct Hr as [Hw1 Hr]. cbn in Hw1, Hr.
  destruct r as [[]|e|]; [|by left|done]. destruct (Hr eq_refl) as (Hev1 & Hoff & Hfin & Hcompl).
  apply wp_bind. wp_use prepare_receive_body_spec r sw Hr2. destruct sw as [s2 w2].
  destruct Hr2 as [Hw2 Hr2]. cbn in Hw2, Hr2.
  assert (same w w2) as Hw by (by transitivity w1).
  destruct r as [p|e|]; [|by left|done]. destruct (Hr2 p eq_refl) as [Hev2 Hsound].
  assert (evolves s s2) as Hev by (by transitivity s1).
  apply wp_bind. wp_use commit_spec r sw Hr3; [exact Hsound|]. destruct sw as [s3 w3]. cbn in Hr3.
  destruct r as [[]|e|]; [| |done].
  2: { destruct Hr3 as [Hs|[Ha Hrec]]; [left; by transitivity w2|].
       right. split; [by eapply appended_evolves|]. split; [done|]. left. destruct Hw. cbn in *. congruence. }
  destruct Hr3 as (Ha & Had & Hrec & Ho3 & Hl3).
  assert (appended s w (body_content body) w3) as Ha' by (by eapply appended_evolves).
  assert (advanced s (body_content body) s3) as Had' by (by eapply advanced_evolves).
  assert (recs w3 = <[UploadState.id s := s3]> (recs w)) as Hrec' by (by eapply same_evolves_recs).
  wp_steps. wp_use post_hook_ok r w4 Hw4. destruct Hw4 as [[Hb4 Hr4] Hok].
  destruct Hok as [-> | ->]; [|done]. apply wp_bind.
  eapply (wp_mono _ (fun r sw => sw.1 = s3 /\ same w4 sw.2 /\
    (forall e, r = Err e -> UploadState.is_complete s3 = true))).
  { destruct (completes_upload (pr_projection p)) eqn:Hc; [|by apply wp_done].
    wp_steps. wp_use same_finish_gate r w5 Hw5.
    assert (UploadState.is_complete s3 = true) as Hcomp.
    { destruct (sb_completes _ _ _ Hsound Hc) as (l & Hl & Hpl).
      unfold UploadState.is_complete. rewrite Hl3, Hl, Ho3, Hpl. apply N.leb_refl. }
    destruct r as [[]|e|]; [|by split_and!|by split_and!].
    wp_steps. wp_use post_hook_ok r w6 Hw6. destruct Hw6 as [Hw6 Hok6].
    split; [done|]. split; [by transitivity w5|]. intros e ->. by destruct Hok6. }
  intros r [s5 w5] (Hs5 & [Hb5 Hr5] & Hcomp). cbn in Hs5, Hb5, Hr5. subst s5.
  assert (appended s w (body_content body) w5) as Ha5.
  { destruct Ha' as (h & old & ? & ? & ? & Hb). exists h, old. cbn in *. split_and!; congruence. }
  assert (recs w5 = <[UploadState.id s := s3]> (recs w)) as Hrec5 by congruence.
  destruct r as [[]|e|]; [by apply wp_done|right|done].
  split; [done|]. split; [done|]. right. exists s3. split_and!; [done|by eapply Hcomp|done].
Qed.
End effects.
