(* ===== verification/PatchSpec.v ===== *)
(** * The PATCH contract

    What a PATCH request does to the bytes in storage and to the upload's record:
    on success exactly the request's bytes are appended at the offset the client
    named, and the record accounts for all of them; on failure nothing that was
    accepted before is lost or changed. *)

From S2P Require Import Prelude Text Errors Crates Config State Headers Hooks Backends Lifecycle.
From S2P Require Import Intake Receive FinalUpload Access Response Protocol Streaming Contracts.
From S2P Require Import Effects.
Local Open Scope string_scope.
Local Open Scope N_scope.
Local Open Scope prog_scope.

Section patch.
Context {S St L H E : Type}.
Context `{StorageLaws S, StateStoreLaws St, !Locker L, !HookExecutor H, !Env E}.
Context `{HttpLib, Base64, Digests, PercentEncoding, Chrono, HashOrder}.
Local Abbreviation W := (World S St L H E).
#[local] Set Default Proof Using "All".

(** ** Handlers under the upload's lock *)

Lemma same_locks {A} (m : M L A) : keeps (X:=W) same (on_locks m).
Proof. intros w. by apply wp_on_locks, wp_intro. Qed.

Lemma load_state_spec id w :
  wp (load_state id) (fun r w' =>
    same w w' /\ (forall s, r = Ok s -> recs w !! id = Some s) /\ r <> Panic) (w : W).
Proof.
  unfold load_state. apply wp_bind, wp_on_states. wp_use state_get_spec r st Hr.
  destruct Hr as [Hst Hr]. assert (same w (set_states st w)) as Hw.
  { split; [done|]. unfold recs. cbn. done. }
  destruct r as [[s|]|e|]; [| | |done]; try apply wp_done; split_and!; try done.
  by intros s' [= <-].
Qed.

(** The handler's outcome is the outcome of its body on the stored record, or
    an error that changed nothing. *)
Lemma with_locked_upload_spec {A} config id (body : UploadState -> M W A)
    (Q : result A -> W -> Prop) w :
  (forall s w1, recs w !! id = Some s -> same w w1 -> wp (body s) Q w1) ->
  (forall e w', same w w' -> Q (Err e) w') -> (forall w', Q Panic w') ->
  (forall r l w', Q r w' -> Q r (set_locks l w')) ->
  wp (with_locked_upload config id body) Q w.
Proof.
  intros Hbody Herr Hpanic Hlocks. unfold with_locked_upload.
  apply wp_bind. wp_use load_state_spec r w1 Hr. destruct Hr as (Hw1 & _ & Hnp).
  destruct r as [s0|e|]; [|by apply Herr|done].
  apply wp_bind. eapply wp_mono; [apply same_locks|cbv beta; intros r w2 Hw2]. assert (same w w2) as Hw by (by transitivity w1).
  destruct r as [g|e|]; [|by apply Herr|apply Hpanic].
  apply wp_with_guard. eapply (wp_mono _ Q); [|intros; by apply Hlocks].
  apply wp_bind. wp_use load_state_spec r w3 Hr. destruct Hr as (Hw3 & Hs & Hnp3).
  assert (same w w3) as Hw' by (by transitivity w2).
  destruct r as [s|e|]; [|by apply Herr|done].
  apply Hbody; [|done]. destruct Hw as [_ Hr2]. rewrite <- Hr2. by apply Hs.
Qed.

(** ** The two outcomes *)

(** The upload [id] as the request found it: its record, its object, the bytes
    storage held. *)
Record found (id : string) (w : W) (s : UploadState) (h : StorageHandle) (old : bytes) : Prop := {
  found_record : recs w !! id = Some s;
  found_handle : UploadState.storage_handle s = Some h;
  found_bytes : bytes_of w !! handle_key h = Some old;
}.

(** [s'] accounts for [content] appended to [old]. *)
Record accounts (s : UploadState) (old content : bytes) (s' : UploadState) : Prop := {
  ac_id : UploadState.id s' = UploadState.id s;
  ac_handle : handle_key <$> UploadState.storage_handle s'
              = handle_key <$> UploadState.storage_handle s;
  ac_offset : bytes_len content <= u64_max ->
    UploadState.offset s' = saturating_add (bytes_len old) (bytes_len content);
  ac_bound : forall l, UploadState.length s' = Some l -> UploadState.offset s' <= l;
  ac_length : forall l, UploadState.length s = Some l -> UploadState.length s' = Some l;
  ac_final : UploadState.is_final s' = UploadState.is_final s;
  ac_expires : UploadState.expires_at s' = UploadState.expires_at s;
}.

Definition patch_succeeded (config : Config) (headers : Headers) (id : string)
    (content : bytes) (w : W) (resp : Response) (w' : W) : Prop :=
  exists s h old s' hook_headers,
    found id w s h old /\
    h_upload_offset headers = Some (bytes_len old) /\
    UploadState.is_final s = false /\
    bytes_of w' = <[handle_key h := (old ++ content)%list]> (bytes_of w) /\
    accounts s old content s' /\
    recs w' = <[UploadState.id s := s']> (recs w) /\
    resp = patch_response config s' hook_headers.

(** The same, with what is known of the headers that hooks added. *)
Definition patch_succeeded_by (P : gmap string string -> Prop) (config : Config) (headers : Headers)
    (id : string) (content : bytes) (w : W) (resp : Response) (w' : W) : Prop :=
  exists s h old s' hook_headers,
    found id w s h old /\
    h_upload_offset headers = Some (bytes_len old) /\
    UploadState.is_final s = false /\
    bytes_of w' = <[handle_key h := (old ++ content)%list]> (bytes_of w) /\
    accounts s old content s' /\
    recs w' = <[UploadState.id s := s']> (recs w) /\
    resp = patch_response config s' hook_headers /\ P hook_headers.

Lemma patch_succeeded_any P config headers id content w resp w' :
  patch_succeeded_by P config headers id content w resp w' ->
  patch_succeeded config headers id content w resp w'.
Proof.
  intros (s & h & old & s' & hs & Hf & Ho & Hfin & Hb & Ha & Hr & Hresp & _).
  by exists s, h, old, s', hs.
Qed.

(** Recovery brought the record up to what storage already held. *)
Definition brought_up (s : UploadState) (w w' : W) : Prop :=
  recs w' = <[UploadState.id s := UploadState.set_offset (stored_size s w) s]> (recs w) /\
  forall l, UploadState.length s = Some l -> stored_size s w <= l.

(** A failed PATCH left the store as it was, perhaps with the record brought up
    to what storage already held; or it had appended the whole body when
    persisting the record failed or a finish hook vetoed the completion. *)
Inductive patch_failed (offset : option N) (id : string) (content : bytes) (w w' : W) : Prop :=
| patch_untouched :
    same w w' -> patch_failed offset id content w w'
| patch_recovered s :
    recs w !! id = Some s -> bytes_of w' = bytes_of w -> brought_up s w w' ->
    patch_failed offset id content w w'
| patch_appended s h old :
    found id w s h old -> offset = Some (bytes_len old) ->
    bytes_of w' = <[handle_key h := (old ++ content)%list]> (bytes_of w) ->
    recs w' = recs w \/
    brought_up s w w' \/
    (exists s', accounts s old content s' /\ UploadState.is_complete s' = true /\
       recs w' = <[UploadState.id s := s']> (recs w)) ->
    patch_failed offset id content w w'.

Lemma reconciled_patch offset id content s w s1 w1 :
  recs w !! id = Some s -> reconciled s w s1 w1 -> patch_failed offset id content w w1.
Proof.
  intros Hs (-> & Hb & [[Hr _]|Hr]); [by apply patch_untouched|by eapply patch_recovered].
Qed.

(** Appending to a reconciled record is appending to the found upload. *)
Lemma appended_found id s w s1 w1 content w2 :
  recs w !! id = Some s -> reconciled s w s1 w1 -> appended s1 w1 content w2 ->
  exists h old, found id w s h old /\ bytes_len old = stored_size s w /\
    bytes_of w2 = <[handle_key h := (old ++ content)%list]> (bytes_of w).
Proof.
  intros Hs (-> & Hb & _) (h & old & Hh & Ho & Hl & Hb2). exists h, old.
  rewrite Hb in Ho, Hb2. by split_and!.
Qed.

Lemma advanced_accounts s n old content s' :
  bytes_len old = n -> advanced (UploadState.set_offset n s) content s' ->
  accounts s old content s'.
Proof.
  intros <- Had. by destruct Had.
Qed.

(** Within the range of u64 the offset is the number of bytes. *)
Lemma accounts_exact s old content s' :
  accounts s old content s' -> bytes_len (old ++ content) <= u64_max ->
  UploadState.offset s' = bytes_len (old ++ content).
Proof.
  rewrite bytes_len_app. intros Ha Hmax. rewrite (ac_offset _ _ _ _ Ha) by lia.
  apply saturating_add_exact. unfold u64. lia.
Qed.

(** Committed records replace the reconciled one. *)
Lemma reconciled_recs s (w : W) s1 (w1 w2 : W) (s2 : UploadState) :
  reconciled s w s1 w1 -> recs w2 = <[UploadState.id s1 := s2]> (recs w1) ->
  recs w2 = <[UploadState.id s := s2]> (recs w).
Proof.
  intros (-> & _ & [[Hr _]|[Hr _]]) Hr2; rewrite Hr2, Hr; cbn; [done|by rewrite insert_insert_eq].
Qed.

Lemma patch_locked_spec config ri headers offset body id s w w1 :
  recs w !! id = Some s -> same w w1 -> UploadState.is_final s = false ->
  wp (patch_locked config ri headers offset body) (fun r sw =>
    match r with
    | Ok _ => exists h old,
        found id w s h old /\ offset = bytes_len old /\
        bytes_of sw.2 = <[handle_key h := (old ++ body_content body)%list]> (bytes_of w) /\
        accounts s old (body_content body) sw.1 /\
        recs sw.2 = <[UploadState.id s := sw.1]> (recs w)
    | Err _ => patch_failed (Some offset) id (body_content body) w sw.2
    | Panic => True
    end) (s, w1).
Proof.
  intros Hs Hw1 Hfin. unfold patch_locked, prepare_upload_mutation_access.
  apply wp_bind, wp_bind. wp_steps. rewrite Hfin.
  wp_use regular_access_spec r sw Hr. destruct sw as [s2 w2]. cbn in *.
  assert (forall s', reconciled s w1 s' w2 -> reconciled s w s' w2) as Hpre
    by (intros; by eapply reconciled_after_same).
  destruct r as [[]|e|]; [| |done].
  2: { destruct Hr as [Hr|[s' Hr]]; [apply patch_untouched; by transitivity w1|].
       by eapply reconciled_patch, Hpre. }
  apply Hpre in Hr. clear Hpre. wp_use receive_patch_spec r sw Hr2. destruct sw as [s3 w3]. cbn in *.
  destruct r as [hook_headers|e|]; [| |done].
  - destruct Hr2 as (Happ & Had & Hrec & Hoff & _ & _).
    destruct (appended_found id s w s2 w2 _ w3 Hs Hr Happ) as (h & old & Hf & Hlen & Hb).
    pose proof Hr as (-> & _). exists h, old. split; [done|]. cbn in Hoff.
    split; [by rewrite Hlen|]. split; [done|].
    split; [by eapply advanced_accounts|by eapply reconciled_recs].
  - destruct Hr2 as [[Hb3 Hr3]|(Happ & Hoff & Hrec)].
    + eapply (reconciled_patch _ id _ s w s2); [done|]. by eapply reconciled_same_after.
    + destruct (appended_found id s w s2 w2 _ w3 Hs Hr Happ) as (h & old & Hf & Hlen & Hb).
      apply (patch_appended _ _ _ _ _ s h old Hf); [pose proof Hr as (-> & _); cbn in Hoff; by rewrite Hoff, Hlen|done|].
      destruct Hrec as [Hrec|(s' & Had & Hcomp & Hrec)].
      * destruct Hr as (-> & _ & [[Hr _]|[Hr Hl]]); [left; congruence|right; left].
        split; [congruence|done].
      * right; right. pose proof Hr as (Heq & _). subst s2. exists s'.
        split; [by eapply advanced_accounts|]. split; [done|by eapply reconciled_recs].
Qed.

Lemma patch_failed_locks offset id content w l w' :
  patch_failed offset id content w w' -> patch_failed offset id content w (set_locks l w').
Proof.
  intros [Hs|s Hs Hb Hr|s h old Hf Ho Hb Hr]; [by apply patch_untouched|by eapply patch_recovered|].
  by eapply patch_appended.
Qed.

Lemma patch_locked_yields P config ri headers offset body :
  (forall rq, yields P (receive_patch config ri headers rq body : M (UploadState * W) _)) ->
  yields P (patch_locked config ri headers offset body : M (UploadState * W) _).
Proof. intros HP. unfold patch_locked. by apply yields_bind. Qed.

Lemma patch_spec_by (P : gmap string string -> Prop) config headers id body w :
  (forall ri rq, yields P (receive_patch config ri headers rq body : M (UploadState * W) _)) ->
  wp (patch config headers id body) (fun r w' =>
    match r with
    | Ok resp => patch_succeeded_by P config headers id (body_content body) w resp w'
    | Err _ => patch_failed (h_upload_offset headers) id (body_content body) w w'
    | Panic => True
    end) w.
Proof.
  intros HP. unfold patch. apply wp_bind, wp_done.
  destruct (validate_patch_content_type headers) as [[]|e|]; [|by apply patch_untouched|done].
  apply wp_bind, wp_done. destruct (h_upload_offset headers) as [offset|] eqn:Hoff;
    [|by apply patch_untouched].
  apply with_locked_upload_spec.
  - intros s w1 Hs Hw1. apply wp_bind, wp_borrow.
    destruct (UploadState.is_final s) eqn:Hfin.
    + unfold patch_locked, prepare_upload_mutation_access. apply wp_bind, wp_bind. wp_steps.
      rewrite Hfin. wp_steps. wp_use same_ensure_active r w2 Hw2.
      destruct r as [[]|e|]; wp_steps; try done; apply patch_untouched; by transitivity w1.
    + eapply wp_mono; [apply wp_and; [by apply patch_locked_spec|by apply patch_locked_yields]|].
      cbv beta. intros r [s' w'] [Hr Hhh]. cbn in *.
      destruct r as [hook_headers|e|]; [|done|done]. apply wp_done. specialize (Hhh _ eq_refl).
      destruct Hr as (h & old & Hf & -> & Hb & Ha & Hrec).
      by exists s, h, old, s', hook_headers.
  - intros e w' Hw'. by apply patch_untouched.
  - done.
  - intros [resp|e|] l w'; [done|apply patch_failed_locks|done].
Qed.

Lemma patch_spec config headers id body w :
  wp (patch config headers id body) (fun r w' =>
    match r with
    | Ok resp => patch_succeeded config headers id (body_content body) w resp w'
    | Err _ => patch_failed (h_upload_offset headers) id (body_content body) w w'
    | Panic => True
    end) w.
Proof.
  eapply wp_mono; [apply (patch_spec_by (fun _ => True))|].
  - intros ri rq w0. by apply wp_intro.
  - intros [resp|e|] w' Hr; [by eapply patch_succeeded_any|done..].
Qed.

(** C1: a successful PATCH appends exactly the request's bytes at the offset the
    client named and records all of them. *)
Theorem patch_success config headers id body w resp w' :
  run (patch config headers id body) w = (Ok resp, w') ->
  patch_succeeded config headers id (body_content body) w resp w'.
Proof. intros Hrun. apply (wp_run _ _ _ _ _ (patch_spec config headers id body w) Hrun). Qed.

(** C9: a failed PATCH loses nothing: bytes and record are as they were (the record
    perhaps brought up to what storage already held), or the whole body had been
    appended, at the offset the client named, before persisting the record failed or a finish hook vetoed. *)
Theorem patch_failure config headers id body w e w' :
  run (patch config headers id body) w = (Err e, w') ->
  patch_failed (h_upload_offset headers) id (body_content body) w w'.
Proof. intros Hrun. apply (wp_run _ _ _ _ _ (patch_spec config headers id body w) Hrun). Qed.
End patch.
