(* ===== verification/Concrete.v ===== *)
(** * A concrete world

    Instances of the third-party interfaces that satisfy their laws, and a server
    world of the in-memory backends, used to evaluate the model on concrete
    requests: header maps as association maps, a base-16 codec in place of
    base64, digests that keep the bytes, a counting clock and id generator, and a
    counting semaphore. *)

From S2P Require Import Prelude Text Errors Crates Config State Headers Hooks Backends Memory.
From S2P Require Import Locking.
Local Open Scope string_scope.
Local Open Scope N_scope.

(** ** Headers *)

#[export] Instance concrete_http : HttpLib := {|
  HeaderMap := gmap string string;
  HeaderValue := string;
  header_map_new := ∅;
  header_get h n := h !! n;
  header_get_all h n := match h !! n with Some v => [v] | None => [] end;
  header_insert n v h := <[n := v]> h;
  header_to_str v := inr v;
  header_value_from_str s :=
    if str_all visible s then inr s else inl "failed to parse header value";
  header_value_from_static s := s;
  header_name_try_from n :=
    if is_empty n then None
    else if str_all name_char (to_lowercase n) then Some (to_lowercase n) else None;
|}.

Lemma to_lowercase_name n : str_all name_char n = true -> to_lowercase n = n.
Proof.
  induction n as [|c n IH]; cbn; [done|]. intros [Hc Hn]%andb_prop. rewrite IH by done.
  f_equal. unfold lower_byte. destruct (in_range 65 90 (byte_of c)) eqn:Hr; [|done].
  unfold name_char, in_range in *.
  apply andb_prop in Hr as [H1%N.leb_le H2%N.leb_le].
  apply orb_prop in Hc as [[H3%N.leb_le _]%andb_prop|H3%N.eqb_eq]; lia.
Qed.

#[export] Instance concrete_http_laws : HttpLaws.
Proof.
  split; cbn.
  - intros n. apply lookup_empty.
  - intros n v h. apply lookup_insert_eq.
  - intros n m v h Hne. by apply lookup_insert_ne.
  - intros s v. by destruct (str_all visible s); intros; simplify_eq.
  - intros s ->. done.
  - intros n Hn Hc. rewrite to_lowercase_name by done. destruct n; [done|]. cbn [is_empty].
    by rewrite Hc.
Qed.

(** ** A base-16 codec *)

Definition hex_digit (n : N) : ascii := ascii_of_N (if n <? 10 then 48 + n else 55 + n).

Definition hex_value (c : ascii) : option N :=
  if in_range 48 57 (byte_of c) then Some (byte_of c - 48)
  else if in_range 65 70 (byte_of c) then Some (byte_of c - 55) else None.

Fixpoint hex_encode (b : bytes) : string :=
  match b with
  | [] => ""
  | x :: b =>
      String (hex_digit (Byte.to_N x / 16)) (String (hex_digit (Byte.to_N x mod 16)) (hex_encode b))
  end.

Fixpoint hex_decode (s : string) : string + bytes :=
  match s with
  | EmptyString => inr []
  | String a (String b s) =>
      match hex_value a, hex_value b, hex_decode s with
      | Some x, Some y, inr l =>
          match Byte.of_N (16 * x + y) with
          | Some z => inr (z :: l)
          | None => inl "Invalid byte"
          end
      | _, _, inl e => inl e
      | _, _, _ => inl "Invalid symbol"
      end
  | String _ EmptyString => inl "Invalid input length"
  end.

#[export] Instance concrete_base64 : Base64 :=
  {| b64_encode := hex_encode; b64_decode := hex_decode |}.

#[export] Instance concrete_base64_laws : Base64Laws.
Proof.
  split; cbn.
  - intros b. induction b as [|x b IH]; [done|]. cbn [hex_encode hex_decode]. rewrite IH.
    by destruct x.
  - intros b. induction b as [|x b IH]; [done|]. cbn [hex_encode str_all]. rewrite IH.
    by destruct x.
  - intros b. by destruct b.
Qed.

(** ** Digests, percent encoding, clock, hash order *)

Definition keep_bytes : DigestImpl := {|
  digest_state := bytes;
  digest_new := [];
  digest_update s b := (s ++ b)%list;
  digest_finalize s := s;
|}.

#[export] Instance concrete_digests : Digests := {|
  sha1_impl := keep_bytes; sha256_impl := keep_bytes;
  md5_impl := keep_bytes; crc32_impl := keep_bytes |}.

Lemma keep_bytes_incremental : digest_incremental keep_bytes.
Proof.
  intros chunks. cbn. assert (forall acc : bytes, foldl (fun s b => (s ++ b)%list) acc chunks
    = (acc ++ concat chunks)%list) as Hf; [|apply Hf].
  induction chunks as [|c cs IH]; intros acc; cbn; [by rewrite app_nil_r|].
  by rewrite IH, <- app_assoc.
Qed.

#[export] Instance concrete_digest_laws : DigestLaws.
Proof. split; exact keep_bytes_incremental. Qed.

Fixpoint percent_encode (s : string) (set : ascii -> bool) : string :=
  match s with
  | EmptyString => ""
  | String c s =>
      let rest := percent_encode s set in
      if (byte_of c <? 128) && negb (set c) then String c rest
      else String "%" (String (hex_digit (byte_of c / 16)) (String (hex_digit (byte_of c mod 16)) rest))
  end.

#[export] Instance concrete_percent : PercentEncoding := {|
  NON_ALPHANUMERIC c := negb (alphanumeric c);
  utf8_percent_encode := percent_encode;
|}.

#[export] Instance concrete_percent_laws : PercentLaws.
Proof.
  split; cbn; [done|]. intros s set. induction s as [|c s IH]; cbn; [done|].
  intros [Hc Hs]%andb_prop. by rewrite Hc, IH.
Qed.

(** The last instant of the calendar, at the end of the year 262142. *)
Definition MAX_UTC : Z := 8210266876799999999999.

#[export] Instance concrete_chrono : Chrono := {|
  chrono_from_std d :=
    if d <=? 9223372036854775807000000 then inr (Z.of_N d) else inl "source duration value is out of range";
  datetime_add now d := if (now + d <=? MAX_UTC)%Z then Some (now + d)%Z else None;
  format_http_date d := u64_to_string (Z.to_N d);
|}.

#[export] Instance concrete_hash_order : HashOrder := {|
  hash_iter V m := map_to_list m;
  hash_iter_perm V m := reflexivity _;
|}.

#[export] Instance concrete_semaphore : TokioSemaphore := {|
  Semaphore := nat;
  semaphore_new n := n;
  semaphore_try_acquire n := match n with O => None | Datatypes.S n => Some n end;
  semaphore_release := Datatypes.S;
  semaphore_available_permits n := n;
|}.

#[export] Instance concrete_semaphore_laws : SemaphoreLaws.
Proof. split; cbn; try done; intros []; by intros; simplify_eq. Qed.

(** ** Clock and ids *)

Record Clock := { clock_now : DateTime; clock_ids : N }.

#[export] Instance clock_env : Env Clock := {|
  utc_now c := (clock_now c, {| clock_now := (clock_now c + 1)%Z; clock_ids := clock_ids c |});
  new_v4 c := ("id" ++ u64_to_string (clock_ids c),
               {| clock_now := clock_now c; clock_ids := clock_ids c + 1 |});
|}.

(** ** Hooks without state *)

#[export] Instance no_hooks : HookExecutor unit := NoopHookExecutor.

#[export] Instance no_hooks_laws : HookLaws unit.
Proof. split; intros ctx h; by apply wp_done. Qed.

(** ** The server *)

Abbreviation Server := (World MemoryStorage MemoryStateStore MemoryLocker unit Clock).

(** An empty server at an instant. *)
Definition empty_server (now : DateTime) : Server :=
  mkWorld ∅ ∅ MemoryLocker_new tt {| clock_now := now; clock_ids := 0 |}.

Definition with_data (key : string) (b : bytes) (w : Server) : Server :=
  set_storage (<[key := b]> (w_storage w)) w.

Definition with_record (s : UploadState) (w : Server) : Server :=
  set_states (<[UploadState.id s := s]> (w_states w)) w.

(** An upload of [length] bytes that holds [data] so far. *)
Definition upload (id : string) (length : N) (data : bytes) : UploadState :=
  UploadState.set_offset (bytes_len data)
    (UploadState.set_storage_handle (StorageHandle_new ("memory://" ++ id))
       (UploadState.set_length length (UploadState.new id 0))).

Definition with_upload (id : string) (length : N) (data : bytes) (w : Server) : Server :=
  with_data ("memory://" ++ id) data (with_record (upload id length data) w).

Definition text (s : string) : bytes := list_byte_of_string s.

Lemma empty_server_free now : locker_inv (w_locks (empty_server now)).
Proof. apply quiescent_new. Qed.
