(* ===== verification/HeaderSpec.v ===== *)
(** * The header contract

    The upload ids the server accepts, and that what it prints into a header it
    (or a client that echoes it) reads back: metadata, concatenation and numbers. *)

From S2P Require Import Prelude Text Errors Crates Config State Headers Hooks Backends Lifecycle.
From S2P Require Import Intake Receive FinalUpload Access Response Protocol.
Local Open Scope string_scope.
Local Open Scope N_scope.
Local Open Scope prog_scope.

(** ** Upload ids *)

Definition id_char (c : N) : Prop := c <> 47 /\ c <> 92 /\ is_control c = false.

Lemma check_id_chars_ok cs : check_id_chars cs = Ok tt <-> Forall id_char cs.
Proof.
  induction cs as [|c cs IH]; cbn [check_id_chars]; [by split|].
  rewrite Forall_cons, <- IH. unfold id_char.
  destruct (N.eqb_spec c 47), (N.eqb_spec c 92); cbn [orb]; try (split; [done|naive_solver]).
  destruct (is_control c); naive_solver.
Qed.

(** An id is accepted exactly when it is not empty, at most 256 bytes long and
    free of path separators and control characters; it is then used unchanged. *)
Lemma upload_id_accepted id id' :
  UploadId_from_str id = Ok id' <->
    id' = id /\ id <> "" /\ str_len id <= MAX_UPLOAD_ID_LEN /\ Forall id_char (chars id).
Proof.
  unfold UploadId_from_str. rewrite <- check_id_chars_ok.
  destruct id as [|c id]; [naive_solver|]. cbn [is_empty].
  destruct (N.ltb_spec MAX_UPLOAD_ID_LEN (str_len (String c id))) as [Hlt|Hle].
  - split; [done|]. intros (_ & _ & Hle & _). lia.
  - destruct (check_id_chars (chars (String c id))) as [[]|e|]; cbn; naive_solver.
Qed.

(** ** Metadata *)

Section metadata.
Context `{HttpLib, Base64Laws, HashOrder}.

Lemma metadata_key_solid key :
  is_valid_metadata_key key = true ->
  key <> "" /\
  str_all (fun c => negb (is_whitespace c)) key = true /\
  str_all (fun c => negb (Ascii.eqb c ",")) key = true /\
  str_all (fun c => negb (Ascii.eqb c " ")) key = true.
Proof.
  unfold is_valid_metadata_key. intros [Hne Hk]%andb_prop. split; [by destruct key|].
  split_and!; revert Hk; apply str_all_impl; intros c; unfold metadata_key_byte.
  - intros [Hr _]%andb_prop. unfold in_range, is_whitespace in *.
    apply andb_prop in Hr as [Hlo%N.leb_le _]. apply negb_true_iff, orb_false_iff. split.
    + unfold in_range. apply andb_false_iff. right. apply N.leb_gt. lia.
    + apply N.eqb_neq. lia.
  - by intros [_ Hc]%andb_prop.
  - intros [Hr _]%andb_prop. destruct (Ascii.eqb_spec c " ") as [->|]; [|done]. by cbn in Hr.
Qed.

Lemma b64_solid v :
  str_all (fun c => negb (is_whitespace c)) (b64_encode v) = true /\
  str_all (fun c => negb (Ascii.eqb c ",")) (b64_encode v) = true.
Proof using All.
  pose proof (b64_encode_chars v) as Hc.
  split; revert Hc; apply str_all_impl; intros [[] [] [] [] [] [] [] []]; by vm_compute.
Qed.

Lemma trim_pair key e :
  key <> "" ->
  str_all (fun c => negb (is_whitespace c)) key = true ->
  str_all (fun c => negb (is_whitespace c)) e = true ->
  trim (key ++ " " ++ e) = if is_empty e then key else key ++ " " ++ e.
Proof.
  intros Hne Hk He. unfold trim.
  assert (trim_start (key ++ " " ++ e) = key ++ " " ++ e) as ->.
  { destruct key as [|c key]; [done|]. apply trim_start_solid. cbn in Hk.
    apply andb_prop in Hk as [Hc _]. by apply negb_true_iff. }
  rewrite trim_end_app, (trim_end_app " " e), (trim_end_solid e He), (trim_end_solid key Hk).
  by destruct e.
Qed.

(** One printed pair is read as its key and value. *)
Lemma parse_pair_roundtrip m key v :
  is_valid_metadata_key key = true -> m !! key = None ->
  parse_metadata_pair m (key ++ " " ++ b64_encode v) = Ok (<[key := v]> m).
Proof using All.
  intros Hkey Hnew. destruct (metadata_key_solid key Hkey) as (Hne & Hws & Hcomma & Hsp).
  destruct (b64_solid v) as [Hvws _]. unfold parse_metadata_pair.
  pose proof (trim_pair key (b64_encode v) Hne Hws Hvws) as Htrim.
  rewrite Htrim. destruct (is_empty (b64_encode v)) eqn:He.
  - assert (v = []) as -> by (apply b64_encode_nil; by destruct (b64_encode v)).
    destruct key as [|c key]; [done|]. cbn [is_empty].
    rewrite split_once_char_none by done. cbn [is_empty]. rewrite Hkey. cbn. by rewrite Hnew.
  - destruct (key ++ " " ++ b64_encode v) eqn:Hp; [by destruct key|]. cbn [is_empty]. rewrite <- Hp.
    change (key ++ " " ++ b64_encode v) with (key ++ String " " (b64_encode v)).
    rewrite split_once_char by done. destruct key as [|c key]; [done|]. cbn [is_empty].
    rewrite Hkey. cbn [negb]. rewrite b64_decode_encode. cbn. by rewrite Hnew.
Qed.

Lemma parse_pairs_roundtrip l (m : UploadMetadata) :
  Forall (fun kv => is_valid_metadata_key kv.1 = true /\ m !! kv.1 = None) l ->
  NoDup l.*1 ->
  parse_metadata_pairs m (map encode_metadata_pair l) = Ok (list_to_map (reverse l) ∪ m).
Proof using All.
  revert m; induction l as [|[k v] l IH]; intros m Hl Hnd; cbn [map parse_metadata_pairs].
  - cbn. by rewrite (left_id_L ∅ (∪)).
  - apply Forall_cons in Hl as [[Hk Hm] Hl]. cbn in Hnd, Hk, Hm. apply NoDup_cons in Hnd as [Hkl Hnd].
    unfold encode_metadata_pair at 1. cbn [fst snd]. rewrite parse_pair_roundtrip by done. cbn [outcome_bind].
    rewrite IH; [|apply Forall_forall; intros [k' v'] Hin|done].
    + f_equal. rewrite reverse_cons, list_to_map_snoc.
      * by rewrite <- insert_union_l, insert_union_r by (apply not_elem_of_list_to_map_1; by rewrite fmap_reverse, elem_of_reverse).
      * by rewrite fmap_reverse, elem_of_reverse.
    + apply Forall_forall with (x := (k', v')) in Hl as [? ?]; [|done]. split; [done|]. cbn.
      rewrite lookup_insert_ne; [done|]. intros ->. apply Hkl, list_elem_of_fmap. by exists (k', v').
Qed.

(** The metadata a HEAD response prints parses back to the same map. *)
Lemma metadata_header_roundtrip (m : UploadMetadata) :
  m <> ∅ -> (forall k, is_Some (m !! k) -> is_valid_metadata_key k = true) ->
  parse_upload_metadata_value (encode_upload_metadata m) = Ok m.
Proof using All.
  intros Hne Hkeys. unfold parse_upload_metadata_value, encode_upload_metadata.
  rewrite decide_False by done.
  pose proof (hash_iter_perm m) as Hperm. rewrite split_join.
  - rewrite parse_pairs_roundtrip.
    + rewrite (right_id_L ∅ (∪)). f_equal.
      transitivity (list_to_map (M:=UploadMetadata) (map_to_list m)); [|apply list_to_map_to_list].
      apply list_to_map_proper.
      * rewrite reverse_Permutation, Hperm. apply NoDup_fst_map_to_list.
      * by rewrite reverse_Permutation.
    + rewrite Hperm. apply Forall_forall. intros [k v] Hin%elem_of_map_to_list. cbn.
      split; [eauto|apply lookup_empty].
    + rewrite Hperm. apply NoDup_fst_map_to_list.
  - intros Hnil. apply Hne, map_to_list_empty_iff, Permutation_nil.
    apply map_eq_nil in Hnil. by rewrite Hnil in Hperm.
  - apply Forall_forall. intros s Hs.
    apply list_elem_of_In, in_map_iff in Hs as ([k v] & <- & Hin).
    apply list_elem_of_In in Hin. rewrite Hperm in Hin. apply elem_of_map_to_list in Hin.
    destruct (metadata_key_solid k) as (_ & _ & Hc & _); [eauto|].
    unfold encode_metadata_pair. cbn [fst snd]. rewrite !str_all_app, Hc.
    by destruct (b64_solid v) as [_ ->].
Qed.
End metadata.

(** ** Concatenation: the URLs the server hands out name its uploads *)

(** RFC 3986 unreserved characters, which no URL encoding changes; generated
    ids are made of them. *)
Definition unreserved (c : ascii) : bool :=
  alphanumeric c || Ascii.eqb c "-" || Ascii.eqb c "_" || Ascii.eqb c "." || Ascii.eqb c "~".

Definition plain_id (id : string) : bool :=
  negb (is_empty id) && (str_len id <=? MAX_UPLOAD_ID_LEN) && str_all unreserved id.

(** An absolute path without query, fragment, colon, space or trailing slash. *)
Definition path_char (c : ascii) : bool :=
  unreserved c || Ascii.eqb c "/" || Ascii.eqb c "%".

Definition plain_base (base : string) : bool :=
  starts_with "/" base && negb (ends_with_char "/" base) && str_all path_char base.

Lemma str_all_without (p : ascii -> bool) (c : ascii) s :
  p c = false -> str_all p s = true -> str_all (fun d => negb (Ascii.eqb d c)) s = true.
Proof.
  intros Hc. apply str_all_impl. intros d Hd.
  destruct (Ascii.eqb_spec d c) as [->|]; [congruence|done].
Qed.

Lemma chars_unreserved s :
  str_all unreserved s = true -> Forall id_char (chars s).
Proof.
  induction s as [|c s IH]; [constructor|]. cbn [str_all]. intros [Hc Hs]%andb_prop.
  assert (byte_of c < 128 /\ id_char (byte_of c)) as [Hlt Hid].
  { revert Hc. clear. destruct c as [[] [] [] [] [] [] [] []]; vm_compute; try done;
      by repeat split. }
  cbn [chars]. destruct (N.ltb_spec (byte_of c) 128); [|lia]. constructor; auto.
Qed.

Lemma plain_id_valid id : plain_id id = true -> UploadId_from_str id = Ok id.
Proof.
  unfold plain_id. intros [[Hne Hlen]%andb_prop Hc]%andb_prop. apply upload_id_accepted.
  split; [done|]. split; [by destruct id|]. split; [by apply N.leb_le|by apply chars_unreserved].
Qed.

Lemma split_once_first c sep a b :
  str_all (fun d => negb (Ascii.eqb d c)) a = true ->
  split_once (String c sep) (a ++ String c sep ++ b) = Some (a, b).
Proof.
  induction a as [|d a IH].
  - intros _. change ("" ++ String c sep ++ b) with (String c (sep ++ b)).
    cbn [split_once str_strip_prefix]. by rewrite Ascii.eqb_refl, str_strip_prefix_app.
  - cbn [str_all]. intros [Hd Ha]%andb_prop.
    change (String d a ++ String c sep ++ b) with (String d (a ++ String c sep ++ b)).
    cbn [split_once str_strip_prefix]. rewrite Ascii.eqb_sym. destruct (Ascii.eqb d c); [done|].
    by rewrite IH.
Qed.

Lemma split_once_absent c sep a :
  str_all (fun d => negb (Ascii.eqb d c)) a = true -> split_once (String c sep) a = None.
Proof.
  induction a as [|d a IH]; [done|]. cbn [str_all]. intros [Hd Ha]%andb_prop.
  cbn [split_once str_strip_prefix]. rewrite Ascii.eqb_sym. destruct (Ascii.eqb d c); [done|].
  by rewrite IH.
Qed.

Lemma find_from_app c a b :
  str_all (fun d => negb (Ascii.eqb d c)) a = true -> find_from c (a ++ String c b) = Some (String c b).
Proof.
  induction a as [|d a IH]; cbn; [by rewrite Ascii.eqb_refl|].
  intros [Hd Ha]%andb_prop. destruct (Ascii.eqb d c); [done|]. by apply IH.
Qed.

Lemma take_until_none p s : str_all (fun c => negb (p c)) s = true -> take_until p s = s.
Proof.
  induction s as [|c s IH]; cbn; [done|]. intros [Hc Hs]%andb_prop.
  destruct (p c); [done|]. by rewrite IH.
Qed.

(** The path a URL built from a base path and an id ends in. *)
Lemma extract_path base id :
  plain_base base = true -> plain_id id = true ->
  forall url, (url = base ++ "/" ++ id \/
    exists scheme host, url = scheme ++ "://" ++ host ++ base ++ "/" ++ id /\
      str_all (fun c => negb (Ascii.eqb c ":")) scheme = true /\
      str_all (fun c => negb (Ascii.eqb c "/")) host = true) ->
  extract_partial_id url base = Some id.
Proof.
  intros Hbase Hid url Hurl. pose proof Hid as Hid'.
  unfold plain_base in Hbase. apply andb_prop in Hbase as [[Hstart Hend]%andb_prop Hpath].
  unfold plain_id in Hid'. apply andb_prop in Hid' as [[Hne _]%andb_prop Hun].
  assert (str_all path_char (base ++ "/" ++ id) = true) as Hall.
  { rewrite !str_all_app, Hpath. cbn. revert Hun. apply str_all_impl. intros c.
    unfold path_char. by intros ->. }
  assert (match split_once "://" url with
          | Some (_, rest) => find_from "/" rest
          | None => Some url
          end = Some (base ++ "/" ++ id)) as Hp.
  { destruct Hurl as [-> | (scheme & host & -> & Hs & Hh)].
    - rewrite split_once_absent; [done|]. by apply (str_all_without path_char).
    - change (scheme ++ "://" ++ host ++ base ++ "/" ++ id)
        with (scheme ++ String ":" "//" ++ (host ++ base ++ "/" ++ id)).
      rewrite split_once_first by done.
      destruct base as [|c base]; [done|]. unfold starts_with in Hstart. cbn [str_strip_prefix] in Hstart.
      destruct (Ascii.eqb_spec "/" c) as [<-|]; [|done].
      change (String "/" base ++ "/" ++ id) with (String "/" (base ++ "/" ++ id)).
      by apply find_from_app. }
  unfold extract_partial_id. rewrite Hp. rewrite take_until_none.
  2: { revert Hall. apply str_all_impl. intros c Hc.
       destruct (Ascii.eqb_spec c "?") as [->|]; [done|]. by destruct (Ascii.eqb_spec c "#") as [->|]. }
  apply negb_true_iff in Hend. rewrite Hend, <- string_app_assoc, str_strip_prefix_app.
  assert (contains_char "/" id = false) as ->.
  { unfold contains_char. by rewrite (str_all_without unreserved) by done. }
  destruct (is_empty id); [done|]. cbn [orb]. by rewrite plain_id_valid.
Qed.

Definition plain_origin (o : string) : Prop :=
  exists scheme host, o = scheme ++ "://" ++ host /\
    str_all (fun c => negb (Ascii.eqb c ":")) scheme = true /\
    str_all (fun c => negb (Ascii.eqb c "/")) host = true.

Section urls.
Context `{PercentLaws}.

Lemma encode_plain id :
  str_all unreserved id = true -> utf8_percent_encode id PATH_SEGMENT_ENCODE = id.
Proof using All.
  intros Hid. apply percent_encode_unreserved. revert Hid. apply str_all_impl. intros c Hc.
  assert (byte_of c < 128) as Hlt.
  { revert Hc. clear. destruct c as [[] [] [] [] [] [] [] []]; by vm_compute. }
  replace (byte_of c <? 128) with true by (symmetry; by apply N.ltb_lt). cbn.
  unfold PATH_SEGMENT_ENCODE. rewrite non_alphanumeric_spec by done.
  unfold unreserved in Hc. destruct (alphanumeric c), (Ascii.eqb c "-"), (Ascii.eqb c "_"),
    (Ascii.eqb c "."), (Ascii.eqb c "~"); done.
Qed.

(** a client that sends a partial upload's [Location] back in
    [Upload-Concat] names that upload. *)
Theorem location_names_upload config headers s :
  plain_base (base_path config) = true -> plain_id (UploadState.id s) = true ->
  (forall o, (base_url config = Some o \/ Headers_base_url headers config = Some o) ->
     plain_origin o) ->
  extract_partial_id (location config headers s) (base_path config) = Some (UploadState.id s).
Proof using All.
  intros Hbase Hid Horigin. apply extract_path; [done|done|].
  unfold location, upload_url. pose proof Hid as Hun. unfold plain_id in Hun.
  apply andb_prop in Hun as [_ Hun]. rewrite encode_plain by done.
  assert (forall o, (base_url config = Some o \/ Headers_base_url headers config = Some o) ->
    exists scheme host, o ++ base_path config ++ "/" ++ UploadState.id s
        = scheme ++ "://" ++ host ++ base_path config ++ "/" ++ UploadState.id s /\
      str_all (fun c => negb (Ascii.eqb c ":")) scheme = true /\
      str_all (fun c => negb (Ascii.eqb c "/")) host = true) as Habs.
  { intros o Ho. destruct (Horigin o Ho) as (sch & host & -> & ? & ?). exists sch, host.
    by rewrite !string_app_assoc. }
  destruct (base_url config) as [o|] eqn:Hb; [right; auto|].
  destruct (Headers_base_url headers config) as [o|]; [right; auto|by left].
Qed.
End urls.

Lemma part_urls_solid base parts :
  plain_base base = true -> Forall (fun id => plain_id id = true) parts ->
  Forall (fun w => w <> "" /\ str_all (fun c => negb (is_whitespace c)) w = true)
    (map (fun id => base ++ "/" ++ id) parts).
Proof.
  intros Hbase Hparts. apply Forall_forall. intros u Hu.
  apply list_elem_of_In, in_map_iff in Hu as (id & <- & Hin).
  apply list_elem_of_In in Hin. eapply Forall_forall in Hparts; [|exact Hin]. cbn in Hparts.
  unfold plain_base in Hbase. apply andb_prop in Hbase as [_ Hpath].
  unfold plain_id in Hparts. apply andb_prop in Hparts as [_ Hun].
  split; [by destruct base|].
  enough (str_all path_char (base ++ "/" ++ id) = true) as Hall.
  { revert Hall. apply str_all_impl. clear. intros [[] [] [] [] [] [] [] []]; by vm_compute. }
  rewrite !str_all_app, Hpath. cbn. revert Hun. apply str_all_impl. intros c.
  unfold path_char. by intros ->.
Qed.

(** the composition a HEAD response prints for a final upload parses back to
    the same parts. *)
Theorem concat_header_roundtrip config s parts :
  plain_base (base_path config) = true ->
  UploadState.parts s = Some parts -> parts <> [] ->
  Forall (fun id => plain_id id = true) parts ->
  exists urls,
    parse_upload_concat_value (concat_value config s) = Ok (Final urls) /\
    map (fun url => extract_partial_id url (base_path config)) urls = map Some parts.
Proof.
  intros Hbase Hparts Hne Hplain. exists (map (fun id => base_path config ++ "/" ++ id) parts).
  split.
  - unfold concat_value. rewrite Hparts. destruct parts as [|p ps]; [done|].
    unfold parse_upload_concat_value.
    set (urls := map (fun id => base_path config ++ "/" ++ id) (p :: ps)).
    change ("final;" ++ str_join " " urls =? "partial")%string with false.
    rewrite str_strip_prefix_app, split_whitespace_join; [|by apply part_urls_solid].
    done.
  - rewrite map_map. apply map_ext_in. intros id Hin.
    apply extract_path; [done| |by left]. apply list_elem_of_In in Hin.
    by eapply Forall_forall in Hplain.
Qed.

(** an upload id is accepted from a request path exactly when it is not empty,
    not longer than the limit, and free of control characters and path separators;
    it is never altered. *)
Theorem upload_id_characterised id id' :
  UploadId_from_str id = Ok id' <->
    id' = id /\ id <> "" /\ str_len id <= MAX_UPLOAD_ID_LEN /\ Forall id_char (chars id).
Proof. apply upload_id_accepted. Qed.

(** Every key of [m] is one that Upload-Metadata may carry. *)
Definition keys_printable (m : UploadMetadata) : Prop :=
  forall k, is_Some (m !! k) -> is_valid_metadata_key k = true.

(** What the parser accepts has such keys only. *)
Lemma parse_pair_keys `{HttpLib, Base64} m piece m' :
  keys_printable m -> parse_metadata_pair m piece = Ok m' -> keys_printable m'.
Proof.
  unfold parse_metadata_pair. intros Hm.
  destruct (is_empty (trim piece)); [by intros [= <-]|].
  destruct (match split_once " " (trim piece) with Some _ => _ | None => _ end) as [key encoded].
  destruct (is_empty key); [done|]. destruct (is_valid_metadata_key key) eqn:Hkey; [|done]. cbn [negb].
  destruct (match encoded with Some _ => _ | None => _ end) as [v|e|]; [|done|done]. cbn.
  destruct (m !! key); [done|]. intros [= <-] k [x Hk].
  destruct (decide (k = key)) as [->|Hne]; [done|].
  rewrite lookup_insert_ne in Hk by done. apply Hm. by exists x.
Qed.

Lemma parse_pairs_keys `{HttpLib, Base64} pairs m m' :
  keys_printable m -> parse_metadata_pairs m pairs = Ok m' -> keys_printable m'.
Proof.
  revert m. induction pairs as [|p pairs IH]; intros m Hm; cbn [parse_metadata_pairs].
  { by intros [= <-]. }
  destruct (parse_metadata_pair m p) as [m1|e|] eqn:Hp; [|done|done]. cbn. intros Hps.
  eapply IH; [|exact Hps]. by eapply parse_pair_keys.
Qed.

Lemma no_keys_printable : keys_printable ∅.
Proof. intros k [x Hk]. by rewrite lookup_empty in Hk. Qed.

(** C39: the Upload-Metadata value HEAD prints for a map parses back to that map,
    binary values included, exactly when every key of it is a valid key; so it
    does for every map that was itself read from an Upload-Metadata header.
    (Keys that a hook sets are checked by nothing: a map with an invalid one is
    printed and does not parse back.) *)
Theorem metadata_roundtrip `{HttpLib, Base64Laws, HashOrder} :
  (forall m : UploadMetadata,
     parse_upload_metadata_value (encode_upload_metadata m) = Ok m <-> keys_printable m) /\
  (forall value m, parse_upload_metadata_value value = Ok m ->
     parse_upload_metadata_value (encode_upload_metadata m) = Ok m).
Proof.
  assert (forall m : UploadMetadata, keys_printable m ->
    parse_upload_metadata_value (encode_upload_metadata m) = Ok m) as Hback.
  { intros m Hm. destruct (decide (m = ∅)) as [->|Hne]; [|by apply metadata_header_roundtrip].
    unfold encode_upload_metadata. by rewrite decide_True. }
  assert (forall value m, parse_upload_metadata_value value = Ok m -> keys_printable m) as Hkeys.
  { intros value m. apply parse_pairs_keys, no_keys_printable. }
  split; [|by eauto]. intros m. split; [apply Hkeys|apply Hback].
Qed.
