(* ===== verification/HeadSpec.v ===== *)
(** * The HEAD contract

    What HEAD reports is what storage holds: the [Upload-Offset] of the response
    reads back as the number of bytes stored, the length as the declared length,
    and the request changes nothing except a record that storage had overtaken. *)

From S2P Require Import Prelude Text Errors Crates Config State Headers Hooks Backends Lifecycle.
From S2P Require Import Intake Receive FinalUpload Access Response Protocol Streaming Contracts.
From S2P Require Import Effects PatchSpec.
Local Open Scope string_scope.
Local Open Scope N_scope.
Local Open Scope prog_scope.

(** ** Numbers are visible text *)

Lemma u64_to_string_visible n : str_all visible (u64_to_string n) = true.
Proof.
  apply u64_to_string_all. intros d Hd. pose proof (digit_in_range d Hd) as Hr.
  unfold visible, in_range in *. apply andb_prop in Hr as [H1%N.leb_le H2%N.leb_le].
  apply andb_true_intro. split; apply N.leb_le; lia.
Qed.

(** ** Reading a response's headers back *)

Section headers.
Context `{HttpLaws}.
#[local] Set Default Proof Using "All".

Definition header_of (name : string) (r : Response) : option string :=
  get_str (rs_headers r) name.

Lemma header_of_set name v r :
  name <> "" -> str_all name_char name = true -> str_all visible v = true ->
  header_of name (with_header name v r) = Some v.
Proof.
  intros Hne Hn Hv. unfold with_header, header_of, get_str.
  rewrite header_name_lower, header_from_static by done. cbn.
  rewrite header_get_insert_eq. by erewrite header_from_to_str by (by apply header_from_static).
Qed.

Lemma header_of_other name name' v r :
  name' <> "" -> str_all name_char name' = true -> name <> name' ->
  header_of name (with_header name' v r) = header_of name r.
Proof.
  intros Hne Hn Hd. unfold with_header. rewrite header_name_lower by done.
  destruct (header_value_from_str v); [done|]. unfold header_of, get_str. cbn.
  by rewrite header_get_insert_ne.
Qed.

Lemma header_of_new name status : name <> "tus-resumable" -> header_of name (Response_new status) = None.
Proof.
  intros Hd. unfold header_of, get_str, Response_new. cbn.
  by rewrite header_get_insert_ne, header_get_new by done.
Qed.

Lemma parse_header_of name n r :
  n <= u64_max -> header_of name r = Some (u64_to_string n) ->
  parse_u64_header (rs_headers r) name = Ok (Some n).
Proof.
  unfold header_of, parse_u64_header. intros Hn ->. by rewrite parse_u64_to_string.
Qed.

Lemma parse_header_absent name r :
  header_of name r = None -> parse_u64_header (rs_headers r) name = Ok None.
Proof. unfold header_of, parse_u64_header. by intros ->. Qed.
End headers.

(** Looks a header up through the headers added after it. *)
Ltac header_of_step :=
  lazymatch goal with
  | |- context [header_of ?n (with_header ?n _ _)] => rewrite (header_of_set n) by done
  | |- context [header_of _ (with_header _ _ _)] => rewrite header_of_other by done
  | |- context [header_of _ (Response_new _)] => rewrite header_of_new by done
  | |- context [header_of _ (if ?b then _ else _)] => destruct b
  | |- context [header_of _ (match ?x with _ => _ end)] => destruct x
  end.

Section head.
Context `{HttpLaws, Base64, Chrono, HashOrder}.
#[local] Set Default Proof Using "All".

Lemma expires_other name config s r :
  name <> "upload-expires" -> header_of name (upload_expires_header config s r) = header_of name r.
Proof. intros Hn. unfold upload_expires_header. by repeat header_of_step. Qed.

(** The offset and length part of [head_response]; the headers added after it are
    the metadata, the expiration and the composition. *)
Definition progress_headers (facts : UploadAccessFacts) : Response :=
  let response := with_header "cache-control" "no-store" (Response_new 200) in
  let response :=
    match af_offset facts with
    | Some offset => with_header "upload-offset" (u64_to_string offset) response
    | None => response
    end in
  match af_length facts with
  | Some length => with_header "upload-length" (u64_to_string length) response
  | None =>
      if af_defer_length facts then with_header "upload-defer-length" "1" response
      else response
  end.

Lemma head_response_progress name config facts s :
  name <> "upload-metadata" -> name <> "upload-expires" -> name <> "upload-concat" ->
  header_of name (head_response config facts s) = header_of name (progress_headers facts).
Proof.
  intros Hm He Hc.
  transitivity (header_of name
    (if decide (UploadState.metadata s = ∅) then progress_headers facts
     else with_header "upload-metadata" (encode_upload_metadata (UploadState.metadata s))
            (progress_headers facts))).
  - unfold head_response. fold (progress_headers facts). cbv zeta.
    destruct (has_extension _ _), (UploadState.is_partial s), (UploadState.is_final s);
      rewrite ?(header_of_other _ "upload-concat") by done; by apply expires_other.
  - destruct (decide _); [done|]. by apply header_of_other.
Qed.

Lemma head_response_offset config facts s :
  header_of "upload-offset" (head_response config facts s) = u64_to_string <$> af_offset facts.
Proof.
  rewrite head_response_progress by done. unfold progress_headers.
  destruct (af_offset facts) as [n|]; cbn; repeat header_of_step; try done.
  all: by apply header_of_set, u64_to_string_visible.
Qed.

Lemma head_response_length config facts s :
  header_of "upload-length" (head_response config facts s) = u64_to_string <$> af_length facts.
Proof.
  rewrite head_response_progress by done. unfold progress_headers.
  destruct (af_length facts) as [n|]; cbn; repeat header_of_step; try done.
  by apply header_of_set, u64_to_string_visible.
Qed.

Lemma head_response_defer config facts s :
  af_length facts = None ->
  header_of "upload-defer-length" (head_response config facts s)
    = if af_defer_length facts then Some "1" else None.
Proof.
  intros Hl. rewrite head_response_progress by done. unfold progress_headers. rewrite Hl.
  destruct (af_defer_length facts); repeat header_of_step; done.
Qed.

(** What the response says about a regular upload. *)
Record reports (n : N) (length : option N) (r : Response) : Prop := {
  rp_offset : n <= u64_max -> parse_u64_header (rs_headers r) "upload-offset" = Ok (Some n);
  rp_length : forall l, length = Some l -> u64 l ->
    parse_u64_header (rs_headers r) "upload-length" = Ok (Some l);
  rp_defer : length = None ->
    parse_u64_header (rs_headers r) "upload-length" = Ok None /\
    header_of "upload-defer-length" r = Some "1";
  rp_status : rs_status r = 200;
}.

Lemma with_header_status n v r : rs_status (with_header n v r) = rs_status r.
Proof. unfold with_header. by repeat case_match. Qed.

Lemma head_response_status config facts s : rs_status (head_response config facts s) = 200.
Proof.
  unfold head_response, upload_expires_header.
  repeat first [rewrite with_header_status | case_match]; done.
Qed.

Lemma head_response_reports config s s' :
  reports (UploadState.offset s) (UploadState.length s)
    (head_response config (for_regular_upload s) s').
Proof.
  split.
  - intros Hn. by apply parse_header_of; [|rewrite head_response_offset].
  - intros l Hl Hu. apply parse_header_of; [done|]. by rewrite head_response_length; cbn; rewrite Hl.
  - intros Hl. split; [apply parse_header_absent; rewrite head_response_length; cbn; by rewrite Hl|].
    rewrite head_response_defer by done. cbn. by rewrite Hl.
  - apply head_response_status.
Qed.
End head.

Section handler.
Context {S St L H E : Type}.
Context `{StorageLaws S, StateStoreLaws St, !Locker L, !HookExecutor H, !Env E}.
Context `{HttpLaws, Base64, Digests, PercentEncoding, Chrono, HashOrder}.
Local Abbreviation W := (World S St L H E).
#[local] Set Default Proof Using "All".

(** An observation leaves the bytes alone and may bring the record up to them. *)
Definition observed (s : UploadState) (w w' : W) : Prop :=
  bytes_of w' = bytes_of w /\ (recs w' = recs w \/ brought_up s w w').

Lemma reconciled_observed s (w : W) s' w' : reconciled s w s' w' -> observed s w w'.
Proof. intros (-> & Hb & [[Hr _]|[Hr Hl]]); (split; [done|]); [by left|by right]. Qed.

Lemma same_observed s (w w' : W) : same w w' -> observed s w w'.
Proof. intros [Hb Hr]. split; [done|by left]. Qed.

Lemma head_spec config id s (w : W) :
  recs w !! id = Some s -> UploadState.is_final s = false ->
  wp (head config id) (fun r w' =>
    match r with
    | Ok resp =>
        observed s w w' /\ reports (stored_size s w) (UploadState.length s) resp /\
        (stored_size s w = UploadState.offset s \/
         forall l, UploadState.length s = Some l -> stored_size s w <= l)
    | Err _ => observed s w w'
    | Panic => True
    end) w.
Proof.
  intros Hs Hfin. unfold head. apply with_locked_upload_spec.
  - intros s0 w1 Hs0 Hw1. rewrite Hs in Hs0. injection Hs0 as <-. apply wp_bind, wp_borrow.
    unfold prepare_upload_observation_access, prepare_upload_read_access.
    wp_steps. rewrite Hfin. wp_steps.
    wp_use regular_access_spec r sw Hr. destruct sw as [s2 w2]. cbn in Hr.
    destruct r as [[]|e|]; [| |by wp_steps].
    + wp_steps. apply (reconciled_after_same _ w) in Hr; [|done].
      pose proof Hr as (-> & _ & Hsz). split; [by eapply reconciled_observed|].
      split; [apply (head_response_reports config (UploadState.set_offset (stored_size s w) s))|].
      destruct Hsz as [[_ Hsz]|[_ Hsz]]; [by left|by right].
    + cbn. destruct Hr as [Hr|[s' Hr]].
      * apply same_observed. by transitivity w1.
      * by eapply reconciled_observed, reconciled_after_same.
  - intros e w' Hw'. by apply same_observed.
  - done.
  - by intros [] l w'.
Qed.

(** HEAD on a regular upload reports the number of bytes storage holds and
    the declared length, leaves every byte alone, and changes no record except
    to bring this one up to the stored bytes. *)
Theorem head_reports_stored_bytes config id s (w : W) resp w' :
  recs w !! id = Some s -> UploadState.is_final s = false ->
  run (head config id) w = (Ok resp, w') ->
  reports (stored_size s w) (UploadState.length s) resp /\ observed s w w'.
Proof.
  intros Hs Hfin Hrun. by destruct (wp_run _ _ _ _ _ (head_spec config id s w Hs Hfin) Hrun) as (? & ? & _).
Qed.

(** C23: a HEAD that follows a successful PATCH reports the old size plus the
    request's bytes, and the stored object ends with them: the client's next
    offset is the right one. *)
Theorem head_after_patch config headers id body (w : W) presp w1 resp w2 :
  (forall s, recs w !! id = Some s -> UploadState.id s = id) ->
  run (patch config headers id body) w = (Ok presp, w1) ->
  run (head config id) w1 = (Ok resp, w2) ->
  exists s h old s',
    found id w s h old /\ h_upload_offset headers = Some (bytes_len old) /\
    accounts s old (body_content body) s' /\
    bytes_of w2 !! handle_key h = Some (old ++ body_content body)%list /\
    reports (bytes_len (old ++ body_content body)) (UploadState.length s') resp.
Proof.
  intros Hids Hp Hh.
  destruct (wp_run _ _ _ _ _ (patch_spec config headers id body w) Hp)
    as (s & h & old & s' & hs & Hf & Ho & Hfin & Hb & Ha & Hr & _).
  destruct Hf as [Hs Hk Hold]. assert (recs w1 !! id = Some s') as Hs'.
  { by rewrite Hr, (Hids _ Hs), lookup_insert_eq. }
  assert (UploadState.is_final s' = false) as Hfin' by (by rewrite (ac_final _ _ _ _ Ha)).
  assert (bytes_of w1 !! handle_key h = Some (old ++ body_content body)%list) as Hnew
    by (by rewrite Hb, lookup_insert_eq).
  assert (stored_size s' w1 = bytes_len (old ++ body_content body)) as Hsz.
  { pose proof (ac_handle _ _ _ _ Ha) as Hh'. rewrite Hk in Hh'. unfold stored_size.
    destruct (UploadState.storage_handle s') as [h'|]; [|done]. cbn in Hh'.
    injection Hh' as ->. by rewrite Hnew. }
  destruct (wp_run _ _ _ _ _ (head_spec config id s' w1 Hs' Hfin') Hh) as ([Hb2 _] & Hrep & _).
  exists s, h, old, s'. rewrite <- Hsz, Hb2. by split_and!.
Qed.
End handler.
