(* ===== verification/Axum.v ===== *)
(** * The axum integration ([src/crates/tus-axum/src])

    The route table over the protocol handlers: extractors, method override, error
    bridge and CORS.  A request comes with the path the server was asked for; matching
    it against route templates is axum's.  A panic in a handler ends the connection. *)

From S2P Require Import Prelude Text Errors Crates Config State Headers Hooks Backends Lifecycle.
From S2P Require Import Intake Receive FinalUpload Access Response Protocol.
Local Open Scope string_scope.
Local Open Scope N_scope.
Local Open Scope prog_scope.

(** ** Interfaces of [axum], [http] and [std::error] *)

Class AxumLib `{HttpLib} := {
  (** matching a path against a route template: with what [{upload_id}] captures, if the
      template has it *)
  path_match : string -> string -> option (option string);
  (** [Path<String>]: percent decoding of a capture, and the display text of its error *)
  decode_param : string -> string + string;
  header_value_eqb : HeaderValue -> HeaderValue -> bool;
  (** whether the source chain of an [io::Error] has a [LengthLimitError] *)
  length_limited : string -> bool;
}.

Definition plain_char (c : ascii) : bool :=
  (byte_of c <? 128) && negb (Ascii.eqb c "%") && negb (Ascii.eqb c "{") && negb (Ascii.eqb c "}").

Class AxumLaws `{AxumLib} := {
  path_match_static template path :
    str_all plain_char template = true ->
    path_match template path = if (path =? template)%string then Some None else None;
  path_match_item base path :
    str_all plain_char base = true ->
    path_match (base ++ "/{upload_id}") path =
      match str_strip_prefix (base ++ "/") path with
      | Some segment =>
          if is_empty segment || contains_char "/" segment then None else Some (Some segment)
      | None => None
      end;
  decode_param_plain s : str_all plain_char s = true -> decode_param s = inr s;
  header_value_eqb_eq a b : header_value_eqb a b = true <-> a = b;
}.

(** [str::to_ascii_uppercase] *)
Definition upper_byte (c : ascii) : ascii :=
  if in_range 97 122 (byte_of c) then ascii_of_N (byte_of c - 32) else c.
Fixpoint to_ascii_uppercase (s : string) : string :=
  match s with
  | EmptyString => ""
  | String c s' => String (upper_byte c) (to_ascii_uppercase s')
  end.

(** [s.strip_suffix(c)] *)
Fixpoint strip_suffix_char (c : ascii) (s : string) : option string :=
  match s with
  | EmptyString => None
  | String d EmptyString => if Ascii.eqb d c then Some "" else None
  | String d s' => option_map (String d) (strip_suffix_char c s')
  end.

(** ** Routes *)

Module RouterError.
Inductive t :=
| InvalidCorsOrigin (origin : string)
| InvalidAllowedHeader (name : string)
| CredentialsRequireExplicitOrigin
| InvalidBasePath (path : string).

Definition to_string (e : t) : string :=
  match e with
  | InvalidCorsOrigin origin => "invalid CORS origin: " ++ debug_str origin
  | InvalidAllowedHeader name => "invalid CORS allowed header name: " ++ debug_str name
  | CredentialsRequireExplicitOrigin =>
      "credentialed CORS cannot be combined with a wildcard origin; list allowed origins explicitly"
  | InvalidBasePath path => "invalid TUS base path " ++ debug_str path ++ ": must start with '/'"
  end.
End RouterError.

Abbreviation rresult := (outcome RouterError.t).

Record RoutePaths := {
  rp_base : string;
  rp_upload : string;
}.

Definition route_paths (config : Config) : rresult RoutePaths :=
  let raw := base_path config in
  if negb (starts_with "/" raw) || (contains_char "{" raw || contains_char "}" raw)
     || is_some (split_once "//" raw)
  then Err (RouterError.InvalidBasePath raw)
  else
    let base :=
      if (1 <? str_len raw) then default raw (strip_suffix_char "/" raw) else raw in
    let upload := if (base =? "/")%string then "/{upload_id}" else base ++ "/{upload_id}" in
    Ok {| rp_base := base; rp_upload := upload |}.

Definition BASE_ALLOW : string := "OPTIONS, POST".
Definition UPLOAD_ALLOW : string := "OPTIONS, HEAD, POST, PATCH, DELETE".
Definition UPLOAD_ALLOW_WITH_DOWNLOAD : string := "OPTIONS, GET, HEAD, POST, PATCH, DELETE".

Section messages.
Context `{AxumLib} `{Base64}.

(** ** Requests and responses *)

(** [aq_end_stream]: the body is known to be empty ([Body::is_end_stream]). *)
Record AxumRequest := {
  aq_method : string;
  aq_path : string;
  aq_headers : HeaderMap;
  aq_body : BodyStream;
  aq_end_stream : bool;
}.

Inductive AxumBody :=
| FullBody (b : bytes)
| StreamBody (s : ByteStream).

Record AxumResponse := {
  ax_status : N;
  ax_headers : HeaderMap;
  ax_body : AxumBody;
}.

Definition response_insert (name : string) (value : HeaderValue) (r : AxumResponse) : AxumResponse :=
  {| ax_status := ax_status r; ax_headers := header_insert name value (ax_headers r); ax_body := ax_body r |}.

Definition method_not_allowed_response (allow : string) : AxumResponse :=
  {| ax_status := 405;
     ax_headers :=
       header_insert "tus-resumable" (header_value_from_static TUS_RESUMABLE)
         (header_insert "allow" (header_value_from_static allow) header_map_new);
     ax_body := FullBody [] |}.

(** Axum's answer for a path without a route. *)
Definition not_found_response : AxumResponse :=
  {| ax_status := 404; ax_headers := header_map_new; ax_body := FullBody [] |}.

(** [IntoResponse for TusResponse]: the builder only fails on what a [StatusCode] and a
    [HeaderMap] cannot be. *)
Definition TusResponse_into_response (r : Response) : AxumResponse :=
  {| ax_status := rs_status r; ax_headers := rs_headers r; ax_body := FullBody (rs_body r) |}.

(** ** The error bridge *)

Definition BODY_LIMIT_EXCEEDED_BODY : string := "request body exceeds the configured body size limit".

Record TusRejection := {
  rj_inner : Error.t;
  rj_body_override : option string;
}.

Definition map_transport_body_error (err : Error.t) : Error.t * bool :=
  match err with
  | Error.Io io_err => if length_limited io_err then (Error.SizeExceeded 0 0, true) else (err, false)
  | other => (other, false)
  end.

Definition TusRejection_from (err : Error.t) : TusRejection :=
  match map_transport_body_error err with
  | (inner, true) => {| rj_inner := inner; rj_body_override := Some BODY_LIMIT_EXCEEDED_BODY |}
  | (inner, false) => {| rj_inner := inner; rj_body_override := None |}
  end.

Definition TusRejection_display (r : TusRejection) : string :=
  match rj_body_override r with
  | Some body => body
  | None => Error.to_string (rj_inner r)
  end.

(** [builder.header(name, value)] for the headers of an error, whose names are distinct; a
    name or value that is not one makes the whole response a bare 500. *)
Fixpoint build_headers (headers : list (string * string)) (h : HeaderMap) : option HeaderMap :=
  match headers with
  | [] => Some h
  | (name, value) :: headers =>
      match header_name_try_from name, header_value_from_str value with
      | Some n, inr v => build_headers headers (header_insert n v h)
      | _, _ => None
      end
  end.

Definition TusRejection_into_response (r : TusRejection) : AxumResponse :=
  let response := error_response (rj_inner r) in
  let body := match rj_body_override r with Some body => body | None => er_body response end in
  let status := if in_range 100 999 (er_status response) then er_status response else 500 in
  match build_headers (er_headers response) header_map_new with
  | Some headers =>
      {| ax_status := status; ax_headers := headers; ax_body := FullBody (list_byte_of_string body) |}
  | None => {| ax_status := 500; ax_headers := header_map_new; ax_body := FullBody [] |}
  end.

(** ** Extractors *)

Definition TusHeaders_from_header_map (headers : HeaderMap) : result Headers := Headers_from_headers headers.

(** [TusUploadId]: the capture, decoded and validated. *)
Definition TusUploadId_from_capture (capture : string) : result string :=
  match decode_param capture with
  | inl err => Err (Error.InvalidUploadId ("path extraction failed: " ++ err))
  | inr upload_id => UploadId_from_str upload_id
  end.

Definition has_offset_content_type (headers : HeaderMap) : bool :=
  match get_str headers "content-type" with
  | Some content_type => starts_with "application/offset+octet-stream" content_type
  | None => false
  end.

Definition request_content_length (headers : HeaderMap) : option N :=
  get_str headers "content-length" ≫= parse_u64.

Definition has_chunked_transfer_encoding (headers : HeaderMap) : bool :=
  existsb (fun value =>
      match header_to_str value with
      | inr value =>
          existsb (fun encoding => (to_lowercase (trim encoding) =? "chunked")%string)
            (split_char "," value)
      | inl _ => false
      end) (header_get_all headers "transfer-encoding").

Definition body_is_supplied (q : AxumRequest) : bool :=
  if has_offset_content_type (aq_headers q) then true
  else
    match request_content_length (aq_headers q) with
    | Some content_length => 0 <? content_length
    | None => has_chunked_transfer_encoding (aq_headers q) || negb (aq_end_stream q)
    end.

Definition TusBody_from_request (q : AxumRequest) : RequestBody :=
  if negb (body_is_supplied q) then Absent else BodyStreamed (aq_body q).

(** ** CORS *)

Record RouterOptions := {
  ro_cors_allowed_origins : list string;
  ro_cors_allow_credentials : bool;
  ro_cors_extra_allowed_headers : list string;
  ro_cors_max_age : option Duration;
}.

Definition RouterOptions_new : RouterOptions := {|
  ro_cors_allowed_origins := []; ro_cors_allow_credentials := false;
  ro_cors_extra_allowed_headers := []; ro_cors_max_age := None |}.

Definition with_cors_allowed_origins (origins : list string) (o : RouterOptions) : RouterOptions := {|
  ro_cors_allowed_origins := origins; ro_cors_allow_credentials := ro_cors_allow_credentials o;
  ro_cors_extra_allowed_headers := ro_cors_extra_allowed_headers o; ro_cors_max_age := ro_cors_max_age o |}.
Definition with_cors_any_origin (o : RouterOptions) : RouterOptions := with_cors_allowed_origins ["*"] o.
Definition with_cors_allow_credentials (o : RouterOptions) : RouterOptions := {|
  ro_cors_allowed_origins := ro_cors_allowed_origins o; ro_cors_allow_credentials := true;
  ro_cors_extra_allowed_headers := ro_cors_extra_allowed_headers o; ro_cors_max_age := ro_cors_max_age o |}.
Definition with_cors_extra_allowed_headers (headers : list string) (o : RouterOptions) : RouterOptions := {|
  ro_cors_allowed_origins := ro_cors_allowed_origins o; ro_cors_allow_credentials := ro_cors_allow_credentials o;
  ro_cors_extra_allowed_headers := headers; ro_cors_max_age := ro_cors_max_age o |}.
Definition with_cors_max_age (max_age : Duration) (o : RouterOptions) : RouterOptions := {|
  ro_cors_allowed_origins := ro_cors_allowed_origins o; ro_cors_allow_credentials := ro_cors_allow_credentials o;
  ro_cors_extra_allowed_headers := ro_cors_extra_allowed_headers o; ro_cors_max_age := Some max_age |}.

Definition cors_enabled (o : RouterOptions) : bool :=
  match ro_cors_allowed_origins o with [] => false | _ => true end.
Definition allows_any_origin (o : RouterOptions) : bool :=
  existsb (fun origin => (origin =? "*")%string) (ro_cors_allowed_origins o).

(** In seconds: [Duration::from_secs(86_400)]. *)
Definition DEFAULT_CORS_MAX_AGE : Duration := 86400 * 1000000000.

Definition TUS_SUCCESS_RESPONSE_HEADERS : list string :=
  ["tus-resumable"; "tus-version"; "tus-extension"; "tus-max-size"; "tus-checksum-algorithm";
   "upload-offset"; "upload-length"; "upload-defer-length"; "upload-concat"; "upload-expires";
   "upload-metadata"; "location"].

Definition exposed_headers (download : bool) : list string :=
  (TUS_SUCCESS_RESPONSE_HEADERS ++ if download then ["content-range"; "accept-ranges"] else [])%list.

Definition TUS_REQUEST_HEADERS : list string :=
  ["authorization"; "tus-resumable"; "upload-length"; "upload-offset"; "upload-metadata";
   "upload-defer-length"; "upload-concat"; "upload-checksum"; "trailer"; "content-type";
   "content-length"; "tus-version"; "tus-extension"; "tus-max-size"; "tus-checksum-algorithm";
   "upload-expires"; "x-http-method-override"].

Fixpoint add_allowed_headers (names : list string) (headers : list string) : rresult (list string) :=
  match names with
  | [] => Ok headers
  | name :: names =>
      match header_name_try_from name with
      | None => Err (RouterError.InvalidAllowedHeader name)
      | Some parsed =>
          add_allowed_headers names
            (if bool_decide (parsed ∈ headers) then headers else (headers ++ [parsed])%list)
      end
  end.

Definition allowed_request_headers (o : RouterOptions) : rresult (list string) :=
  add_allowed_headers (ro_cors_extra_allowed_headers o) TUS_REQUEST_HEADERS.

(** [HeaderValue::from_str(..).expect(..)] *)
Definition expect_header_value (s : string) : rresult HeaderValue :=
  match header_value_from_str s with inr v => Ok v | inl _ => Panic end.

Definition join_header_names (names : list string) : rresult HeaderValue :=
  expect_header_value (str_join "," names).

Record CorsConfig := {
  co_allow_any_origin : bool;
  co_allowed_origins : list HeaderValue;
  co_allow_credentials : bool;
  co_allow_methods : HeaderValue;
  co_allow_headers : HeaderValue;
  co_expose_headers : HeaderValue;
  co_max_age : HeaderValue;
}.

Fixpoint parse_origins (origins : list string) : rresult (list HeaderValue) :=
  match origins with
  | [] => Ok []
  | origin :: origins =>
      match header_value_from_str origin with
      | inl _ => Err (RouterError.InvalidCorsOrigin origin)
      | inr v => outcome_map (cons v) (parse_origins origins)
      end
  end.

Definition CorsConfig_build (o : RouterOptions) (download : bool) : rresult CorsConfig :=
  if ro_cors_allow_credentials o && allows_any_origin o
  then Err RouterError.CredentialsRequireExplicitOrigin
  else
    let? allowed_origins :=
      if allows_any_origin o then Ok [] else parse_origins (ro_cors_allowed_origins o) in
    let max_age := default DEFAULT_CORS_MAX_AGE (ro_cors_max_age o) in
    let? allowed := allowed_request_headers o in
    let? allow_headers := join_header_names allowed in
    let? expose_headers := join_header_names (exposed_headers download) in
    let? max_age := expect_header_value (u64_to_string (max_age / 1000000000)) in
    Ok {| co_allow_any_origin := allows_any_origin o;
          co_allowed_origins := allowed_origins;
          co_allow_credentials := ro_cors_allow_credentials o;
          co_allow_methods := header_value_from_static "GET,POST,PATCH,DELETE,HEAD,OPTIONS";
          co_allow_headers := allow_headers;
          co_expose_headers := expose_headers;
          co_max_age := max_age |}.

Definition resolve_allow_origin (cors : CorsConfig) (origin : option HeaderValue) : option HeaderValue :=
  if co_allow_any_origin cors then Some (header_value_from_static "*")
  else
    match origin with
    | Some origin =>
        if existsb (fun allowed => header_value_eqb allowed origin) (co_allowed_origins cors)
        then Some origin else None
    | None => None
    end.

Definition is_preflight (q : AxumRequest) : bool :=
  (aq_method q =? "OPTIONS")%string
  && is_some (header_get (aq_headers q) "access-control-request-method").

Definition insert_vary (cors : CorsConfig) (r : AxumResponse) : AxumResponse :=
  if negb (co_allow_any_origin cors) then response_insert "vary" (header_value_from_static "origin") r else r.

Definition insert_credentials (cors : CorsConfig) (r : AxumResponse) : AxumResponse :=
  if co_allow_credentials cors
  then response_insert "access-control-allow-credentials" (header_value_from_static "true") r else r.

Definition preflight_response (cors : CorsConfig) (allow_origin : option HeaderValue) : AxumResponse :=
  let r := {| ax_status := 200; ax_headers := header_map_new; ax_body := FullBody [] |} in
  let r :=
    match allow_origin with
    | Some origin => insert_vary cors (response_insert "access-control-allow-origin" origin r)
    | None => r
    end in
  let r := response_insert "access-control-allow-methods" (co_allow_methods cors) r in
  let r := response_insert "access-control-allow-headers" (co_allow_headers cors) r in
  let r := response_insert "access-control-max-age" (co_max_age cors) r in
  insert_credentials cors r.

Definition decorate_response (cors : CorsConfig) (allow_origin : option HeaderValue) (r : AxumResponse)
    : AxumResponse :=
  match allow_origin with
  | Some origin =>
      let r := response_insert "access-control-allow-origin" origin r in
      let r := response_insert "access-control-expose-headers" (co_expose_headers cors) r in
      insert_vary cors (insert_credentials cors r)
  | None => r
  end.

Definition cors_middleware {W} (cors : CorsConfig) (q : AxumRequest) (next : M W AxumResponse)
    : M W AxumResponse :=
  let allow_origin := resolve_allow_origin cors (header_get (aq_headers q) "origin") in
  if is_preflight q then ret (preflight_response cors allow_origin)
  else
    let! r := next in
    ret (decorate_response cors allow_origin r).
End messages.

Section router.
Context {S St L H E : Type}.
Context `{!Storage S, !StateStore St, !Locker L, !HookExecutor H, !Env E, !StorageReader S}.
Context `{HttpLib, !AxumLib, Base64, Digests, PercentEncoding, Chrono, HashOrder}.
Local Abbreviation W := (World S St L H E).

(** ** Handlers

    A handler that returns an error answers with its rejection. *)

Definition respond (m : M W AxumResponse) : M W AxumResponse :=
  let! r := attempt m in
  match r with
  | inr response => ret response
  | inl err => ret (TusRejection_into_response (TusRejection_from err))
  end.

Definition handle_options (config : Config) : M W AxumResponse := ret (TusResponse_into_response (options config)).

Definition handle_post (config : Config) (q : AxumRequest) : M W AxumResponse :=
  let! headers := of_outcome (TusHeaders_from_header_map (aq_headers q)) in
  let! response := post config headers (TusBody_from_request q) in
  ret (TusResponse_into_response response).

Definition handle_head (config : Config) (capture : string) (q : AxumRequest) : M W AxumResponse :=
  do! of_outcome (TusHeaders_from_header_map (aq_headers q)) in
  let! upload_id := of_outcome (TusUploadId_from_capture capture) in
  let! response := head config upload_id in
  ret (TusResponse_into_response response).

(** The body of the handlers that are called with their extractors' results. *)
Definition patch_extracted (config : Config) (headers : Headers) (upload_id : string) (body : RequestBody)
    : M W AxumResponse :=
  let! response := patch config headers upload_id body in
  ret (TusResponse_into_response response).

Definition delete_extracted (config : Config) (headers : Headers) (upload_id : string) : M W AxumResponse :=
  let! response := delete_upload config headers upload_id in
  ret (TusResponse_into_response response).

Definition handle_patch (config : Config) (capture : string) (q : AxumRequest) : M W AxumResponse :=
  let! headers := of_outcome (TusHeaders_from_header_map (aq_headers q)) in
  let! upload_id := of_outcome (TusUploadId_from_capture capture) in
  patch_extracted config headers upload_id (TusBody_from_request q).

Definition handle_delete (config : Config) (capture : string) (q : AxumRequest) : M W AxumResponse :=
  let! headers := of_outcome (TusHeaders_from_header_map (aq_headers q)) in
  let! upload_id := of_outcome (TusUploadId_from_capture capture) in
  delete_extracted config headers upload_id.

Definition handle_post_with_override (config : Config) (capture : string) (q : AxumRequest)
    : M W AxumResponse :=
  let! upload_id := of_outcome (TusUploadId_from_capture capture) in
  let override_method := to_ascii_uppercase <$> get_str (aq_headers q) "x-http-method-override" in
  if bool_decide (override_method = Some "PATCH") then
    let! headers := of_outcome (TusHeaders_from_header_map (aq_headers q)) in
    patch_extracted config headers upload_id (TusBody_from_request q)
  else if bool_decide (override_method = Some "DELETE") then
    let! headers := of_outcome (TusHeaders_from_header_map (aq_headers q)) in
    delete_extracted config headers upload_id
  else
    let response :=
      TusRejection_into_response (TusRejection_from
        (Error.MethodNotAllowed "POST is not allowed on upload resources without X-HTTP-Method-Override")) in
    ret (response_insert "allow" (header_value_from_static UPLOAD_ALLOW) response).

Definition handle_get (config : Config) (capture : string) (q : AxumRequest) : M W AxumResponse :=
  let! upload_id := of_outcome (TusUploadId_from_capture capture) in
  let! range :=
    of_outcome
      match header_get (aq_headers q) "range" with
      | Some value =>
          match header_to_str value with
          | inr value => Ok (Some value)
          | inl _ => Err (Error.InvalidHeader "Range" "header must be valid ASCII")
          end
      | None => Ok None
      end in
  let! response := attempt (download config upload_id range) in
  match response with
  | inr response =>
      ret {| ax_status := dr_status response; ax_headers := dr_headers response;
             ax_body := StreamBody (dr_body response) |}
  | inl ((Error.MethodNotAllowed _) as err) =>
      ret (response_insert "allow" (header_value_from_static UPLOAD_ALLOW)
             (TusRejection_into_response (TusRejection_from err)))
  | inl err => throw err
  end.

(** ** The router *)

(** What [TusRouter::build] makes of its configuration. *)
Record Router := {
  rt_config : Config;
  rt_paths : RoutePaths;
  rt_download : bool;
  rt_cors : option CorsConfig;
}.

Definition finish_router (config : Config) (paths : RoutePaths) (options : RouterOptions) (download : bool)
    : rresult Router :=
  let? cors :=
    if cors_enabled options then outcome_map Some (CorsConfig_build options download) else Ok None in
  Ok {| rt_config := config; rt_paths := paths; rt_download := download; rt_cors := cors |}.

Definition TusRouter_build (config : Config) (options : RouterOptions) (download : bool) : rresult Router :=
  let? paths := route_paths config in
  finish_router config paths options download.

Definition create_router (config : Config) (options : RouterOptions) : rresult Router :=
  TusRouter_build config options false.
Definition create_router_with_download (config : Config) (options : RouterOptions) : rresult Router :=
  TusRouter_build config options true.

(** The methods of the collection route. *)
Definition serve_base (rt : Router) (q : AxumRequest) : M W AxumResponse :=
  if (aq_method q =? "OPTIONS")%string then handle_options (rt_config rt)
  else if (aq_method q =? "POST")%string then respond (handle_post (rt_config rt) q)
  else ret (method_not_allowed_response BASE_ALLOW).

Definition upload_allow (rt : Router) : string :=
  if rt_download rt then UPLOAD_ALLOW_WITH_DOWNLOAD else UPLOAD_ALLOW.

(** The methods of the item route. *)
Definition serve_upload (rt : Router) (capture : string) (q : AxumRequest) : M W AxumResponse :=
  if (aq_method q =? "OPTIONS")%string then handle_options (rt_config rt)
  else if (aq_method q =? "HEAD")%string then respond (handle_head (rt_config rt) capture q)
  else if (aq_method q =? "PATCH")%string then respond (handle_patch (rt_config rt) capture q)
  else if (aq_method q =? "DELETE")%string then respond (handle_delete (rt_config rt) capture q)
  else if (aq_method q =? "POST")%string then respond (handle_post_with_override (rt_config rt) capture q)
  else if rt_download rt && (aq_method q =? "GET")%string then respond (handle_get (rt_config rt) capture q)
  else ret (method_not_allowed_response (upload_allow rt)).

Definition route (rt : Router) (q : AxumRequest) : M W AxumResponse :=
  match path_match (rp_base (rt_paths rt)) (aq_path q) with
  | Some _ => serve_base rt q
  | None =>
      match path_match (rp_upload (rt_paths rt)) (aq_path q) with
      | Some (Some capture) => serve_upload rt capture q
      | _ => ret not_found_response
      end
  end.

Definition serve (rt : Router) (q : AxumRequest) : M W AxumResponse :=
  match rt_cors rt with
  | Some cors => cors_middleware cors q (route rt q)
  | None => route rt q
  end.
End router.
