(* ===== verification/AxumSpec.v ===== *)
(** * The axum integration: what its answers promise

    Every answer of a route speaks the protocol version, errors included; a method
    override is the method it names; the CORS layer keeps to the configured origins and
    leaves capability discovery alone; building the router does not panic. *)

From S2P Require Import Prelude Text Errors Crates Config State Headers Hooks Backends Lifecycle.
From S2P Require Import Intake Receive FinalUpload Access Response Protocol Contracts HeadSpec Axum.
Local Open Scope string_scope.
Local Open Scope N_scope.
Local Open Scope prog_scope.

Section tus.
Context {S St L H E : Type}.
Context `{!Storage S, !StateStore St, !Locker L, !HookExecutor H, !Env E, !StorageReader S}.
Context `{HttpLaws, !AxumLib, !AxumLaws, Base64, Digests, PercentEncoding, Chrono, HashOrder}.
Local Abbreviation W := (World S St L H E).
#[local] Set Default Proof Using "All".

(** ** The protocol version *)

Definition has_header (name : string) (h : HeaderMap) : Prop := is_Some (header_get h name).

Lemma has_header_insert name n v h : has_header name h -> has_header name (header_insert n v h).
Proof.
  intros Hh. unfold has_header. destruct (decide (n = name)) as [<-|Hne].
  - rewrite header_get_insert_eq. by eexists.
  - by rewrite header_get_insert_ne.
Qed.

Lemma has_header_inserted n v h : has_header n (header_insert n v h).
Proof. unfold has_header. rewrite header_get_insert_eq. by eexists. Qed.

Definition tus_headers (h : HeaderMap) : Prop := has_header "tus-resumable" h.
Definition tus_response (r : Response) : Prop := tus_headers (rs_headers r).

Lemma tus_new status : tus_response (Response_new status).
Proof. apply has_header_inserted. Qed.

Lemma tus_with_header n v r : tus_response r -> tus_response (with_header n v r).
Proof.
  intros Hr. unfold with_header. destruct (header_name_try_from n), (header_value_from_str v); try done.
  by apply has_header_insert.
Qed.

Lemma tus_hook_headers headers r : tus_response r -> tus_response (with_hook_headers headers r).
Proof.
  unfold with_hook_headers. generalize (hash_iter headers). intros l. revert r.
  induction l as [|[k v] l IH]; intros r Hr; [done|]. by apply IH, tus_with_header.
Qed.

Lemma tus_expires config s r : tus_response r -> tus_response (upload_expires_header config s r).
Proof.
  intros Hr. unfold upload_expires_header. destruct (has_extension _ _); [|done].
  destruct (UploadState.expires_header s); [by apply tus_with_header|done].
Qed.

Create HintDb tus.
#[local] Hint Resolve tus_new tus_with_header tus_hook_headers tus_expires : tus.
Ltac tus_cases :=
  repeat match goal with
    | |- tus_response (if ?b then _ else _) => destruct b
    | |- tus_response (match ?x with _ => _ end) => destruct x
    | |- tus_response _ => solve [auto with tus nocore]
    | |- tus_response (with_header _ _ _) => apply tus_with_header
    | |- tus_response (upload_expires_header _ _ _) => apply tus_expires
    end.

Lemma tus_options config : tus_response (options config).
Proof. unfold options. cbv zeta. tus_cases. Qed.

Lemma tus_head config facts s : tus_response (head_response config facts s).
Proof. unfold head_response. cbv zeta. tus_cases. Qed.

Lemma tus_patch config s hs : tus_response (patch_response config s hs).
Proof. unfold patch_response. cbv zeta. auto with tus. Qed.

Lemma tus_post config headers b s hs : tus_response (post_response config headers b s hs).
Proof. unfold post_response. cbv zeta. apply tus_hook_headers, tus_expires. tus_cases. Qed.

Lemma tus_final config headers c : tus_response (final_upload_response config headers c).
Proof. unfold final_upload_response. cbv zeta. apply tus_hook_headers, tus_expires. tus_cases. Qed.

Lemma locked_yields {A} (P : A -> Prop) config id (body : UploadState -> M W A) :
  (forall s, yields P (body s)) -> yields P (with_locked_upload config id body).
Proof. intros Hb. unfold with_locked_upload, with_guard. yields. Qed.

Lemma head_yields config id : yields tus_response (head config id : M W Response).
Proof. apply locked_yields. intros s. yields. apply tus_head. Qed.

Lemma patch_yields config headers id body : yields tus_response (patch config headers id body : M W Response).
Proof. unfold patch. yields. apply locked_yields. intros s. yields. apply tus_patch. Qed.

Lemma delete_yields config headers id : yields tus_response (delete_upload config headers id : M W Response).
Proof.
  unfold delete_upload. cbv zeta. destruct (negb _); [yields|]. apply locked_yields. intros s. yields.
  auto with tus.
Qed.

Lemma post_yields config headers body : yields tus_response (post config headers body : M W Response).
Proof.
  unfold post. cbv zeta. yields; [apply tus_post|apply tus_final].
Qed.

Lemma download_yields config id range :
  yields (fun r => tus_headers (dr_headers r)) (download config id range : M W DownloadResponse).
Proof.
  assert (forall s h, download_headers s = Ok h -> tus_headers h) as Hd.
  { intros s h. unfold download_headers, insert_header. cbv zeta.
    destruct (header_value_from_str _); [done|]. intros [= <-]. do 3 apply has_header_insert.
    apply has_header_inserted. }
  assert (forall n v h h', insert_header n v h = Ok h' -> tus_headers h -> tus_headers h') as Hi.
  { intros n v h h'. unfold insert_header. destruct (header_value_from_str v); [done|]. intros [= <-].
    apply has_header_insert. }
  unfold download. destruct (disable_download config); [yields|]. apply locked_yields. intros s.
  apply yields_bind. intros [x s']. unfold download_prepared. cbv zeta.
  apply yields_bind. intros r. eapply (yields_then tus_headers); [apply yields_done, Hd|]. intros h Hh.
  assert (forall n v, yields tus_headers (of_outcome (insert_header n v h) : M W HeaderMap)) as Hin.
  { intros n v. apply yields_done. intros h' Hh'. by eapply Hi. }
  destruct r as [[start stop]|].
  - apply yields_bind. intros hd. eapply yields_then; [apply Hin|]. intros h1 Hh1.
    eapply (yields_then tus_headers); [apply yields_done; intros h2 Hh2; by eapply Hi|]. intros h2 Hh2.
    by yields.
  - destruct (_ =? 0); [eapply yields_then; [apply Hin|]; intros; by yields|].
    apply yields_bind. intros hd. eapply yields_then; [apply Hin|]. intros h1 Hh1. by yields.
Qed.

(** ** Errors *)

(** The headers of an error are headers. *)
Lemma build_headers_some headers h :
  Forall (fun nv => nv.1 <> "" /\ str_all name_char nv.1 = true /\ str_all visible nv.2 = true) headers ->
  exists h', build_headers headers h = Some h' /\
    forall name, has_header name h \/ name ∈ headers.*1 -> has_header name h'.
Proof.
  revert h. induction headers as [|[n v] headers IH]; intros h.
  - intros _. exists h. split; [done|]. intros name [Hh|Hin]; [done|]. by apply not_elem_of_nil in Hin.
  - intros [(Hne & Hn & Hv) Hall]%Forall_cons. cbn [build_headers fst snd] in *.
    rewrite header_name_lower, header_from_static by done.
    destruct (IH (header_insert n (header_value_from_static v) h) Hall) as (h' & Hb & Hh'). exists h'. split; [done|].
    intros name Hname. apply Hh'. destruct Hname as [Hh|Hin]; [left; by apply has_header_insert|].
    cbn in Hin. apply elem_of_cons in Hin as [->|Hin]; [left; apply has_header_inserted|by right].
Qed.

Lemma error_headers_ok e :
  Forall (fun nv => nv.1 <> "" /\ str_all name_char nv.1 = true /\ str_all visible nv.2 = true)
    (er_headers (error_response e)).
Proof.
  unfold error_response. cbn [er_headers]. constructor; [by split_and!|].
  destruct e; try apply Forall_nil_2; (apply Forall_cons_2; [|apply Forall_nil_2]); split_and!; cbn [fst snd];
    try done; apply u64_to_string_visible.
Qed.

Lemma tus_rejection r : tus_headers (ax_headers (TusRejection_into_response r)).
Proof.
  unfold TusRejection_into_response.
  destruct (build_headers_some _ header_map_new (error_headers_ok (rj_inner r))) as (h & Hb & Hh).
  rewrite Hb. cbn. apply Hh. right. unfold error_response. cbn. by left.
Qed.

(** A request without a matching method, and every outcome of a handler. *)
Definition tus_answer (r : AxumResponse) : Prop := tus_headers (ax_headers r).

Lemma respond_yields (m : M W AxumResponse) : yields tus_answer m -> yields tus_answer (respond m).
Proof.
  intros Hm. unfold respond. eapply (yields_then (fun r => match r with inr a => tus_answer a | inl _ => True end)).
  - intros w. apply wp_attempt. wp_use Hm r w' Hr. destruct r as [a|e|]; intros x [= <-]; [by apply Hr|done].
  - intros [e|a] Ha; apply yields_done; intros x [= <-]; [apply tus_rejection|done].
Qed.

Lemma into_response_yields (m : M W Response) :
  yields tus_response m ->
  yields tus_answer (let! r := m in ret (TusResponse_into_response r)).
Proof. intros Hm. eapply yields_then; [exact Hm|]. intros r Hr. by yields. Qed.

Lemma override_yields config capture q :
  yields tus_answer (handle_post_with_override config capture q : M W AxumResponse).
Proof.
  unfold handle_post_with_override, patch_extracted, delete_extracted. apply yields_bind. intros id. cbv zeta.
  case_bool_decide; [|case_bool_decide].
  - apply yields_bind. intros h. apply into_response_yields, patch_yields.
  - apply yields_bind. intros h. apply into_response_yields, delete_yields.
  - yields. apply has_header_insert, tus_rejection.
Qed.

Lemma get_yields config capture q : yields tus_answer (handle_get config capture q : M W AxumResponse).
Proof.
  unfold handle_get. do 2 (apply yields_bind; intro).
  eapply (yields_then (fun r => match r with inr a => tus_headers (dr_headers a) | inl _ => True end)).
  - intros w. apply wp_attempt. wp_use download_yields r w' Hr.
    destruct r as [x|e|]; intros y [= <-]; [by apply Hr|done].
  - intros [e|r] Hr; [|by yields]. destruct e; yields. apply has_header_insert, tus_rejection.
Qed.

Lemma serve_upload_yields rt capture q : yields tus_answer (serve_upload rt capture q : M W AxumResponse).
Proof.
  unfold serve_upload, handle_options.
  repeat match goal with |- yields _ (if ?b then _ else _) => destruct b end.
  - yields. apply tus_options.
  - apply respond_yields. unfold handle_head. do 2 (apply yields_bind; intro).
    apply into_response_yields, head_yields.
  - apply respond_yields. unfold handle_patch, patch_extracted. do 2 (apply yields_bind; intro).
    apply into_response_yields, patch_yields.
  - apply respond_yields. unfold handle_delete, delete_extracted. do 2 (apply yields_bind; intro).
    apply into_response_yields, delete_yields.
  - apply respond_yields, override_yields.
  - apply respond_yields, get_yields.
  - yields. apply has_header_inserted.
Qed.

Lemma serve_base_yields rt q : yields tus_answer (serve_base rt q : M W AxumResponse).
Proof.
  unfold serve_base, handle_options.
  repeat match goal with |- yields _ (if ?b then _ else _) => destruct b end.
  - yields. apply tus_options.
  - apply respond_yields. unfold handle_post. apply yields_bind. intros h.
    apply into_response_yields, post_yields.
  - yields. apply has_header_inserted.
Qed.

(** No handler's error gets past [respond]. *)
Lemma respond_no_error (m : M W AxumResponse) w : wp (respond m) (fun r _ => forall e, r <> Err e) w.
Proof.
  unfold respond. apply wp_bind, wp_attempt, wp_intro. intros [a|e|] w' _; [by apply wp_done|by apply wp_done|done].
Qed.
End tus.

Section router.
Context {S St L H E : Type}.
Context `{!Storage S, !StateStore St, !Locker L, !HookExecutor H, !Env E, !StorageReader S}.
Context `{HttpLaws, !AxumLib, !AxumLaws, Base64, Digests, PercentEncoding, Chrono, HashOrder}.
Local Abbreviation W := (World S St L H E).
Local Abbreviation serve_in := (serve (S:=S) (St:=St) (L:=L) (H:=H) (E:=E)).
Local Abbreviation route_in := (route (S:=S) (St:=St) (L:=L) (H:=H) (E:=E)).
#[local] Set Default Proof Using "All".

(** ** Routes *)

(** The path is one the router mounts. *)
Definition mounted (rt : Router) (path : string) : Prop :=
  is_Some (path_match (rp_base (rt_paths rt)) path) \/
  exists capture, path_match (rp_upload (rt_paths rt)) path = Some (Some capture).

Lemma route_yields rt q : mounted rt (aq_path q) -> yields tus_answer (route_in rt q).
Proof.
  intros Hm. unfold route. destruct (path_match (rp_base _) _) eqn:Hb; [apply serve_base_yields|].
  destruct Hm as [[x Hx]|[capture Hc]]; [congruence|]. rewrite Hc. apply serve_upload_yields.
Qed.

Lemma has_header_decorated name cors origin r :
  has_header name (ax_headers r) -> has_header name (ax_headers (decorate_response cors origin r)).
Proof.
  intros Hr. unfold decorate_response, insert_vary, insert_credentials, response_insert.
  destruct origin as [origin|]; [|done].
  destruct (co_allow_credentials cors), (negb (co_allow_any_origin cors)); cbn;
    repeat apply has_header_insert; exact Hr.
Qed.

Lemma decorate_same cors origin r :
  ax_status (decorate_response cors origin r) = ax_status r /\ ax_body (decorate_response cors origin r) = ax_body r.
Proof.
  unfold decorate_response, insert_vary, insert_credentials. destruct origin; [|done].
  by destruct (co_allow_credentials cors), (negb _).
Qed.

Lemma route_no_error rt q (w : W) : wp (route_in rt q) (fun r _ => forall e, r <> Err e) w.
Proof.
  unfold route, serve_base, serve_upload, handle_options.
  destruct (path_match (rp_base _) _); [|destruct (path_match (rp_upload _) _) as [[capture|]|]];
    repeat match goal with |- wp (if ?b then _ else _) _ _ => destruct b end;
    first [by apply wp_done|apply respond_no_error].
Qed.

Lemma serve_no_error rt q (w : W) : wp (serve_in rt q) (fun r _ => forall e, r <> Err e) w.
Proof.
  unfold serve, cors_middleware. destruct (rt_cors rt) as [cors|]; [|apply route_no_error].
  destruct (is_preflight q); [by apply wp_done|]. apply wp_bind. wp_use route_no_error r w' Hr.
  destruct r as [a|e|]; [by apply wp_done|by apply Hr|done].
Qed.

(** ** The methods *)

(** What a mounted path names. *)
Inductive Target := Collection | Item (capture : string).

Definition target (rt : Router) (path : string) : option Target :=
  match path_match (rp_base (rt_paths rt)) path, path_match (rp_upload (rt_paths rt)) path with
  | Some _, _ => Some Collection
  | None, Some (Some capture) => Some (Item capture)
  | None, _ => None
  end.

(** The operations of the protocol, and the methods that ask for them. *)
Inductive Operation := Capabilities | Create | Observe | Append | Remove | Fetch.

Definition method_table (rt : Router) (t : Target) : list (string * Operation) :=
  match t with
  | Collection => [("OPTIONS", Capabilities); ("POST", Create)]
  | Item _ =>
      ([("OPTIONS", Capabilities); ("HEAD", Observe); ("PATCH", Append); ("DELETE", Remove)]
       ++ if rt_download rt then [("GET", Fetch)] else [])%list
  end.

(** A POST on an item is the PATCH or the DELETE that its override names, if it does. *)
Definition effective_method (t : Target) (q : AxumRequest) : string :=
  match t, get_str (aq_headers q) "x-http-method-override" with
  | Item _, Some m =>
      if (aq_method q =? "POST")%string && existsb (String.eqb (to_ascii_uppercase m)) ["PATCH"; "DELETE"]
      then to_ascii_uppercase m else aq_method q
  | _, _ => aq_method q
  end.

Definition operation_of (rt : Router) (t : Target) (q : AxumRequest) : option Operation :=
  snd <$> find (fun row => (row.1 =? effective_method t q)%string) (method_table rt t).

(** What the operations need of a request, and what they are; the result is a status. *)
Definition needs_headers (op : Operation) : bool :=
  match op with Create | Observe | Append | Remove => true | Capabilities | Fetch => false end.
Definition needs_id (op : Operation) : bool :=
  match op with Observe | Append | Remove | Fetch => true | Capabilities | Create => false end.

Definition id_of (t : Target) : result string :=
  match t with Item capture => TusUploadId_from_capture capture | Collection => Ok "" end.

Definition operation (config : Config) (op : Operation) (h : Headers) (id : string) (q : AxumRequest) : M W N :=
  let body := TusBody_from_request q in
  match op with
  | Capabilities => ret 200
  | Create => let! r := post config h body in ret (rs_status r)
  | Observe => let! r := head config id in ret (rs_status r)
  | Append => let! r := patch config h id body in ret (rs_status r)
  | Remove => let! r := delete_upload config h id in ret (rs_status r)
  | Fetch => let! r := download config id (get_str (aq_headers q) "range") in ret (dr_status r)
  end.

Definition rejection_status (e : Error.t) : N := ax_status (TusRejection_into_response (TusRejection_from e)).

(** The answer to a request that is not the operation's: nothing happened. *)
Definition malformed (op : Operation) (t : Target) (q : AxumRequest) (status : N) : Prop :=
  exists e, status = rejection_status e /\
    ((needs_headers op = true /\ TusHeaders_from_header_map (aq_headers q) = Err e) \/
     (needs_id op = true /\ id_of t = Err e) \/
     (op = Fetch /\ exists v err, header_get (aq_headers q) "range" = Some v /\ header_to_str v = inl err)).

(** The operation was performed, and the answer has the status of its result. *)
Definition performed (config : Config) (op : Operation) (t : Target) (q : AxumRequest) (w : W) (status : N) (w' : W)
    : Prop :=
  exists h id r, run (operation config op h id q) w = (r, w') /\
    (needs_headers op = true -> TusHeaders_from_header_map (aq_headers q) = Ok h) /\
    (needs_id op = true -> id_of t = Ok id) /\
    match r with
    | Ok n => status = n
    | Err e => status = rejection_status e
    | Panic => False
    end.

Definition routed (config : Config) (op : Operation) (t : Target) (q : AxumRequest) (w : W) (status : N) (w' : W)
    : Prop :=
  (w' = w /\ malformed op t q status) \/ performed config op t q w status w'.

(** A method without an operation. *)
Definition method_refused (rt : Router) (t : Target) (q : AxumRequest) (resp : AxumResponse) : Prop :=
  (ax_status resp = 405 /\
   header_get (ax_headers resp) "allow" = Some (header_value_from_static
     match t with
     | Collection => "OPTIONS, POST"
     | Item _ =>
         if rt_download rt && negb (aq_method q =? "POST")%string
         then "OPTIONS, GET, HEAD, POST, PATCH, DELETE" else "OPTIONS, HEAD, POST, PATCH, DELETE"
     end)) \/
  (aq_method q = "POST" /\ exists e, id_of t = Err e /\ ax_status resp = rejection_status e).

(** *** Handlers *)

(** Nothing but the status and the effects of a handler's run counts. *)
Lemma run_respond (m : M W AxumResponse) w resp w' :
  run (respond m) w = (Ok resp, w') ->
  exists r, run m w = (r, w') /\
    match r with
    | Ok a => resp = a
    | Err e => resp = TusRejection_into_response (TusRejection_from e)
    | Panic => False
    end.
Proof.
  unfold respond. rewrite run_bind, run_attempt. destruct (run m w) as [[a|e|] w1]; cbn; [| |done];
    intros [= <- <-]; by eexists.
Qed.

Lemma run_extract {A B} (r : result A) (k : A -> M W B) w :
  run (bind (of_outcome r) k) w =
  match r with Ok a => run (k a) w | Err e => (Err e, w) | Panic => (Panic, w) end.
Proof. by destruct r. Qed.

(** A handler that ends in an operation, after the extractors. *)
Lemma routed_operation {A} config op t q h id (m : M W A) (k : A -> AxumResponse) w resp w' r :
  (needs_headers op = true -> TusHeaders_from_header_map (aq_headers q) = Ok h) ->
  (needs_id op = true -> id_of t = Ok id) ->
  operation config op h id q = bind m (fun a => ret (ax_status (k a))) ->
  run (bind m (fun a => ret (k a))) w = (r, w') ->
  match r with
  | Ok a => resp = a
  | Err e => resp = TusRejection_into_response (TusRejection_from e)
  | Panic => False
  end ->
  routed config op t q w (ax_status resp) w'.
Proof.
  intros Hh Hi Hop Hrun Hr. right. exists h, id. rewrite Hop. rewrite run_bind in Hrun. rewrite run_bind.
  destruct (run m w) as [[a|e|] w1]; cbn in Hrun; injection Hrun as <- <-; [| |done];
    eexists; (split; [reflexivity|]); subst; by split_and!.
Qed.

Lemma routed_malformed config op t q e w :
  (needs_headers op = true /\ TusHeaders_from_header_map (aq_headers q) = Err e) \/
  (needs_id op = true /\ id_of t = Err e) ->
  routed config op t q w (ax_status (TusRejection_into_response (TusRejection_from e))) w.
Proof. intros He. left. split; [done|]. exists e. split; [done|]. tauto. Qed.

(** Both extractors, in either order. *)
Lemma routed_both config op t q (k : Headers -> string -> M W Response) w resp w' :
  needs_headers op = true -> needs_id op = true ->
  (forall h id, operation config op h id q = bind (k h id) (fun r => ret (rs_status r))) ->
  run (respond (let! h := of_outcome (TusHeaders_from_header_map (aq_headers q)) in
                let! id := of_outcome (id_of t) in
                let! r := k h id in ret (TusResponse_into_response r))) w = (Ok resp, w') \/
  run (respond (let! id := of_outcome (id_of t) in
                let! h := of_outcome (TusHeaders_from_header_map (aq_headers q)) in
                let! r := k h id in ret (TusResponse_into_response r))) w = (Ok resp, w') ->
  routed config op t q w (ax_status resp) w'.
Proof.
  intros Hn Hi Hop [Hrun|Hrun]; apply run_respond in Hrun as (r & Hrun & Hr); rewrite run_extract in Hrun.
  - destruct (TusHeaders_from_header_map (aq_headers q)) as [h|e|] eqn:Hh.
    2: { injection Hrun as <- <-. subst resp. apply routed_malformed. by left. }
    2: by injection Hrun as <- <-.
    rewrite run_extract in Hrun. destruct (id_of t) as [id|e|] eqn:Hid.
    2: { injection Hrun as <- <-. subst resp. apply routed_malformed. by right. }
    2: by injection Hrun as <- <-.
    by eapply (routed_operation config op t q h id (k h id) TusResponse_into_response).
  - destruct (id_of t) as [id|e|] eqn:Hid.
    2: { injection Hrun as <- <-. subst resp. apply routed_malformed. by right. }
    2: by injection Hrun as <- <-.
    rewrite run_extract in Hrun. destruct (TusHeaders_from_header_map (aq_headers q)) as [h|e|] eqn:Hh.
    2: { injection Hrun as <- <-. subst resp. apply routed_malformed. by left. }
    2: by injection Hrun as <- <-.
    by eapply (routed_operation config op t q h id (k h id) TusResponse_into_response).
Qed.

Lemma routed_get config capture q w resp w' :
  run (respond (handle_get config capture q)) w = (Ok resp, w') ->
  routed config Fetch (Item capture) q w (ax_status resp) w'.
Proof.
  intros (r & Hrun & Hr)%run_respond. unfold handle_get in Hrun. rewrite run_extract in Hrun.
  destruct (TusUploadId_from_capture capture) as [id|e|] eqn:Hid.
  2: { injection Hrun as <- <-. subst resp. apply routed_malformed. by right. }
  2: by injection Hrun as <- <-.
  rewrite run_extract in Hrun. destruct (header_get (aq_headers q) "range") as [v|] eqn:Hv;
    [destruct (header_to_str v) as [err|text] eqn:Ht|].
  { injection Hrun as <- <-. subst resp. left. split; [done|]. eexists. split; [done|].
    right. right. split; [done|]. by exists v, err. }
  all: right; exists Headers_default, id; rewrite run_bind, run_attempt in Hrun; cbn [operation];
    rewrite run_bind; unfold get_str; rewrite Hv, ?Ht.
  1: destruct (run (download config id (Some text)) w) as [[d|e|] w1] eqn:Hd.
  4: destruct (run (download config id None) w) as [[d|e|] w1] eqn:Hd.
  all: cbn in Hrun.
  all: try (injection Hrun as <- <-; done).
  1, 3: injection Hrun as <- <-; subst resp; eexists; (split; [reflexivity|]); by split_and!.
  all: exists (Err e).
  all: destruct e; injection Hrun as <- <-; subst resp; by split_and!.
Qed.

Lemma operation_of_other rt t q :
  operation_of rt t q = None ->
  forall m op, In (m, op) (method_table rt t) -> (effective_method t q =? m)%string = false.
Proof.
  unfold operation_of. intros Hn%fmap_None m op Hin. apply (find_none _ _ Hn) in Hin. cbn in Hin.
  by rewrite String.eqb_sym.
Qed.

Lemma options_status config : rs_status (options config) = 200.
Proof.
  unfold options. cbv zeta. by repeat case_match; rewrite ?with_header_status.
Qed.

Lemma routed_options config t q (w : W) resp w' :
  run (handle_options config) w = (Ok resp, w') -> routed config Capabilities t q w (ax_status resp) w'.
Proof.
  intros [= <- <-]. right. exists Headers_default, "", (Ok 200). split_and!; [done..|apply options_status].
Qed.

Lemma operation_refused rt t :
  forall q, find (fun row => (row.1 =? effective_method t q)%string) (method_table rt t) = None ->
  operation_of rt t q = None.
Proof. intros q Hf. unfold operation_of. by rewrite Hf. Qed.

Lemma method_not_allowed_status text : rejection_status (Error.MethodNotAllowed text) = 405.
Proof.
  unfold rejection_status, TusRejection_into_response, TusRejection_from. cbn [map_transport_body_error rj_inner].
  by destruct (build_headers_some _ header_map_new (error_headers_ok (Error.MethodNotAllowed text))) as (h & -> & _).
Qed.

(** A POST on an item. *)
Lemma route_override rt q capture (w : W) resp w' :
  aq_method q = "POST" ->
  run (respond (handle_post_with_override (rt_config rt) capture q)) w = (Ok resp, w') ->
  match operation_of rt (Item capture) q with
  | Some op => routed (rt_config rt) op (Item capture) q w (ax_status resp) w'
  | None => w' = w /\ method_refused rt (Item capture) q resp
  end.
Proof.
  intros Hq Hrun. unfold operation_of, effective_method. rewrite Hq. unfold handle_post_with_override in Hrun.
  assert (forall o : option string,
    run (respond (let! id := of_outcome (TusUploadId_from_capture capture) in
      ret (response_insert "allow" (header_value_from_static UPLOAD_ALLOW)
        (TusRejection_into_response (TusRejection_from (Error.MethodNotAllowed
          "POST is not allowed on upload resources without X-HTTP-Method-Override")))))) w = (Ok resp, w') ->
    w' = w /\ method_refused rt (Item capture) q resp) as Hno.
  { intros _ (r & Hr & Hresp)%run_respond. rewrite run_extract in Hr. unfold method_refused. rewrite Hq. cbn [id_of].
    destruct (TusUploadId_from_capture capture) as [id|e|]; injection Hr as <- <-; [| |done]; subst resp;
      (split; [done|]).
    - left. rewrite String.eqb_refl, andb_false_r. cbn [response_insert ax_status ax_headers].
      rewrite header_get_insert_eq. split; [|done]. apply method_not_allowed_status.
    - right. split; [done|]. by exists e. }
  destruct (get_str (aq_headers q) "x-http-method-override") as [m|] eqn:Hm; cbn [fmap option_fmap option_map] in Hrun.
  2: { assert (find (fun row => (row.1 =? "POST")%string) (method_table rt (Item capture)) = None) as ->.
       { cbn. by destruct (rt_download rt). }
       by apply (Hno None). }
  cbn [existsb orb andb String.eqb Ascii.eqb Bool.eqb]. set (up := to_ascii_uppercase m) in *.
  assert (forall name op, (name, op) = ("PATCH", Append) \/ (name, op) = ("DELETE", Remove) ->
    snd <$> find (fun row => (row.1 =? name)%string) (method_table rt (Item capture)) = Some op) as Hfind.
  { by intros name op [[= -> ->]|[= -> ->]]. }
  destruct (String.eqb_spec up "PATCH") as [Hup|Hp].
  - cbn [orb andb]. rewrite Hup, (Hfind "PATCH" Append) by tauto. rewrite Hup, bool_decide_eq_true_2 in Hrun by done.
    unfold patch_extracted in Hrun.
    eapply (routed_both _ Append _ _ (fun h id => patch (rt_config rt) h id (TusBody_from_request q)));
      [done..|right; exact Hrun].
  - rewrite bool_decide_eq_false_2 in Hrun by congruence. destruct (String.eqb_spec up "DELETE") as [Hup|Hd].
    + cbn [orb andb]. rewrite Hup, (Hfind "DELETE" Remove) by tauto. rewrite Hup, bool_decide_eq_true_2 in Hrun by done.
      unfold delete_extracted in Hrun.
      eapply (routed_both _ Remove _ _ (fun h id => delete_upload (rt_config rt) h id)); [done..|right; exact Hrun].
    + rewrite bool_decide_eq_false_2 in Hrun by congruence. cbn [orb andb].
      assert (find (fun row => (row.1 =? "POST")%string) (method_table rt (Item capture)) = None) as ->.
      { cbn. by destruct (rt_download rt). }
      by apply (Hno None).
Qed.

Lemma decorate_allow cors origin r :
  header_get (ax_headers (decorate_response cors origin r)) "allow" = header_get (ax_headers r) "allow".
Proof.
  unfold decorate_response, insert_vary, insert_credentials. destruct origin as [v|]; [|done]. cbv zeta.
  destruct (negb _), (co_allow_credentials cors); cbn; by rewrite !header_get_insert_ne.
Qed.

(** What a mounted path is routed to. *)
Lemma route_operation rt q t (w : W) resp w' :
  target rt (aq_path q) = Some t -> run (route_in rt q) w = (Ok resp, w') ->
  match operation_of rt t q with
  | Some op => routed (rt_config rt) op t q w (ax_status resp) w'
  | None => w' = w /\ method_refused rt t q resp
  end.
Proof.
  unfold target, route. intros Ht Hrun.
  assert (forall allow resp' w1, run (ret (method_not_allowed_response allow) : M W AxumResponse) w = (Ok resp', w1) ->
    w1 = w /\ ax_status resp' = 405 /\ header_get (ax_headers resp') "allow" = Some (header_value_from_static allow))
    as Hno.
  { intros allow resp' w1 [= <- <-]. split_and!; [done..|]. cbn. rewrite header_get_insert_ne by done.
    apply header_get_insert_eq. }
  destruct (path_match (rp_base _) _) as [x|].
  - injection Ht as <-. unfold operation_of, effective_method, serve_base in *. cbn [method_table find fst].
    rewrite !(String.eqb_sym _ (aq_method q)). destruct (aq_method q =? "OPTIONS")%string; [by apply routed_options|].
    destruct (aq_method q =? "POST")%string eqn:Hp; cbn [fmap option_fmap option_map snd].
    + apply run_respond in Hrun as (r & Hrun & Hr). unfold handle_post in Hrun. rewrite run_extract in Hrun.
      destruct (TusHeaders_from_header_map (aq_headers q)) as [h|e|] eqn:Hh.
      2: { injection Hrun as <- <-. subst resp. apply routed_malformed. by left. }
      2: by injection Hrun as <- <-.
      by eapply (routed_operation _ Create _ q h "" _ TusResponse_into_response).
    + destruct (Hno _ _ _ Hrun) as (-> & Hst & Ha). split; [done|]. by left.
  - destruct (path_match (rp_upload _) _) as [[capture|]|]; [|done..]. injection Ht as <-.
    unfold serve_upload in Hrun.
    destruct (String.eqb_spec (aq_method q) "POST") as [Hp|Hp].
    { rewrite Hp in Hrun. by apply route_override. }
    assert (effective_method (Item capture) q = aq_method q) as He.
    { unfold effective_method. destruct (get_str _ _); [|done]. by rewrite (proj2 (String.eqb_neq _ _) Hp). }
    unfold operation_of. rewrite He. cbn [method_table app find fst].
    rewrite !(String.eqb_sym _ (aq_method q)). destruct (aq_method q =? "OPTIONS")%string; [by apply routed_options|].
    destruct (aq_method q =? "HEAD")%string.
    { eapply (routed_both _ Observe _ _ (fun _ id => head (rt_config rt) id)); [done..|left; exact Hrun]. }
    destruct (aq_method q =? "PATCH")%string.
    { eapply (routed_both _ Append _ _ (fun h id => patch (rt_config rt) h id (TusBody_from_request q)));
        [done..|left; exact Hrun]. }
    destruct (aq_method q =? "DELETE")%string.
    { eapply (routed_both _ Remove _ _ (fun h id => delete_upload (rt_config rt) h id)); [done..|left; exact Hrun]. }
    destruct (rt_download rt) eqn:Hdl; cbn [andb find fst snd] in *.
    + rewrite (String.eqb_sym "GET"). destruct (aq_method q =? "GET")%string; [by apply routed_get|].
      destruct (Hno _ _ _ Hrun) as (-> & Hst & Ha). split; [done|]. left. split; [done|].
      rewrite Hdl, (proj2 (String.eqb_neq _ _) Hp), Ha. unfold upload_allow. by rewrite Hdl.
    + destruct (Hno _ _ _ Hrun) as (-> & Hst & Ha). split; [done|]. left. split; [done|].
      rewrite Hdl, Ha. unfold upload_allow. by rewrite Hdl.
Qed.

(** C27: the router never fails, and what it answers on a mounted path (a CORS preflight
    apart) carries the protocol version, errors included.  The method decides: it is
    looked up in the table of the path's methods, GET being there only with the download
    endpoint, and a POST on an item standing for the method its override names; the
    operation found, and nothing else, is performed, and its result gives the status; a
    request that the extractors refuse has no effect, and a method without an operation
    gets 405 with the allowed ones and has no effect. *)
Theorem router_speaks_tus rt q (w w' : W) r :
  mounted rt (aq_path q) -> (is_preflight q = true -> rt_cors rt = None) ->
  run (serve_in rt q) w = (r, w') ->
  (forall e, r <> Err e) /\
  (forall resp, r = Ok resp ->
     tus_answer resp /\
     exists t, target rt (aq_path q) = Some t /\
       match operation_of rt t q with
       | Some op => routed (rt_config rt) op t q w (ax_status resp) w'
       | None => w' = w /\ method_refused rt t q resp
       end).
Proof.
  intros Hm Hp Hrun. split; [exact (wp_run _ _ _ _ _ (serve_no_error rt q w) Hrun)|]. intros resp ->.
  assert (exists t, target rt (aq_path q) = Some t) as [t Ht].
  { unfold target. destruct Hm as [[x ->]|[capture Hc]]; [by eexists|]. rewrite Hc.
    destruct (path_match (rp_base _) _); by eexists. }
  assert (yields tus_answer (route_in rt q)) as Hy by by apply route_yields.
  unfold serve, cors_middleware in Hrun. destruct (rt_cors rt) as [cors|].
  2: { split; [exact (wp_run _ _ _ _ _ (Hy w) Hrun _ eq_refl)|]. exists t. split; [done|]. by apply route_operation. }
  destruct (is_preflight q); [by specialize (Hp eq_refl)|]. rewrite run_bind in Hrun.
  destruct (run (route_in rt q) w) as [[a|e|] w1] eqn:Hr; [|done..]. injection Hrun as <- <-.
  split; [apply has_header_decorated; exact (wp_run _ _ _ _ _ (Hy w) Hr _ eq_refl)|].
  exists t. split; [done|]. pose proof (route_operation rt q t w a w1 Ht Hr) as Ho.
  unfold method_refused. rewrite (proj1 (decorate_same _ _ _)), decorate_allow. exact Ho.
Qed.

(** ** Method override *)

Definition with_method (method : string) (q : AxumRequest) : AxumRequest :=
  {| aq_method := method; aq_path := aq_path q; aq_headers := aq_headers q; aq_body := aq_body q;
     aq_end_stream := aq_end_stream q |}.

Lemma override_serves rt capture q method :
  aq_method q = "POST" -> method = "PATCH" \/ method = "DELETE" ->
  to_ascii_uppercase <$> get_str (aq_headers q) "x-http-method-override" = Some method ->
  is_ok (TusUploadId_from_capture capture) = true ->
  serve_upload (S:=S) (St:=St) (L:=L) (H:=H) (E:=E) rt capture q =
  serve_upload rt capture (with_method method q).
Proof.
  intros Hq Hm Ho Hid. unfold serve_upload, with_method. rewrite Hq. cbn [aq_method].
  destruct (TusUploadId_from_capture capture) as [id|e|] eqn:He; [|done..].
  destruct Hm as [-> | ->]; cbn [String.eqb Ascii.eqb Bool.eqb]; f_equal;
    unfold handle_post_with_override, handle_patch, handle_delete, of_outcome; rewrite He; cbn [bind];
    rewrite Ho; cbn [aq_headers]; done.
Qed.

(** on an item whose id is well formed, POST with an override, in whatever case, is
    PATCH or DELETE: the same answer and the same effects in every world. *)
Theorem override_is_the_method rt q capture method :
  aq_method q = "POST" -> method = "PATCH" \/ method = "DELETE" ->
  to_ascii_uppercase <$> get_str (aq_headers q) "x-http-method-override" = Some method ->
  path_match (rp_base (rt_paths rt)) (aq_path q) = None ->
  path_match (rp_upload (rt_paths rt)) (aq_path q) = Some (Some capture) ->
  is_ok (TusUploadId_from_capture capture) = true ->
  serve_in rt q = serve_in rt (with_method method q).
Proof.
  intros Hq Hm Ho Hb Hu Hid. unfold serve, cors_middleware.
  assert (is_preflight q = false) as -> by (unfold is_preflight; by rewrite Hq).
  assert (is_preflight (with_method method q) = false) as ->.
  { unfold is_preflight, with_method. by destruct Hm as [-> | ->]. }
  cbn [aq_headers with_method]. assert (route_in rt q = route_in rt (with_method method q)) as ->; [|done].
  unfold route. cbn [aq_path with_method]. rewrite Hb, Hu. by apply override_serves.
Qed.

(** ** CORS *)

Definition allow_origin_header : string := "access-control-allow-origin".
Definition allow_credentials_header : string := "access-control-allow-credentials".

Lemma header_inserted_inv n v h name v' :
  header_get (header_insert n v h) name = Some v' ->
  (name = n /\ v' = v) \/ header_get h name = Some v'.
Proof.
  destruct (decide (n = name)) as [<-|Hne].
  - rewrite header_get_insert_eq. intros [= <-]. by left.
  - rewrite header_get_insert_ne by done. by right.
Qed.

(** What a request may be granted: the wildcard, if that is configured, without
    credentials; otherwise its own origin, if that is configured. *)
Definition origin_granted (o : RouterOptions) (q : AxumRequest) (v : HeaderValue) : Prop :=
  if allows_any_origin o
  then v = header_value_from_static "*" /\ ro_cors_allow_credentials o = false
  else header_get (aq_headers q) "origin" = Some v /\
       exists text, In text (ro_cors_allowed_origins o) /\ header_value_from_str text = inr v.

Lemma parse_origins_in origins l v :
  parse_origins origins = Ok l -> In v l ->
  exists text, In text origins /\ header_value_from_str text = inr v.
Proof.
  revert l. induction origins as [|text origins IH]; intros l; cbn [parse_origins]; [by intros [= <-]|].
  destruct (header_value_from_str text) as [e|v'] eqn:Ht; [done|].
  destruct (parse_origins origins) as [l'|e|]; [|done..]. intros [= <-] [<-|Hin].
  - exists text. split; [by left|done].
  - destruct (IH l' eq_refl Hin) as (t & Hint & Hp). exists t. split; [by right|done].
Qed.

Lemma parse_origins_all origins l text v :
  parse_origins origins = Ok l -> In text origins -> header_value_from_str text = inr v -> In v l.
Proof.
  revert l. induction origins as [|text' origins IH]; intros l; cbn [parse_origins]; [done|].
  destruct (header_value_from_str text') as [e|v'] eqn:Ht; [done|].
  destruct (parse_origins origins) as [l'|e|]; [|done..]. intros [= <-] [<-|Hin] Hv.
  - left. congruence.
  - right. by apply IH.
Qed.

(** An accepted configuration, and what it makes of a request's origin. *)
Lemma cors_built o download cors :
  CorsConfig_build o download = Ok cors ->
  co_allow_credentials cors = ro_cors_allow_credentials o /\
  forall q v, resolve_allow_origin cors (header_get (aq_headers q) "origin") = Some v <-> origin_granted o q v.
Proof.
  unfold CorsConfig_build. destruct (ro_cors_allow_credentials o && allows_any_origin o) eqn:Hca; [done|].
  destruct (if allows_any_origin o then _ else _) as [origins|e|] eqn:Hor; [|done..].
  destruct (allowed_request_headers o) as [names|e|]; [|done..]. cbn [outcome_bind].
  destruct (join_header_names names) as [n|e|]; [|done..]. cbn [outcome_bind].
  destruct (join_header_names (exposed_headers download)) as [x|e|]; [|done..]. cbn [outcome_bind].
  destruct (expect_header_value _) as [m|e|]; [|done..]. cbn [outcome_bind]. intros [= <-]. split; [done|].
  intros q v. unfold resolve_allow_origin, origin_granted. cbn [co_allow_any_origin co_allowed_origins].
  destruct (allows_any_origin o) eqn:Hany.
  - rewrite andb_true_r in Hca. split; [by intros [= <-]|by intros [-> _]].
  - destruct (header_get (aq_headers q) "origin") as [origin|] eqn:Ho; [|split; [done|by intros [? _]]].
    destruct (existsb _ origins) eqn:Hex.
    + apply existsb_exists in Hex as (allowed & Hin & ->%header_value_eqb_eq).
      split; [intros Hv; apply Some_inj in Hv as <-|by intros [? _]]. split; [done|]. by eapply parse_origins_in.
    + split; [done|]. intros [Hv (text & Hin & Hp)]. apply Some_inj in Hv as ->.
      rewrite <- not_true_iff_false in Hex. destruct Hex. apply existsb_exists. exists v.
      split; [by eapply parse_origins_all|by apply header_value_eqb_eq].
Qed.

(** Of a response's CORS headers: granted to the request, or there before. *)
Lemma insert_vary_get cors r name :
  name <> "vary" -> header_get (ax_headers (insert_vary cors r)) name = header_get (ax_headers r) name.
Proof.
  intros Hne. unfold insert_vary. destruct (negb _); [|done]. cbn. by rewrite header_get_insert_ne.
Qed.
Lemma insert_credentials_get cors r name :
  name <> allow_credentials_header ->
  header_get (ax_headers (insert_credentials cors r)) name = header_get (ax_headers r) name.
Proof.
  intros Hne. unfold insert_credentials. destruct (co_allow_credentials cors); [|done]. cbn.
  by rewrite header_get_insert_ne.
Qed.

Lemma preflight_status cors origin : ax_status (preflight_response cors origin) = 200.
Proof.
  unfold preflight_response, insert_credentials. cbv zeta.
  destruct (co_allow_credentials cors), origin; cbn; try done; unfold insert_vary; by case_match.
Qed.

Lemma preflight_origin cors origin :
  header_get (ax_headers (preflight_response cors origin)) allow_origin_header = origin.
Proof.
  unfold preflight_response, allow_origin_header. cbv zeta. rewrite insert_credentials_get by done.
  cbn [response_insert ax_headers]. rewrite !header_get_insert_ne by done.
  destruct origin as [v|]; [|apply header_get_new]. rewrite insert_vary_get by done. cbn.
  apply header_get_insert_eq.
Qed.

Lemma decorate_origin cors origin r :
  header_get (ax_headers (decorate_response cors origin r)) allow_origin_header =
  match origin with Some v => Some v | None => header_get (ax_headers r) allow_origin_header end.
Proof.
  unfold decorate_response, allow_origin_header. destruct origin as [v|]; [|done]. cbv zeta.
  rewrite insert_vary_get, insert_credentials_get by done. cbn. rewrite header_get_insert_ne by done.
  apply header_get_insert_eq.
Qed.

Lemma preflight_credentials cors origin :
  header_get (ax_headers (preflight_response cors origin)) allow_credentials_header =
  if co_allow_credentials cors then Some (header_value_from_static "true") else None.
Proof.
  unfold preflight_response, insert_credentials, allow_credentials_header. cbv zeta.
  destruct (co_allow_credentials cors); [apply header_get_insert_eq|].
  cbn [response_insert ax_headers]. rewrite !header_get_insert_ne by done.
  destruct origin as [v|]; [|apply header_get_new]. rewrite insert_vary_get by done. cbn.
  by rewrite header_get_insert_ne, header_get_new.
Qed.

Lemma decorate_credentials cors origin r :
  header_get (ax_headers (decorate_response cors origin r)) allow_credentials_header =
  if is_some origin && co_allow_credentials cors then Some (header_value_from_static "true")
  else header_get (ax_headers r) allow_credentials_header.
Proof.
  unfold decorate_response, allow_credentials_header. destruct origin as [v|]; [|done]. cbv zeta.
  rewrite insert_vary_get by done. unfold insert_credentials.
  destruct (co_allow_credentials cors); [apply header_get_insert_eq|].
  cbn. by rewrite !header_get_insert_ne.
Qed.

Definition cors_headers : list string :=
  [allow_origin_header; allow_credentials_header; "access-control-expose-headers"; "vary"].

Lemma decorate_other cors origin r name :
  ~ In name cors_headers ->
  header_get (ax_headers (decorate_response cors origin r)) name = header_get (ax_headers r) name.
Proof.
  intros Hn. unfold decorate_response. destruct origin as [v|]; [|done]. cbv zeta.
  assert (forall s, In s cors_headers -> s <> name) as Hs by (intros s Hin ->; by apply Hn).
  rewrite insert_vary_get by (intros ->; apply Hn; cbn; tauto).
  rewrite insert_credentials_get by (intros ->; apply Hn; cbn; tauto). cbn.
  by rewrite !header_get_insert_ne by (apply Hs; cbn; tauto).
Qed.

(** The credentials header: sent exactly where it is configured. *)
Definition credentials_of (o : RouterOptions) (otherwise : option HeaderValue) : option HeaderValue :=
  if ro_cors_allow_credentials o then Some (header_value_from_static "true") else otherwise.

(** C28: with a CORS configuration that was accepted.  A preflight has no effect; it
    names an allowed origin exactly when the request is granted one (the wildcard if
    configured, which excludes credentials, else the request's own if configured), and
    allows credentials exactly when that is configured.  Every other request is served
    as without CORS: granted an origin, the answer names it, allows credentials as
    configured and has the handler's headers otherwise; not granted one, its headers are
    the handler's, unfiltered, those that a hook set included. *)
Theorem cors_keeps_to_origins rt o download cors q (w w' : W) resp :
  CorsConfig_build o download = Ok cors -> rt_cors rt = Some cors ->
  run (serve_in rt q) w = (Ok resp, w') ->
  let header name := header_get (ax_headers resp) name in
  (is_preflight q = true ->
     w' = w /\ ax_status resp = 200 /\
     (forall v, header allow_origin_header = Some v <-> origin_granted o q v) /\
     header allow_credentials_header = credentials_of o None) /\
  (is_preflight q = false ->
     exists r, run (route_in rt q) w = (Ok r, w') /\ ax_status resp = ax_status r /\ ax_body resp = ax_body r /\
       (forall v, origin_granted o q v ->
          header allow_origin_header = Some v /\
          header allow_credentials_header =
            credentials_of o (header_get (ax_headers r) allow_credentials_header) /\
          forall name, ~ In name cors_headers -> header name = header_get (ax_headers r) name) /\
       ((forall v, ~ origin_granted o q v) -> ax_headers resp = ax_headers r)).
Proof.
  intros Hb Hc Hrun. cbv zeta. unfold serve, cors_middleware in Hrun. rewrite Hc in Hrun.
  destruct (cors_built _ _ _ Hb) as [Hcred Hg]. specialize (Hg q).
  set (origin := resolve_allow_origin cors (header_get (aq_headers q) "origin")) in *.
  clearbody origin. unfold credentials_of. rewrite <- Hcred. split; intros Hpre; rewrite Hpre in Hrun.
  - injection Hrun as <- <-. split; [done|]. split; [apply preflight_status|]. split.
    + intros v. rewrite preflight_origin. apply Hg.
    + apply preflight_credentials.
  - rewrite run_bind in Hrun. destruct (run (route_in rt q) w) as [[r|e|] w1] eqn:Hr; [|done..].
    injection Hrun as <- <-. exists r. split_and!; [done|apply decorate_same..| |].
    + intros v ->%Hg. rewrite decorate_origin, decorate_credentials. split_and!; [done..|].
      intros name. apply decorate_other.
    + intros Hno. destruct origin as [v|]; [|done]. by destruct (Hno v); apply Hg.
Qed.

End router.
