(* ===== verification/RemovalSpec.v ===== *)
(** * Removing uploads

    DELETE and the expiration scan.  A removed upload loses its bytes first and
    its record last, so that a failed removal can be repeated; the scan removes
    only uploads that are expired when they are reloaded under their lock. *)

From S2P Require Import Prelude Text Errors Crates Config State Headers Hooks Backends Lifecycle.
From S2P Require Import Intake Receive FinalUpload Access Response Protocol Streaming Contracts.
From S2P Require Import Effects PatchSpec HeadSpec.
Local Open Scope string_scope.
Local Open Scope N_scope.
Local Open Scope prog_scope.

Section removal.
Context {S St L H E : Type}.
Context `{StorageLaws S, StateStoreLaws St, !Locker L, !HookExecutor H, !Env E}.
Context `{HttpLib, Base64, Digests, PercentEncoding, Chrono, HashOrder}.
Local Abbreviation W := (World S St L H E).
#[local] Set Default Proof Using "All".

(** ** What a removal does to the store *)

(** The object of [s] is gone. *)
Definition bytes_removed (s : UploadState) (w w' : W) : Prop :=
  bytes_of w' = match UploadState.storage_handle s with
                | Some h => delete (handle_key h) (bytes_of w)
                | None => bytes_of w
                end.

Definition removed (s : UploadState) (w w' : W) : Prop :=
  bytes_removed s w w' /\ recs w' = delete (UploadState.id s) (recs w).

(** A removal that failed half way: the record is still there. *)
Definition kept (s : UploadState) (w w' : W) : Prop :=
  same w w' \/ (bytes_removed s w w' /\ recs w' = recs w).

Lemma same_then_removed s (w w1 w2 : W) : same w w1 -> bytes_removed s w1 w2 -> bytes_removed s w w2.
Proof. intros [Hb _] Hr. unfold bytes_removed in *. by rewrite Hr, Hb. Qed.

Lemma delete_bytes_spec s w :
  wp match UploadState.storage_handle s with
     | Some handle => on_storage (storage_delete handle)
     | None => ret tt
     end
    (fun r w' => match r with
                 | Ok _ => bytes_removed s w w' /\ recs w' = recs w
                 | Err _ => same w w'
                 | Panic => True
                 end) w.
Proof.
  unfold bytes_removed. destruct (UploadState.storage_handle s) as [h|]; [|by apply wp_done].
  apply wp_on_storage. wp_use storage_delete_spec r s' Hr. by destruct r.
Qed.

Lemma delete_record_spec id w :
  wp (on_states (state_delete id)) (fun r w' =>
    bytes_of w' = bytes_of w /\
    match r with
    | Ok _ => recs w' = delete id (recs w)
    | Err _ => recs w' = recs w
    | Panic => False
    end) (w : W).
Proof.
  apply wp_on_states. wp_use state_delete_spec r st Hr. split; [done|].
  by destruct r.
Qed.

(** ** DELETE *)

Lemma terminate_spec ri s w :
  wp (terminate ri s) (fun r w' =>
    match r with
    | Ok _ => removed s w w'
    | Err _ => kept s w w'
    | Panic => True
    end) w.
Proof.
  unfold terminate. apply wp_bind. wp_use same_run_gate r w1 Hw1.
  destruct r as [po|e|]; [|by left|done].
  apply wp_bind. wp_use delete_bytes_spec r w2 Hr2. destruct r as [[]|e|]; [| |done].
  2: { left. by transitivity w1. }
  destruct Hr2 as [Hb2 Hr2]. apply (same_then_removed _ w) in Hb2; [|done].
  assert (recs w2 = recs w) as Hrec by (destruct Hw1; congruence).
  apply wp_bind. wp_use delete_record_spec r w3 Hr3. destruct Hr3 as [Hb3 Hr3].
  assert (bytes_removed s w w3) as Hb by (unfold bytes_removed in *; congruence).
  destruct r as [[]|e|]; [| |done].
  2: { right. split; [done|congruence]. }
  apply wp_bind. wp_use post_hook_ok r w4 Hw4. destruct Hw4 as [[Hb4 Hr4] Hok].
  destruct Hok as [-> | ->]; [|done]. wp_steps. split.
  - unfold bytes_removed in *. congruence.
  - congruence.
Qed.

Lemma hook_headers_status hs r : rs_status (with_hook_headers hs r) = rs_status r.
Proof.
  unfold with_hook_headers. revert r. induction (hash_iter hs) as [|kv l IH]; intros r; cbn; [done|].
  rewrite IH. unfold with_header. by repeat case_match.
Qed.

Lemma delete_spec config headers id w :
  wp (delete_upload config headers id) (fun r w' =>
    match r with
    | Ok resp =>
        rs_status resp = 204 /\ has_extension config Extension.Termination = true /\
        exists s, recs w !! id = Some s /\ removed s w w'
    | Err _ => same w w' \/ exists s, recs w !! id = Some s /\ kept s w w'
    | Panic => True
    end) (w : W).
Proof.
  unfold delete_upload.
  destruct (has_extension config Extension.Termination); cbn [negb]; [|apply wp_done; by left].
  apply with_locked_upload_spec.
  - intros s w1 Hs Hw1. apply wp_bind. wp_use same_ensure_active r w2 Hw2.
    assert (same w w2) as [Hb Hr] by (by transitivity w1).
    destruct r as [[]|e|]; [|by left|done].
    apply wp_bind. wp_use terminate_spec r w3 Hr3. destruct r as [hs|e|]; [| |done].
    + apply wp_done. rewrite hook_headers_status. split_and!; [done|done|].
      exists s. split; [done|]. unfold removed, bytes_removed in *. by rewrite <- Hb, <- Hr.
    + right. exists s. split; [done|]. unfold kept, same, bytes_removed in *. by rewrite <- Hb, <- Hr.
  - intros e w' Hw'. by left.
  - done.
  - by intros [] l w'.
Qed.

(** C37: a DELETE that succeeds has removed the upload's object and then its
    record, and nothing else.  [terminate] passes a failure of the storage on
    before it deletes the record ("storage deletion failures must propagate: state
    is only deleted after the bytes are gone", lifecycle/termination.rs:47), so
    204 means that the storage deleted the object.  docs/architecture.md and the
    event matrix of hooks.rs, which say that a storage deletion error is logged
    and ignored, do not describe this code. *)
Theorem delete_success config headers id w resp w' :
  run (delete_upload config headers id) w = (Ok resp, w') ->
  rs_status resp = 204 /\ has_extension config Extension.Termination = true /\
  exists s, recs (w : W) !! id = Some s /\ removed s w w'.
Proof. intros Hrun. exact (wp_run _ _ _ _ _ (delete_spec config headers id w) Hrun). Qed.

(** a DELETE that fails has removed no record: the upload is still there to be
    deleted again. *)
Theorem delete_failure config headers id w e w' :
  run (delete_upload config headers id) w = (Err e, w') ->
  recs w' = recs (w : W) /\
  (bytes_of w' = bytes_of w \/
   exists s h, recs w !! id = Some s /\ UploadState.storage_handle s = Some h /\
     bytes_of w' = delete (handle_key h) (bytes_of w)).
Proof.
  intros Hrun.
  destruct (wp_run _ _ _ _ _ (delete_spec config headers id w) Hrun)
    as [[Hb Hr]|(s & Hs & [[Hb Hr]|[Hb Hr]])]; [by auto..|].
  split; [done|]. unfold bytes_removed in Hb.
  destruct (UploadState.storage_handle s) as [h|] eqn:Hh; [right; eauto|by left].
Qed.

(** ** Reclamation *)

(** [s] may be reclaimed at the instant [now]: its deadline has passed, and it
    is neither a completed deliverable nor one whose stored bytes complete it. *)
Definition reclaimable (s : UploadState) (now : DateTime) (w : W) : Prop :=
  UploadState.expires_before s now = true /\
  (UploadState.is_partial s = false ->
   forall l, UploadState.length s = Some l -> stored_size s w <> l \/ UploadState.storage_handle s = None).

Lemma detect_none_spec s w :
  wp (detect_stored_completion s) (fun r w' =>
    same w w' /\ w_env w' = w_env w /\
    (r = Ok None -> UploadState.is_complete s = false ->
     UploadState.is_partial s = false -> forall l, UploadState.length s = Some l ->
     stored_size s w <> l \/ UploadState.storage_handle s = None)) (w : W).
Proof.
  unfold detect_stored_completion, stored_size.
  destruct (UploadState.is_complete s) eqn:Hc; [by apply wp_done|].
  destruct (UploadState.is_partial s) eqn:Hp; [by apply wp_done|]. cbn [orb].
  destruct (UploadState.length s) as [l|]; [|by apply wp_done].
  destruct (UploadState.storage_handle s) as [h|];
    [|apply wp_done; split_and!; [done|done|by right]].
  apply wp_bind, wp_on_storage. wp_use storage_size_spec r s' Hr. destruct Hr as [Hs Hr].
  destruct r as [o|e|]; [|by split_and!|done]. subst o.
  destruct (l <? _); [by apply wp_done|]. unfold bytes_of.
  destruct (N.eqb_spec (default 0 (bytes_len <$> stored (w_storage w) !! handle_key h)) l) as [|Hne];
    cbn; apply wp_done; (split_and!; [done|done|]); [done|].
  intros _ _ _ l' [= <-]. by left.
Qed.

Lemma reclamation_access_spec s w :
  wp (prepare_upload_reclamation_access s) (fun r w' =>
    same w w' /\ (r = Ok true -> reclaimable s (utc_now (w_env w)).1 w)) (w : W).
Proof.
  unfold prepare_upload_reclamation_access, stored_bytes_complete_upload.
  apply wp_bind, wp_bind. wp_use detect_none_spec r w1 Hr. destruct Hr as (Hw1 & He & Hnone).
  destruct r as [[l|]|e|]; wp_steps; try done. apply wp_is_expired. rewrite He.
  split; [done|]. intros [= Hx]. split; [done|]. intros Hp l Hl.
  apply (Hnone eq_refl); [|done|done].
  apply UploadState.expires_before_iff in Hx as ([Hc|Hc] & _); [done|congruence].
Qed.

(** What one candidate's outcome says about the store. *)
Definition outcome_effect (id : string) (now : DateTime) (o : ExpiredUploadReclamationOutcome)
    (w w' : W) : Prop :=
  outcome_upload_id o = id /\
  match o with
  | Removed _ => exists s, recs w !! id = Some s /\ reclaimable s now w /\ removed s w w'
  | StateDeleteFailed _ _ =>
      exists s, recs w !! id = Some s /\ reclaimable s now w /\
        bytes_removed s w w' /\ recs w' = recs w
  | MissingState _ => recs w !! id = None /\ same w w'
  | _ => same w w'
  end.

Lemma outcome_locks id now o w l w' :
  outcome_effect id now o w w' -> outcome_effect id now o w (set_locks l w').
Proof. done. Qed.

Lemma reclaim_locked_spec id w :
  wp (reclaim_locked_upload id) (fun r w' =>
    match r with
    | Ok o => outcome_effect id (utc_now (w_env w)).1 o w w'
    | Err _ => False
    | Panic => True
    end) (w : W).
Proof.
  unfold reclaim_locked_upload. apply wp_bind, wp_attempt.
  eapply (wp_mono _ (fun r w' => same w w' /\ w_env w' = w_env w /\
    forall o, r = Ok o -> o = recs w !! id)).
  { apply wp_on_states. wp_use state_get_spec r st Hr. destruct Hr as [Hst Hr].
    split_and!; [by split|done|]. by intros o ->. }
  intros r w1 (Hw1 & He & Ho). destruct r as [[s|]|e|]; [| |by wp_steps|done].
  2: { wp_steps. split; [done|]. split; [symmetry; by apply Ho|done]. }
  apply wp_bind, wp_attempt. wp_use reclamation_access_spec r w2 Hr2. rewrite He in Hr2.
  destruct Hr2 as [Hw2 Hx]. assert (same w w2) as Hw by (by transitivity w1).
  destruct r as [[]|e|]; [|by wp_steps|by wp_steps|done].
  assert (reclaimable s (utc_now (w_env w)).1 w) as Hre.
  { destruct (Hx eq_refl) as [Hb Hl]. split; [done|]. intros Hp l Hlen.
    rewrite <- (stored_size_same s w w1) by done. by apply Hl. }
  apply wp_bind. eapply (wp_mono _ (fun r w' =>
    match r with
    | Ok (inr _) => bytes_removed s w w' /\ recs w' = recs w
    | Ok (inl _) => same w w'
    | Err _ => False
    | Panic => True
    end)).
  { unfold bytes_removed. destruct Hw as [Hwb Hwr].
    destruct (UploadState.storage_handle s) as [h|]; [|by apply wp_done].
    apply wp_attempt, wp_on_storage. wp_use storage_delete_spec r s' Hr.
    destruct r as [[]|e|]; [| |done].
    - split; [|done]. unfold bytes_of in *. cbn. congruence.
    - split; [|done]. unfold bytes_of in *. cbn. congruence. }
  intros r w3 Hr3. destruct r as [[e|[]]|e|]; [by wp_steps| |done|done].
  destruct Hr3 as [Hb3 Hrec3]. apply wp_bind, wp_attempt.
  wp_use delete_record_spec r w4 Hr4. destruct Hr4 as [Hb4 Hr4].
  assert (bytes_removed s w w4) as Hb by (unfold bytes_removed in *; congruence).
  assert (recs w !! id = Some s) as Hs by (symmetry; by apply Ho).
  destruct r as [[]|e|]; [| |done]; wp_steps; (split; [done|]); exists s; split_and!; try done; [split; [done|]|];
    congruence.
Qed.

Lemma reclaim_one_spec id w :
  wp (reclaim_expired_upload id) (fun r w' =>
    match r with
    | Ok o => outcome_effect id (utc_now (w_env w)).1 o w w'
    | Err _ => False
    | Panic => True
    end) (w : W).
Proof.
  unfold reclaim_expired_upload. apply wp_bind, wp_attempt, wp_on_locks, wp_intro.
  intros r l _. destruct r as [[g|]|e|]; [|by apply wp_done|by apply wp_done|done].
  apply wp_with_guard. wp_use reclaim_locked_spec r w' Hr. by destruct r.
Qed.

(** The scan visits the candidates in order, each in the store the previous one
    left. *)
Inductive scanned : ExpiredUploadReclamationReport -> W -> W -> Prop :=
| scanned_nil w : scanned [] w w
| scanned_cons o report w w1 w' :
    run (reclaim_expired_upload (outcome_upload_id o)) w = (Ok o, w1) ->
    outcome_effect (outcome_upload_id o) (utc_now (w_env w)).1 o w w1 ->
    scanned report w1 w' ->
    scanned (o :: report) w w'.

Lemma reclaim_loop_spec ids report w :
  wp (reclaim_loop ids report) (fun r w' =>
    match r with
    | Ok result => exists outs, result = (report ++ outs)%list /\
        map outcome_upload_id outs = ids /\ scanned outs w w'
    | Err _ => False
    | Panic => True
    end) (w : W).
Proof.
  revert report w. induction ids as [|id ids IH]; intros report w; cbn [reclaim_loop].
  { apply wp_done. exists []. rewrite app_nil_r. split_and!; [done|done|constructor]. }
  apply wp_bind, wp_intro. intros r w1 Hrun. pose proof (wp_run _ _ _ _ _ (reclaim_one_spec id w) Hrun) as Hr.
  destruct r as [o|e|]; [|done|done].
  wp_use IH r w2 Hr2. destruct r as [result|e|]; [|done|done].
  destruct Hr2 as (outs & -> & <- & Hs). exists (o :: outs). rewrite <- app_assoc. cbn.
  pose proof Hr as [Hid _]. split_and!; [done|by rewrite Hid|].
  econstructor; [| |done]; by rewrite Hid.
Qed.

Lemma scanned_run report acc w w' :
  scanned report w w' ->
  run (reclaim_loop (map outcome_upload_id report) acc) w = (Ok (acc ++ report)%list, w').
Proof.
  intros Hs. revert acc. induction Hs as [w|o report w w1 w' Hrun _ _ IH]; intros acc.
  - cbn. by rewrite app_nil_r.
  - cbn [map reclaim_loop]. rewrite run_bind, Hrun, IH, <- app_assoc. done.
Qed.

Lemma scanned_split pre o post w w' :
  scanned (pre ++ o :: post)%list w w' -> exists w1 w2, scanned pre w w1 /\
    run (reclaim_expired_upload (outcome_upload_id o)) w1 = (Ok o, w2) /\
    outcome_effect (outcome_upload_id o) (utc_now (w_env w1)).1 o w1 w2 /\ scanned post w2 w'.
Proof.
  revert w. induction pre as [|p pre IH]; cbn [app]; intros w Hs;
    inversion Hs as [|? ? ? w1 ? Hrun Ho Hrest]; subst; clear Hs.
  - exists w, w1. split_and!; [constructor|done..].
  - destruct (IH _ Hrest) as (w2 & w3 & Hpre & Hcand). exists w2, w3. split; [by econstructor|done].
Qed.

(** The scan of a store [w0] came to the candidate of [o] at the store [w1],
    after the candidates of [pre], and left it at [w2]. *)
Definition visited (w0 : W) (pre : ExpiredUploadReclamationReport)
    (o : ExpiredUploadReclamationOutcome) (w1 w2 : W) : Prop :=
  run (reclaim_loop (map outcome_upload_id pre) []) w0 = (Ok pre, w1) /\
  run (reclaim_expired_upload (outcome_upload_id o)) w1 = (Ok o, w2).

Lemma scanned_visited pre o post w w' :
  scanned (pre ++ o :: post)%list w w' -> exists w1 w2, visited w pre o w1 w2 /\
    outcome_effect (outcome_upload_id o) (utc_now (w_env w1)).1 o w1 w2 /\ scanned post w2 w'.
Proof.
  intros (w1 & w2 & Hpre & Hrun & Ho & Hpost)%scanned_split. exists w1, w2.
  split; [split; [by apply (scanned_run pre [])|done]|done].
Qed.

(** Every record is filed under its own id. *)
Definition filed (w : W) : Prop := forall id s, recs w !! id = Some s -> UploadState.id s = id.

Lemma outcome_records id now o (w w' : W) :
  filed w -> outcome_effect id now o w w' ->
  filed w' /\ (forall key, recs w !! key = None -> recs w' !! key = None) /\
  forall key s, recs w !! key = Some s ->
    recs w' !! key = Some s \/
    (recs w' !! key = None /\ o = Removed key /\ reclaimable s now w /\ removed s w w').
Proof.
  intros Hf [Hid Ho].
  assert (recs w' = recs w \/ exists s, recs w !! id = Some s /\ o = Removed id /\
    reclaimable s now w /\ removed s w w' /\ recs w' = delete id (recs w)) as Hr.
  { destruct o; cbn in Hid; subst; try (left; by apply Ho).
    - destruct Ho as (s & Hs & Hre & Hb & Hr). right. exists s.
      pose proof Hr as Hr2. rewrite (Hf _ _ Hs) in Hr2. by split_and!.
    - destruct Ho as (s & _ & _ & _ & Hr). by left. }
  destruct Hr as [Hr|(s & Hs & -> & Hre & Hb & Hr)];
    (split_and!; [intros key s'|intros key Hk|intros key s' Hs']); rewrite Hr.
  - apply Hf.
  - done.
  - by left.
  - intros [_ Hs']%lookup_delete_Some. by apply Hf.
  - destruct (decide (key = id)) as [->|]; [apply lookup_delete_eq|by rewrite lookup_delete_ne].
  - destruct (decide (key = id)) as [->|Hne].
    + right. rewrite lookup_delete_eq. assert (s' = s) as -> by congruence. by split_and!.
    + left. by rewrite lookup_delete_ne.
Qed.

Lemma scanned_missing report w w' key :
  scanned report w w' -> filed w -> recs w !! key = None -> recs w' !! key = None.
Proof.
  induction 1 as [|o report w w1 w' _ Ho _ IH]; intros Hf Hk; [done|].
  destruct (outcome_records _ _ _ _ _ Hf Ho) as (Hf1 & Hnone & _). auto.
Qed.

Lemma scanned_records report w w' key s :
  scanned report w w' -> filed w -> recs w !! key = Some s ->
  recs w' !! key = Some s \/
  (recs w' !! key = None /\ exists pre post w1 w2, report = (pre ++ Removed key :: post)%list /\
     visited w pre (Removed key) w1 w2 /\
     recs w1 !! key = Some s /\ reclaimable s (utc_now (w_env w1)).1 w1 /\ removed s w1 w2).
Proof.
  induction 1 as [w|o report w w1 w' Hrun Ho Hs IH]; intros Hf Hk; [by left|].
  destruct (outcome_records _ _ _ _ _ Hf Ho) as (Hf1 & _ & Hstep).
  destruct (Hstep _ _ Hk) as [Hk1|(Hk1 & -> & Hre & Hrm)].
  - destruct (IH Hf1 Hk1) as [|(Hgone & pre & post & w2 & w3 & -> & [Hpre Hone] & Hrest)]; [by left|].
    right. split; [done|]. exists (o :: pre), post, w2, w3. split_and!; [done| |apply Hrest..].
    split; [|done]. apply (scanned_run (o :: pre) []).
    destruct (scanned_split pre _ _ _ _ Hs) as (w4 & w5 & Hp & _).
    pose proof (scanned_run _ [] _ _ Hp) as Hp2. cbn in Hp2. rewrite Hp2 in Hpre. injection Hpre as ->.
    by econstructor.
  - right. split; [by apply (scanned_missing _ _ _ _ Hs)|].
    exists [], report, w, w1. by split_and!.
Qed.

(** one candidate of the expiration scan: the outcome tells what happened to
    the store, and an upload is removed only when the record reloaded under its
    lock is expired at the clock's reading and not completed by its bytes. *)
Theorem reclaim_candidate id w o w' :
  run (reclaim_expired_upload id) w = (Ok o, w') ->
  outcome_effect id (utc_now (w_env w)).1 o (w : W) w'.
Proof. intros Hrun. exact (wp_run _ _ _ _ _ (reclaim_one_spec id w) Hrun). Qed.

(** C38: the whole scan: the candidates are the uploads the store lists as past
    the cutoff, each of them past it indeed, and the report has one outcome for
    each, in order.  Every outcome tells what that candidate's visit did, in the
    store the candidates before it left and at the clock's reading there: a
    removal takes an upload whose record, as reloaded under its lock at that
    visit, is expired at that reading and not completed by its stored bytes.  A
    record is gone afterwards only if its own visit removed it this way; every
    other record is unchanged. *)
Theorem reclaim_scan before (w : W) report w' :
  filed w -> run (reclaim_expired_uploads before) w = (Ok report, w') ->
  exists w0,
    run (on_states (state_list_expired before)) w = (Ok (map outcome_upload_id report), w0) /\
    same w w0 /\
    (forall o, In o report -> exists s,
       recs w !! outcome_upload_id o = Some s /\ UploadState.expires_before s before = true) /\
    (forall pre o post, report = (pre ++ o :: post)%list -> exists w1 w2,
       visited w0 pre o w1 w2 /\
       outcome_effect (outcome_upload_id o) (utc_now (w_env w1)).1 o w1 w2) /\
    (forall id s, recs w !! id = Some s ->
       recs w' !! id = Some s \/
       (recs w' !! id = None /\ exists pre post w1 w2, report = (pre ++ Removed id :: post)%list /\
          visited w0 pre (Removed id) w1 w2 /\ recs w1 !! id = Some s /\
          reclaimable s (utc_now (w_env w1)).1 w1 /\ removed s w1 w2)).
Proof.
  unfold reclaim_expired_uploads. intros Hf Hrun. rewrite run_bind in Hrun.
  destruct (run (on_states _) w) as [[ids|e|] w0] eqn:Hlist; [|done|done].
  assert (same w w0 /\ forall id, In id ids -> exists s,
    recs w !! id = Some s /\ UploadState.expires_before s before = true) as [Hw0 Hc].
  { refine (wp_run _ (fun r w0 => forall ids2, r = Ok ids2 -> same w w0 /\ forall id, In id ids2 -> exists s, recs w !! id = Some s /\ UploadState.expires_before s before = true) _ _ _ _ Hlist _ eq_refl).
    apply wp_on_states. wp_use state_list_expired_spec r st Hr. destruct Hr as [Hst Hids].
    intros ids2 ->. split; [by split|]. intros id Hin. destruct (Hids _ Hin) as (key & s & Hk & <- & He).
    exists s. by rewrite (Hf _ _ Hk). }
  pose proof (wp_run _ _ _ _ _ (reclaim_loop_spec ids [] w0) Hrun) as (outs & -> & <- & Hs).
  cbn [app] in *. exists w0. split; [done|]. split; [done|]. destruct Hw0 as [Hb0 Hr0]. split_and!.
  - intros o Ho. by apply Hc, in_map.
  - intros pre o post ->. destruct (scanned_visited _ _ _ _ _ Hs) as (w1 & w2 & Hv & Ho & _). eauto.
  - intros id s Hk. apply (scanned_records _ _ _ _ _ Hs); [|by rewrite Hr0].
    intros id' s'. rewrite Hr0. apply Hf.
Qed.
End removal.
