(* ===== verification/DownloadSpec.v ===== *)
(** * The GET contract

    The meaning of the [Range] header, and that a download returns exactly the
    stored bytes of a complete upload, or the requested slice of them. *)

From S2P Require Import Prelude Text Errors Crates Config State Headers Hooks Backends Lifecycle.
From S2P Require Import Intake Receive FinalUpload Access Response Protocol Streaming Contracts.
From S2P Require Import Effects PatchSpec HeadSpec.
Local Open Scope string_scope.
Local Open Scope N_scope.
Local Open Scope prog_scope.

(** ** [Range] *)

Lemma parse_range_bounds value size a b :
  parse_range value size = Ok (Some (a, b)) -> a <= b < size.
Proof.
  unfold parse_range. destruct value as [v|]; [|done].
  destruct (str_strip_prefix "bytes=" v) as [spec|]; [|done].
  destruct (contains_char "," spec); [done|]. destruct (N.eqb_spec size 0); [done|].
  destruct (split_once "-" spec) as [[start stop]|]; [|done].
  destruct (is_empty start).
  - destruct (parse_u64 stop) as [k|]; [|done]. destruct (N.eqb_spec k 0); [done|].
    intros [= <- <-]. unfold saturating_sub. lia.
  - destruct (parse_u64 start) as [x|]; [|done]. destruct (N.leb_spec size x); [done|].
    destruct (if is_empty stop then _ else _) as [y|e|] eqn:Hy; cbn; [|done|done].
    destruct (N.ltb_spec y x); [done|]. intros [= -> ->]. split; [done|].
    destruct (is_empty stop); [injection Hy as <-; lia|].
    destruct (parse_u64 stop) as [z|]; [injection Hy as <-; lia|done].
Qed.











(** ** The handler *)

Section download.
Context {S St L H E : Type}.
Context `{StorageLaws S, !StorageReader S, !StorageReaderLaws S, StateStoreLaws St, !Locker L,
          !HookExecutor H, !Env E}.
Context `{HttpLaws, Base64, Digests, PercentEncoding, Chrono, HashOrder}.
Local Abbreviation W := (World S St L H E).
#[local] Set Default Proof Using "All".

(** The bytes storage holds for an upload: none when there is no object. *)
Definition stored_bytes (s : UploadState) (w : W) : bytes :=
  match UploadState.storage_handle s with
  | Some h => default [] (bytes_of w !! handle_key h)
  | None => []
  end.

Lemma stored_bytes_len s w : bytes_len (stored_bytes s w) = stored_size s w.
Proof.
  unfold stored_bytes, stored_size. destruct (UploadState.storage_handle s) as [h|]; [|done].
  by destruct (bytes_of w !! handle_key h).
Qed.

Lemma bytes_len_zero (b : bytes) : bytes_len b = 0 -> b = [].
Proof. by destruct b. Qed.

(** *** The headers *)

Lemma insert_header_gets n v h h' :
  insert_header n v h = Ok h' ->
  get_str h' n = Some v /\ forall m, m <> n -> header_get h' m = header_get h m.
Proof.
  unfold insert_header. destruct (header_value_from_str v) as [e|x] eqn:Hv; [done|]. intros [= <-].
  unfold get_str. rewrite header_get_insert_eq, (header_from_to_str _ _ Hv). split; [done|].
  intros m Hm. by rewrite header_get_insert_ne.
Qed.

(** The fixed headers of a download. *)
Definition download_marked (h : HeaderMap) : Prop :=
  header_get h "tus-resumable" = Some (header_value_from_static TUS_RESUMABLE) /\
  header_get h "cache-control" = Some (header_value_from_static "no-store") /\
  header_get h "accept-ranges" = Some (header_value_from_static "bytes").

Lemma download_headers_marked s h :
  download_headers s = Ok h ->
  download_marked h /\ get_str h "content-type" = Some (content_type s) /\ header_get h "content-range" = None.
Proof.
  unfold download_headers. cbv zeta. intros [Ht Ho]%insert_header_gets. unfold download_marked.
  rewrite !Ho by done.
  split; [|split; [done|]]; repeat first [rewrite header_get_insert_eq|rewrite header_get_insert_ne by done].
  - done.
  - apply header_get_new.
Qed.

(** [resp] serves [data], or the part of it the [Range] header asks for, and says so. *)
Definition serves (range : option string) (data : bytes) (resp : DownloadResponse) : Prop :=
  download_marked (dr_headers resp) /\
  match parse_range range (bytes_len data) with
  | Ok None =>
      dr_status resp = 200 /\ stream_data (dr_body resp) = Some data /\
      get_str (dr_headers resp) "content-length" = Some (u64_to_string (bytes_len data)) /\
      header_get (dr_headers resp) "content-range" = None
  | Ok (Some (lo, hi)) =>
      lo <= hi < bytes_len data /\
      dr_status resp = 206 /\ stream_data (dr_body resp) = Some (slice lo (hi + 1) data) /\
      get_str (dr_headers resp) "content-length" = Some (u64_to_string (hi - lo + 1)) /\
      get_str (dr_headers resp) "content-range" =
        Some ("bytes " ++ u64_to_string lo ++ "-" ++ u64_to_string hi ++ "/" ++ u64_to_string (bytes_len data))
  | _ => False
  end.

Lemma marked_other n v h h' :
  insert_header n v h = Ok h' -> ~ In n ["tus-resumable"; "cache-control"; "accept-ranges"] ->
  download_marked h -> download_marked h'.
Proof.
  intros [_ Ho]%insert_header_gets Hn. unfold download_marked.
  rewrite !Ho; [done|intros <-; apply Hn; cbn; tauto..].
Qed.

(** [content-length], after which the other headers are as before. *)
Lemma with_content_length n h h' :
  insert_header "content-length" n h = Ok h' -> download_marked h ->
  download_marked h' /\ get_str h' "content-length" = Some n /\
  header_get h' "content-range" = header_get h "content-range".
Proof.
  intros Hi Hm. split; [eapply marked_other; [exact Hi| |done]; cbn; intuition discriminate|].
  apply insert_header_gets in Hi as [Hn Ho]. split; [done|]. by apply Ho.
Qed.

Lemma download_prepared_spec range s w :
  UploadState.offset s = stored_size s w ->
  wp (download_prepared range s) (fun r w' =>
    same w w' /\ forall resp, r = Ok resp -> serves range (stored_bytes s w) resp) (w : W).
Proof.
  intros Ho. unfold download_prepared, serves. rewrite Ho, <- stored_bytes_len.
  set (data := stored_bytes s w).
  assert (bytes_len data <> 0 -> exists h, UploadState.storage_handle s = Some h /\
    stored (w_storage w) !! handle_key h = Some data) as Hobj.
  { unfold data, stored_bytes. destruct (UploadState.storage_handle s) as [h|]; [|done].
    intros Hne. exists h. split; [done|]. unfold bytes_of in *.
    by destruct (stored (w_storage w) !! handle_key h). }
  apply wp_bind, wp_done. destruct (parse_range range (bytes_len data)) as [o|e|] eqn:Hp; [|by split..].
  apply wp_bind, wp_done. destruct (download_headers s) as [hs|e|] eqn:Hhs; [|by split..].
  apply download_headers_marked in Hhs as (Hm & _ & Hnr).
  destruct o as [[lo hi]|].
  - apply parse_range_bounds in Hp. destruct Hobj as (h & Hh & Hd); [lia|].
    unfold UploadState.require_storage_handle. rewrite Hh.
    apply wp_bind, wp_done, wp_bind, wp_done.
    destruct (insert_header _ _ hs) as [hs1|e|] eqn:Hi1; [|by split..].
    apply wp_bind, wp_done. destruct (insert_header _ _ hs1) as [hs2|e|] eqn:Hi2; [|by split..].
    apply wp_bind, wp_on_storage. wp_use storage_stream_range_spec r st Hr. destruct Hr as [Hst Hr].
    destruct r as [items|e|]; [|by split..]. apply wp_done. split; [by split|].
    intros resp [= <-]. cbn [dr_headers dr_status dr_body].
    destruct (with_content_length _ _ _ Hi1 Hm) as (Hm1 & Hl & _).
    split; [eapply marked_other; [exact Hi2| |done]; cbn; intuition discriminate|].
    apply insert_header_gets in Hi2 as [Hcr Ho2].
    split; [done|]. split; [done|]. destruct Hr as (data' & Hd' & ->).
    assert (data' = data) as -> by congruence. split; [f_equal; cbn; f_equal; lia|]. split; [|exact Hcr].
    unfold get_str in *. by rewrite Ho2.
  - destruct (N.eqb_spec (bytes_len data) 0) as [Hz|Hz].
    + apply wp_bind, wp_done. destruct (insert_header _ _ hs) as [hs1|e|] eqn:Hi; [|by split..].
      destruct (with_content_length _ _ _ Hi Hm) as (Hm1 & Hl & Hr).
      apply wp_done. split; [done|]. intros resp [= <-]. cbn [dr_headers dr_status dr_body].
      split; [done|]. rewrite (bytes_len_zero data) by done. split_and!; [done..|congruence].
    + destruct Hobj as (h & Hh & Hd); [done|].
      unfold UploadState.require_storage_handle. rewrite Hh.
      apply wp_bind, wp_done, wp_bind, wp_done.
      destruct (insert_header _ _ hs) as [hs1|e|] eqn:Hi; [|by split..].
      destruct (with_content_length _ _ _ Hi Hm) as (Hm1 & Hl & Hr1).
      apply wp_bind, wp_on_storage. wp_use storage_stream_spec r st Hr. destruct Hr as [Hst Hr].
      destruct r as [items|e|]; [|by split..]. apply wp_done. split; [by split|].
      intros resp [= <-]. cbn [dr_headers dr_status dr_body]. split; [done|]. destruct Hr as [-> _].
      split_and!; [done..|congruence].
Qed.

Lemma download_spec config id range s (w : W) :
  recs w !! id = Some s -> UploadState.is_final s = false ->
  wp (download config id range) (fun r w' =>
    match r with
    | Ok resp =>
        observed s w w' /\ serves range (stored_bytes s w) resp /\
        exists l, UploadState.length s = Some l /\ l <= bytes_len (stored_bytes s w)
    | Err _ => observed s w w'
    | Panic => True
    end) w.
Proof.
  intros Hs Hfin. unfold download. destruct (disable_download config); [apply wp_done; by apply same_observed|].
  apply with_locked_upload_spec.
  - intros s0 w1 Hs0 Hw1. rewrite Hs in Hs0. injection Hs0 as <-. apply wp_bind, wp_borrow.
    unfold prepare_upload_download_access, prepare_upload_read_access.
    wp_steps. rewrite Hfin. apply wp_bind. wp_use regular_access_spec r sw Hr.
    destruct sw as [s2 w2]. cbn in Hr. destruct r as [[]|e|]; [| |by wp_steps].
    2: { cbn. destruct Hr as [Hr|[s' Hr]].
         - apply same_observed. by transitivity w1.
         - by eapply reconciled_observed, reconciled_after_same. }
    apply (reconciled_after_same _ w) in Hr; [|done]. wp_steps.
    assert (observed s w w2) as Hobs by (by eapply reconciled_observed).
    destruct Hr as (-> & Hb & _). set (s2 := UploadState.set_offset (stored_size s w) s).
    assert (stored_bytes s2 w2 = stored_bytes s w) as Hsb.
    { unfold stored_bytes. cbn. by rewrite Hb. }
    destruct (UploadState.is_complete s2) eqn:Hc; cbn [negb]; [|by apply wp_done].
    apply wp_done. cbn. wp_use download_prepared_spec r w3 Hr3.
    { unfold stored_size. cbn. rewrite Hb. done. }
    destruct Hr3 as [[Hb3 Hr3] Hserve].
    assert (observed s w w3) as Hobs3.
    { destruct Hobs as [Hb' Hr']. split; [congruence|]. unfold brought_up in *. by rewrite Hr3. }
    destruct r as [resp|e|]; [|done|done]. rewrite Hsb in Hserve. split_and!; [done|by apply Hserve|].
    unfold UploadState.is_complete in Hc. cbn in Hc. rewrite stored_bytes_len.
    destruct (UploadState.length s) as [l|]; [|done]. exists l. split; [done|]. by apply N.leb_le.
  - intros e w' Hw'. by apply same_observed.
  - done.
  - by intros [] l w'.
Qed.

(** C36: a download of an upload that is not a final one succeeds only when the upload is
    complete.  It answers 200 with exactly the stored bytes and their number as
    Content-Length, or, to a Range header, 206 with exactly the requested slice of
    them, its length and the matching Content-Range; it changes no byte. *)
Theorem download_serves_stored_bytes config id range s (w : W) resp w' :
  recs w !! id = Some s -> UploadState.is_final s = false ->
  run (download config id range) w = (Ok resp, w') ->
  observed s w w' /\ serves range (stored_bytes s w) resp /\
  exists l, UploadState.length s = Some l /\ l <= bytes_len (stored_bytes s w).
Proof. intros Hs Hf Hrun. exact (wp_run _ _ _ _ _ (download_spec config id range s w Hs Hf) Hrun). Qed.
End download.
