(* ===== verification/CreationSpec.v ===== *)
(** * The POST contract

    Which creation requests are accepted, and what an accepted one leaves behind:
    one new record and one object with exactly the request's bytes; a refused or
    failed one leaves every existing upload as it was. *)

From S2P Require Import Prelude Text Errors Crates Config State Headers Hooks Backends Lifecycle.
From S2P Require Import Intake Receive FinalUpload Access Response Protocol Streaming Contracts.
From S2P Require Import Effects PatchSpec HeadSpec RemovalSpec.
Local Open Scope string_scope.
Local Open Scope N_scope.
Local Open Scope prog_scope.

(** ** The creation rules *)

Definition wants_final (rq : CreationRequest) : bool :=
  match cq_upload_concat rq with Some (Final _) => true | _ => false end.

(** The protocol's rules, each a sentence of the specification. *)
Record creation_allowed (config : Config) (rq : CreationRequest) : Prop := {
  ca_creation : has_extension config Extension.Creation = true;
  ca_concat : cq_upload_concat rq <> None -> has_extension config Extension.Concatenation = true;
  ca_final : wants_final rq = true ->
    cq_upload_length rq = None /\ cq_upload_defer_length rq = false /\ cq_has_body rq = false;
  ca_length : wants_final rq = false ->
    cq_upload_length rq <> None <-> cq_upload_defer_length rq = false;
  ca_defer : cq_upload_defer_length rq = true ->
    has_extension config Extension.CreationDeferLength = true;
  ca_body : cq_has_body rq = true -> has_extension config Extension.CreationWithUpload = true;
  ca_empty : cq_has_body rq = false -> wants_final rq = false -> allow_empty_creation config = true;
  ca_size : forall l m, cq_upload_length rq = Some l -> max_size config = Some m -> l <= m;
}.

Lemma validate_creation_iff config rq :
  validate_creation config rq = Ok tt <-> creation_allowed config rq.
Proof.
  assert (forall l m, (if m <? l then Err (Error.SizeExceeded l m) else Ok tt) = Ok tt <-> l <= m) as Hsize.
  { intros l m. destruct (N.ltb_spec m l); split; (done || lia). }
  destruct rq as [len defer meta concat body]. unfold validate_creation, wants_final. cbn.
  split.
  - destruct concat as [[|urls]|], len as [l|], defer, body; cbn;
      destruct (has_extension config Extension.Creation) eqn:?,
        (has_extension config Extension.Concatenation) eqn:?; cbn; try discriminate;
      destruct (has_extension config Extension.CreationDeferLength) eqn:?,
        (has_extension config Extension.CreationWithUpload) eqn:?,
        (allow_empty_creation config) eqn:?; cbn; try discriminate;
      destruct (max_size config) as [m|] eqn:?; rewrite ?Hsize; intros Hok;
      (split; unfold wants_final; cbn; try congruence; try done; intros; simplify_eq; done).
  - intros [C1 C2 C3 C4 C5 C6 C7 C8]. unfold wants_final in *. cbn in *. rewrite C1. cbn.
    assert (match len, max_size config with
            | Some length, Some max =>
                if max <? length then Err (Error.SizeExceeded length max) else Ok tt
            | _, _ => Ok tt
            end = Ok tt) as Hlen.
    { destruct len as [l|], (max_size config) as [m|]; try done. apply Hsize. by apply C8. }
    destruct concat as [[|urls]|]; rewrite ?C2 by done; cbn.
    2: { destruct C3 as (-> & -> & ->); [done|]. done. }
    all: specialize (C4 eq_refl); destruct len as [l|], defer;
      try (by destruct C4 as [C4 _]; specialize (C4 ltac:(done)));
      try (by destruct C4 as [_ C4]; destruct (C4 eq_refl)); cbn in *.
    all: destruct body; rewrite ?C5, ?C6, ?C7 by done; cbn.
    all: try done; by destruct (allow_empty_creation config).
Qed.

(** a creation request passes the guards exactly when it follows every rule. *)
Theorem creation_rules config rq :
  validate_creation config rq = Ok tt <-> creation_allowed config rq.
Proof. apply validate_creation_iff. Qed.

(** ** What a creation leaves behind *)

Section creation.
Context {S St L H E : Type}.
Context `{StorageLaws S, StateStoreLaws St, !Locker L, !HookExecutor H, !Env E}.
Context `{HttpLib, Base64, Digests, PercentEncoding, Chrono, HashOrder}.
Local Abbreviation W := (World S St L H E).
#[local] Set Default Proof Using "All".

(** A record as [prepare_creation] makes it: nothing received, nothing stored. *)
Record blank (rq : CreationRequest) (s : UploadState) : Prop := {
  bl_offset : UploadState.offset s = 0;
  bl_handle : UploadState.storage_handle s = None;
  bl_length : UploadState.length s = cq_upload_length rq;
  bl_final : UploadState.is_final s = false;
  bl_partial : UploadState.is_partial s =
    match cq_upload_concat rq with Some Partial => true | _ => false end;
}.

(** A gate may replace the metadata, nothing else. *)
Definition regated (s s' : UploadState) : Prop := exists m, s' = UploadState.set_metadata m s.

#[export] Instance regated_preorder : PreOrder regated.
Proof.
  split; [intros s; exists (UploadState.metadata s); by destruct s|].
  intros a b c [m ->] [m' ->]. by exists m'.
Qed.

Lemma run_gate_meta g ri s w :
  wp (run_gate g ri s) (fun r w' =>
    same w w' /\ forall po, r = Ok po -> regated s (po_state po)) (w : W).
Proof.
  apply wp_and; [apply same_run_gate|].
  unfold run_gate. apply wp_bind, wp_intro. intros [result|e|] w' _; [|done|done].
  destruct (ph_proceed result); cbn; apply wp_done; [|done].
  intros po [= <-]. unfold gate_outcome. cbn. destruct (replace_metadata _); [|reflexivity].
  destruct (ph_metadata result) as [m|]; [by exists m|reflexivity].
Qed.

#[local] Hint Resolve same_env : keeps.

Lemma same_prepare_creation config rq : keeps (X:=W) same (prepare_creation config rq).
Proof. unfold prepare_creation, new_random. keeps. Qed.

(** The id that the next upload gets. *)
Definition drawn (w : W) : string := (new_v4 (w_env w)).1.

Lemma prepare_creation_spec config rq w :
  wp (prepare_creation config rq) (fun r w' =>
    same w w' /\
    match r with
    | Ok (TransitionUpload s) =>
        creation_allowed config rq /\ wants_final rq = false /\ blank rq s /\ UploadState.id s = drawn w
    | Ok (TransitionFinal s urls) =>
        creation_allowed config rq /\ cq_upload_concat rq = Some (Final urls) /\ blank rq s
    | _ => True
    end) (w : W).
Proof.
  apply wp_and; [apply same_prepare_creation|].
  unfold prepare_creation, new_random, wants_final. apply wp_bind, wp_done.
  destruct (validate_creation config rq) as [[]|e|] eqn:Hv; [|done..].
  apply validate_creation_iff in Hv. apply wp_bind, wp_bind, wp_on_env, wp_bind, wp_on_env, wp_done.
  cbv zeta. set (s1 := match cq_upload_metadata rq with Some _ => _ | None => _ end).
  assert (UploadState.offset s1 = 0 /\ UploadState.storage_handle s1 = None /\
    UploadState.length s1 = cq_upload_length rq /\ UploadState.is_final s1 = false /\
    UploadState.is_partial s1 = false /\ UploadState.id s1 = drawn w) as (B1 & B2 & B3 & B4 & B5 & B6).
  { unfold s1. by destruct (cq_upload_metadata rq), (cq_upload_length rq). }
  clearbody s1. apply wp_bind.
  eapply (wp_mono _ (fun r w' => forall s2, r = Ok s2 ->
    s2 = s1 \/ exists d, s2 = UploadState.set_expiration d s1)).
  { destruct (expiration config) as [d|]; [|apply wp_done; intros s2 [= <-]; by left].
    destruct (chrono_from_std d); [by apply wp_done|]. apply wp_bind, wp_on_env.
    destruct (datetime_add _ _) as [t|]; apply wp_done; [|done]. intros s2 [= <-]. right; eauto. }
  intros r w1 Hs2. destruct r as [s2|e|]; [|done..]. specialize (Hs2 s2 eq_refl).
  assert (UploadState.offset s2 = 0 /\ UploadState.storage_handle s2 = None /\
    UploadState.length s2 = cq_upload_length rq /\ UploadState.is_final s2 = false /\
    UploadState.is_partial s2 = false /\ UploadState.id s2 = drawn w) as (B1' & B2' & B3' & B4' & B5' & B6').
  { by destruct Hs2 as [->|[d ->]]. }
  destruct (cq_upload_concat rq) as [[|urls]|] eqn:Hc; apply wp_done; split_and!; try done;
    split; try done; by rewrite Hc.
Qed.

(** Up to the creation of its object a creation leaves storage alone. *)
Definition kept_storage (w w' : W) : Prop := w_storage w' = w_storage w.

#[export] Instance kept_preorder : PreOrder kept_storage.
Proof. split; [done|]. intros a b c. unfold kept_storage. congruence. Qed.

Lemma kept_env {A} (f : E -> A * E) : keeps kept_storage (on_env f).
Proof. intros w. by apply wp_on_env. Qed.

Lemma kept_hooks {A} (m : M H A) : keeps kept_storage (on_hooks m).
Proof. intros w. apply wp_on_hooks. unfold wp. by destruct (run m _). Qed.
#[local] Hint Resolve kept_env kept_hooks : keeps.

Lemma kept_run_gate g ri s : keeps kept_storage (run_gate g ri s).
Proof. unfold run_gate. keeps. Qed.
#[local] Hint Resolve kept_run_gate : keeps.

Lemma kept_prepare_creation config rq : keeps kept_storage (prepare_creation config rq).
Proof. unfold prepare_creation, new_random. keeps. Qed.

Lemma kept_prepare_body config ri hs body kind :
  keeps (below kept_storage) (prepare_receive_body config ri hs body kind).
Proof. unfold prepare_receive_body. keeps. Qed.

(** *** The outcomes of a creation *)

(** The handle that storage gives to the upload [id] when it is asked in [w]. *)
Definition created_as (w : W) (id : string) (h : StorageHandle) : Prop :=
  exists s', run (storage_create id) (w_storage w) = (Ok h, s').

Lemma created_as_kept w w1 id h : kept_storage w w1 -> created_as w1 id h -> created_as w id h.
Proof. unfold kept_storage, created_as. by intros ->. Qed.

(** One new record, one object with the request's bytes. *)
Record created (rq : CreationRequest) (content : bytes) (w : W) (s : UploadState) (w' : W)
    : Prop := {
  cr_fresh : recs w !! UploadState.id s = None;
  cr_record : recs w' = <[UploadState.id s := s]> (recs w);
  cr_object : exists h, UploadState.storage_handle s = Some h /\
    bytes_of w' = <[handle_key h := content]> (bytes_of w);
  cr_named : exists h, created_as w (UploadState.id s) h /\
    handle_key <$> UploadState.storage_handle s = Some (handle_key h);
  cr_offset : bytes_len content <= u64_max -> UploadState.offset s = bytes_len content;
  cr_length : UploadState.length s = cq_upload_length rq;
  cr_bound : forall l, UploadState.length s = Some l -> UploadState.offset s <= l;
  cr_final : UploadState.is_final s = false;
  cr_partial : UploadState.is_partial s =
    match cq_upload_concat rq with Some Partial => true | _ => false end;
}.

(** Nothing that existed is lost: no record changes, no object but the new one. *)
Definition contained_at (key : string) (w w' : W) : Prop :=
  (forall id s, recs w !! id = Some s -> recs w' !! id = Some s) /\
  (forall k, k <> key -> bytes_of w' !! k = bytes_of w !! k).

Definition contained (w w' : W) : Prop := exists key, contained_at key w w'.

(** A record that is new is the one of [id], and names the object at [key]. *)
Definition only_new (id key : string) (w w' : W) : Prop :=
  forall id' s', recs w' !! id' = Some s' ->
    recs w !! id' = Some s' \/
    (id' = id /\ handle_key <$> UploadState.storage_handle s' = Some key).

(** What may have changed is the object of the upload [id], and its record. *)
Definition contained_in (id : string) (w w' : W) : Prop :=
  same w w' \/ exists h, created_as w id h /\ contained_at (handle_key h) w w' /\
    only_new id (handle_key h) w w'.

Lemma only_new_fewer id key (w w1 w' : W) :
  only_new id key w w1 -> recs w' ⊆ recs w1 -> only_new id key w w'.
Proof. intros Hn Hs id' s' Hr. apply Hn. by eapply lookup_weaken. Qed.

Lemma only_new_same id key (w w' : W) : recs w' = recs w -> only_new id key w w'.
Proof. intros Hr id' s'. rewrite Hr. by left. Qed.

Lemma only_new_insert id key s (w w' : W) :
  recs w' = <[id := s]> (recs w) -> handle_key <$> UploadState.storage_handle s = Some key ->
  only_new id key w w'.
Proof.
  intros Hr Hk id' s'. rewrite Hr. destruct (decide (id' = id)) as [->|Hne].
  - rewrite lookup_insert_eq. intros [= <-]. by right.
  - rewrite lookup_insert_ne by done. by left.
Qed.

Lemma same_contained (w w' : W) : same w w' -> contained w w'.
Proof. intros [Hb Hr]. exists "". split; [intros; congruence|]. by rewrite Hb. Qed.

Lemma contained_in_contained id (w w' : W) : contained_in id w w' -> contained w w'.
Proof. intros [Hs|(h & _ & Hc & _)]; [by apply same_contained|by exists (handle_key h)]. Qed.

Lemma contained_in_after id (w w1 w' : W) :
  same w w1 -> kept_storage w w1 -> contained_in id w1 w' -> contained_in id w w'.
Proof.
  intros [Hb Hr] Hk [Hs|(h & Hh & (Hcr & Hcb) & Hn)]; [left; by transitivity w1|right].
  exists h. split; [by eapply created_as_kept|]. split.
  - split; [intros id' s' Hs'; apply Hcr; congruence|]. intros k Hne. rewrite <- Hb. by apply Hcb.
  - intros id' s' Hs'. rewrite <- Hr. by apply Hn.
Qed.

Lemma contained_insert key w w' id s b :
  recs w !! id = None -> recs w' = <[id := s]> (recs w) ->
  bytes_of w' = <[key := b]> (bytes_of w) -> contained_at key w w'.
Proof.
  intros Hid Hr Hb. split.
  - intros id' s' Hs'. rewrite Hr, lookup_insert_ne; [done|]. intros ->. congruence.
  - intros k Hk. by rewrite Hb, lookup_insert_ne.
Qed.

(** *** Rollback *)

Lemma rollback_storage_spec s h w w1 :
  UploadState.storage_handle s = Some h -> contained_at (handle_key h) w w1 ->
  wp (rollback_storage s) (fun r w' =>
    contained_at (handle_key h) w w' /\ recs w' = recs w1) (w1 : W).
Proof.
  intros Hh [Hr Hb]. unfold rollback_storage. rewrite Hh.
  apply wp_bind, wp_attempt, wp_on_storage. wp_use storage_delete_spec r st Hst.
  assert (contained_at (handle_key h) w (set_storage st w1)) as Hc.
  { split; [done|]. intros k Hk. rewrite <- (Hb k Hk). unfold bytes_of. cbn.
    destruct r; [rewrite Hst|by rewrite Hst|done]. by rewrite lookup_delete_ne. }
  destruct r; [by apply wp_done..|done].
Qed.

Lemma rollback_creation_spec s h w w1 :
  UploadState.storage_handle s = Some h -> contained_at (handle_key h) w w1 ->
  recs w !! UploadState.id s = None ->
  wp (rollback_creation s) (fun r w' => contained_at (handle_key h) w w' /\ recs w' ⊆ recs w1) (w1 : W).
Proof.
  intros Hh Hc Hid. unfold rollback_creation. apply wp_bind.
  wp_use (rollback_storage_spec s h w w1 Hh Hc) r w2 Hr2. destruct Hr2 as [Hc2 Hr12].
  destruct r as [[]|e|]; [|by rewrite Hr12..]. apply wp_bind, wp_attempt.
  wp_use delete_record_spec r w3 Hr3. destruct Hr3 as [Hb3 Hr3]. destruct Hc2 as [Hr2 Hb2].
  rewrite <- Hr12.
  destruct r as [[]|e|]; [| |done]; apply wp_done;
    (split; [|rewrite Hr3; done || apply delete_subseteq]);
    (split; [|intros k Hk; rewrite Hb3; by apply Hb2]).
  - intros id s' Hs'. rewrite Hr3, lookup_delete_ne; [by apply Hr2|]. intros <-. congruence.
  - intros id s' Hs'. rewrite Hr3. by apply Hr2.
Qed.

(** *** Creation without initial bytes *)

(** Storing the new record: either it was not there before and is now, or
    nothing changed. *)
Lemma create_record_spec s w :
  wp (on_states (state_set s CreateNew)) (fun r w' =>
    bytes_of w' = bytes_of w /\
    match r with
    | Ok _ => recs w !! UploadState.id s = None /\ recs w' = <[UploadState.id s := s]> (recs w)
    | Err _ => recs w' = recs w
    | Panic => False
    end) (w : W).
Proof.
  apply wp_on_states. wp_use state_set_spec r st Hr. split; [done|].
  destruct r as [[]|e|]; [|done..]. destruct Hr as [Hr Hnew]. split; [by apply Hnew|done].
Qed.

Lemma create_object_spec id w :
  wp (on_storage (storage_create id)) (fun r w' =>
    recs w' = recs w /\
    match r with
    | Ok h => created_as w id h /\ bytes_of w' = <[handle_key h := []]> (bytes_of w)
    | Err _ => bytes_of w' = bytes_of w
    | Panic => False
    end) (w : W).
Proof.
  apply wp_on_storage, wp_intro. intros r st Hrun. split; [done|].
  pose proof (wp_run _ _ _ _ _ (storage_create_spec id (w_storage w)) Hrun) as Hr.
  destruct r; [|done..]. split; [by eexists|done].
Qed.

Lemma hook_then {A} ctx (k : unit -> M W A) (Q : result A -> W -> Prop) w :
  (forall w', same w w' -> wp (k tt) Q w') -> (forall w', Q Panic w') ->
  wp (bind (execute_post_best_effort ctx) k) Q w.
Proof.
  intros Hk Hp. apply wp_bind. wp_use post_hook_ok r w' Hr. destruct Hr as [Hw [-> | ->]]; auto.
Qed.

Lemma created_same rq content w s w1 w2 :
  created rq content w s w1 -> same w1 w2 -> created rq content w s w2.
Proof.
  intros [] [Hb Hr]. split; try done; [congruence|].
  destruct cr_object0 as (h & ? & ?). exists h. split; [done|congruence].
Qed.

Lemma created_after rq content w w1 s w' :
  same w w1 -> kept_storage w w1 -> created rq content w1 s w' -> created rq content w s w'.
Proof.
  intros [Hb Hr] Hk []. split; try done; rewrite <- ?Hb, <- ?Hr; try done.
  destruct cr_named0 as (h & Hh & ?). exists h. split; [by eapply created_as_kept|done].
Qed.

Lemma blank_regated rq s s' : blank rq s -> regated s s' -> blank rq s'.
Proof. intros [] [m ->]. by split. Qed.

Lemma regated_id s s' : regated s s' -> UploadState.id s' = UploadState.id s.
Proof. by intros [m ->]. Qed.

Lemma create_empty_spec rq ri s w :
  blank rq s ->
  wp (create_empty ri s) (fun r w' =>
    match r with
    | Ok (s', _) => created rq [] w s' w' /\ UploadState.id s' = UploadState.id s
    | Err _ => contained_in (UploadState.id s) w w'
    | Panic => True
    end) (w : W).
Proof.
  intros Hbl. unfold create_empty. apply wp_bind.
  eapply wp_mono; [apply wp_and; [apply run_gate_meta|apply kept_run_gate]|].
  cbv beta. intros r w1 [[Hw1 Hpo] Hkept]. destruct r as [po|e|]; [|by left|done]. specialize (Hpo po eq_refl).
  assert (blank rq (po_state po)) as Hbl1 by (by eapply blank_regated).
  pose proof (regated_id _ _ Hpo) as Hid. cbv zeta. apply wp_bind.
  wp_use create_object_spec r w2 Hr. destruct Hr as [Hr2 Hb2].
  destruct Hw1 as [Hb1 Hr1]. rewrite Hb1 in Hb2. rewrite Hr1 in Hr2.
  destruct r as [h|e|]; [|by left|done]. destruct Hb2 as [Has Hb2]. rewrite Hid in Has.
  apply (created_as_kept _ _ _ _ Hkept) in Has.
  set (s2 := UploadState.set_storage_handle h (po_state po)).
  assert (UploadState.storage_handle s2 = Some h) as Hh by apply UploadState.storage_handle_set.
  assert (contained_at (handle_key h) w w2) as Hc2.
  { split; [intros; congruence|]. intros k Hk. by rewrite Hb2, lookup_insert_ne. }
  apply wp_bind, wp_attempt. wp_use create_record_spec r w3 Hr. destruct Hr as [Hb3 Hr3].
  destruct r as [[]|e|]; [| |done].
  2: { assert (contained_at (handle_key h) w w3) as Hc3.
       { destruct Hc2. split; [intros; rewrite Hr3; auto|intros; rewrite Hb3; auto]. }
       apply wp_bind. wp_use (rollback_storage_spec _ _ _ _ Hh Hc3) r w4 Hr. destruct Hr as [Hc4 Hr4].
       assert (only_new (UploadState.id s) (handle_key h) w w4) as Hn4 by (apply only_new_same; congruence).
       destruct r as [[]|e'|]; [apply wp_done| |done]; right; by exists h. }
  destruct Hr3 as [Hfresh Hr3]. rewrite Hr2 in Hfresh, Hr3.
  assert (bytes_of w3 = <[handle_key h := []]> (bytes_of w)) as Hb by congruence.
  assert (created rq [] w s2 w3) as Hcr.
  { destruct Hbl1. split; try done; [by exists h|exists h; split; [cbn; by rewrite Hid|done]|].
    intros l _. cbn. lia. }
  apply wp_bind. eapply (wp_mono _ (fun r w' =>
    match r with
    | Ok _ => same w3 w'
    | Err _ => contained_in (UploadState.id s) w w'
    | Panic => True
    end)).
  { destruct (UploadState.is_complete s2); [|by apply wp_done].
    apply wp_bind, wp_attempt. wp_use same_finish_gate r w4 Hw4.
    destruct r as [[]|e|]; [by apply wp_done| |done].
    assert (contained_at (handle_key h) w w4) as Hc4.
    { destruct Hw4 as [Hb4 Hr4].
      apply (contained_insert _ _ _ (UploadState.id s2) s2 []); congruence. }
    apply wp_bind. wp_use (rollback_creation_spec _ _ _ _ Hh Hc4 Hfresh) r w5 Hr. destruct Hr as [Hc5 Hr5].
    assert (only_new (UploadState.id s) (handle_key h) w w5) as Hn5.
    { eapply only_new_fewer; [|exact Hr5]. apply (only_new_insert _ _ s2); [|by rewrite Hh].
      rewrite <- Hid. destruct Hw4 as [_ ->]. exact Hr3. }
    destruct r as [[]|e'|]; [apply wp_done| |done]; right; by exists h. }
  intros r w4 Hw4. destruct r as [[]|e|]; [|done..].
  apply hook_then; [|done]. intros w5 Hw5. unfold after_commit_if_complete.
  assert (created rq [] w s2 w5) as Hcr5 by (eapply created_same; [done|by transitivity w4]).
  destruct (UploadState.is_complete s2).
  - apply hook_then; [|done]. intros w6 Hw6. apply wp_done. split; [by eapply created_same|done].
  - by apply wp_bind, wp_done, wp_done.
Qed.

(** *** Creation with initial bytes *)

Lemma prepare_body_regated config ri hs body kind s w :
  wp (prepare_receive_body config ri hs body kind) (fun r sw =>
    forall p, r = Ok p -> regated s sw.1) (s, w : W).
Proof.
  unfold prepare_receive_body. apply wp_bind. wp_steps. wp_use run_gate_meta r w1 Hr.
  destruct Hr as [_ Hpo]. destruct r as [po|e|]; [|done..]. specialize (Hpo po eq_refl). wp_steps.
  destruct (collect_receive_body _ _ _ _ _) as [ib|e|]; [|done..]. wp_steps.
  apply wp_debug_assert; intros _; [|done].
  destruct (validate_body_for_receive _ _ _ _) as [p|e|]; [|done..]. wp_steps. by intros p' _.
Qed.

(** The local a commit leaves, whatever its outcome: the offset and the handle
    are all it may set, and the object stays the same. *)
Definition recommitted (s s' : UploadState) : Prop :=
  s' = s \/ exists o h h', UploadState.storage_handle s = Some h /\ handle_key h' = handle_key h /\
    s' = UploadState.set_offset o (UploadState.set_storage_handle h' s).

Lemma commit_local p s w :
  wp (commit_receive_body p) (fun r sw => r = Panic \/ recommitted s sw.1) (s, w : W).
Proof.
  unfold commit_receive_body. apply wp_bind. wp_steps. unfold UploadState.require_storage_handle.
  destruct (UploadState.storage_handle s) as [h|] eqn:Hh; [|by right; left].
  apply wp_bind, wp_lift, wp_borrow, wp_attempt, wp_on_storage_cell.
  wp_use storage_append_spec r cs Hr. destruct cs as [cell st].
  destruct r as [h'|e|]; [|by right; left|by left].
  destruct Hr as (old & data & _ & _ & _ & Hk & _ & _). cbn.
  destruct cell as [e|]; [right; by left|]. wp_steps. apply wp_on_states, wp_intro.
  intros r st' _. right. right. eexists _, h, h'. split_and!; [done|done|reflexivity].
Qed.

Lemma recommitted_handle s s' h :
  recommitted s s' -> UploadState.storage_handle s = Some h ->
  UploadState.id s' = UploadState.id s /\ UploadState.length s' = UploadState.length s /\
  UploadState.is_final s' = UploadState.is_final s /\
  UploadState.is_partial s' = UploadState.is_partial s /\
  exists h', UploadState.storage_handle s' = Some h' /\ handle_key h' = handle_key h.
Proof.
  intros [->|(o & h1 & h' & Hh1 & Hk & ->)] Hh; [split_and!; eauto|].
  split_and!; [done..|]. exists h'. split; [apply (UploadState.storage_handle_set h' s)|congruence].
Qed.

(** The rollback of a creation on an error, as the handlers write it. *)
Lemma rollback_then {A} s h (e : Error.t) w (w1 : W) :
  UploadState.storage_handle s = Some h -> contained_at (handle_key h) w w1 ->
  recs w !! UploadState.id s = None ->
  wp (bind (lift (T:=UploadState) (rollback_creation s)) (fun _ => throw e : M (UploadState * W) A))
    (fun r sw => match r with Ok _ => False | _ => contained_at (handle_key h) w sw.2 /\ recs sw.2 ⊆ recs w1 end)
    (s, w1).
Proof.
  intros Hh Hc Hid. apply wp_bind, wp_lift.
  wp_use (rollback_creation_spec s h w w1 Hh Hc Hid) r w2 Hr.
  destruct r; [by apply wp_done|done..].
Qed.

Lemma initial_commit_spec rq content p s h w w1 :
  UploadState.storage_handle s = Some h -> UploadState.offset s = 0 ->
  sound_body p s content ->
  created_as w (UploadState.id s) h -> bytes_of w1 = <[handle_key h := []]> (bytes_of w) ->
  recs w1 = <[UploadState.id s := s]> (recs w) -> recs w !! UploadState.id s = None ->
  UploadState.length s = cq_upload_length rq -> UploadState.is_final s = false ->
  UploadState.is_partial s =
    match cq_upload_concat rq with Some Partial => true | _ => false end ->
  wp (attempt (commit_receive_body p)) (fun r sw =>
    UploadState.id sw.1 = UploadState.id s /\
    (exists h', UploadState.storage_handle sw.1 = Some h' /\ handle_key h' = handle_key h /\
       contained_at (handle_key h) w sw.2 /\ only_new (UploadState.id s) (handle_key h) w sw.2) /\
    match r with
    | Ok (inr _) => created rq content w sw.1 sw.2
    | Ok (inl _) => True
    | Err _ => False
    | Panic => True
    end \/ r = Panic) (s, w1 : W).
Proof.
  intros Hh Ho Hsound Has Hb1 Hr1 Hfresh Hl Hf Hp. apply wp_attempt.
  eapply wp_mono; [apply wp_and; [apply commit_local|apply (commit_spec _ content); exact Hsound]|].
  cbv beta. intros r [s2 w2] [Hloc Hr]. cbn [fst snd] in *.
  destruct Hloc as [-> |Hloc]; [by right|].
  destruct (recommitted_handle _ _ _ Hloc Hh) as (Hid & Hlen & Hfin & Hpart & h' & Hh' & Hk).
  assert (forall w3, appended s w1 content w3 ->
    bytes_of w3 = <[handle_key h := content]> (bytes_of w)) as Happ.
  { intros w3 (h1 & old & Hh1 & Hold & _ & Hb3). assert (h1 = h) as -> by congruence.
    rewrite Hb1, lookup_insert_eq in Hold. injection Hold as <-.
    by rewrite Hb3, Hb1, insert_insert_eq. }
  assert (forall w3, bytes_of w3 = bytes_of w1 \/ bytes_of w3 = <[handle_key h := content]> (bytes_of w) ->
    (exists s3, recs w3 = <[UploadState.id s := s3]> (recs w)) -> contained_at (handle_key h) w w3) as Hcont.
  { intros w3 Hb3 [s3 Hr3]. destruct Hb3 as [Hb3|Hb3]; [rewrite Hb1 in Hb3|];
      by eapply contained_insert. }
  destruct r as [[]|e|]; [left|left|by right].
  - destruct Hr as (Ha & Had & Hrec & Hoff & _). apply Happ in Ha.
    assert (recs w2 = <[UploadState.id s := s2]> (recs w)) as Hr2
      by (by rewrite Hrec, Hr1, insert_insert_eq).
    split; [done|]. split.
    { exists h'. split_and!; [done|done|apply Hcont; eauto|].
      apply (only_new_insert _ _ s2); [done|]. by rewrite Hh', <- Hk. }
    split; try congruence.
    + exists h'. by rewrite Hk.
    + exists h. split; [by rewrite Hid|]. by rewrite Hh', <- Hk.
    + intros Hmax. rewrite (ad_offset _ _ _ Had), Ho by done.
      by apply saturating_add_exact.
    + apply (ad_bound _ _ _ Had).
  - split; [done|]. split; [|done]. exists h'. split_and!; [done|done| |].
    + destruct Hr as [[Hb Hrec]|[Ha Hrec]]; apply Hcont; eauto; exists s; congruence.
    + apply (only_new_insert _ _ s); [|by rewrite Hh]. destruct Hr as [[_ ->]|[_ ->]]; exact Hr1.
Qed.

Lemma receive_initial_spec rq config ri hs body resp_hs s w :
  blank rq s ->
  wp (receive_initial_bytes config ri hs body resp_hs) (fun r sw =>
    match r with
    | Ok _ => created rq (body_content body) w sw.1 sw.2 /\ UploadState.id sw.1 = UploadState.id s
    | Err _ => contained_in (UploadState.id s) w sw.2
    | Panic => True
    end) (s, w : W).
Proof.
  intros Hbl. unfold receive_initial_bytes. apply wp_bind.
  eapply wp_mono; [apply wp_and; [apply kept_prepare_body|
    apply wp_and; [apply prepare_body_regated|apply prepare_receive_body_spec]]|].
  cbv beta. intros r [s1 w1] [Hkept [Hreg [Hw1 Hr]]]. cbn [fst snd] in *.
  destruct r as [p|e|]; [|by left|done]. specialize (Hreg p eq_refl).
  assert (blank rq s1) as Hbl1 by (by eapply blank_regated).
  pose proof (regated_id _ _ Hreg) as Hid1.
  destruct (Hr p eq_refl) as [_ Hsound]. clear Hr Hreg Hbl. destruct Hw1 as [Hb1 Hr1].
  wp_steps. wp_use create_object_spec r w2 Hr. destruct Hr as [Hr2 Hb2]. rewrite Hb1 in Hb2. rewrite Hr1 in Hr2.
  destruct r as [h|e|]; [|by left|done]. destruct Hb2 as [Has Hb2].
  apply (created_as_kept _ _ _ _ Hkept) in Has.
  wp_steps. set (s2 := UploadState.set_storage_handle h s1).
  assert (UploadState.storage_handle s2 = Some h) as Hh by apply UploadState.storage_handle_set.
  wp_use create_record_spec r w3 Hr. destruct Hr as [Hb3 Hr3].
  destruct r as [[]|e|]; [| |done].
  2: { assert (contained_at (handle_key h) w w3) as Hc3.
       { split; [intros; congruence|]. intros k Hk. by rewrite Hb3, Hb2, lookup_insert_ne. }
       wp_steps. wp_use (rollback_storage_spec _ _ _ _ Hh Hc3) r w4 Hr. destruct Hr as [Hc4 Hr4].
       assert (only_new (UploadState.id s) (handle_key h) w w4) as Hn4 by (apply only_new_same; congruence).
       rewrite Hid1 in Has. destruct r as [[]|e'|]; [apply wp_done| |done]; right; by exists h. }
  destruct Hr3 as [Hfresh Hr3]. rewrite Hr2 in Hfresh, Hr3. rewrite Hb2 in Hb3.
  apply wp_bind. wp_use (initial_commit_spec rq (body_content body) p s2 h w w3) r sw Hr; try done.
  1, 3-5: by destruct Hbl1.
  { by destruct Hsound. }
  destruct sw as [s4 w4]. cbn [fst snd] in Hr.
  destruct Hr as [(Hid4 & (h4 & Hh4 & Hk4 & Hc4 & Hn4) & Hr)| ->]; [|done].
  change (UploadState.id s2) with (UploadState.id s1) in Hn4. rewrite Hid1 in Hn4.
  assert (created_as w (UploadState.id s) h) as Has' by (by rewrite <- Hid1). rewrite <- Hk4 in Hc4. assert (recs w !! UploadState.id s4 = None) as Hfresh4 by (by rewrite Hid4).
  destruct r as [[e|[]]|e|]; [| |done|done]; wp_step; wp_step; cbn [fst snd].
  { wp_use (rollback_then (A:=gmap string string) s4 h4 e w w4 Hh4 Hc4 Hfresh4) r sw Hr5.
    rewrite Hk4 in Hr5. destruct r; [done| |done]. destruct Hr5 as [Hc5 Hr5]. right. exists h.
    split_and!; [done|done|by eapply only_new_fewer]. }
  apply wp_bind. eapply (wp_mono _ (fun r sw =>
    match r with
    | Ok _ => sw.1 = s4 /\ same w4 sw.2
    | Err _ => contained_in (UploadState.id s) w sw.2
    | Panic => True
    end)).
  { destruct (UploadState.is_complete s4); [|by apply wp_done].
    apply wp_bind, wp_lift, wp_attempt. wp_use same_finish_gate r w5 Hw5.
    destruct r as [[]|e|]; [by apply wp_done| |done].
    assert (contained_at (handle_key h4) w w5) as Hc5.
    { destruct Hw5 as [Hb5 Hr5], Hc4 as [Hcr Hcb]. split; [intros; rewrite Hr5; auto|].
      intros; rewrite Hb5; auto. }
    wp_use (rollback_then (A:=unit) s4 h4 e w w5 Hh4 Hc5 Hfresh4) r sw Hr5.
    rewrite Hk4 in Hr5. destruct r; [done| |done]. destruct Hr5 as [Hc6 Hr5]. right. exists h.
    split_and!; [done|done|]. eapply only_new_fewer; [exact Hn4|]. destruct Hw5 as [_ <-]. exact Hr5. }
  intros r [s5 w5] Hr5. cbn [fst snd] in Hr5. destruct r as [[]|e|]; [|done..].
  destruct Hr5 as [-> Hw5].
  assert (created rq (body_content body) w s4 w5) as Hcr by by eapply created_same.
  assert (UploadState.id s4 = UploadState.id s) as Hids by (by rewrite Hid4).
  unfold run_post_event, after_commit_if_complete.
  apply wp_bind, wp_lift. wp_use post_hook_ok r w6 Hr6. destruct Hr6 as [Hw6 [-> | ->]]; [|done].
  apply wp_bind, wp_lift. wp_use post_hook_ok r w7 Hr7. destruct Hr7 as [Hw7 [-> | ->]]; [|done].
  assert (created rq (body_content body) w s4 w7) as Hcr7 by (eapply created_same; [done|by transitivity w6]).
  apply wp_bind, wp_lift. destruct (UploadState.is_complete s4); [|by apply wp_done, wp_done].
  wp_use post_hook_ok r w8 Hr8. destruct Hr8 as [Hw8 [-> | ->]]; [|done].
  apply wp_done. split; [by eapply created_same|done].
Qed.

Lemma creation_with_upload_spec rq config ri hs s body w :
  blank rq s ->
  wp (receive_creation_with_upload config ri hs s body) (fun r w' =>
    match r with
    | Ok (_, s') => created rq (body_content body) w s' w' /\ UploadState.id s' = UploadState.id s
    | Err _ => contained_in (UploadState.id s) w w'
    | Panic => True
    end) (w : W).
Proof.
  intros Hbl. unfold receive_creation_with_upload. apply wp_bind.
  eapply wp_mono; [apply wp_and; [apply run_gate_meta|apply kept_run_gate]|].
  cbv beta. intros r w1 [[Hw1 Hpo] Hkept].
  destruct r as [po|e|]; [|by left|done]. specialize (Hpo po eq_refl).
  assert (blank rq (po_state po)) as Hbl1 by (by eapply blank_regated).
  pose proof (regated_id _ _ Hpo) as Hid. apply wp_borrow. wp_use receive_initial_spec r sw Hr; [done|]. destruct sw as [s2 w2].
  rewrite Hid in Hr. destruct r as [hs'|e|]; cbn [outcome_map fst snd] in *; [| |done].
  - destruct Hr as [Hr Hid']. split; [|done]. by eapply created_after.
  - by eapply contained_in_after.
Qed.
End creation.
