(* ===== verification/Invariant.v ===== *)
(** * The store invariant

    Every record is filed under its own id, and the committed offset of a regular
    upload never passes its declared length.  Serving any request keeps it.  The proof
    is for any property of records that the writes of the code keep ([Recorded]). *)

From S2P Require Import Prelude Text Errors Crates Config State Headers Hooks Backends Lifecycle.
From S2P Require Import Intake Receive FinalUpload Access Response Protocol Streaming Contracts.
From S2P Require Import Safety Effects PatchSpec CreationSpec.
Local Open Scope string_scope.
Local Open Scope N_scope.
Local Open Scope prog_scope.

(** The offset of a record that is not a final upload stays within its length. *)
Definition within_length (s : UploadState) : Prop :=
  UploadState.is_final s = false ->
  forall l, UploadState.length s = Some l -> UploadState.offset s <= l.

(** Programs that re-establish a predicate whatever their outcome. *)
Definition pres {X A} (I : X -> Prop) (m : M X A) : Prop :=
  forall w, I w -> wp m (fun _ w' => I w') w.

Lemma pres_done {X A} (I : X -> Prop) (r : result A) : pres I (Done r).
Proof. intros w Hw. by apply wp_done. Qed.

Lemma pres_bind {X A B} (I : X -> Prop) (m : M X A) (k : A -> M X B) :
  pres I m -> (forall a, pres I (k a)) -> pres I (bind m k).
Proof.
  intros Hm Hk w Hw. apply wp_bind. wp_use (Hm w Hw) r w' Hw'.
  destruct r as [a|e|]; [by apply Hk|done|done].
Qed.

Lemma pres_attempt {X A} (I : X -> Prop) (m : M X A) : pres I m -> pres I (attempt m).
Proof. intros Hm w Hw. apply wp_attempt. wp_use (Hm w Hw) r w' Hw'. by destruct r. Qed.

Lemma pres_lift {T X A} (I : X -> Prop) (P : T -> Prop) (m : M X A) :
  pres I m -> pres (fun tw => P tw.1 /\ I tw.2) (lift m).
Proof. intros Hm [t w] [Ht Hw]. apply wp_lift. by wp_use (Hm w Hw) r w' Hw'. Qed.

Lemma pres_local {T X} (I : X -> Prop) (P : T -> Prop) {A} (f : T * X -> A * (T * X)) :
  (forall t w, P t -> P (f (t, w)).2.1 /\ (f (t, w)).2.2 = w) ->
  pres (fun tw => P tw.1 /\ I tw.2) (act f).
Proof.
  intros Hf [t w] [Ht Hw]. apply wp_act. specialize (Hf t w Ht).
  destruct (f (t, w)) as [a [t' w']]. cbn in *. destruct Hf as [? ->]. done.
Qed.

Lemma pres_finally {X A} (I : X -> Prop) (m : M X A) f :
  pres I m -> (forall w, I w -> I (f w)) -> pres I (finally m f).
Proof. intros Hm Hf w Hw. apply wp_finally. wp_use (Hm w Hw) r w' Hw'. auto. Qed.

Section invariant.
Context {S St L H E : Type}.
Context `{StorageLaws S, StateStoreLaws St, LockerLaws L, HookLaws H, !Env E}.
Context `{HttpLib, Base64, Digests, PercentEncoding, Chrono, HashOrder}.
Local Abbreviation W := (World S St L H E).
#[local] Set Default Proof Using "All".

(** Every record is filed under its id and has the property [K]. *)
Definition store_of (K : UploadState -> Prop) (w : W) : Prop :=
  forall id s, recs w !! id = Some s -> UploadState.id s = id /\ K s.

Definition sound_store : W -> Prop := store_of within_length.

Context (K : UploadState -> Prop).
Local Abbreviation sound := (store_of K).

Lemma sound_recs w w' : recs w' = recs w -> sound w -> sound w'.
Proof. intros Hr Hw id s. rewrite Hr. apply Hw. Qed.

Lemma sound_insert (w w' : W) s :
  recs w' = <[UploadState.id s := s]> (recs w) -> K s ->
  sound w -> sound w'.
Proof.
  intros Hr Hs Hw id s'. rewrite Hr, lookup_insert_Some. intros [[<- <-]|[_ Hs']]; [done|].
  by apply Hw.
Qed.

(** ** Steps that leave the records alone *)

Definition same_recs (w w' : W) : Prop := recs w' = recs w.
#[export] Instance same_recs_preorder : PreOrder same_recs.
Proof. split; [done|]. intros a b c. unfold same_recs. congruence. Qed.

Lemma pres_same_recs {A} (m : M W A) : keeps same_recs m -> pres sound m.
Proof. intros Hm w Hw. wp_use Hm r w' Hr. by eapply sound_recs. Qed.

Lemma pres_same {A} (m : M W A) : keeps same m -> pres sound m.
Proof. intros Hm w Hw. wp_use Hm r w' Hr. destruct Hr. by eapply sound_recs. Qed.

Lemma pres_storage {A} (m : M S A) : pres sound (on_storage m).
Proof. apply pres_same_recs. intros w. by apply wp_on_storage, wp_intro. Qed.
Lemma pres_locks {A} (m : M L A) : pres sound (on_locks m).
Proof. apply pres_same_recs. intros w. by apply wp_on_locks, wp_intro. Qed.

Lemma pres_get id : pres sound (on_states (state_get id)).
Proof. apply pres_same, same_get. Qed.
Lemma pres_list b : pres sound (on_states (state_list_expired b)).
Proof.
  apply pres_same_recs. intros w. apply wp_on_states.
  wp_use state_list_expired_spec r s Hr. by destruct Hr.
Qed.

Lemma pres_set s mode : K s -> pres sound (on_states (state_set s mode)).
Proof.
  intros Hs w Hw. apply wp_on_states. wp_use state_set_spec r st Hr.
  destruct r as [[]|e|]; [|by eapply sound_recs|done].
  destruct Hr as [Hr _]. by eapply (sound_insert w _ s).
Qed.

Lemma pres_delete id : pres sound (on_states (state_delete id)).
Proof.
  intros w Hw. apply wp_on_states. wp_use state_delete_spec r st Hr.
  destruct r as [[]|e|]; [|by eapply sound_recs|done].
  intros id' s'. unfold recs. cbn. rewrite Hr. intros [_ Hs]%lookup_delete_Some. by apply Hw.
Qed.
(** What the writes of the code need to keep [K]: an offset within the length, the
    record of a PATCH, a new record, and the records of final uploads, unless the
    configuration has none. *)
Class Recorded (config : Config) : Prop := {
  rec_offset s n : K s -> (forall l, UploadState.length s = Some l -> n <= l) -> K (UploadState.set_offset n s);
  rec_accounts s old content s' : K s -> accounts s old content s' -> K s';
  rec_advanced s content s' : K s -> advanced s content s' -> K s';
  rec_new rq s h :
    creation_allowed config rq -> blank rq s ->
    K (UploadState.set_storage_handle h s);
  rec_final :
    (forall s, UploadState.is_final s = true -> K s) \/
    (has_extension config Extension.Concatenation = false /\ forall s, K s -> UploadState.is_final s = false);
}.
End invariant.

Create HintDb pres.
#[export] Hint Resolve pres_storage pres_locks pres_get pres_list pres_delete : pres.
#[export] Hint Resolve pres_same same_env same_hooks same_is_expired same_ensure_active
  same_run_gate same_post_hook same_finish_gate same_after_commit same_run_post_event
  same_detect : pres.

Ltac pres_step :=
  lazymatch goal with
  | |- forall _, _ => intro
  | |- pres _ (bind _ _) => apply pres_bind; [|intro]
  | |- pres _ (attempt _) => apply pres_attempt
  | |- pres _ (Done _) => apply pres_done
  | |- pres _ (ret _) => apply pres_done
  | |- pres _ (throw _) => apply pres_done
  | |- pres _ panic => apply pres_done
  | |- pres _ (of_outcome _) => apply pres_done
  | |- pres _ (if ?b then _ else _) => destruct b eqn:?
  | |- pres _ (match ?x with _ => _ end) => destruct x eqn:?
  end.
Ltac pres := repeat first [solve [eauto with pres nocore] | pres_step].

Section handlers.
Context {S St L H E : Type}.
Context `{StorageLaws S, StateStoreLaws St, LockerLaws L, HookLaws H, !Env E}.
Context `{HttpLib, Base64, Digests, PercentEncoding, Chrono, HashOrder}.
Context (K : UploadState -> Prop) (conf : Config) `{!Recorded K conf}.
Local Abbreviation W := (World S St L H E).
Local Abbreviation sound := (store_of (S:=S) (St:=St) (L:=L) (H:=H) (E:=E) K).
#[local] Set Default Proof Using "All".

(** ** Regular uploads *)

Lemma sound_at id s (w : W) : sound w -> recs w !! id = Some s -> K s.
Proof. intros Hw Hs. by apply (Hw id s). Qed.

Lemma sound_reconciled id s (w : W) s' w' :
  recs w !! id = Some s -> reconciled s w s' w' -> sound w -> sound w'.
Proof.
  intros Hs (-> & _ & Hr) Hw. destruct Hr as [[Hr _]|[Hr Hl]]; [by eapply sound_recs|].
  apply (sound_insert K w w' (UploadState.set_offset (stored_size s w) s)); [done| |done].
  apply (rec_offset K (config:=conf)); [by eapply sound_at|done].
Qed.

Lemma sound_accounts id s old content s' (w w' : W) :
  recs w !! id = Some s -> accounts s old content s' ->
  recs w' = <[UploadState.id s := s']> (recs w) -> sound w -> sound w'.
Proof.
  intros Hs Ha Hr Hw. apply (sound_insert K w w' s'); [by rewrite (ac_id _ _ _ _ Ha)| |done].
  eapply (rec_accounts K (config:=conf)); [by eapply sound_at|done].
Qed.

Lemma sound_brought_up id s (w w' : W) :
  recs w !! id = Some s -> brought_up s w w' -> sound w -> sound w'.
Proof.
  intros Hs [Hr Hl] Hw. apply (sound_insert K w w' (UploadState.set_offset (stored_size s w) s)); [done| |done].
  apply (rec_offset K (config:=conf)); [by eapply sound_at|done].
Qed.

(** The steps of the read and mutation access of a regular upload. *)
Lemma pres_regular_access ri s w :
  sound w -> (exists id, recs w !! id = Some s) ->
  wp (prepare_regular_upload_access ri) (fun r sw => r = Panic \/ sound sw.2) (s, w).
Proof.
  intros Hw [id Hs]. wp_use regular_access_spec r sw Hr. destruct sw as [s' w']. cbn in *.
  destruct r as [[]|e|]; [right; by eapply sound_reconciled|right|by left].
  destruct Hr as [[_ Hr]|[s2 Hr]]; [by eapply sound_recs|by eapply sound_reconciled].
Qed.

Lemma pres_gated {A} g ri s (k : PreHookOutcome -> M W A) :
  (forall po, evolves s (po_state po) -> pres sound (k po)) ->
  pres sound (bind (run_gate g ri s) k).
Proof.
  intros Hk w Hw. apply wp_bind. wp_use run_gate_spec r w' Hr. destruct Hr as [[_ Hr] Hev].
  destruct r as [po|e|]; [apply Hk; [by apply Hev|]| |]; by eapply sound_recs.
Qed.

(** ** Final uploads: every write goes to the record of a final upload *)

Section finals.
Context (final_recorded : forall s, UploadState.is_final s = true -> K s).

Local Abbreviation final_and_sound :=
  (fun sw : UploadState * W => UploadState.is_final sw.1 = true /\ sound sw.2).

Lemma pres_final_set s : UploadState.is_final s = true -> pres sound (on_states (state_set s Update)).
Proof. intros Hf. by apply pres_set, final_recorded. Qed.

Lemma pres_lift_final {A} (m : M W A) : pres sound m -> pres final_and_sound (lift m).
Proof. apply (pres_lift sound (fun s => UploadState.is_final s = true)). Qed.

(** A read of the local, known to be final. *)
Lemma pres_get_final {A} (k : UploadState -> M (UploadState * W) A) :
  (forall s, UploadState.is_final s = true -> pres final_and_sound (k s)) ->
  pres final_and_sound (bind get_local k).
Proof.
  intros Hk [s w] Hsw. apply wp_bind. wp_steps. apply Hk; [apply Hsw|done].
Qed.

Lemma pres_set_final s : UploadState.is_final s = true -> pres final_and_sound (set_local s).
Proof. intros Hs [s' w] [_ Hw]. unfold set_local. by apply wp_act. Qed.

Lemma pres_modify_final f :
  (forall s, UploadState.is_final (f s) = UploadState.is_final s) ->
  pres final_and_sound (modify_local f).
Proof.
  intros Hf [s w] [Hs Hw]. unfold modify_local. apply wp_act. cbn. by rewrite Hf.
Qed.

Lemma pres_lock_parts ids : pres sound (lock_parts ids).
Proof.
  unfold lock_parts. generalize (@nil LockGuard).
  induction (dedup (sort_strings ids)) as [|id ids' IH]; intros gs; cbn [lock_parts_loop]; [pres|].
  assert (forall gs, pres sound (act (fun w : W => (tt, drop_guards gs w)))) as Hdrop.
  { intros gs' w Hw. apply wp_act. revert w Hw.
    induction gs' as [|g gs' IHg]; intros w Hw; [done|]. apply (IHg (set_locks _ w)). done. }
  pres.
Qed.

Lemma sound_drop_guards gs (w : W) : sound w -> sound (drop_guards gs w).
Proof. revert w; induction gs as [|g gs IH]; intros w Hw; [done|]. by apply (IH (set_locks _ w)). Qed.

#[local] Hint Resolve pres_lift_final pres_final_set pres_lock_parts : pres.

Lemma same_summarize parts : keeps (X:=W) same (summarize_final_parts parts).
Proof.
  assert (forall a b c d, keeps (X:=W) same (summarize_loop parts a b c d)) as Hl; [|apply Hl].
  pose proof same_is_expired.
  induction parts as [|p parts IH]; intros; cbn [summarize_loop]; keeps.
Qed.
Lemma same_load_parts s ids : keeps (X:=W) same (load_parts_loop s ids).
Proof.
  pose proof same_is_expired. pose proof same_get.
  induction ids as [|u urls IH]; cbn [load_parts_loop]; keeps.
Qed.
Lemma same_load_plan config urls : keeps (X:=W) same (load_plan_loop config urls).
Proof.
  pose proof same_is_expired. pose proof same_get.
  induction urls as [|u urls IH]; cbn [load_plan_loop]; keeps.
Qed.
Lemma same_load_status s : keeps (X:=W) same (load_final_upload_status s).
Proof.
  pose proof same_load_parts. pose proof same_summarize. unfold load_final_upload_status. keeps.
Qed.
Lemma same_load_final_plan config urls : keeps (X:=W) same (load_final_upload_plan config urls).
Proof.
  pose proof same_load_plan. pose proof same_summarize. unfold load_final_upload_plan. keeps.
Qed.
#[local] Hint Resolve same_summarize same_load_status same_load_final_plan : pres.

Lemma pres_materialize s parts : pres sound (materialize_final_upload s parts).
Proof. unfold materialize_final_upload. pres. Qed.
Lemma pres_refresh_inspect s parts status : pres sound (refresh_inspect s parts status).
Proof. unfold refresh_inspect, final_storage_size. pres. Qed.
#[local] Hint Resolve pres_materialize pres_refresh_inspect : pres.

Lemma refresh_length_final r s : UploadState.is_final (refresh_length r s).2 = UploadState.is_final s.
Proof.
  unfold refresh_length. destruct (fs_total_length _) as [t|]; [|done]. by case_bool_decide.
Qed.
Lemma refresh_offset_final r s : UploadState.is_final (refresh_offset r s).2 = UploadState.is_final s.
Proof. unfold refresh_offset. by destruct (_ =? _). Qed.

(** Materializing a final upload yields a final upload. *)
Lemma materialize_final s parts w :
  UploadState.is_final s = true -> sound w ->
  wp (materialize_final_upload s parts) (fun r w' =>
    sound w' /\ forall s', r = Ok s' -> UploadState.is_final s' = true) w.
Proof.
  intros Hs Hw. apply wp_and; [by apply pres_materialize|].
  unfold materialize_final_upload. apply wp_bind, wp_done.
  destruct (UploadState.require_storage_handle s); [|done|done].
  apply wp_bind, wp_done. destruct (storage_handles parts); [|done|done].
  apply wp_bind, wp_any. intros [h|e|] w'; [|done|done]. apply wp_done. by intros s' [= <-].
Qed.

Lemma pres_rematerialize s parts :
  UploadState.is_final s = true ->
  pres final_and_sound
    (let! s := lift (materialize_final_upload s parts) in do! set_local s in ret true).
Proof.
  intros Hs [s0 w] [Hs0 Hw]. apply wp_bind, wp_lift.
  wp_use (materialize_final s parts w Hs Hw) r w' Hr. destruct Hr as [Hw' Hf].
  destruct r as [s'|e|]; [|done|done]. wp_steps. split; [by apply Hf|done].
Qed.

Lemma pres_repair_with_plan ri plan : pres final_and_sound (repair_with_plan ri plan).
Proof.
  unfold repair_with_plan. apply pres_get_final. intros s Hs.
  pres_step; [pres|]. rename a into refresh.
  pose proof (refresh_length_final refresh s) as Hl.
  destruct (refresh_length refresh s) as [changed s1]. cbn in Hl.
  pres_step; [apply pres_set_final; congruence|].
  pres_step; [pres|]. pres_step.
  { destruct (needs_materialization refresh); [|pres]. apply pres_rematerialize. congruence. }
  apply pres_get_final. intros s2 Hs2.
  pose proof (refresh_offset_final refresh s2) as Ho.
  destruct (refresh_offset refresh s2) as [offset_changed s3]. cbn in Ho.
  pres_step; [apply pres_set_final; congruence|].
  pres_step; [destruct (_ || _); [|pres]; apply pres_lift_final, pres_final_set; congruence|].
  pres.
Qed.
#[local] Hint Resolve pres_repair_with_plan : pres.

Lemma pres_repair ri : pres final_and_sound (repair_final_upload ri).
Proof.
  unfold repair_final_upload. apply pres_get_final. intros s Hs.
  pres_step; [pres|]. destruct a as [plan|]; [|pres]. pres_step; [|pres].
  pres_step; [pres|]. apply (pres_finally final_and_sound); [pres|].
  intros sw [? ?]. split; [done|by apply sound_drop_guards].
Qed.

Lemma pres_recover : pres final_and_sound recover_materialized_final_upload.
Proof.
  unfold recover_materialized_final_upload. apply pres_get_final. intros s Hs.
  destruct (UploadState.length s) as [l|]; [|pres].
  destruct (UploadState.storage_handle s) as [h|]; [|pres].
  pres_step; [pres|]. pres_step; [pres|]. pres_step; [|pres]. pres_step; [|pres].
  pres_step; [by apply pres_modify_final|]. apply pres_get_final. intros s2 Hs2.
  by apply pres_lift_final, pres_final_set.
Qed.
#[local] Hint Resolve pres_repair pres_recover : pres.

Lemma pres_prepare_read ri : pres final_and_sound (prepare_read ri).
Proof.
  unfold prepare_read. apply pres_get_final. intros s Hs. rewrite Hs. cbn.
  pres_step; [pres|]. destruct a; [pres|]. apply pres_get_final. intros s2 Hs2. pres.
Qed.

Lemma planned_final parts ids status s :
  UploadState.is_final
    (cap_planned_final_upload_expiration parts (apply_final_upload_plan ids status s)) = true.
Proof.
  unfold cap_planned_final_upload_expiration, apply_final_upload_plan.
  by destruct (fs_total_length status); repeat case_match.
Qed.

Lemma pres_create_planned config ri s plan : pres sound (create_planned_upload config ri s plan).
Proof.
  unfold create_planned_upload. pres_step; [pres|].
  pose proof (planned_final (fp_parts plan) (fp_part_ids plan) (fp_status plan) s) as Hf.
  revert Hf. generalize (cap_planned_final_upload_expiration (fp_parts plan)
    (apply_final_upload_plan (fp_part_ids plan) (fp_status plan) s)). intros s1 Hf.
  apply pres_gated. intros po Hev. pres_step; [pres|]. pres_step; [pres|].
  set (s2 := UploadState.set_storage_handle a1 (po_state po)).
  assert (UploadState.is_final s2 = true) as Hf2 by (cbn; rewrite (ev_final _ _ Hev); done).
  clearbody s2. clear Hev Hf s1.
  assert (forall s, pres sound (rollback_final_upload_storage s)) as Hroll
    by (intros; unfold rollback_final_upload_storage; pres).
  assert (forall s3 (k : UploadState -> M W CreatedFinalUpload),
    UploadState.is_final s3 = true ->
    pres sound (on_states (state_set s3 CreateNew))) as Hset
    by (intros; by apply pres_set, final_recorded).
  intros w Hw. apply wp_bind.
  eapply (wp_mono _ (fun r w' => sound w' /\ forall s', r = Ok s' -> UploadState.is_final s' = true)).
  - destruct (ready_to_materialize _); [|apply wp_done; split; [done|]; by intros s' [= <-]].
    apply wp_bind, wp_attempt. wp_use (materialize_final s2 (fp_parts plan) w Hf2 Hw) r w' Hr.
    destruct Hr as [Hw' Hm]. destruct r as [s'|e|]; [| |done].
    + apply wp_done. split; [done|]. intros s'' [= <-]. by apply Hm.
    + apply wp_bind. wp_use (Hroll s2 w' Hw') r w2 Hw2. by destruct r.
  - cbv beta. intros r w' [Hw' Hm]. destruct r as [s3|e|]; [|done|done]. specialize (Hm s3 eq_refl).
    revert w' Hw'. match goal with |- forall w', _ -> wp ?m _ _ => change (pres sound m) end.
    pres_step; [pres_step; by apply pres_set, final_recorded|]. pres.
Qed.
#[local] Hint Resolve pres_create_planned : pres.

Lemma pres_create_final config ri s urls : pres sound (create_final_upload config ri s urls).
Proof.
  unfold create_final_upload. pres_step; [pres|]. pres_step; [|pres].
  pres_step; [pres|]. apply pres_finally; [pres|]. intros w Hw. by apply sound_drop_guards.
Qed.
End finals.

(** Reading prepares any stored upload. *)
Lemma read_access_sound ri s w :
  sound w -> (exists id, recs w !! id = Some s) ->
  wp (prepare_upload_read_access ri) (fun r sw => r = Panic \/ sound sw.2) (s, w).
Proof.
  intros Hw Hs. unfold prepare_upload_read_access. apply wp_bind. wp_steps.
  destruct (UploadState.is_final s) eqn:Hf.
  - destruct (rec_final K (config:=conf)) as [Hfin|[_ Hfin]].
    2: { destruct Hs as [id Hs]. rewrite (Hfin s) in Hf; [done|by eapply sound_at]. }
    apply wp_bind. wp_use (pres_prepare_read Hfin ri (s, w)) r sw Hr; [done|].
    destruct r as [b|e|]; [|right; apply Hr|by left]. destruct sw as [s1 w1].
    destruct b; [|apply wp_done; by left]. cbn. wp_steps.
    wp_use (pres_same K _ (same_ensure_active s1) w1 (proj2 Hr)) r w2 Hw2.
    destruct r as [[]|e|]; [by apply wp_done; right|by right|by left].
  - apply wp_bind. wp_use (pres_regular_access ri s w) r sw Hr; [done|done|].
    destruct r as [[]|e|]; [|destruct Hr; [done|by right]|by left]. destruct Hr as [?|Hr]; [done|]. destruct sw.
    wp_steps. by right.
Qed.

(** ** Handlers *)

(** The invariant holds afterwards unless the handler panicked. *)
Definition sound_after {A} (m : M W A) : Prop :=
  forall w, sound w -> wp m (fun r w' => r = Panic \/ sound w') w.

Lemma pres_after {A} (m : M W A) : pres sound m -> sound_after m.
Proof. intros Hm w Hw. wp_use (Hm w Hw) r w' Hw'. by right. Qed.

Lemma locked_after {A} config id (body : UploadState -> M W A) :
  (forall s w, sound w -> (exists id, recs w !! id = Some s) ->
     wp (body s) (fun r w' => r = Panic \/ sound w') w) ->
  sound_after (with_locked_upload config id body).
Proof.
  intros Hbody w Hw. apply with_locked_upload_spec.
  - intros s w1 Hs [_ Hr]. apply Hbody; [by eapply sound_recs|]. exists id. by rewrite Hr.
  - intros e w' [_ Hr]. right. by eapply sound_recs.
  - by left.
  - intros r l w' [?|Hw']; [by left|right]. exact Hw'.
Qed.

Lemma delete_sound config h id : sound_after (delete_upload config h id).
Proof.
  unfold delete_upload. destruct (negb _); [apply pres_after; pres|].
  apply locked_after. intros s w Hw _. apply pres_after; [|done]. unfold terminate. pres.
Qed.

Lemma read_then {A} ri s w (k : UploadAccessFacts -> UploadState -> M W A) :
  sound w -> (exists id, recs w !! id = Some s) -> (forall f s, pres sound (k f s)) ->
  wp (let! (facts, s') := borrow s (prepare_upload_read_access ri) in k facts s')
    (fun r w' => r = Panic \/ sound w') w.
Proof.
  intros Hw Hs Hk. apply wp_bind, wp_borrow.
  wp_use (read_access_sound ri s w) r sw Hr; [done|done|]. destruct sw as [s' w'].
  destruct Hr as [-> | Hr]; [by left|]. destruct r as [f|e|]; cbn; [|by right|by left].
  by apply pres_after.
Qed.

Lemma head_sound config id : sound_after (head config id).
Proof.
  unfold head, prepare_upload_observation_access. apply locked_after. intros s w Hw Hs.
  apply read_then; [done|done|]. pres.
Qed.

Lemma download_sound `{!StorageReader S} config id range : sound_after (download config id range).
Proof.
  unfold download, prepare_upload_download_access. destruct (disable_download config); [apply pres_after; pres|].
  apply locked_after. intros s w Hw Hs. apply wp_bind, wp_borrow, wp_bind.
  wp_use (read_access_sound (into_request_info (facts_get id) config) s w) r sw Hr; [done|done|].
  destruct sw as [s' w']. destruct Hr as [-> | Hr]; [by left|].
  destruct r as [f|e|]; [|by right|by left]. wp_steps.
  destruct (negb _); [by right|]. cbn. apply wp_done. cbn.
  apply pres_after; [|done]. unfold download_prepared. pres.
Qed.

Lemma patch_sound config h id body : sound_after (patch config h id body).
Proof.
  intros w Hw. wp_use patch_spec r w' Hr. destruct r as [resp|e|]; [right|right|by left].
  - destruct Hr as (s & hd & old & s' & hh & Hf & _ & _ & _ & Ha & Hrec & _).
    pose proof (found_record _ _ _ _ _ Hf). by eapply sound_accounts.
  - destruct Hr as [[_ Hr]|s Hs _ Hb|s hd old [Hs _ _] _ _ [Hr|[Hb|(s' & Ha & _ & Hr)]]].
    + by eapply sound_recs.
    + by eapply sound_brought_up.
    + by eapply sound_recs.
    + by eapply sound_brought_up.
    + by eapply sound_accounts.
Qed.

Lemma reclaim_sound before : sound_after (reclaim_expired_uploads before).
Proof.
  apply pres_after. unfold reclaim_expired_uploads. pres_step; [pres|].
  assert (forall report, pres sound (reclaim_loop a report)) as Hl; [|apply Hl].
  induction a as [|id ids IH]; intros report; cbn [reclaim_loop]; [pres|].
  pres_step; [|pres]. unfold reclaim_expired_upload. pres_step; [pres|].
  destruct a as [e|[g|]]; [pres| |pres]. unfold with_guard.
  apply pres_finally; [|intros w Hw; exact Hw].
  unfold reclaim_locked_upload, prepare_upload_reclamation_access, stored_bytes_complete_upload.
  pres.
Qed.

(** ** Creation *)

Lemma pres_rollback_storage s : pres sound (rollback_storage s).
Proof. unfold rollback_storage. pres. Qed.
#[local] Hint Resolve pres_rollback_storage : pres.
Lemma pres_rollback_creation s : pres sound (rollback_creation s).
Proof. unfold rollback_creation. pres. Qed.
#[local] Hint Resolve pres_rollback_creation : pres.

(** Creating an object for an upload, and going on with its handle. *)
Lemma pres_create_object {A} id (k : StorageHandle -> M W A) :
  (forall h, pres sound (k h)) -> pres sound (bind (on_storage (storage_create id)) k).
Proof.
  intros Hk w Hw. apply wp_bind. wp_use create_object_spec r w' Hr. destruct Hr as [Hr Has].
  assert (sound w') as Hw' by (by eapply sound_recs). destruct r as [h|e|]; [|done..].
  by apply Hk.
Qed.

Lemma pres_create_empty rq ri s :
  creation_allowed conf rq -> blank rq s -> pres sound (create_empty ri s).
Proof.
  intros Hok Hbl w Hw. unfold create_empty. apply wp_bind. wp_use run_gate_meta r w1 Hr.
  destruct Hr as [[_ Hr] Hre]. assert (sound w1) as Hw1 by (by eapply sound_recs).
  destruct r as [po|e|]; [|done..]. specialize (Hre po eq_refl). clear Hr Hw w. cbv zeta. revert w1 Hw1.
  match goal with |- forall w, _ -> wp ?m _ w => change (pres sound m) end.
  apply pres_create_object. intros h.
  assert (K (UploadState.set_storage_handle h (po_state po))) as HK.
  { apply (rec_new K (config:=conf) rq); [done|by eapply blank_regated]. }
  pres_step; [pres_step; by apply pres_set|]. unfold after_commit_if_complete. pres.
Qed.

(** A local that may be anything: only the store counts. *)
Local Abbreviation any_and_sound := (fun sw : UploadState * W => True /\ sound sw.2).

Lemma pres_lift_any {A} (m : M W A) : pres sound m -> pres any_and_sound (lift m).
Proof. apply (pres_lift sound (fun _ => True)). Qed.

Lemma pres_get_any : pres any_and_sound get_local.
Proof. intros [s w] Hw. unfold get_local. by apply wp_act. Qed.

Lemma sound_body_handle p s h content :
  sound_body p s content -> sound_body p (UploadState.set_storage_handle h s) content.
Proof. by intros []. Qed.

(** Committing the initial bytes keeps the store sound. *)
Lemma commit_sound p s content w :
  sound_body p s content -> K s -> sound w ->
  wp (commit_receive_body p) (fun r sw => r = Panic \/ sound sw.2) (s, w).
Proof.
  intros Hb HK Hw. wp_use commit_spec r sw Hr; [exact Hb|]. destruct sw as [s' w']. cbn in *.
  destruct r as [[]|e|]; [right|right|by left].
  - destruct Hr as (_ & Had & Hr & _). apply (sound_insert K w w' s'); [by rewrite (ad_id _ _ _ Had)| |done].
    by eapply (rec_advanced K (config:=conf)).
  - destruct Hr as [[_ Hr]|[_ Hr]]; by eapply sound_recs.
Qed.

Lemma receive_initial_sound rq ri hs body rh s w :
  creation_allowed conf rq -> blank rq s -> sound w ->
  wp (receive_initial_bytes conf ri hs body rh) (fun r sw => r = Panic \/ sound sw.2) (s, w).
Proof.
  intros Hok Hbl Hw. unfold receive_initial_bytes.
  apply wp_bind. eapply wp_mono; [apply wp_and; [apply prepare_body_regated|apply prepare_receive_body_spec]|].
  cbv beta. intros r [s2 w2] [Hre [[_ Hr] Hp]]. cbn [fst snd] in *.
  assert (sound w2) as Hw2 by (by eapply sound_recs).
  destruct r as [p|e|]; [|by right|by left]. destruct (Hp p eq_refl) as [_ Hb]. specialize (Hre p eq_refl).
  wp_steps. wp_use create_object_spec r w3 Hr3. destruct Hr3 as [Hr3 Has].
  assert (sound w3) as Hw3 by (by eapply sound_recs).
  destruct r as [h|e|]; [|by right|by left]. wp_steps. destruct Has as [Has _].
  assert (K (UploadState.set_storage_handle h s2)) as Hin.
  { apply (rec_new K (config:=conf) rq); [done|by eapply blank_regated]. }
  wp_use (pres_set K _ CreateNew Hin w3 Hw3) r w4 Hw4. destruct r as [[]|e|]; [| |by left].
  2: { wp_steps. wp_use (pres_rollback_storage (UploadState.set_storage_handle h s2) w4 Hw4) r w5 Hw5.
       destruct r as [[]|e'|]; [apply wp_done; by right|by right|by left]. }
  wp_steps. wp_use (commit_sound p (UploadState.set_storage_handle h s2) (body_content body) w4) r sw Hr5;
    [by apply sound_body_handle|done|done|].
  destruct sw as [s5 w5]. destruct Hr5 as [-> | Hw5]; [by left|]. cbn in Hw5.
  destruct r as [[]|e|]; [| |by left].
  - match goal with |- wp ?m _ _ => assert (pres any_and_sound m) as Hm end.
    { unfold after_commit_if_complete. pose proof pres_get_any. pres; apply pres_lift_any; pres. }
    wp_use (Hm (s5, w5)) r sw Hsw; [done|]. right; apply Hsw.
  - wp_steps. wp_use (pres_rollback_creation s5 w5 Hw5) r w6 Hw6.
    destruct r as [[]|e'|]; [apply wp_done; by right|by right|by left].
Qed.

Lemma receive_creation_sound rq ri hs s body :
  creation_allowed conf rq -> blank rq s -> sound_after (receive_creation_with_upload conf ri hs s body).
Proof.
  intros Hok Hbl w Hw. unfold receive_creation_with_upload.
  apply wp_bind. wp_use run_gate_meta r w' Hr. destruct Hr as [[_ Hr] Hre].
  assert (sound w') as Hw' by (by eapply sound_recs).
  destruct r as [po|e|]; [|by right|by left]. apply wp_borrow.
  eapply wp_mono; [apply (receive_initial_sound rq); [done| |done]|].
  - eapply blank_regated; [done|by apply Hre].
  - cbv beta. intros r sw [-> | Hsw]; [by left|by right].
Qed.

Lemma post_sound h body : sound_after (post conf h body).
Proof.
  intros w Hw. unfold post. apply wp_bind, wp_done.
  destruct (if is_supplied body then _ else _) as [[]|e|]; [|by right|by left].
  apply wp_bind. wp_use prepare_creation_spec r w' Hr. destruct Hr as [[_ Hr] Ho].
  assert (sound w') as Hw' by (by eapply sound_recs).
  destruct r as [[s|s urls]|e|]; [| |by right|by left].
  - destruct Ho as (Hok & _ & Hbl & _). apply wp_bind.
    eapply (wp_mono _ (fun r w' => r = Panic \/ sound w')).
    + destruct (is_creation_with_upload _ _ _); [|by apply pres_after; [by eapply pres_create_empty|]].
      apply wp_bind. wp_use (receive_creation_sound (CreationRequest_from_headers h (is_supplied body))) r w2 Hw2; [done..|].
      destruct Hw2 as [-> |Hw2]; [by left|].
      destruct r as [[hh s']|e|]; [apply wp_done; by right|by right|by left].
    + cbv beta. intros r w2 [-> |Hw2]; [by left|].
      destruct r as [[s' hh]|e|]; [apply wp_done; by right|by right|by left].
  - destruct Ho as (Hok & Hc & _). destruct (rec_final K (config:=conf)) as [Hfin|[Hno _]].
    2: { rewrite (ca_concat _ _ Hok) in Hno; [done|by rewrite Hc]. }
    apply wp_bind. wp_use (pres_create_final Hfin conf (into_request_info (facts_post h) conf) s urls w' Hw') r w2 Hw2.
    destruct r as [c|e|]; [apply wp_done; by right|by right|by left].
Qed.
End handlers.

Section served.
Context {S St L H E : Type}.
Context `{StorageLaws S, StateStoreLaws St, LockerLaws L, HookLaws H, !Env E}.
Context `{HttpLib, Base64, Digests, PercentEncoding, Chrono, HashOrder}.
Local Abbreviation W := (World S St L H E).
#[local] Set Default Proof Using "All".

(** Offsets stay within lengths. *)
#[export] Instance within_recorded config : Recorded within_length config.
Proof.
  split.
  - intros s n _ Hn _ l Hl. by apply Hn.
  - intros s old content s' _ Ha _. apply (ac_bound _ _ _ _ Ha).
  - intros s content s' _ Ha _. apply (ad_bound _ _ _ Ha).
  - intros rq s h _ Hbl _ l _. cbn. rewrite (bl_offset _ _ Hbl). apply N.le_0_l.
  - left. unfold within_length. congruence.
Qed.

(** Serving one request keeps the store, whatever its outcome. *)
Lemma handle_sound `{!StorageReader S, !StorageReaderLaws S} config r w :
  locker_inv (w_locks w) -> sound_store w -> sound_store (run (handle config r) w).2.
Proof.
  intros Hinv Hw.
  assert (sound_after within_length (handle config r)) as Hs.
  { assert (forall A (m : M W A), sound_after within_length m ->
      sound_after within_length (do! m in ret tt)) as Hunit.
    { intros A m Hm w2 Hw2. apply wp_bind. wp_use (Hm w2 Hw2) r' w3 Hw3.
      destruct r'; [apply wp_done; destruct Hw3; [done|by right]|naive_solver..]. }
    destruct r; cbn [handle]; apply Hunit.
    - apply (post_sound within_length config).
    - apply (head_sound within_length config).
    - apply (download_sound within_length config).
    - apply (patch_sound within_length config).
    - apply (delete_sound within_length config).
    - intros w2 Hw2. apply wp_done. by right.
    - apply (reclaim_sound within_length config). }
  destruct (run (handle config r) w) as [o w'] eqn:Hrun. cbn.
  destruct (wp_run _ _ _ _ _ (Hs w Hw) Hrun) as [->|]; [|done].
  destruct (handle_panics config r w w' Hinv Hrun) as (_ & _ & ->). exact Hw.
Qed.

(** C10: serving any sequence of requests, OPTIONS and the expiration scan included and
    whatever their outcomes, a panic included, keeps every record filed under its own id
    and every regular upload's offset within its length. *)
Theorem store_invariant `{!StorageReader S, !StorageReaderLaws S} config w w' :
  served config w w' -> locker_inv (w_locks w) -> sound_store w -> sound_store w'.
Proof.
  intros Hserved Hinv Hw.
  enough (locker_inv (w_locks w') /\ sound_store w') by naive_solver.
  induction Hserved as [|w1 r _ [Hinv1 Hw1]]; [done|]. split.
  - by apply (handle_balanced config r w1 Hinv1).
  - by apply handle_sound.
Qed.
End served.
