(* ===== verification/FinalSpec.v ===== *)
(** * The concatenation contract

    A final upload is the concatenation of its partial uploads in the order the
    client listed them: its record names them, its length is the sum of theirs,
    its object holds their bytes one after the other. *)

From S2P Require Import Prelude Text Errors Crates Config State Headers Hooks Backends Lifecycle.
From S2P Require Import Intake Receive FinalUpload Access Response Protocol Streaming Contracts.
From S2P Require Import Effects PatchSpec HeadSpec RemovalSpec CreationSpec.
Local Open Scope string_scope.
Local Open Scope N_scope.
Local Open Scope prog_scope.

(** ** The summary of a list of parts *)

Definition saturating_sum (l : list N) : N := foldl saturating_add 0 l.

Definition all_known (parts : list UploadState) : bool :=
  forallb (fun p => is_some (UploadState.length p)) parts.

(** The value [summarize_final_parts] computes, without the loop. *)
Definition summary (parts : list UploadState) : FinalUploadStatus := {|
  fs_total_length :=
    if all_known parts
    then Some (saturating_sum (map (fun p => default 0 (UploadState.length p)) parts)) else None;
  fs_current_offset := saturating_sum (map UploadState.offset parts);
  fs_all_complete := forallb UploadState.is_complete parts;
|}.

Lemma complete_known p : UploadState.is_complete p = true -> is_some (UploadState.length p) = true.
Proof. unfold UploadState.is_complete. by destruct (UploadState.length p). Qed.

Lemma complete_all_known parts : forallb UploadState.is_complete parts = true -> all_known parts = true.
Proof.
  unfold all_known. rewrite !forallb_forall. intros Hc p Hp. by apply complete_known, Hc.
Qed.

Lemma summary_ready parts :
  ready_to_materialize (summary parts) = forallb UploadState.is_complete parts.
Proof.
  unfold ready_to_materialize, summary. cbn.
  destruct (forallb UploadState.is_complete parts) eqn:Hc; [|done].
  by rewrite complete_all_known.
Qed.

Lemma saturating_sum_exact acc l :
  u64 (foldr N.add acc l) -> foldl saturating_add acc l = foldr N.add acc l.
Proof.
  revert acc. induction l as [|x l IH]; intros acc; cbn; [done|]. intros Hu.
  assert (foldr N.add (acc + x) l = x + foldr N.add acc l) as Hshift.
  { clear. induction l as [|y l IH]; cbn; lia. }
  assert (forall a, a <= foldr N.add a l) as Hle by (intros a; clear; induction l; cbn; lia).
  rewrite saturating_add_exact; [|unfold u64 in *; specialize (Hle (acc + x)); lia].
  rewrite IH; [done|]. by rewrite Hshift.
Qed.

Section summary.
Context {S St L H E : Type}.
Context `{StorageLaws S, StateStoreLaws St, !Locker L, !HookExecutor H, !Env E}.
Context `{HttpLib, Base64, Digests, PercentEncoding, Chrono, HashOrder}.
Local Abbreviation W := (World S St L H E).
#[local] Set Default Proof Using "All".

Lemma summarize_loop_spec parts total off complete known w :
  (complete = true -> known = true) ->
  wp (summarize_loop parts total off complete known) (fun r w' =>
    same w w' /\ r <> Panic /\
    forall status, r = Ok status -> status =
      {| fs_total_length :=
           if known && all_known parts
           then Some (foldl saturating_add total
                        (map (fun p => default 0 (UploadState.length p)) parts)) else None;
         fs_current_offset := foldl saturating_add off (map UploadState.offset parts);
         fs_all_complete := complete && forallb UploadState.is_complete parts |}) (w : W).
Proof.
  revert total off complete known w.
  induction parts as [|p parts IH]; intros total off complete known w Hk; cbn [summarize_loop].
  - apply wp_done. split_and!; [done|done|]. intros status [= <-]. cbn. rewrite !andb_true_r.
    f_equal. destruct complete; [by rewrite Hk|done].
  - apply wp_bind, wp_is_expired. destruct (UploadState.expires_before p _); [by apply wp_done|].
    cbn [map foldl all_known forallb]. fold (all_known parts).
    destruct (UploadState.length p) as [l|] eqn:Hl; cbn [default is_some].
    + wp_use IH r w' Hr.
      { destruct (UploadState.is_complete p); [done|]. destruct complete; [by intros|done]. }
      destruct Hr as (Hw & Hp & Hr). split_and!; [done|done|]. intros status ->.
      rewrite (Hr _ eq_refl). f_equal.
      destruct (UploadState.is_complete p); [done|]. by rewrite andb_false_r.
    + assert (UploadState.is_complete p = false) as Hc by (unfold UploadState.is_complete; by rewrite Hl).
      rewrite Hc. wp_use IH r w' Hr; [done|].
      destruct Hr as (Hw & Hp & Hr). split_and!; [done|done|]. intros status ->.
      rewrite (Hr _ eq_refl). cbn. by rewrite !andb_false_r.
Qed.

Lemma summarize_spec parts w :
  wp (summarize_final_parts parts) (fun r w' =>
    same w w' /\ r <> Panic /\ forall status, r = Ok status -> status = summary parts) (w : W).
Proof. by apply summarize_loop_spec. Qed.

(** ** Plans *)

Record plan_of (config : Config) (urls : list string) (w : W) (plan : FinalUploadPlan) : Prop := {
  po_ids : Forall2 (fun url id => extract_partial_id url (base_path config) = Some id)
             urls (fp_part_ids plan);
  po_parts : Forall2 (fun id p =>
      recs w !! id = Some p /\ UploadState.is_partial p = true /\
      (UploadState.is_complete p = true \/
       has_extension config Extension.ConcatenationUnfinished = true))
    (fp_part_ids plan) (fp_parts plan);
  po_status : fp_status plan = summary (fp_parts plan);
}.

Lemma get_record_spec id w :
  wp (on_states (state_get id)) (fun r w' =>
    same w w' /\ r <> Panic /\ forall o, r = Ok o -> o = recs w !! id) (w : W).
Proof.
  apply wp_on_states. wp_use state_get_spec r st Hr. destruct Hr as [Hst Hr].
  split_and!; [by split|by destruct r|]. by intros o ->.
Qed.

Lemma load_plan_spec config urls w :
  wp (load_plan_loop config urls) (fun r w' =>
    same w w' /\ r <> Panic /\
    forall ids parts, r = Ok (ids, parts) ->
      Forall2 (fun url id => extract_partial_id url (base_path config) = Some id) urls ids /\
      Forall2 (fun id p =>
        recs w !! id = Some p /\ UploadState.is_partial p = true /\
        (UploadState.is_complete p = true \/
         has_extension config Extension.ConcatenationUnfinished = true)) ids parts) (w : W).
Proof.
  revert w. induction urls as [|url urls IH]; intros w; cbn [load_plan_loop].
  - apply wp_done. split_and!; [done|done|]. intros ids parts [= <- <-]. by split.
  - apply wp_bind. destruct (extract_partial_id url (base_path config)) as [id|] eqn:Hid; [|by apply wp_done].
    apply wp_done, wp_bind. wp_use get_record_spec r w1 Hr. destruct Hr as (Hw1 & Hp & Hr).
    destruct r as [[p|]|e|]; [|by apply wp_done|by split_and!|done].
    specialize (Hr _ eq_refl). destruct (UploadState.is_partial p) eqn:Hpart; cbn [negb]; [|by apply wp_done].
    destruct (negb (UploadState.is_complete p) && _) eqn:Hinc; [by apply wp_done|].
    apply wp_bind, wp_is_expired. set (w2 := set_env _ w1).
    assert (same w w2) as Hw2 by by destruct Hw1.
    destruct (UploadState.expires_before p _); [by apply wp_done|].
    apply wp_bind. wp_use IH r w3 Hr3. destruct Hr3 as (Hw3 & Hp3 & Hr3).
    assert (same w w3) as Hw by by transitivity w2.
    destruct r as [[ids parts]|e|]; [|by split_and!|done].
    destruct (Hr3 _ _ eq_refl) as [Hids Hparts]. apply wp_done. split_and!; [done|done|].
    intros ids' parts' [= <- <-]. split; constructor; try done.
    + split_and!; [done|done|]. destruct (UploadState.is_complete p); [by left|right].
      by apply negb_false_iff in Hinc.
    + destruct Hw2 as [_ Hrec]. by rewrite <- Hrec.
Qed.

Lemma load_final_plan_spec config urls w :
  wp (load_final_upload_plan config urls) (fun r w' =>
    same w w' /\ r <> Panic /\ forall plan, r = Ok plan -> plan_of config urls w plan) (w : W).
Proof.
  unfold load_final_upload_plan. apply wp_bind. wp_use load_plan_spec r w1 Hr.
  destruct Hr as (Hw1 & Hp & Hr). destruct r as [[ids parts]|e|]; [|by split_and!|done].
  destruct (Hr _ _ eq_refl) as [Hids Hparts]. apply wp_bind. wp_use summarize_spec r w2 Hr2.
  destruct Hr2 as (Hw2 & Hp2 & Hr2). assert (same w w2) as Hw by by transitivity w1.
  destruct r as [status|e|]; [|by split_and!|done]. apply wp_done. split_and!; [done|done|].
  intros plan [= <-]. split; [done|done|]. cbn. by apply Hr2.
Qed.
End summary.

(** ** Creation of a final upload *)

Section create_final.
Context {S St L H E : Type}.
Context `{StorageLaws S, StateStoreLaws St, !Locker L, !HookExecutor H, !Env E}.
Context `{HttpLib, Base64, Digests, PercentEncoding, Chrono, HashOrder}.
Local Abbreviation W := (World S St L H E).
#[local] Set Default Proof Using "All".

(** [content] is what the objects of [parts] hold, one after the other. *)
Definition concatenation (parts : list UploadState) (objects : gmap string bytes)
    (content : bytes) : Prop :=
  exists handles datas,
    storage_handles parts = Ok handles /\
    mapM (fun p => objects !! handle_key p) handles = Some datas /\ content = concat datas.

Record final_created (config : Config) (plan : FinalUploadPlan) (w : W) (s : UploadState) (w' : W)
    : Prop := {
  fc_fresh : recs w !! UploadState.id s = None;
  fc_record : recs w' = <[UploadState.id s := s]> (recs w);
  fc_final : UploadState.is_final s = true;
  fc_parts : UploadState.parts s = Some (fp_part_ids plan);
  fc_length : UploadState.length s = fs_total_length (fp_status plan);
  fc_offset : UploadState.offset s = expected_offset (fp_status plan);
  fc_object : exists h content,
    UploadState.storage_handle s = Some h /\
    bytes_of w' = <[handle_key h := content]> (bytes_of w) /\
    if fs_all_complete (fp_status plan)
    then concatenation (fp_parts plan) (<[handle_key h := []]> (bytes_of w)) content
    else content = [];
  fc_size : forall total max, fs_total_length (fp_status plan) = Some total ->
    max_size config = Some max -> total <= max;
}.

Lemma final_created_same config plan w s w1 w2 :
  final_created config plan w s w1 -> same w1 w2 -> final_created config plan w s w2.
Proof.
  intros [] [Hb Hr]. split; try done; [congruence|].
  destruct fc_object0 as (h & c & ? & ? & ?). exists h, c. split_and!; [done|congruence|done].
Qed.

(** The planned record before it has an object. *)
Record planned (plan : FinalUploadPlan) (s : UploadState) : Prop := {
  pl_final : UploadState.is_final s = true;
  pl_parts : UploadState.parts s = Some (fp_part_ids plan);
  pl_length : UploadState.length s = fs_total_length (fp_status plan);
  pl_offset : UploadState.offset s = expected_offset (fp_status plan);
}.

Lemma apply_plan_planned plan s :
  UploadState.length s = None ->
  planned plan (cap_planned_final_upload_expiration (fp_parts plan)
                  (apply_final_upload_plan (fp_part_ids plan) (fp_status plan) s)).
Proof.
  intros Hl. set (s1 := apply_final_upload_plan _ _ s).
  assert (planned plan s1) as Hp.
  { unfold s1, apply_final_upload_plan. destruct (fs_total_length (fp_status plan)) eqn:Ht; split; cbn; congruence. }
  unfold cap_planned_final_upload_expiration.
  destruct (UploadState.is_complete s1); [done|]. destruct (earliest_expiration (fp_parts plan)); [|done].
  destruct (match UploadState.expires_at s1 with Some _ => _ | None => _ end); [|done].
  by destruct Hp.
Qed.

Lemma planned_regated plan s s' : planned plan s -> regated s s' -> planned plan s'.
Proof. intros [] [m ->]. by split. Qed.

Lemma planned_handle plan h s : planned plan s -> planned plan (UploadState.set_storage_handle h s).
Proof. intros []. by split. Qed.

Lemma materialize_spec s h parts w :
  UploadState.storage_handle s = Some h ->
  wp (materialize_final_upload s parts) (fun r w' =>
    recs w' = recs w /\
    match r with
    | Ok s' => exists h' content, s' = UploadState.set_storage_handle h' s /\
        handle_key h' = handle_key h /\ concatenation parts (bytes_of w) content /\
        bytes_of w' = <[handle_key h := content]> (bytes_of w)
    | Err _ => bytes_of w' = bytes_of w
    | Panic => True
    end) (w : W).
Proof.
  intros Hh. unfold materialize_final_upload, UploadState.require_storage_handle. rewrite Hh.
  apply wp_bind, wp_done, wp_bind, wp_done.
  destruct (storage_handles parts) as [hs|e|] eqn:Hhs; [|done..].
  apply wp_bind, wp_on_storage. wp_use storage_concat_spec r st Hr. cbn [cr_parts cr_target] in Hr.
  destruct r as [h'|e|]; [|by split|done]. apply wp_done. split; [done|].
  destruct Hr as (datas & Hd & Hk & Hst). exists h', (concat datas).
  split_and!; [done|done|by exists hs, datas|]. by rewrite <- Hk.
Qed.

Lemma rollback_final_spec s h w w1 :
  UploadState.storage_handle s = Some h -> contained_at (handle_key h) w w1 ->
  wp (rollback_final_upload_storage s) (fun r w' => contained_at (handle_key h) w w') (w1 : W).
Proof.
  intros Hh Hc. change (rollback_final_upload_storage s) with (rollback_storage s : M W unit).
  wp_use (rollback_storage_spec s h w w1 Hh Hc) r w' Hr. by destruct Hr.
Qed.

Lemma create_planned_spec config ri s plan w :
  UploadState.length s = None -> fp_status plan = summary (fp_parts plan) ->
  wp (create_planned_upload config ri s plan) (fun r w' =>
    match r with
    | Ok c => final_created config plan w (cf_state c) w' /\ cf_status c = fp_status plan
    | Err _ => contained w w'
    | Panic => True
    end) (w : W).
Proof.
  intros Hlen Hsum. unfold create_planned_upload. cbv zeta. apply wp_bind, wp_done.
  destruct (enforce_final_upload_size config (fp_status plan)) as [[]|e|] eqn:Hsz;
    [|by apply same_contained|done].
  assert (forall total max, fs_total_length (fp_status plan) = Some total ->
    max_size config = Some max -> total <= max) as Hsize.
  { unfold enforce_final_upload_size in Hsz. intros total max Ht Hm. rewrite Ht, Hm in Hsz.
    by destruct (N.ltb_spec max total). }
  pose proof (apply_plan_planned plan s Hlen) as Hpl.
  set (s1 := cap_planned_final_upload_expiration _ _) in *. clearbody s1.
  apply wp_bind. wp_use run_gate_meta r w1 Hr. destruct Hr as [Hw1 Hpo].
  destruct r as [po|e|]; [|by apply same_contained|done].
  assert (planned plan (po_state po)) as Hpl1 by (by eapply planned_regated, Hpo). clear Hpl Hpo s1.
  apply wp_bind.
  eapply (wp_mono _ (fun r w' => same w w')).
  { destruct (fs_all_complete (fp_status plan)); [|by apply wp_done].
    wp_use same_finish_gate r w2 Hw2. by transitivity w1. }
  intros r w2 Hw2. destruct r as [[]|e|]; [|by apply same_contained|done].
  apply wp_bind. wp_use create_object_spec r w3 Hr. destruct Hr as [Hr3 Hb3].
  destruct Hw2 as [Hb2 Hr2]. rewrite Hb2 in Hb3. rewrite Hr2 in Hr3.
  destruct r as [h|e|]; [|by apply same_contained|done]. destruct Hb3 as [_ Hb3].
  set (s3 := UploadState.set_storage_handle h (po_state po)).
  assert (UploadState.storage_handle s3 = Some h) as Hh by apply UploadState.storage_handle_set.
  assert (planned plan s3) as Hpl3 by by apply planned_handle.
  assert (contained_at (handle_key h) w w3) as Hc3.
  { split; [intros; congruence|]. intros k Hk. by rewrite Hb3, lookup_insert_ne. }
  apply wp_bind. eapply (wp_mono _ (fun r w' =>
    match r with
    | Ok s4 => exists h' content, UploadState.storage_handle s4 = Some h' /\
        handle_key h' = handle_key h /\ planned plan s4 /\ recs w' = recs w /\
        bytes_of w' = <[handle_key h := content]> (bytes_of w) /\
        if fs_all_complete (fp_status plan)
        then concatenation (fp_parts plan) (<[handle_key h := []]> (bytes_of w)) content
        else content = []
    | Err _ => contained w w'
    | Panic => True
    end)).
  { rewrite Hsum, summary_ready. cbn [summary fs_all_complete].
    destruct (forallb UploadState.is_complete (fp_parts plan)).
    - apply wp_bind, wp_attempt. wp_use (materialize_spec s3 h (fp_parts plan) w3 Hh) r w4 Hr.
      destruct Hr as [Hr4 Hr]. destruct r as [s4|e|]; [| |done].
      + apply wp_done. destruct Hr as (h' & c & -> & Hk & Hc & Hb4). exists h', c.
        split_and!; [apply (UploadState.storage_handle_set h' s3)|done|by apply planned_handle|congruence| |].
        * by rewrite Hb4, Hb3, insert_insert_eq.
        * by rewrite <- Hb3.
      + assert (contained_at (handle_key h) w w4) as Hc4.
        { destruct Hc3. split; [intros; rewrite Hr4; auto|intros; rewrite Hr; auto]. }
        apply wp_bind. wp_use (rollback_final_spec s3 h w w4 Hh Hc4) r w5 Hc5.
        destruct r as [[]|e'|]; [apply wp_done| |done]; by exists (handle_key h).
    - apply wp_done. by exists h, []. }
  intros r w4 Hr. destruct r as [s4|e|]; [|done..].
  destruct Hr as (h' & c & Hh4 & Hk & Hpl4 & Hr4 & Hb4 & Hcontent).
  apply wp_bind, wp_attempt. wp_use create_record_spec r w5 Hr. destruct Hr as [Hb5 Hr5].
  destruct r as [[]|e|]; [| |done].
  2: { assert (contained_at (handle_key h') w w5) as Hc5.
       { rewrite Hk. split; [intros; congruence|]. intros k Hne.
         by rewrite Hb5, Hb4, lookup_insert_ne. }
       apply wp_bind. wp_use (rollback_final_spec s4 h' w w5 Hh4 Hc5) r w6 Hc6.
       destruct r as [[]|e'|]; [apply wp_done| |done]; by exists (handle_key h'). }
  destruct Hr5 as [Hfresh Hr5]. rewrite Hr4 in Hfresh, Hr5.
  assert (final_created config plan w s4 w5) as Hcr.
  { destruct Hpl4. split; try done. exists h', c. rewrite Hk. split_and!; [done|congruence|done]. }
  apply hook_then; [|done]. intros w6 Hw6.
  assert (final_created config plan w s4 w6) as Hcr6 by by eapply final_created_same.
  destruct (fs_all_complete (fp_status plan)).
  - apply hook_then; [|done]. intros w7 Hw7. apply wp_done. split; [by eapply final_created_same|done].
  - by apply wp_bind, wp_done, wp_done.
Qed.

(** ** The handler: the plan is made again once the parts are locked *)

Lemma drop_guards_same gs (w : W) : same w (drop_guards gs w).
Proof.
  revert w. induction gs as [|g gs IH]; intros w; cbn; [done|].
  transitivity (set_locks (drop_guard g (w_locks w)) w); [done|apply IH].
Qed.

Lemma contained_after (w w1 w' : W) : same w w1 -> contained w1 w' -> contained w w'.
Proof.
  intros [Hb Hr] (key & Hcr & Hcb). exists key. split.
  - intros id s Hs. apply Hcr. congruence.
  - intros k Hk. rewrite <- Hb. by apply Hcb.
Qed.

Lemma contained_before (w w1 w' : W) : contained w w1 -> same w1 w' -> contained w w'.
Proof.
  intros (key & Hcr & Hcb) [Hb Hr]. exists key. split.
  - intros id s Hs. rewrite Hr. auto.
  - intros k Hk. rewrite Hb. by apply Hcb.
Qed.

Lemma final_created_after config plan (w w1 : W) s w' :
  same w w1 -> final_created config plan w1 s w' -> final_created config plan w s w'.
Proof. intros [Hb Hr] []. rewrite <- ?Hb, <- ?Hr in *. split; try done; by rewrite <- ?Hb, <- ?Hr. Qed.

Lemma plan_of_after config urls (w w1 : W) plan :
  same w w1 -> plan_of config urls w1 plan -> plan_of config urls w plan.
Proof. intros [_ Hr] []. split; try done. by rewrite <- Hr. Qed.

Lemma same_lock_parts ids : keeps (X:=W) same (lock_parts ids).
Proof.
  unfold lock_parts. generalize (dedup (sort_strings ids)) as l. intros l.
  generalize (@nil LockGuard). induction l as [|id l IH]; intros gs w; cbn [lock_parts_loop].
  { by apply wp_done. }
  apply wp_bind, wp_attempt. eapply wp_mono; [apply same_locks|].
  cbv beta. intros r w1 Hw1.
  destruct r as [[g|]|e|]; [| | |done].
  - wp_use IH r w2 Hw2. by transitivity w1.
  - apply wp_bind, wp_act, wp_done. transitivity w1; [done|apply drop_guards_same].
  - apply wp_bind, wp_act, wp_done. transitivity w1; [done|apply drop_guards_same].
Qed.

Definition final_created_from (config : Config) (urls : list string) (w : W)
    (c : CreatedFinalUpload) (w' : W) : Prop :=
  exists plan, plan_of config urls w plan /\ final_created config plan w (cf_state c) w' /\
    cf_status c = fp_status plan.

Lemma create_final_spec config ri s urls w :
  UploadState.length s = None ->
  wp (create_final_upload config ri s urls) (fun r w' =>
    match r with
    | Ok c => final_created_from config urls w c w'
    | Err _ => contained w w'
    | Panic => True
    end) (w : W).
Proof.
  intros Hlen. unfold create_final_upload. apply wp_bind. wp_use load_final_plan_spec r w1 Hr.
  destruct Hr as (Hw1 & _ & Hplan). destruct r as [plan|e|]; [|by apply same_contained|done].
  specialize (Hplan _ eq_refl). destruct (ready_to_materialize (fp_status plan)).
  - apply wp_bind. wp_use same_lock_parts r w2 Hw2. assert (same w w2) as Hw by by transitivity w1.
    destruct r as [gs|e|]; [|by apply same_contained|done].
    apply wp_finally, wp_bind. wp_use load_final_plan_spec r w3 Hr.
    destruct Hr as (Hw3 & _ & Hplan3). assert (same w w3) as Hw' by by transitivity w2.
    destruct r as [plan3|e|]; [| |done].
    2: { apply same_contained. transitivity w3; [done|apply drop_guards_same]. }
    specialize (Hplan3 _ eq_refl). apply (plan_of_after _ _ w) in Hplan3; [|done].
    wp_use create_planned_spec r w4 Hr; [done|apply (po_status _ _ _ _ Hplan3)|].
    destruct r as [c|e|]; [| |done].
    + destruct Hr as [Hr Hst]. exists plan3. split_and!; [done| |done].
      eapply final_created_same; [by eapply final_created_after|apply drop_guards_same].
    + eapply contained_before; [by eapply contained_after|apply drop_guards_same].
  - wp_use create_planned_spec r w2 Hr; [done|apply (po_status _ _ _ _ Hplan)|].
    destruct r as [c|e|]; [| |done].
    + destruct Hr as [Hr Hst]. exists plan. split_and!; [done|by eapply final_created_after|done].
    + by eapply contained_after.
Qed.

(** ** POST *)

(** What a successful POST created. *)
Definition post_succeeded (config : Config) (headers : Headers) (body : RequestBody) (w : W)
    (resp : Response) (w' : W) : Prop :=
  let rq := CreationRequest_from_headers headers (is_supplied body) in
  creation_allowed config rq /\
  match cq_upload_concat rq with
  | Some (Final urls) =>
      exists c, final_created_from config urls w c w' /\
        resp = final_upload_response config headers c
  | _ =>
      let with_upload := is_creation_with_upload config headers (is_supplied body) in
      exists s hs,
        created rq (if with_upload then body_content body else []) w s w' /\
        UploadState.id s = drawn w /\ resp = post_response config headers with_upload s hs
  end.

(** The same, with what is known of the headers that hooks added to a regular upload. *)
Definition post_succeeded_by (P : gmap string string -> Prop) (config : Config) (headers : Headers)
    (body : RequestBody) (w : W) (resp : Response) (w' : W) : Prop :=
  let rq := CreationRequest_from_headers headers (is_supplied body) in
  creation_allowed config rq /\
  match cq_upload_concat rq with
  | Some (Final urls) =>
      exists c, final_created_from config urls w c w' /\
        resp = final_upload_response config headers c
  | _ =>
      let with_upload := is_creation_with_upload config headers (is_supplied body) in
      exists s hs,
        created rq (if with_upload then body_content body else []) w s w' /\
        UploadState.id s = drawn w /\ resp = post_response config headers with_upload s hs /\ P hs
  end.

Lemma post_succeeded_any P config headers body w resp w' :
  post_succeeded_by P config headers body w resp w' -> post_succeeded config headers body w resp w'.
Proof.
  intros [Hok Hr]. split; [done|]. cbv zeta in *.
  destruct (cq_upload_concat _) as [[|urls]|]; [|done|]; destruct Hr as (s & hs & Hc & Hid & Hresp & _);
    by exists s, hs.
Qed.

(** What a failed one may have touched. *)
Definition post_contained (config : Config) (headers : Headers) (body : RequestBody) (w w' : W) : Prop :=
  let rq := CreationRequest_from_headers headers (is_supplied body) in
  same w w' \/
  (creation_allowed config rq /\ if wants_final rq then contained w w' else contained_in (drawn w) w w').

Lemma post_spec_by (P : gmap string string -> Prop) config headers body w :
  (forall ri s, yields (fun x => P x.2) (create_empty ri s : M W _)) ->
  (forall ri s, yields (fun x => P x.1) (receive_creation_with_upload config ri headers s body : M W _)) ->
  wp (post config headers body) (fun r w' =>
    match r with
    | Ok resp => post_succeeded_by P config headers body w resp w'
    | Err _ => post_contained config headers body w w'
    | Panic => True
    end) (w : W).
Proof.
  intros HPe HPu. unfold post, post_succeeded_by. cbv zeta. apply wp_bind, wp_done.
  destruct (if is_supplied body then _ else _) as [[]|e|]; [|by left|done].
  apply wp_bind. eapply wp_mono; [apply wp_and; [apply prepare_creation_spec|apply kept_prepare_creation]|].
  cbv beta. intros r w1 [[Hw1 Hr] Hkept].
  destruct r as [[s|s urls]|e|]; [| |by left|done].
  - destruct Hr as (Hok & Hnf & Hbl & Hid). apply wp_bind.
    eapply (wp_mono _ (fun r w' =>
      match r with
      | Ok (s', hs) => (created (CreationRequest_from_headers headers (is_supplied body))
          (if is_creation_with_upload config headers (is_supplied body)
           then body_content body else []) w1 s' w' /\ UploadState.id s' = UploadState.id s) /\ P hs
      | Err _ => contained_in (UploadState.id s) w1 w'
      | Panic => True
      end)).
    { destruct (is_creation_with_upload _ _ _).
      - apply wp_bind. eapply wp_mono; [apply wp_and; [by apply creation_with_upload_spec|apply HPu]|].
        cbv beta. intros r w2 [Hr HP]. destruct r as [[hs s']|e|]; [|done..]. apply wp_done.
        split; [done|]. by apply (HP _ eq_refl).
      - eapply wp_mono; [apply wp_and; [by apply create_empty_spec|apply HPe]|].
        cbv beta. intros r w2 [Hr HP]. destruct r as [[s' hs]|e|]; [|done..].
        split; [done|]. by apply (HP _ eq_refl). }
    intros r w2 Hr. destruct r as [[s' hs]|e|]; [| |done].
    2: { right. rewrite Hnf, <- Hid. split; [done|]. by eapply contained_in_after. }
    destruct Hr as [[Hr Hid'] HP]. apply wp_done. split; [done|].
    assert (created (CreationRequest_from_headers headers (is_supplied body))
      (if is_creation_with_upload config headers (is_supplied body)
       then body_content body else []) w s' w2) as Hcr.
    { by eapply created_after. }
    unfold wants_final in Hnf.
    destruct (cq_upload_concat _) as [[|urls]|]; [|done|]; exists s', hs; (split_and!; [done|congruence|done|done]).
  - destruct Hr as (Hok & Hc & Hbl). apply wp_bind.
    wp_use create_final_spec r w2 Hr.
    { rewrite (bl_length _ _ Hbl). by destruct (ca_final _ _ Hok) as [-> _]; [unfold wants_final; rewrite Hc|]. }
    destruct r as [c|e|]; [| |done].
    2: { right. unfold wants_final. rewrite Hc. split; [done|]. by eapply contained_after. }
    apply wp_done. split; [done|]. rewrite Hc. exists c. split; [|done].
    destruct Hr as (plan & Hp & Hf & Hst). exists plan.
    split_and!; [by eapply plan_of_after|by eapply final_created_after|done].
Qed.

Lemma post_spec config headers body w :
  wp (post config headers body) (fun r w' =>
    match r with
    | Ok resp => post_succeeded config headers body w resp w'
    | Err _ => post_contained config headers body w w'
    | Panic => True
    end) (w : W).
Proof.
  eapply wp_mono; [apply (post_spec_by (fun _ => True))|].
  1-2: intros ri s w0; by apply wp_intro.
  intros [resp|e|] w' Hr; [by eapply post_succeeded_any|done..].
Qed.

(** C15: a successful POST created one record and one object, under a fresh id, as
    the request asked: with its bytes when it carried any, or as the
    concatenation of its parts. *)
Theorem post_success config headers body w resp w' :
  run (post config headers body) w = (Ok resp, w') ->
  post_succeeded config headers body (w : W) resp w'.
Proof. intros Hrun. exact (wp_run _ _ _ _ _ (post_spec config headers body w) Hrun). Qed.

(** C16: a failed POST loses nothing: every record that existed is unchanged, and
    at most one object differs. *)
Theorem post_failure config headers body w e w' :
  run (post config headers body) w = (Err e, w') -> contained (w : W) w'.
Proof.
  intros Hrun. pose proof (wp_run _ _ _ _ _ (post_spec config headers body w) Hrun) as Hp.
  destruct Hp as [Hs|[_ Hp]]; [by apply same_contained|].
  destruct (wants_final _); [done|by eapply contained_in_contained].
Qed.

(** The sizes of the parts add up to the size of the concatenation. *)
Lemma concatenation_size parts key (w : W) content :
  concatenation parts (<[key := []]> (bytes_of w)) content ->
  Forall (fun p => UploadState.length p = Some (stored_size p w) /\
    forall h, UploadState.storage_handle p = Some h -> handle_key h <> key) parts ->
  foldr N.add 0 (map (fun p => default 0 (UploadState.length p)) parts) = bytes_len content.
Proof.
  intros (hs & ds & Hhs & Hds & ->). revert hs ds Hhs Hds.
  induction parts as [|p ps IH]; intros hs ds Hhs Hds Hok; cbn in Hhs.
  { injection Hhs as <-. cbn in Hds. by injection Hds as <-. }
  apply Forall_cons in Hok as [[Hl Hk] Hok]. unfold UploadState.require_storage_handle in Hhs.
  destruct (UploadState.storage_handle p) as [h|] eqn:Hh; [|done]. cbn in Hhs.
  destruct (storage_handles ps) as [hs'|e|]; [|done..]. injection Hhs as <-.
  cbn in Hds. rewrite lookup_insert_ne in Hds by (intros ->; by apply (Hk h)).
  destruct (bytes_of w !! handle_key h) as [d|] eqn:Hd; cbn in Hds; [|done].
  destruct (mapM _ hs') as [ds'|] eqn:Hds'; cbn in Hds; [|done]. injection Hds as <-.
  cbn [map foldr concat]. rewrite (IH _ _ eq_refl Hds' Hok), Hl. unfold stored_size. rewrite Hh, Hd.
  cbn. by rewrite bytes_len_app.
Qed.

(** C17: a final upload names its parts in the order the client listed them; when
    they are complete its object is their bytes in that order, and when their
    records are exact its offset and length are the size of that object. *)
Theorem final_upload_concatenates config headers body urls w resp w' :
  h_upload_concat headers = Some (Final urls) ->
  run (post config headers body) w = (Ok resp, w') ->
  exists ids parts s h content,
    Forall2 (fun url id => extract_partial_id url (base_path config) = Some id) urls ids /\
    Forall2 (fun id p => recs (w : W) !! id = Some p /\ UploadState.is_partial p = true) ids parts /\
    recs w !! UploadState.id s = None /\ recs w' = <[UploadState.id s := s]> (recs w) /\
    UploadState.is_final s = true /\ UploadState.parts s = Some ids /\
    UploadState.storage_handle s = Some h /\ bytes_of w' !! handle_key h = Some content /\
    (forallb UploadState.is_complete parts = true ->
       concatenation parts (<[handle_key h := []]> (bytes_of w)) content /\
       (u64 (bytes_len content) ->
        Forall (fun p => UploadState.length p = Some (stored_size p w) /\
          forall h', UploadState.storage_handle p = Some h' -> handle_key h' <> handle_key h) parts ->
        UploadState.offset s = bytes_len content /\
        UploadState.length s = Some (bytes_len content))).
Proof.
  intros Hurls Hrun. pose proof (wp_run _ _ _ _ _ (post_spec config headers body w) Hrun) as Hp.
  destruct Hp as [_ Hp]. cbn in Hp. rewrite Hurls in Hp.
  destruct Hp as (c & (plan & [Hids Hparts Hst] & Hf & _) & _). destruct Hf.
  destruct fc_object0 as (h & content & Hh & Hb & Hcontent).
  exists (fp_part_ids plan), (fp_parts plan), (cf_state c), h, content.
  split_and!; try done.
  - eapply Forall2_impl; [exact Hparts|]. by intros id p (? & ? & _).
  - by rewrite Hb, lookup_insert_eq.
  - intros Hall. rewrite Hst in Hcontent, fc_length0, fc_offset0. cbn in Hcontent.
    rewrite Hall in Hcontent. split; [done|]. intros Hu Hexact.
    pose proof (concatenation_size _ _ _ _ Hcontent Hexact) as Hsum.
    rewrite fc_length0, fc_offset0. unfold expected_offset, summary. cbn.
    rewrite Hall, complete_all_known by done. cbn. unfold saturating_sum.
    by rewrite saturating_sum_exact, Hsum by (by rewrite Hsum).
Qed.
End create_final.
