(* ===== verification/ServerStore.v ===== *)
(** * The server as a store of uploads

    What a client can tell about a server: for every upload its declared length and its
    bytes ([held]).  The handlers, over any backends that keep their contracts, are
    refined to operations on that map: POST adds an upload under a new id, PATCH appends
    to one at its end, HEAD tells its size, and none touches another upload.  The
    configuration is without concatenation, deferred lengths and termination. *)

From S2P Require Import Prelude Text Errors Crates Config State Headers Hooks Backends Lifecycle.
From S2P Require Import Intake Receive FinalUpload Access Response Protocol Streaming Contracts.
From S2P Require Import Safety Effects PatchSpec HeadSpec RemovalSpec CreationSpec Invariant FinalSpec.
Local Open Scope string_scope.
Local Open Scope N_scope.
Local Open Scope prog_scope.

(** ** Names, ids and hooks *)

(** Hooks add headers of their own, not those that tell offsets and locations. *)
Definition plain_headers `{HttpLib} (hs : gmap string string) : Prop :=
  forall name v n, hs !! name = Some v -> header_name_try_from name = Some n ->
    n <> "upload-offset" /\ n <> "location".

Class PlainHooks (H : Type) `{HookExecutor H} `{HttpLib} := {
  execute_pre_plain ctx h :
    wp (execute_pre ctx) (fun r _ => forall x, r = Ok x -> plain_headers (ph_response_headers x)) h;
}.

(** A server of regular uploads of at most [m] bytes. *)
Record simple_config (config : Config) (m : N) : Prop := {
  sc_max : max_size config = Some m;
  sc_bound : m < u64_max;
  sc_concat : has_extension config Extension.Concatenation = false;
  sc_defer : has_extension config Extension.CreationDeferLength = false;
  sc_termination : has_extension config Extension.Termination = false;
}.

Section hook_headers.
Context `{HttpLaws} `{HashOrder}.
#[local] Set Default Proof Using "All".

Lemma plain_empty : plain_headers ∅.
Proof. intros name v n Hv. by rewrite lookup_empty in Hv. Qed.

Lemma plain_union hs hs' : plain_headers hs -> plain_headers hs' -> plain_headers (hs ∪ hs').
Proof.
  intros Ha Hb name v n [Hv|[_ Hv]]%lookup_union_Some_raw; [by eapply Ha|by eapply Hb].
Qed.

Lemma header_of_inserted name k v r :
  (forall n, header_name_try_from k = Some n -> n <> name) ->
  header_of name (with_header k v r) = header_of name r.
Proof.
  intros Hk. unfold with_header. destruct (header_name_try_from k) as [n|]; [|done].
  destruct (header_value_from_str v); [done|]. unfold header_of, get_str. cbn.
  rewrite header_get_insert_ne; [done|]. by apply Hk.
Qed.

Lemma header_of_hooks name hs r :
  plain_headers hs -> name = "upload-offset" \/ name = "location" ->
  header_of name (with_hook_headers hs r) = header_of name r.
Proof.
  intros Hp Hn. unfold with_hook_headers.
  assert (forall kv, kv ∈ hash_iter hs -> hs !! kv.1 = Some kv.2) as Hin.
  { intros [k v] Hkv. rewrite hash_iter_perm in Hkv. by apply elem_of_map_to_list in Hkv. }
  revert r Hin. induction (hash_iter hs) as [|[k v] l IH]; intros r Hin; [done|]. cbn [foldl fst snd].
  rewrite IH by (intros kv Hkv; apply Hin; by right). apply header_of_inserted. intros n Hk ->.
  destruct (Hp k v name (Hin (k, v) ltac:(by left)) Hk) as [? ?]. by destruct Hn.
Qed.
End hook_headers.

Section plain.
Context {S St L H E : Type}.
Context `{!Storage S, !StateStore St, !Locker L, !Env E}.
Context `{HttpLaws, Base64, Digests, PercentEncoding, Chrono, HashOrder}.
Context `{!HookExecutor H} `{!PlainHooks H}.
Local Abbreviation W := (World S St L H E).
#[local] Set Default Proof Using "All".

Lemma gate_plain g ri s :
  yields (fun po => plain_headers (po_response_headers po)) (run_gate g ri s : M W _).
Proof.
  unfold run_gate. eapply (yields_then (fun x => plain_headers (ph_response_headers x))).
  - intros w. apply wp_on_hooks. wp_use execute_pre_plain r h Hr. done.
  - intros x Hx. destruct (negb _); apply yields_done; [done|]. intros po [= <-]. cbn.
    destruct (propagate_response_headers _); [done|apply plain_empty].
Qed.

Lemma yields_lift {T X A} (P : A -> Prop) (m : M X A) : yields P m -> yields (X:=T * X) P (lift m).
Proof. intros Hm [t w]. apply wp_lift. by wp_use Hm r w' Hr. Qed.

Lemma yields_borrow {T X A} (P : A -> Prop) (t : T) (m : M (T * X) A) :
  yields P m -> yields (X:=X) (fun x => P x.1) (borrow t m).
Proof.
  intros Hm w. apply wp_borrow. wp_use Hm r tw Hr. destruct tw as [t' w']. intros x Hx.
  destruct r as [a|e|]; [|done..]. cbn in Hx. injection Hx as <-. by apply Hr.
Qed.

Lemma body_plain config ri headers body kind :
  yields (fun p => plain_headers (pr_response_headers p))
    (prepare_receive_body config ri headers body kind : M (UploadState * W) _).
Proof.
  unfold prepare_receive_body. apply yields_bind. intros s.
  eapply yields_then; [apply yields_lift, gate_plain|]. intros po Hpo. cbv zeta.
  apply yields_bind. intros _. apply yields_bind. intros s'. apply yields_bind. intros ib.
  apply yields_bind. intros _. apply yields_bind. intros p. apply yields_done. by intros a [= <-].
Qed.

Lemma receive_patch_plain config ri headers rq body :
  yields plain_headers (receive_patch config ri headers rq body : M (UploadState * W) _).
Proof.
  unfold receive_patch. apply yields_bind. intros _. eapply yields_then; [apply body_plain|].
  intros p Hp. cbv zeta. apply yields_bind. intros _. apply yields_bind. intros s.
  apply yields_bind. intros _. apply yields_bind. intros _. apply yields_done. by intros a [= <-].
Qed.

Lemma create_empty_plain ri s : yields (fun x => plain_headers x.2) (create_empty ri s : M W _).
Proof.
  unfold create_empty. eapply yields_then; [apply gate_plain|]. intros po Hpo. cbv zeta.
  apply yields_bind. intros h. apply yields_bind. intros [e|[]]; [by yields|].
  apply yields_bind. intros _. apply yields_bind. intros _. apply yields_bind. intros _.
  apply yields_done. by intros a [= <-].
Qed.

Lemma creation_plain config ri headers s body :
  yields (fun x => plain_headers x.1) (receive_creation_with_upload config ri headers s body : M W _).
Proof.
  unfold receive_creation_with_upload. eapply yields_then; [apply gate_plain|]. intros po Hpo.
  apply yields_borrow. unfold receive_initial_bytes. eapply yields_then; [apply body_plain|].
  intros p Hp. cbv zeta. pose proof (plain_union _ _ Hp Hpo) as Hu.
  apply yields_bind. intros s1. apply yields_bind. intros h. apply yields_bind. intros _.
  apply yields_bind. intros s2. apply yields_bind. intros [e|[]]; [by yields|].
  apply yields_bind. intros c. apply yields_bind. intros s3. destruct c as [e|[]]; [by yields|].
  apply yields_bind. intros _. apply yields_bind. intros _. apply yields_bind. intros _.
  apply yields_bind. intros _. apply yields_done. by intros a [= <-].
Qed.
End plain.

Section store.
Context {S St L H E : Type}.
Context `{StorageLaws S, StateStoreLaws St, LockerLaws L, HookLaws H, !Env E}.
Context `{HttpLaws, Base64, Digests, PercentEncoding, Chrono, HashOrder}.
Context `{!PlainHooks H}.
Context (config : Config) (m : N) (simple : simple_config config m).
Local Abbreviation W := (World S St L H E).
#[local] Set Default Proof Using "All".

(** ** Records *)

Record regular (s : UploadState) : Prop := {
  rg_final : UploadState.is_final s = false;
  rg_handle : is_Some (UploadState.storage_handle s);
  rg_length : exists l, UploadState.length s = Some l /\ l <= m /\ UploadState.offset s <= l;
}.

(** The object that a record names. *)
Definition object_key (s : UploadState) : option string :=
  handle_key <$> UploadState.storage_handle s.

Lemma object_key_some s k : object_key s = Some k -> is_Some (UploadState.storage_handle s).
Proof using Type. unfold object_key. by destruct (UploadState.storage_handle s). Qed.

Lemma object_key_handle s h : UploadState.storage_handle s = Some h -> object_key s = Some (handle_key h).
Proof using Type. unfold object_key. by intros ->. Qed.

#[local] Instance regular_recorded : Recorded regular config.
Proof.
  assert (forall s s', object_key s' = object_key s -> is_Some (UploadState.storage_handle s) ->
    is_Some (UploadState.storage_handle s')) as Hkey.
  { intros s s' Hk [h Hh]. apply (object_key_some _ (handle_key h)). rewrite Hk. by apply object_key_handle. }
  split.
  - intros s n [Hf Hh (l & Hl & Hm & _)] Hn. split; [done..|]. exists l. split_and!; [done..|]. by apply Hn.
  - intros s old content s' [Hf Hh (l & Hl & Hm & _)] Ha. split.
    + by rewrite (ac_final _ _ _ _ Ha).
    + by apply (Hkey s), Hh; apply (ac_handle _ _ _ _ Ha).
    + pose proof (ac_length _ _ _ _ Ha l Hl) as Hl'. exists l. split_and!; [done..|].
      by apply (ac_bound _ _ _ _ Ha).
  - intros s content s' [Hf Hh (l & Hl & Hm & _)] Ha. split.
    + by rewrite (ad_final _ _ _ Ha).
    + by apply (Hkey s), Hh; apply (ad_handle _ _ _ Ha).
    + pose proof (ad_length _ _ _ Ha l Hl) as Hl'. exists l. split_and!; [done..|].
      by apply (ad_bound _ _ _ Ha).
  - intros rq s h Hok Hbl. split.
    + exact (bl_final _ _ Hbl).
    + rewrite UploadState.storage_handle_set. by eexists.
    + assert (cq_upload_concat rq = None) as Hc.
      { destruct (cq_upload_concat rq) eqn:Hc; [|done]. pose proof (ca_concat _ _ Hok) as Hx.
        rewrite Hc, (sc_concat _ _ simple) in Hx. by specialize (Hx ltac:(done)). }
      assert (cq_upload_defer_length rq = false) as Hd.
      { destruct (cq_upload_defer_length rq) eqn:Hd; [|done]. pose proof (ca_defer _ _ Hok Hd) as Hx.
        by rewrite (sc_defer _ _ simple) in Hx. }
      destruct (cq_upload_length rq) as [l|] eqn:Hl.
      2: { destruct (ca_length _ _ Hok) as [_ Hx]; [unfold wants_final; by rewrite Hc|]. by destruct (Hx Hd). }
      exists l. cbn. rewrite (bl_length _ _ Hbl), (bl_offset _ _ Hbl). split_and!; [done| |lia].
      by apply (ca_size _ _ Hok l m Hl), (sc_max _ _ simple).
  - right. split; [apply (sc_concat _ _ simple)|]. by intros s [].
Qed.

(** The object of the upload [id], and the objects of all. *)
Definition key_in (w : W) (id : string) : option string := recs w !! id ≫= object_key.

Definition keys_of (w : W) : gset string :=
  list_to_set (omap (fun kv => object_key kv.2) (map_to_list (recs w))).

Lemma key_in_keys (w : W) id k : key_in w id = Some k -> k ∈ keys_of w.
Proof using Type.
  unfold key_in, keys_of. destruct (recs w !! id) as [s|] eqn:Hs; [|done]. cbn. intros Hk.
  apply elem_of_list_to_set, list_elem_of_omap. exists (id, s). split; [|done].
  by apply elem_of_map_to_list.
Qed.

(** No two uploads share an object. *)
Definition distinct (w : W) : Prop :=
  forall id id' k, key_in w id = Some k -> key_in w id' = Some k -> id = id'.

(** What the server keeps between requests. *)
Definition ready (w : W) : Prop := locker_inv (w_locks w) /\ store_of regular w /\ distinct w.

(** The names that the next upload gets are not in use. *)
Definition names_fresh (w : W) : Prop :=
  recs w !! drawn w = None /\ forall h, created_as w (drawn w) h -> handle_key h ∉ keys_of w.

(** Every upload keeps its object. *)
Definition keys_kept (w w' : W) : Prop := forall id, key_in w' id = key_in w id.

Lemma distinct_kept (w w' : W) : distinct w -> keys_kept w w' -> distinct w'.
Proof using Type. intros Hd Hk id id' k. rewrite !Hk. apply Hd. Qed.

Lemma keys_kept_same (w w' : W) : recs w' = recs w -> keys_kept w w'.
Proof using Type. intros Hr id. unfold key_in. by rewrite Hr. Qed.

Lemma keys_kept_insert (w w' : W) id s s' :
  recs w !! id = Some s -> recs w' = <[id := s']> (recs w) -> object_key s' = object_key s -> keys_kept w w'.
Proof using Type.
  intros Hs Hr Hk id'. unfold key_in. rewrite Hr. destruct (decide (id' = id)) as [->|Hne].
  - by rewrite lookup_insert_eq, Hs.
  - by rewrite lookup_insert_ne.
Qed.

(** A new upload has an object of its own. *)
Lemma distinct_new (w w' : W) id key :
  distinct w -> key ∉ keys_of w -> only_new id key w w' -> distinct w'.
Proof using Type.
  intros Hd Hkey Hn.
  assert (forall id' k, key_in w' id' = Some k -> key_in w id' = Some k \/ (id' = id /\ k = key)) as Hsplit.
  { intros id' k. unfold key_in. destruct (recs w' !! id') as [s'|] eqn:Hs; [|done]. cbn. intros Hk.
    destruct (Hn id' s' Hs) as [->|[-> Hs']]; [by left|right]. split; [done|]. unfold object_key in Hk. congruence. }
  intros id1 id2 k [H1'|[-> ->]]%Hsplit [H2'|[-> Hk]]%Hsplit; [by eapply Hd| | |done].
  - subst k. by apply key_in_keys in H1'.
  - by apply key_in_keys in H2'.
Qed.

(** ** The store *)

(** The declared length and the bytes of an upload. *)
Definition held_upload (w : W) (id : string) : option (N * bytes) :=
  s ← recs w !! id; l ← UploadState.length s; k ← object_key s; Some (l, default [] (bytes_of w !! k)).

Lemma held_regular (w : W) id s :
  store_of regular w -> recs w !! id = Some s ->
  exists l h, UploadState.length s = Some l /\ l <= m /\ UploadState.offset s <= l /\
    UploadState.id s = id /\ UploadState.is_final s = false /\
    UploadState.storage_handle s = Some h /\ key_in w id = Some (handle_key h) /\
    held_upload w id = Some (l, default [] (bytes_of w !! handle_key h)).
Proof using Type.
  intros Hw Hs. destruct (Hw id s Hs) as [Hid [Hf [h Hh] (l & Hl & Hm & Ho)]].
  exists l, h. split_and!; try done.
  - unfold key_in. rewrite Hs. by apply object_key_handle.
  - unfold held_upload. rewrite Hs. cbn. rewrite Hl. cbn. by rewrite (object_key_handle _ _ Hh).
Qed.

Lemma held_record (w : W) id x :
  held_upload w id = Some x -> exists s, recs w !! id = Some s.
Proof using Type. unfold held_upload. destruct (recs w !! id) as [s|]; [by exists s|done]. Qed.

Lemma held_other (w w' : W) id :
  recs w' !! id = recs w !! id ->
  (forall k, key_in w id = Some k -> bytes_of w' !! k = bytes_of w !! k) ->
  held_upload w' id = held_upload w id.
Proof using Type.
  intros Hr Hb. unfold held_upload, key_in in *. rewrite Hr. destruct (recs w !! id) as [s|]; [|done]. cbn in *.
  destruct (UploadState.length s); [|done]. cbn. destruct (object_key s) as [k|]; [|done]. cbn. by rewrite Hb.
Qed.

Lemma held_same (w w' : W) id : same w w' -> held_upload w' id = held_upload w id.
Proof using Type. intros [Hb Hr]. apply held_other; [by rewrite Hr|]. by intros k _; rewrite Hb. Qed.

Lemma regular_size (w : W) s h :
  UploadState.storage_handle s = Some h ->
  stored_size s w = bytes_len (default [] (bytes_of w !! handle_key h)).
Proof using Type. intros Hh. unfold stored_size. rewrite Hh. by destruct (bytes_of w !! _). Qed.

(** Bringing a record up to its bytes changes no length, no name and no byte. *)
Lemma held_brought_up (w w' : W) id s :
  store_of regular w -> recs w !! id = Some s -> bytes_of w' = bytes_of w -> brought_up s w w' ->
  keys_kept w w' /\ forall id', held_upload w' id' = held_upload w id'.
Proof using Type.
  intros Hw Hs Hb [Hr _]. destruct (held_regular w id s Hw Hs) as (l & h & Hl & _ & _ & Hid & _).
  rewrite Hid in Hr. split; [by eapply keys_kept_insert|]. intros id'.
  unfold held_upload. rewrite Hr, Hb. destruct (decide (id' = id)) as [->|Hne].
  - by rewrite lookup_insert_eq, Hs.
  - by rewrite lookup_insert_ne.
Qed.

(** ** PATCH *)

Definition touches_only (id : string) (w w' : W) : Prop :=
  forall id', id' <> id -> held_upload w' id' = held_upload w id'.

(** [content] was appended to the upload, at the offset that the request named. *)
Definition grew (headers : Headers) (id : string) (content : bytes) (w w' : W) : Prop :=
  exists l b, held_upload w id = Some (l, b) /\ h_upload_offset headers = Some (bytes_len b) /\
    held_upload w' id = Some (l, (b ++ content)%list).

(** The upload's object, extended, under a record with the same length and object. *)
Lemma held_appended (w w' : W) id s h old content :
  store_of regular w -> distinct w -> found id w s h old ->
  bytes_of w' = <[handle_key h := (old ++ content)%list]> (bytes_of w) ->
  (exists s', recs w' !! id = Some s' /\ UploadState.length s' = UploadState.length s /\
     object_key s' = object_key s) ->
  (forall id', id' <> id -> recs w' !! id' = recs w !! id') ->
  keys_kept w w' /\ touches_only id w w' /\
  exists l, held_upload w id = Some (l, old) /\ held_upload w' id = Some (l, (old ++ content)%list).
Proof.
  intros Hw Hd [Hs Hh Hold] Hb (s' & Hs' & Hl' & Hk') Hr.
  destruct (held_regular w id s Hw Hs) as (l & h0 & Hl & _ & _ & _ & _ & Hh0 & Hkey & Hheld).
  rewrite Hh in Hh0. injection Hh0 as <-. split_and!.
  - intros id'. destruct (decide (id' = id)) as [->|Hne]; unfold key_in; [|by rewrite Hr].
    by rewrite Hs, Hs'.
  - intros id' Hne. apply held_other; [by apply Hr|]. intros k Hk. rewrite Hb, lookup_insert_ne; [done|].
    intros <-. by apply Hne, (Hd id' id (handle_key h)).
  - exists l. rewrite Hheld, Hold. split; [done|]. unfold held_upload. rewrite Hs'. cbn.
    rewrite Hl', Hl, Hk', (object_key_handle _ _ Hh). cbn. by rewrite Hb, lookup_insert_eq.
Qed.

Lemma accounts_recs (w w' : W) s old content s' :
  accounts s old content s' -> recs w' = <[UploadState.id s := s']> (recs w) ->
  regular s -> UploadState.length s' = UploadState.length s /\ object_key s' = object_key s /\
  recs w' !! UploadState.id s = Some s' /\
  (forall id', id' <> UploadState.id s -> recs w' !! id' = recs w !! id').
Proof.
  intros Ha Hr [_ _ (l & Hl & _)]. split; [by rewrite (ac_length _ _ _ _ Ha l Hl), Hl|].
  split; [apply (ac_handle _ _ _ _ Ha)|].
  rewrite Hr. split; [by rewrite lookup_insert_eq|]. intros id' Hne. by rewrite lookup_insert_ne.
Qed.

Lemma brought_up_recs (w w' : W) s :
  brought_up s w w' ->
  recs w' !! UploadState.id s = Some (UploadState.set_offset (stored_size s w) s) /\
  (forall id', id' <> UploadState.id s -> recs w' !! id' = recs w !! id').
Proof.
  intros [Hr _]. rewrite Hr. split; [by rewrite lookup_insert_eq|].
  intros id' Hne. by rewrite lookup_insert_ne.
Qed.

Lemma patch_failed_store headers id content (w w' : W) :
  store_of regular w -> distinct w ->
  patch_failed (h_upload_offset headers) id content w w' ->
  keys_kept w w' /\ touches_only id w w' /\
  (held_upload w' id = held_upload w id \/ grew headers id content w w').
Proof.
  intros Hw Hd [Hs|s Hs Hb Hr|s h old Hf Ho Hb Hr].
  - split; [apply keys_kept_same, Hs|].
    split; [intros id' _; by apply held_same|left; by apply held_same].
  - destruct (held_brought_up w w' id s Hw Hs Hb Hr) as [Hk Hheld].
    split; [done|]. split; [intros id' _|left]; by apply Hheld.
  - pose proof (found_record _ _ _ _ _ Hf) as Hs. destruct (Hw id s Hs) as [Hid Hreg].
    destruct (held_appended w w' id s h old content Hw Hd Hf Hb) as (Hk & Ht & l & Hl & Hl').
    + destruct Hr as [Hr|[Hr|(s' & Ha & _ & Hr)]].
      * exists s. by rewrite Hr.
      * destruct (brought_up_recs _ _ _ Hr) as [Hs' _]. rewrite Hid in Hs'. by eexists.
      * destruct (accounts_recs _ _ _ _ _ _ Ha Hr Hreg) as (Hl & Hk & Hs' & _). rewrite Hid in Hs'. by exists s'.
    + intros id' Hne. rewrite <- Hid in Hne. destruct Hr as [Hr|[Hr|(s' & Ha & _ & Hr)]].
      * by rewrite Hr.
      * by apply (brought_up_recs _ _ _ Hr).
      * by apply (accounts_recs _ _ _ _ _ _ Ha Hr Hreg).
    + split; [done|]. split; [done|]. right. by exists l, old.
Qed.

Lemma patch_response_offset s hs :
  plain_headers hs ->
  header_of "upload-offset" (patch_response config s hs) = Some (u64_to_string (UploadState.offset s)) /\
  rs_status (patch_response config s hs) = 204.
Proof.
  intros Hp. unfold patch_response. rewrite header_of_hooks, hook_headers_status by auto.
  rewrite expires_other by done. rewrite header_of_set by (done || apply u64_to_string_visible).
  split; [done|]. unfold upload_expires_header. by repeat case_match; rewrite ?with_header_status.
Qed.

(** A request that cannot panic and leaves every upload its object. *)
Lemma ready_after {A} (prog : M W A) w r w' :
  safe (fun w => locker_inv (w_locks w)) prog -> sound_after regular prog -> ready w ->
  run prog w = (r, w') -> r <> Panic /\ store_of regular w' /\ (keys_kept w w' -> ready w').
Proof.
  intros Hs Hk (Hl & Hw & Hd) Hrun. destruct (wp_run _ _ _ _ _ (Hs w Hl) Hrun) as [Hnp Hl'].
  destruct (wp_run _ _ _ _ _ (Hk w Hw) Hrun) as [?|Hw']; [done|]. split_and!; [done..|].
  intros Hkeys. split_and!; [done..|]. by eapply distinct_kept.
Qed.

(** A PATCH: the upload grew, or nothing changed; when it succeeds it grew, and the
    response tells its size. *)
Lemma patch_store headers id body (w : W) r w' :
  ready w -> run (patch config headers id body) w = (r, w') -> bytes_len (body_content body) <= u64_max ->
  r <> Panic /\ ready w' /\ touches_only id w w' /\
  (held_upload w' id = held_upload w id \/ grew headers id (body_content body) w w') /\
  (forall resp, r = Ok resp -> grew headers id (body_content body) w w' /\ rs_status resp = 204 /\
     exists l b', held_upload w' id = Some (l, b') /\ bytes_len b' <= u64_max /\
       header_of "upload-offset" resp = Some (u64_to_string (bytes_len b'))).
Proof.
  intros Hrd Hrun Hmax.
  destruct (ready_after _ _ _ _ (safe_patch config headers id body) (patch_sound regular config config headers id body) Hrd Hrun)
    as (Hnp & Hw' & Hrd'). destruct Hrd as (Hinv & Hw & Hd).
  split; [done|].
  pose proof (wp_run _ _ _ _ _ (patch_spec_by plain_headers config headers id body w
    (fun ri rq => receive_patch_plain config ri headers rq body)) Hrun) as Hspec. cbn in Hspec.
  destruct r as [resp|e|]; [| |done].
  2: { destruct (patch_failed_store _ _ _ _ _ Hw Hd Hspec) as (Hk & Ht & Hg). split_and!; [by apply Hrd'|done..]. }
  destruct Hspec as (s & h & old & s' & hs & Hf & Ho & _ & Hb & Ha & Hr & -> & Hp).
  pose proof (found_record _ _ _ _ _ Hf) as Hs. destruct (Hw id s Hs) as [Hid Hreg].
  destruct (accounts_recs _ _ _ _ _ _ Ha Hr Hreg) as (Hl & Hk & Hs' & Hother). rewrite Hid in *.
  destruct (held_appended w w' id s h old (body_content body) Hw Hd Hf Hb) as (Hkeys & Ht & l & Hheld & Hheld');
    [by exists s'|done|]. split; [by apply Hrd'|].
  assert (grew headers id (body_content body) w w') as Hg by (by exists l, old).
  split; [done|]. split; [by right|]. intros resp [= <-]. split; [done|].
  destruct (patch_response_offset s' hs Hp) as [Hho Hst]. split; [done|].
  exists l, (old ++ body_content body)%list. split; [done|].
  destruct (held_regular w' id s' Hw' Hs') as (l' & _ & _ & Hm & Hol & _).
  assert (UploadState.offset s' = bytes_len (old ++ body_content body)) as Hoff.
  { rewrite (ac_offset _ _ _ _ Ha Hmax), bytes_len_app. apply saturating_add_exact. unfold u64.
    pose proof (sc_bound _ _ simple) as Hbound. rewrite (ac_offset _ _ _ _ Ha Hmax) in Hol.
    unfold saturating_add in Hol. lia. }
  rewrite <- Hoff. split; [|done]. pose proof (sc_bound _ _ simple). lia.
Qed.

(** ** HEAD *)

(** The response states the offset [n]. *)
Definition tells (n : N) (resp : Response) : Prop :=
  parse_u64_header (rs_headers resp) "upload-offset" = Ok (Some n).

Lemma locked_absent {A} id (body : UploadState -> M W A) (w : W) :
  recs w !! id = None ->
  wp (with_locked_upload config id body) (fun r w' => r = Panic \/ same w w' /\ is_ok r = false) w.
Proof.
  intros Hn. apply with_locked_upload_spec.
  - intros s w1 Hs. congruence.
  - intros e w' Hs. by right.
  - by left.
  - intros r l w' [?|[Hs Hr]]; [by left|right]. by split.
Qed.

Lemma head_store id (w : W) r w' :
  ready w -> run (head config id) w = (r, w') ->
  r <> Panic /\ ready w' /\ (forall id', held_upload w' id' = held_upload w id') /\
  (forall resp, r = Ok resp -> rs_status resp = 200 /\
     exists l b, held_upload w id = Some (l, b) /\ tells (bytes_len b) resp).
Proof.
  intros Hrd Hrun.
  destruct (ready_after _ _ _ _ (safe_head config id) (head_sound regular config config id) Hrd Hrun) as (Hnp & _ & Hrd').
  pose proof (proj1 (proj2 Hrd)) as Hw. split; [done|].
  destruct (recs w !! id) as [s|] eqn:Hs.
  2: { destruct (wp_run _ _ _ _ _ (locked_absent id _ w Hs) Hrun) as [?|[Hsame Hr]]; [done|].
       split; [by apply Hrd', keys_kept_same, Hsame|]. split; [intros id'; by apply held_same|]. by intros resp ->. }
  destruct (held_regular w id s Hw Hs) as (l & h & Hl & Hm & Ho & Hid & Hfin & Hh & _ & Hheld).
  pose proof (regular_size w s h Hh) as Hsz.
  pose proof (wp_run _ _ _ _ _ (head_spec config id s w Hs Hfin) Hrun) as Hspec. cbn in Hspec.
  assert (observed s w w' -> keys_kept w w' /\ forall id', held_upload w' id' = held_upload w id') as Hobs.
  { intros [Hb [Hr|Hbr]]; [|by eapply held_brought_up].
    split; [by apply keys_kept_same|]. intros id'. by apply held_same. }
  destruct r as [resp|e|]; [|destruct (Hobs Hspec); split_and!; [by apply Hrd'|done..]|done].
  destruct Hspec as (Hob & Hrep & Hbound). destruct (Hobs Hob) as [Hk Hu]. split; [by apply Hrd'|].
  split; [done|]. intros resp' [= <-].
  split; [apply (rp_status _ _ _ Hrep)|]. exists l, (default [] (bytes_of w !! handle_key h)).
  split; [done|]. unfold tells. rewrite <- Hsz. apply (rp_offset _ _ _ Hrep).
  pose proof (sc_bound _ _ simple). destruct Hbound as [->|Hbound]; [lia|]. specialize (Hbound l Hl). lia.
Qed.

(** ** DELETE, without the Termination extension *)

Lemma delete_store headers id (w : W) :
  run (delete_upload config headers id) w = (Err (Error.ExtensionNotSupported "termination"), w).
Proof. unfold delete_upload. by rewrite (sc_termination _ _ simple). Qed.

(** ** POST *)

(** Uploads that were there keep their bytes. *)
Definition all_held (w w' : W) : Prop :=
  forall id x, held_upload w id = Some x -> held_upload w' id = Some x.

Lemma held_contained (w w' : W) key :
  key ∉ keys_of w -> contained_at key w w' -> all_held w w'.
Proof.
  intros Hkey [Hr Hb] id x Hx. destruct (held_record w id x Hx) as [s Hs].
  rewrite (held_other w w'); [done|by rewrite Hs; apply Hr|]. intros k Hk%key_in_keys. apply Hb. by intros ->.
Qed.

Lemma held_created (w w' : W) id s h content :
  store_of regular w' -> recs w !! id = None -> handle_key h ∉ keys_of w -> UploadState.id s = id ->
  UploadState.storage_handle s = Some h -> recs w' = <[UploadState.id s := s]> (recs w) ->
  bytes_of w' = <[handle_key h := content]> (bytes_of w) ->
  only_new id (handle_key h) w w' /\ all_held w w' /\
  exists l, UploadState.length s = Some l /\ held_upload w' id = Some (l, content).
Proof.
  intros Hw' Hn Hkey Hid Hh Hr Hb. rewrite Hid in Hr. split_and!.
  - eapply only_new_insert; [exact Hr|by apply object_key_handle].
  - by eapply held_contained, contained_insert.
  - assert (recs w' !! id = Some s) as Hs by (by rewrite Hr, lookup_insert_eq).
    destruct (held_regular w' id s Hw' Hs) as (l & h' & Hl & _ & _ & _ & _ & Hh' & _ & Hheld).
    exists l. split; [done|]. rewrite Hh in Hh'. injection Hh' as <-. by rewrite Hheld, Hb, lookup_insert_eq.
Qed.

Lemma post_response_headers headers with_upload s hs :
  plain_headers hs ->
  let resp := post_response config headers with_upload s hs in
  rs_status resp = 201 /\
  header_of "upload-offset" resp =
    (if with_upload then Some (u64_to_string (UploadState.offset s)) else None) /\
  (forall v, header_of "location" resp = Some v -> v = location config headers s).
Proof.
  intros Hp. cbv zeta. unfold post_response. cbv zeta.
  rewrite !header_of_hooks, hook_headers_status, !expires_other by auto.
  assert (forall r, rs_status (upload_expires_header config s r) = rs_status r) as Hst.
  { intros r. unfold upload_expires_header. by repeat case_match; rewrite ?with_header_status. }
  assert (forall v, header_of "location" (with_header "location" (location config headers s) (Response_new 201)) = Some v ->
    v = location config headers s) as Hloc.
  { intros v. unfold with_header. rewrite header_name_lower by done.
    destruct (header_value_from_str _) eqn:Hv; [by rewrite header_of_new by done|].
    unfold header_of, get_str. cbn. rewrite header_get_insert_eq.
    rewrite (header_from_to_str _ _ Hv). by intros [= <-]. }
  rewrite Hst. destruct with_upload.
  - rewrite with_header_status, header_of_set by (done || apply u64_to_string_visible).
    rewrite with_header_status. split_and!; [done|done|].
    rewrite header_of_other by done. exact Hloc.
  - rewrite with_header_status, header_of_other, header_of_new by done. by split_and!.
Qed.

(** What a creation has answered: the new upload has the declared length and nothing, or
    the request's bytes; its place is that of the drawn id. *)
Definition answers_creation (headers : Headers) (body : RequestBody) (w w' : W) (resp : Response) : Prop :=
  rs_status resp = 201 /\
  (forall v, header_of "location" resp = Some v ->
     v = upload_url config (drawn w) (Headers_base_url headers config)) /\
  exists l content, h_upload_length headers = Some l /\ held_upload w' (drawn w) = Some (l, content) /\
    ((content = [] /\ header_of "upload-offset" resp = None) \/
     (content = body_content body /\ tells (bytes_len content) resp)).

(** A POST: a new upload under the names drawn for it, or none; every other keeps its
    bytes. *)
Lemma post_store headers body (w : W) r w' :
  ready w -> names_fresh w -> run (post config headers body) w = (r, w') ->
  bytes_len (body_content body) <= u64_max ->
  ready w' /\ all_held w w' /\
  (forall resp, r = Ok resp -> answers_creation headers body w w' resp).
Proof.
  intros (Hinv & Hw & Hd) [Hn Hnames] Hrun Hmax.
  destruct (wp_run _ _ _ _ _ (post_panic config headers body w Hinv) Hrun) as [Hpanic Hinv'].
  pose proof (wp_run _ _ _ _ _ (post_sound regular config headers body w Hw) Hrun) as Hsound.
  pose proof (wp_run _ _ _ _ _ (post_spec_by plain_headers config headers body w
    create_empty_plain (fun ri s => creation_plain config ri headers s body)) Hrun) as Hspec. cbn in Hspec.
  assert (forall rq, creation_allowed config rq -> cq_upload_concat rq = None) as Hnc.
  { intros rq Hok. destruct (cq_upload_concat rq) eqn:Hc; [|done]. pose proof (ca_concat _ _ Hok) as Hx.
    rewrite Hc, (sc_concat _ _ simple) in Hx. by specialize (Hx ltac:(done)). }
  destruct r as [resp|e|].
  3: { destruct (Hpanic eq_refl) as [_ ->]. split; [exact (conj Hinv (conj Hw Hd))|]. split; [by intros id x|done]. }
  all: destruct Hsound as [?|Hw']; [done|].
  all: assert (same w w' -> ready w' /\ all_held w w') as Hsame.
  1, 3: intros Hs; split; [|intros id x; by rewrite (held_same w w')];
    split; [done|split; [done|]]; eapply distinct_kept, keys_kept_same, Hs; done.
  2: { destruct Hspec as [Hs|[Hok Hc]].
       { destruct (Hsame Hs). by split_and!. }
       unfold wants_final in Hc. rewrite (Hnc _ Hok) in Hc.
       destruct Hc as [Hs|(h & Has & Hc & Hnew)].
       { destruct (Hsame Hs). by split_and!. }
       apply Hnames in Has. split; [|split; [by eapply held_contained|done]].
       split; [done|]. split; [done|]. by eapply distinct_new. }
  destruct Hspec as [Hok Hspec]. cbv zeta in Hspec. rewrite (Hnc _ Hok) in Hspec.
  destruct Hspec as (s & hs & Hcr & Hid & -> & Hp).
  destruct (cr_object _ _ _ _ _ Hcr) as (h & Hh & Hb).
  assert (handle_key h ∉ keys_of w) as Hkey.
  { destruct (cr_named _ _ _ _ _ Hcr) as (h0 & Has & Hk). rewrite Hh in Hk. cbn in Hk. injection Hk as ->.
    apply Hnames. by rewrite <- Hid. }
  destruct (held_created w w' (drawn w) s h _ Hw' Hn Hkey Hid Hh (cr_record _ _ _ _ _ Hcr) Hb)
    as (Hnew & Hkept & l & Hl & Hheld).
  split; [split; [done|split; [done|by eapply distinct_new]]|].
  split; [done|]. intros resp [= <-].
  destruct (post_response_headers headers (is_creation_with_upload config headers (is_supplied body)) s hs Hp)
    as (Hst & Ho & Hloc).
  split; [done|]. split; [intros v Hv; rewrite (Hloc v Hv); unfold location; by rewrite Hid|].
  pose proof (cr_length _ _ _ _ _ Hcr) as Hlen. rewrite Hl in Hlen. cbn in Hlen.
  eexists l, _. split; [done|]. split; [exact Hheld|].
  destruct (is_creation_with_upload _ _ _); [right|by left]. split; [done|]. unfold tells.
  rewrite <- (cr_offset _ _ _ _ _ Hcr Hmax). apply parse_header_of; [|done].
  by rewrite (cr_offset _ _ _ _ _ Hcr Hmax).
Qed.
End store.
