(* ===== verification/HookSpec.v ===== *)
(** * The hook chain

    A chain behaves as its hooks in sequence: each pre-hook sees the metadata the
    earlier ones left, response headers accumulate with the later ones winning,
    the first rejection is the chain's answer, and a post-hook's failure stops
    nothing. *)

From S2P Require Import Prelude Text Errors Crates Config State Headers Hooks Backends Lifecycle.
Local Open Scope string_scope.
Local Open Scope N_scope.
Local Open Scope prog_scope.

Section chain.
Context {H : Type}.
Implicit Types (ctx : HookContext) (c : HookChain H) (h : H).

(** The context the hooks after [r] see. *)
Definition context_after (ctx : HookContext) (r : PreHookResult) : HookContext := {|
  hc_event := hc_event ctx;
  hc_upload := match ph_metadata r with
               | Some m => HookUpload_set_metadata m (hc_upload ctx)
               | None => hc_upload ctx
               end;
  hc_request := hc_request ctx;
|}.

(** The answer of a chain whose first part answered [r1] and whose rest
    answered [r2]. *)
Definition result_after (r1 r2 : PreHookResult) : PreHookResult := {|
  ph_proceed := ph_proceed r2;
  ph_metadata :=
    if ph_proceed r2 then
      match ph_metadata r2 with Some m => Some m | None => ph_metadata r1 end
    else None;
  ph_reject_status := ph_reject_status r2;
  ph_reject_message := ph_reject_message r2;
  ph_response_headers := ph_response_headers r2 ∪ ph_response_headers r1;
|}.

(** The state of the loop as a result: what the hooks so far would answer. *)
Definition so_far (headers : gmap string string) (u : HookUpload) (changed : bool)
    : PreHookResult :=
  let result := PreHookResult_with_response_headers headers PreHookResult_proceed in
  if changed then PreHookResult_with_metadata (hu_metadata u) result else result.

(** [run m] with its answer mapped. *)
Definition then_result {A B} (f : A -> B) (r : result A * H) : result B * H :=
  (outcome_map f r.1, r.2).

(** Unfolds one hook of the loop in both runs and follows the same answer. *)
Ltac loop_step a h1 :=
  cbn [chain_pre_loop app];
  destruct (negb (bool_decide _)); [auto|];
  destruct (negb (HookEvent.is_pre _)); [auto|]; cbv zeta; rewrite !run_bind;
  match goal with
  | |- context [run (pre_hook ?k ?x) ?h] => destruct (run (pre_hook k x) h) as [[a|?|] h1]
  end; [|done..].

Lemma loop_ctx ctx ctx' c hs u b h :
  hc_event ctx = hc_event ctx' -> hc_request ctx = hc_request ctx' ->
  run (chain_pre_loop ctx c hs u b) h = run (chain_pre_loop ctx' c hs u b) h.
Proof.
  intros He Hr. revert hs u b h. induction c as [|k c IH]; intros hs u b h; [done|].
  cbn [chain_pre_loop]. rewrite <- He, <- Hr. loop_step a h1.
  destruct (negb (ph_proceed a)); [done|].
  destruct (HookEvent.allows_metadata_replacement _), (ph_metadata a); apply IH.
Qed.

Lemma result_after_assoc r1 r2 r3 :
  ph_proceed r2 = true ->
  result_after r1 (result_after r2 r3) = result_after (result_after r1 r2) r3.
Proof.
  intros H2. unfold result_after. cbn. rewrite H2. f_equal; [|by rewrite (assoc_L (∪))].
  destruct (ph_proceed r3); [|done]. destruct (ph_metadata r3); [done|]. by destruct (ph_metadata r2).
Qed.

Lemma so_far_step hs u b hr om :
  result_after (so_far hs u b)
    (so_far (hr ∪ ∅) (match om with Some m => HookUpload_set_metadata m u | None => u end)
       (match om with Some _ => true | None => false end))
  = so_far (hr ∪ hs) (match om with Some m => HookUpload_set_metadata m u | None => u end)
      (match om with Some _ => true | None => b end).
Proof.
  unfold so_far, result_after. destruct om, b; cbn; rewrite ?(right_id_L ∅ (∪)); done.
Qed.

(** The loop's accumulators are merged into what it answers from scratch. *)
Lemma loop_shift ctx c hs u b h :
  run (chain_pre_loop ctx c hs u b) h
  = then_result (result_after (so_far hs u b)) (run (chain_pre_loop ctx c ∅ u false) h).
Proof.
  revert hs u b h. induction c as [|k c IH]; intros hs u b h.
  { cbn [chain_pre_loop]. unfold ret. rewrite !run_Done. unfold then_result. cbn.
    unfold result_after, so_far. cbn. rewrite (left_id_L ∅ (∪)). by destruct b. }
  loop_step a h1. destruct (negb (ph_proceed a)).
  { unfold ret. rewrite !run_Done. unfold then_result, result_after, so_far. cbn.
    rewrite (right_id_L ∅ (∪)). by destruct b. }
  set (om := if HookEvent.allows_metadata_replacement (hc_event ctx) then ph_metadata a else None).
  pose proof (so_far_step hs u b (ph_response_headers a) om) as Hs.
  assert (forall r, result_after (so_far hs u b) (result_after (so_far (ph_response_headers a ∪ ∅)
      (match om with Some m => HookUpload_set_metadata m u | None => u end)
      (match om with Some _ => true | None => false end)) r)
    = result_after (so_far (ph_response_headers a ∪ hs)
        (match om with Some m => HookUpload_set_metadata m u | None => u end)
        (match om with Some _ => true | None => b end)) r) as Ha.
  { intros r. rewrite <- Hs. apply result_after_assoc. unfold so_far. by destruct om. }
  subst om. destruct (HookEvent.allows_metadata_replacement _), (ph_metadata a);
    rewrite IH, (IH (_ ∪ ∅)); unfold then_result; cbn [fst snd];
    match goal with |- context [run ?m ?x] => destruct (run m x) as [[r|e|] h'] end;
    cbn; try done; by rewrite Ha.
Qed.

Lemma loop_changed ctx c hs u h r h' :
  run (chain_pre_loop ctx c hs u true) h = (Ok r, h') -> ph_proceed r = true ->
  exists m, ph_metadata r = Some m.
Proof.
  rewrite loop_shift. destruct (run (chain_pre_loop ctx c ∅ u false) h) as [[r'|e|] h1]; [|done..].
  unfold then_result. cbn. intros [= <- <-] Hp. cbn in *. rewrite Hp.
  destruct (ph_metadata r'); eauto.
Qed.

Lemma loop_app ctx c1 c2 hs u b h :
  run (chain_pre_loop ctx (c1 ++ c2) hs u b) h
  = match run (chain_pre_loop ctx c1 hs u b) h with
    | (Ok r, h') =>
        if ph_proceed r then
          run (chain_pre_loop ctx c2 (ph_response_headers r)
                 (match ph_metadata r with Some m => HookUpload_set_metadata m u | None => u end)
                 (match ph_metadata r with Some _ => true | None => false end)) h'
        else (Ok r, h')
    | (Err e, h') => (Err e, h')
    | (Panic, h') => (Panic, h')
    end.
Proof.
  revert hs u b h. induction c1 as [|k c1 IH]; intros hs u b h.
  { cbn [chain_pre_loop app]. unfold ret. rewrite run_Done. cbn. destruct b; cbn; [|done].
    by destruct u. }
  loop_step a h1. destruct (ph_proceed a) eqn:Hp; cbn [negb]; [|unfold ret; rewrite run_Done; cbn; done].
  destruct (HookEvent.allows_metadata_replacement _), (ph_metadata a) as [m|]; rewrite IH; try done.
  destruct (run (chain_pre_loop ctx c1 _ _ true) h1) as [[r|e|] h'] eqn:Hrun; [|done..].
  destruct (ph_proceed r) eqn:Hpr; [|done].
  by destruct (loop_changed _ _ _ _ _ _ _ Hrun Hpr) as [m' ->].
Qed.

(** a chain of pre-hooks is its parts in sequence: the second part runs only
    if the first let the request proceed, it sees the metadata the first left,
    and the answers are merged with the later one winning. *)
Theorem chain_is_sequential c1 c2 ctx h :
  run (chain_execute_pre (c1 ++ c2)%list ctx) h
  = match run (chain_execute_pre c1 ctx) h with
    | (Ok r, h') =>
        if ph_proceed r
        then then_result (result_after r) (run (chain_execute_pre c2 (context_after ctx r)) h')
        else (Ok r, h')
    | (Err e, h') => (Err e, h')
    | (Panic, h') => (Panic, h')
    end.
Proof.
  unfold chain_execute_pre. rewrite loop_app.
  destruct (run (chain_pre_loop ctx c1 ∅ (hc_upload ctx) false) h) as [[r|e|] h'] eqn:Hrun; [|done..].
  destruct (ph_proceed r) eqn:Hp; [|done].
  rewrite loop_shift, (loop_ctx (context_after ctx r) ctx) by done. cbn [context_after hc_upload].
  destruct (run (chain_pre_loop ctx c2 ∅ _ false) h') as [[r2|e|] h2]; [|done..].
  unfold then_result. cbn. do 2 f_equal. unfold result_after, so_far.
  destruct (ph_metadata r); cbn; done.
Qed.

(** Post-hooks: every bound hook runs, in order, whatever the others did. *)
Lemma post_app c1 c2 ctx h :
  run (chain_execute_post (c1 ++ c2)%list ctx) h
  = match run (chain_execute_post c1 ctx) h with
    | (Ok _, h') => run (chain_execute_post c2 ctx) h'
    | r => r
    end.
Proof.
  revert h. induction c1 as [|k c1 IH]; intros h; [done|]. cbn [chain_execute_post app].
  destruct (negb _); [done|]. destruct (HookEvent.is_pre _); [done|].
  rewrite !run_bind, run_swallow. destruct (run (post_hook k ctx) h) as [[?|?|] h1]; cbn; done.
Qed.

(** a failing post-hook neither fails the request nor keeps the later hooks
    from running. *)
Theorem post_hook_failure_is_swallowed c1 k c2 ctx h h1 e h2 :
  hc_event ctx ∈ hook_events k -> HookEvent.is_pre (hc_event ctx) = false ->
  run (chain_execute_post c1 ctx) h = (Ok tt, h1) ->
  run (post_hook k ctx) h1 = (Err e, h2) ->
  run (chain_execute_post (c1 ++ k :: c2)%list ctx) h = run (chain_execute_post c2 ctx) h2.
Proof.
  intros Hev Hpost H1 H2. rewrite post_app, H1. cbn [chain_execute_post].
  rewrite bool_decide_true by done. cbn [negb]. rewrite Hpost, run_bind, run_swallow, H2. done.
Qed.
End chain.

(** the effects a gate may have: only the create and receive gates replace
    metadata, and no gate changes anything else of the record. *)
Theorem gate_changes_only_metadata g result s :
  po_state (gate_outcome g result s) = s \/
  ((g = GateCreate \/ g = GateReceive) /\ exists m, ph_metadata result = Some m /\
   po_state (gate_outcome g result s) = UploadState.set_metadata m s).
Proof.
  destruct g; cbn; try (by left); destruct (ph_metadata result) as [m|]; try (by left); right; eauto.
Qed.
