(* ===== verification/ConfigSpec.v ===== *)
(** * The configuration contract

    Names of extensions and checksum algorithms, what every configuration made with the
    builders guarantees, the bounds it puts on what is received, and what the server
    advertises of it. *)

From S2P Require Import Prelude Text Errors Crates Config State Headers Hooks Backends Lifecycle.
From S2P Require Import Intake Receive FinalUpload Access Response Protocol Streaming Contracts.
From S2P Require Import Effects PatchSpec HeadSpec.
Local Open Scope string_scope.
Local Open Scope N_scope.
Local Open Scope prog_scope.

(** extension names parse to exactly the extension they print. *)
Theorem extension_names e s : Extension.from_str s = Ok e <-> s = Extension.as_str e.
Proof.
  split; [|intros ->; apply extension_roundtrip].
  unfold Extension.from_str.
  repeat (match goal with |- context [(s =? ?x)%string] => destruct (String.eqb_spec s x) as [->|_] end;
          [by intros [= <-]|]).
  done.
Qed.

(** algorithm names are matched without regard to case. *)
Theorem algorithm_names a s :
  ChecksumAlgorithm.from_str s = Ok a <-> to_lowercase s = ChecksumAlgorithm.as_str a.
Proof.
  unfold ChecksumAlgorithm.from_str. split.
  - repeat (match goal with |- context [(?y =? ?x)%string] => destruct (String.eqb_spec y x) as [->|_] end;
            [by intros [= <-]|]).
    done.
  - intros ->. by destruct a.
Qed.

(** ** Configurations *)

(** What the builders can make. *)
Inductive built : Config -> Prop :=
| built_default : built Config_default
| built_all : built all_extensions
| built_extension c ext c' : built c -> try_with_extension ext c = Ok c' -> built c'
| built_without c ext : built c -> built (without_extension ext c)
| built_checksum c a : built c -> built (with_checksum a c)
| built_expiration c d : built c -> built (with_expiration d c)
| built_max_size c n : built c -> built (with_max_size n c)
| built_max_chunk c n : built c -> built (with_max_chunk_size n c)
| built_intake c n : built c -> built (with_max_intake_buffer n c)
| built_no_intake c : built c -> built (without_intake_buffer_limit c)
| built_timeout c d : built c -> built (with_lock_timeout d c)
| built_path c p : built c -> built (with_base_path p c)
| built_url c u : built c -> built (with_base_url u c)
| built_forwarded c : built c -> built (with_respect_forwarded_headers c)
| built_no_download c : built c -> built (without_download c)
| built_no_empty c : built c -> built (without_empty_creation c).

(** SHA-1 is among the algorithms as soon as there are any or checksums are on. *)
Definition sha1_ready (c : Config) : Prop :=
  (checksum_algorithms_set c = ∅ \/ ChecksumAlgorithm.Sha1 ∈ checksum_algorithms_set c) /\
  (Extension.Checksum ∈ extensions c \/ Extension.ChecksumTrailer ∈ extensions c ->
   ChecksumAlgorithm.Sha1 ∈ checksum_algorithms_set c).

Lemma try_with_extension_ready ext c c' :
  sha1_ready c -> try_with_extension ext c = Ok c' -> sha1_ready c'.
Proof.
  intros [H1 H2] [= <-]. unfold is_checksum_extension.
  assert (forall x, x <> Extension.Checksum -> x <> Extension.ChecksumTrailer ->
    sha1_ready (with_extensions_set ({[ x ]} ∪ extensions c) c)) as Hother.
  { intros x Hx Hx'. split; [done|]. cbn. intros [Hin|Hin]; apply H2; set_solver. }
  destruct ext; try (by apply Hother).
  all: destruct (decide _) as [He|He]; cbn in He; split; cbn; set_solver.
Qed.

Lemma built_ready c : built c -> sha1_ready c.
Proof.
  induction 1 as [| |c ext c' _ IH Ht| | | | | | | | | | | | |]; try done.
  - split; [by left|]. vm_compute. by intros [|].
  - split; [right|intros _]; set_solver.
  - by eapply try_with_extension_ready.
  - destruct IHbuilt as [H1 H2]. split; [done|]. cbn. set_solver.
  - split; [right|intros _]; cbn; set_solver.
  - destruct IHbuilt as [H1 H2]. split; [done|]. cbn. set_solver.
Qed.

Lemma insert_algorithm_in x a l : In a (insert_algorithm x l) <-> a = x \/ In a l.
Proof.
  induction l as [|y l IH]; cbn; [naive_solver|].
  destruct (String.leb _ _); cbn; [naive_solver|]. rewrite IH. naive_solver.
Qed.

Lemma checksum_algorithms_in c a :
  In a (checksum_algorithms c) <-> a ∈ checksum_algorithms_set c.
Proof.
  unfold checksum_algorithms. rewrite <- elem_of_elements, list_elem_of_In.
  induction (elements (checksum_algorithms_set c)) as [|x l IH]; cbn; [done|].
  rewrite insert_algorithm_in, IH. naive_solver.
Qed.

(** every configuration the builders can make that enables a checksum extension
    supports SHA-1, as the protocol demands, and lists it. *)
Theorem built_supports_sha1 c :
  built c ->
  has_extension c Extension.Checksum = true \/ has_extension c Extension.ChecksumTrailer = true ->
  supports_checksum_algorithm c ChecksumAlgorithm.Sha1 = true /\
  In ChecksumAlgorithm.Sha1 (checksum_algorithms c).
Proof.
  intros [_ Hb]%built_ready. unfold has_extension, supports_checksum_algorithm.
  rewrite !bool_decide_eq_true, checksum_algorithms_in. auto.
Qed.

(** ** What is received and advertised *)

(** ** Bounds *)

(** a body is accepted only if the offset after it stays within the declared
    length and the server's maximum; an upload with a length completes exactly when
    that offset reaches it. *)
Theorem receive_bounds config s n kind p :
  validate_body_for_receive config s n kind = Ok p ->
  projected_offset p = saturating_add (UploadState.offset s) n /\
  (forall l, UploadState.length s = Some l -> projected_offset p <= l) /\
  (forall m, max_size config = Some m -> projected_offset p <= m) /\
  (completes_upload p = true <-> UploadState.length s = Some (projected_offset p)).
Proof.
  intros (H1 & H2 & H3 & H4)%projection_spec. split_and!; [done..|]. rewrite H2.
  destruct (UploadState.length s) as [l|]; [|done].
  rewrite N.eqb_eq. split; [by intros ->|by intros [= ->]].
Qed.

(** the declared length is fixed once: a request may declare it when it is
    unknown, within the maximum size, or repeat it, and nothing else of the record
    changes. *)
Theorem upload_length_fixed_once config l s s' :
  apply_upload_length config l s = Ok s' <->
    match l with
    | None => s' = s
    | Some l =>
        s' = UploadState.set_length l s /\
        (UploadState.length s = Some l \/
         (UploadState.length s = None /\ forall m, max_size config = Some m -> l <= m))
    end.
Proof.
  unfold apply_upload_length. destruct l as [l|]; [|split; [by intros [= <-]|by intros ->]].
  destruct (UploadState.length s) as [l'|] eqn:Hl.
  - destruct (N.eqb_spec l l') as [<-|Hne]; cbn.
    + assert (UploadState.set_length l s = s) as Hs by (destruct s; cbn in *; by subst). rewrite Hs.
      split; [intros [= <-]; auto|by intros [-> _]].
    + split; [done|]. intros [_ [[= ->]|[? _]]]; done.
  - destruct (max_size config) as [m|].
    + destruct (N.ltb_spec m l); cbn.
      * split; [done|]. intros (_ & [?|[_ Hm]]); [done|]. specialize (Hm m eq_refl). lia.
      * split; [|by intros [-> _]]. intros [= <-]. split; [done|]. right. split; [done|].
        by intros m' [= <-].
    + cbn. split; [|by intros [-> _]]. intros [= <-]. split; [done|]. by right.
Qed.

(** ** Crash recovery *)

Section recovery.
Context {S St L H E : Type}.
Context `{StorageLaws S, StateStoreLaws St, !Locker L, !HookExecutor H, !Env E}.
Context `{HttpLaws, Base64, Digests, PercentEncoding, Chrono, HashOrder}.
Local Abbreviation W := (World S St L H E).
#[local] Set Default Proof Using "All".

(** recovery gives the record the offset of the stored bytes, and repeating it,
    as the next request does, changes nothing more. *)
Theorem recovery_is_idempotent ri s (w : W) s1 w1 r s2 w2 :
  recs w !! UploadState.id s = Some s ->
  run (prepare_regular_upload_access ri) (s, w) = (Ok tt, (s1, w1)) ->
  run (prepare_regular_upload_access ri) (s1, w1) = (r, (s2, w2)) -> r <> Panic ->
  s1 = UploadState.set_offset (stored_size s w) s /\
  recs w1 !! UploadState.id s = Some s1 /\ same w1 w2.
Proof.
  intros Hs H1' H2' Hnp.
  pose proof (wp_run _ _ _ _ _ (regular_access_spec ri s w) H1') as (Heq & Hb & Hr).
  cbn [fst snd] in *.
  assert (recs w1 !! UploadState.id s = Some s1) as Hs1.
  { destruct Hr as [[Hr Ho]|[Hr _]]; rewrite Hr; [|apply lookup_insert_eq].
    by rewrite Hs, Heq, Ho, set_offset_id. }
  split_and!; [done|done|].
  assert (UploadState.id s1 = UploadState.id s) as Hid by (by rewrite Heq).
  assert (stored_size s1 w1 = UploadState.offset s1) as Hsz.
  { rewrite Heq. unfold stored_size. cbn. rewrite Hb. done. }
  assert (forall s', reconciled s1 w1 s' w2 -> same w1 w2) as Hsame.
  { intros s' (-> & Hb2 & Hr2). split; [done|]. destruct Hr2 as [[Hr2 _]|[Hr2 _]]; [done|].
    rewrite Hr2, Hsz, set_offset_id. apply insert_id. by rewrite Hid. }
  pose proof (wp_run _ _ _ _ _ (regular_access_spec ri s1 w1) H2') as Hacc. cbv beta in Hacc.
  destruct r as [[]|e|]; [by eapply Hsame|destruct Hacc as [?|[s' ?]]; [done|by eapply Hsame]|done].
Qed.
End recovery.

(** ** OPTIONS *)

Lemma str_all_join p sep l :
  str_all p sep = true -> Forall (fun x => str_all p x = true) l -> str_all p (str_join sep l) = true.
Proof.
  intros Hs. induction 1 as [|x l Hx Hl IH]; [done|]. destruct l as [|y l]; [done|].
  cbn [str_join]. rewrite !str_all_app, Hx, Hs. apply IH.
Qed.

Lemma extensions_visible config : str_all visible (extensions_string config) = true.
Proof.
  apply str_all_join; [done|]. rewrite sort_strings_perm.
  apply Forall_forall. intros x (e & -> & _)%list_elem_of_fmap. by destruct e.
Qed.

Lemma algorithms_visible config : str_all visible (checksum_algorithms_string config) = true.
Proof.
  apply str_all_join; [done|]. apply Forall_forall. intros x (a & -> & _)%list_elem_of_fmap.
  by destruct a.
Qed.

Definition present (s : string) : option string := if is_empty s then None else Some s.

(** OPTIONS advertises exactly what the configuration enables: the extensions,
    the size limit, and the checksum algorithms when checksums are on. *)
Theorem options_advertises `{HttpLaws} config :
  header_of "tus-version" (options config) = Some TUS_RESUMABLE /\
  header_of "tus-extension" (options config) = present (extensions_string config) /\
  header_of "tus-max-size" (options config) = u64_to_string <$> max_size config /\
  header_of "tus-checksum-algorithm" (options config) =
    if has_extension config Extension.Checksum
    then present (checksum_algorithms_string config) else None.
Proof.
  pose proof (extensions_visible config) as He. pose proof (algorithms_visible config) as Ha.
  unfold options, present.
  destruct (max_size config) as [m|]; [pose proof (u64_to_string_visible m)|];
    destruct (is_empty (extensions_string config)), (has_extension config Extension.Checksum),
      (is_empty (checksum_algorithms_string config)); cbn [negb fmap option_fmap option_map];
    split_and!; repeat header_of_step; done.
Qed.

(** ** Origins *)

(** unless the server is told to trust forwarded headers, the location of an
    upload does not depend on the headers the client controls. *)
Theorem location_ignores_untrusted_headers `{PercentEncoding} config h1 h2 s :
  respect_forwarded_headers config = false ->
  location config h1 s = location config h2 s /\
  location config h1 s = upload_url config (UploadState.id s) None.
Proof.
  intros Hf. unfold location, Headers_base_url. rewrite Hf. done.
Qed.

(** metadata survives persistence, text and binary alike. *)
Theorem persisted_metadata_roundtrip `{Base64Laws} v :
  MetadataValue_deserialize (MetadataValue_serialize v) = inr v.
Proof. apply metadata_value_roundtrip. Qed.
