(* ===== verification/Files.v ===== *)
(** * Files ([std::fs], [tokio::fs])

    What the file backends use of the standard library's file operations: one
    directory of named files.  Every operation is one system call, an atomic action
    that may fail: which calls fail, and how, is a parameter ([FaultPlan]), so
    theorems range over all failures.  A write that fails may have written a part of
    its data, and [tokio] may not tell.

    A file and a directory entry also have what is left of them on disk after a
    power failure.  A file that was synced since its last change keeps its content;
    of any other file only what has stayed unchanged since it was last synced is
    certain.  A name shows its present entry, or any of the entries it had since the
    directory was last synced. *)

From S2P Require Import Prelude Text Errors Crates Backends.
Local Open Scope string_scope.
Local Open Scope N_scope.
Local Open Scope prog_scope.

(** ** [std::io::Error] *)

Module IoErrorKind.
Inductive t :=
  NotFound | AlreadyExists | PermissionDenied | WouldBlock | InvalidInput | InvalidData | Other.

#[global] Instance eq_dec : EqDecision t.
Proof. solve_decision. Defined.
End IoErrorKind.

Record IoError := { io_kind : IoErrorKind.t; io_message : string }.

Definition not_found : IoError :=
  {| io_kind := IoErrorKind.NotFound; io_message := "No such file or directory (os error 2)" |}.
Definition already_exists : IoError :=
  {| io_kind := IoErrorKind.AlreadyExists; io_message := "File exists (os error 17)" |}.
Definition name_too_long : IoError :=
  {| io_kind := IoErrorKind.Other; io_message := "File name too long (os error 36)" |}.

(** [.map_err(Error::Io)] *)
Definition io_error (e : IoError) : Error.t := Error.Io (io_message e).

(** ** Failures

    A call can fail for a reason outside the program: the medium, a quota, a
    permission.  It never pretends that an existing file is missing. *)

Inductive FaultKind := Denied | Conflicting | Failing.

Record Fault := {
  ft_kind : FaultKind;
  ft_message : string;
  (** of a write: the bytes that reached the file *)
  ft_written : nat;
}.

Definition fault_error (ft : Fault) : IoError := {|
  io_kind := match ft_kind ft with
             | Denied => IoErrorKind.PermissionDenied
             | Conflicting => IoErrorKind.AlreadyExists
             | Failing => IoErrorKind.Other
             end;
  io_message := ft_message ft |}.

Inductive SysCall := SysWrite | SysOther.

(** The failure, if any, of the n-th system call. *)
Class FaultPlan := fault_at : SysCall -> nat -> option Fault.

Definition faultless `{FaultPlan} : Prop := forall c n, fault_at c n = None.

(** Any call may fail but a write. *)
Definition writes_succeed `{FaultPlan} : Prop := forall n, fault_at SysWrite n = None.

(** ** Files and the directory *)

Record File := {
  f_data : bytes;
  (** the part of the content unchanged since it was last synced *)
  f_stable : bytes;
  f_dirty : bool;
}.

Definition new_file : File := {| f_data := []; f_stable := []; f_dirty := true |}.
Definition synced_file (b : bytes) : File := {| f_data := b; f_stable := b; f_dirty := false |}.

Definition append_data (b : bytes) (f : File) : File :=
  {| f_data := (f_data f ++ b)%list; f_stable := f_stable f; f_dirty := true |}.

(** [File::set_len]: shortens the file or fills it up with zeros. *)
Definition resize_data (n : N) (f : File) : File :=
  let len := N.to_nat n in
  {| f_data := (take len (f_data f) ++ replicate (len - length (f_data f)) x00)%list;
     f_stable := take len (f_stable f); f_dirty := true |}.

Definition sync_data (f : File) : File := synced_file (f_data f).

Record Fs := mkFs {
  fs_files : gmap string File;
  (** the entries a name had since the directory was last synced *)
  fs_past : gmap string (list (option File));
  fs_calls : nat;
  fs_ids : nat;
}.

Definition empty_fs : Fs := {| fs_files := ∅; fs_past := ∅; fs_calls := 0; fs_ids := 0 |}.

Definition past (name : string) (fs : Fs) : list (option File) := default [] (fs_past fs !! name).

(** Changes the entry of a name. *)
Definition set_entry (name : string) (o : option File) (fs : Fs) : Fs := {|
  fs_files := partial_alter (fun _ => o) name (fs_files fs);
  fs_past := <[name := fs_files fs !! name :: past name fs]> (fs_past fs);
  fs_calls := fs_calls fs; fs_ids := fs_ids fs |}.

(** Changes the file a name refers to. *)
Definition alter_file (g : File -> File) (name : string) (fs : Fs) : Fs := {|
  fs_files := alter g name (fs_files fs);
  fs_past := fs_past fs; fs_calls := fs_calls fs; fs_ids := fs_ids fs |}.

Definition sync_entries (fs : Fs) : Fs :=
  {| fs_files := fs_files fs; fs_past := ∅; fs_calls := fs_calls fs; fs_ids := fs_ids fs |}.

Definition count_call (fs : Fs) : Fs :=
  {| fs_files := fs_files fs; fs_past := fs_past fs; fs_calls := Datatypes.S (fs_calls fs);
     fs_ids := fs_ids fs |}.

(** The longest name a directory entry can have on Linux. *)
Definition NAME_MAX : N := 255.

(** ** System calls *)

Section calls.
Context `{FaultPlan}.

Definition syscall_partial {A} (c : SysCall) (on_fault : Fault -> Fs -> Fs)
    (f : Fs -> outcome IoError A * Fs) : prog IoError Fs A :=
  try_act (fun fs =>
    match fault_at c (fs_calls fs) with
    | Some ft => (Err (fault_error ft), on_fault ft (count_call fs))
    | None => f (count_call fs)
    end).

Definition syscall {A} (f : Fs -> outcome IoError A * Fs) : prog IoError Fs A :=
  syscall_partial SysOther (fun _ fs => fs) f.

(** A call on an existing file. *)
Definition with_file {A} (name : string) (f : File -> Fs -> A * Fs) (fs : Fs)
    : outcome IoError A * Fs :=
  match fs_files fs !! name with
  | Some file => let '(a, fs') := f file fs in (Ok a, fs')
  | None => (Err not_found, fs)
  end.

(** A call that may add a name. *)
Definition with_name {A} (name : string) (f : Fs -> outcome IoError A * Fs) (fs : Fs)
    : outcome IoError A * Fs :=
  if NAME_MAX <? N.of_nat (String.length name) then (Err name_too_long, fs) else f fs.

(** [fs::metadata(path).len()] *)
Definition fs_metadata (name : string) : prog IoError Fs N :=
  syscall (with_file name (fun file fs => (bytes_len (f_data file), fs))).

(** [OpenOptions::create_new(true).open(path)] *)
Definition fs_create_new (name : string) : prog IoError Fs unit :=
  syscall (with_name name (fun fs =>
    match fs_files fs !! name with
    | Some _ => (Err already_exists, fs)
    | None => (Ok tt, set_entry name (Some new_file) fs)
    end)).

(** [File::create(path)] *)
Definition fs_create (name : string) : prog IoError Fs unit :=
  syscall (with_name name (fun fs =>
    match fs_files fs !! name with
    | Some _ => (Ok tt, alter_file (resize_data 0) name fs)
    | None => (Ok tt, set_entry name (Some new_file) fs)
    end)).

(** [File::open(path)], for reading or appending. *)
Definition fs_open (name : string) : prog IoError Fs unit :=
  syscall (with_file name (fun _ fs => (tt, fs))).

(** Writing at the end of an open file. *)
Definition fs_write_all (name : string) (data : bytes) : prog IoError Fs unit :=
  syscall_partial SysWrite
    (fun ft => alter_file (append_data (take (ft_written ft) data)) name)
    (fun fs => (Ok tt, alter_file (append_data data) name fs)).

(** [tokio::fs::File] hands a write of at most [MAX_BUF] bytes to another thread and
    reports success at once.  Its failure is reported by the next write, or by a flush;
    [sync_all], [sync_data] and [set_len] wait for the write and drop its failure.  The
    failure that is still to be reported is a part of the handle. *)
Definition MAX_BUF : N := 2097152.

Fixpoint split_at (n : N) (b : bytes) : bytes * bytes :=
  match b with
  | [] => ([], [])
  | x :: rest => if n =? 0 then ([], b) else let '(p, q) := split_at (n - 1) rest in (x :: p, q)
  end.

(** One write; its failure is deferred. *)
Definition fs_write (name : string) (piece : bytes) : prog IoError Fs (option IoError) :=
  let! written := attempt (fs_write_all name piece) in
  ret match written with inl e => Some e | inr _ => None end.

Fixpoint write_pieces (fuel : nat) (name : string) (data : bytes) (deferred : option IoError)
    : prog IoError Fs (option IoError) :=
  match fuel, data with
  | S fuel, _ :: _ =>
      match deferred with
      | Some e => throw e
      | None =>
          let '(piece, rest) := split_at MAX_BUF data in
          let! deferred := fs_write name piece in
          write_pieces fuel name rest deferred
      end
  | _, _ => ret deferred
  end.

(** [file.write_all(data)] *)
Definition file_write_all (name : string) (data : bytes) (deferred : option IoError)
    : prog IoError Fs (option IoError) :=
  write_pieces (length data) name data deferred.

Definition fs_set_len (name : string) (n : N) : prog IoError Fs unit :=
  syscall (fun fs => (Ok tt, alter_file (resize_data n) name fs)).

(** [file.sync_all()] and [file.sync_data()] *)
Definition fs_sync (name : string) : prog IoError Fs unit :=
  syscall (fun fs => (Ok tt, alter_file sync_data name fs)).

(** The content of an open file. *)
Definition fs_read (name : string) : prog IoError Fs bytes :=
  syscall (with_file name (fun file fs => (f_data file, fs))).

(** [file.seek(..)] on an open file; the position is the reader's. *)
Definition fs_seek (name : string) : prog IoError Fs unit :=
  syscall (fun fs => (Ok tt, fs)).

Definition fs_remove_file (name : string) : prog IoError Fs unit :=
  syscall (with_file name (fun _ fs => (tt, set_entry name None fs))).

Definition fs_rename (source target : string) : prog IoError Fs unit :=
  syscall (with_name target (with_file source (fun file fs =>
    (tt, set_entry target (Some file) (set_entry source None fs))))).

Definition fs_hard_link (source target : string) : prog IoError Fs unit :=
  syscall (with_name target (fun fs =>
    match fs_files fs !! target with
    | Some _ => (Err already_exists, fs)
    | None => with_file source (fun file fs => (tt, set_entry target (Some file) fs)) fs
    end)).

(** [File::open(directory)] and [sync_all] on it. *)
Definition fs_open_dir : prog IoError Fs unit := syscall (fun fs => (Ok tt, fs)).
Definition fs_sync_dir : prog IoError Fs unit := syscall (fun fs => (Ok tt, sync_entries fs)).

(** [fs::read_dir]: the names in the directory, in no particular order. *)
Definition fs_read_dir `{HashOrder} : prog IoError Fs (list string) :=
  syscall (fun fs => (Ok (map fst (hash_iter (fs_files fs))), fs)).
End calls.

(** [uuid::Uuid::new_v4()]: the n-th id of a run. *)
Definition next_id : M Fs nat :=
  act (fun fs => (fs_ids fs,
    {| fs_files := fs_files fs; fs_past := fs_past fs; fs_calls := fs_calls fs;
       fs_ids := Datatypes.S (fs_ids fs) |})).

(** [f().await.map_err(Error::Io)?], and a [match] on the result. *)
Definition io {A} (m : prog IoError Fs A) : M Fs A := map_err io_error m.
Definition try_io {A} (m : prog IoError Fs A) : M Fs (IoError + A) := map_err io_error (attempt m).

(** ** Power failure *)

(** What may be left of a file. *)
Definition survives (f : File) (b : bytes) : Prop :=
  if f_dirty f then f_stable f `prefix_of` b else b = f_data f.

Definition entry_survives (o : option File) (d : option bytes) : Prop :=
  match o, d with
  | Some f, Some b => survives f b
  | None, None => True
  | _, _ => False
  end.

(** What a name may refer to after a power failure. *)
Definition on_disk (fs : Fs) (name : string) (d : option bytes) : Prop :=
  exists o, o ∈ fs_files fs !! name :: past name fs /\ entry_survives o d.

(** The contents of the directory after a power failure. *)
Definition crashed (fs : Fs) (disk : gmap string bytes) : Prop :=
  forall name, on_disk fs name (disk !! name).

(** The content of [name] is certain. *)
Definition durable (fs : Fs) (name : string) (b : bytes) : Prop :=
  forall d, on_disk fs name d -> d = Some b.
