(* ===== verification/FileFacts.v ===== *)
(** * Facts about files

    What each system call does to the files and to what a power failure may leave
    of them, and the rules by which sequences of calls are verified. *)

From S2P Require Import Prelude Text Errors Crates Backends Files.
Local Open Scope string_scope.
Local Open Scope N_scope.
Local Open Scope prog_scope.

(** ** Entries *)

Lemma files_set_entry name o fs : fs_files (set_entry name o fs) !! name = o.
Proof. apply lookup_partial_alter_eq. Qed.

Lemma files_set_other name name' o fs :
  name <> name' -> fs_files (set_entry name o fs) !! name' = fs_files fs !! name'.
Proof. apply lookup_partial_alter_ne. Qed.

Lemma past_set_entry name o fs :
  past name (set_entry name o fs) = fs_files fs !! name :: past name fs.
Proof. unfold past. cbn. by rewrite lookup_insert_eq. Qed.

Lemma past_set_other name name' o fs : name <> name' -> past name' (set_entry name o fs) = past name' fs.
Proof. intros Hne. unfold past. cbn. by rewrite lookup_insert_ne. Qed.

Lemma files_alter name g fs : fs_files (alter_file g name fs) !! name = g <$> fs_files fs !! name.
Proof. apply lookup_alter_eq. Qed.

Lemma files_alter_other name name' g fs :
  name <> name' -> fs_files (alter_file g name fs) !! name' = fs_files fs !! name'.
Proof. apply lookup_alter_ne. Qed.

(** Nothing about [name] changed. *)
Record untouched (name : string) (fs fs' : Fs) : Prop := {
  un_files : fs_files fs' !! name = fs_files fs !! name;
  un_past : past name fs' = past name fs;
}.

#[export] Instance untouched_preorder name : PreOrder (untouched name).
Proof. split; [done|]. intros a b c [H1 H2] [H3 H4]. split; congruence. Qed.

Lemma untouched_set name name' o fs : name' <> name -> untouched name fs (set_entry name' o fs).
Proof. intros Hne. split; [by apply files_set_other|by apply past_set_other]. Qed.

Lemma untouched_alter name name' g fs : name' <> name -> untouched name fs (alter_file g name' fs).
Proof. intros Hne. split; [by apply files_alter_other|done]. Qed.

Lemma untouched_count name fs : untouched name fs (count_call fs).
Proof. done. Qed.

(** What the name may show on disk grows with its entries only. *)
Lemma untouched_disk name fs fs' d :
  untouched name fs fs' -> on_disk fs' name d -> on_disk fs name d.
Proof. intros [Hf Hp] (o & Hin & Ho). rewrite Hf, Hp in Hin. by exists o. Qed.

Lemma on_disk_set name o fs d :
  on_disk (set_entry name o fs) name d -> entry_survives o d \/ on_disk fs name d.
Proof.
  intros (o' & Hin & Ho). rewrite files_set_entry, past_set_entry, elem_of_cons in Hin.
  destruct Hin as [->|Hin]; [by left|]. right. by exists o'.
Qed.

Lemma on_disk_synced name fs d :
  past name fs = [] -> on_disk fs name d -> entry_survives (fs_files fs !! name) d.
Proof. intros Hp (o & Hin & Ho). rewrite Hp, list_elem_of_singleton in Hin. by subst. Qed.

Lemma entry_synced b d : entry_survives (Some (synced_file b)) d -> d = Some b.
Proof. destruct d; cbn; [by intros ->|done]. Qed.

Lemma durable_synced name b fs :
  fs_files fs !! name = Some (synced_file b) -> past name fs = [] -> durable fs name b.
Proof. intros Hf Hp d Hd%on_disk_synced; [|done]. rewrite Hf in Hd. by apply entry_synced. Qed.

(** ** What the directory shows

    [shows public new target fs0 fs]: since [fs0], of the names that matter only
    [target] got new entries, and those are as [new] says. *)

Definition entries (key : string) (fs : Fs) : list (option File) := fs_files fs !! key :: past key fs.

Record shows (public : string -> Prop) (new : option File -> Prop) (target : string) (fs0 fs : Fs)
    : Prop := {
  shows_target o : o ∈ entries target fs -> o ∈ entries target fs0 \/ new o;
  shows_other k : public k -> k <> target -> entries k fs ⊆ entries k fs0;
}.

(** Only temporary names changed since [fs0]. *)
Definition others_untouched (temp : string) (fs0 fs : Fs) : Prop :=
  forall k, k <> temp -> untouched k fs0 fs.

Lemma entries_untouched k fs fs' : untouched k fs fs' -> entries k fs' = entries k fs.
Proof. intros [Hf Hp]. unfold entries. by rewrite Hf, Hp. Qed.

Lemma entries_sync k fs : entries k (sync_entries fs) ⊆ entries k fs.
Proof.
  intros o. unfold entries, past. cbn. rewrite lookup_empty. cbn. rewrite list_elem_of_singleton.
  intros ->. apply list_elem_of_here.
Qed.

Lemma others_refl temp fs : others_untouched temp fs fs.
Proof. done. Qed.

Lemma others_alter temp fs0 g fs :
  others_untouched temp fs0 fs -> others_untouched temp fs0 (alter_file g temp (count_call fs)).
Proof.
  intros Ho k Hk. etrans; [by apply Ho|]. etrans; [apply (untouched_count k fs)|].
  by apply untouched_alter.
Qed.

Lemma others_count temp fs0 fs :
  others_untouched temp fs0 fs -> others_untouched temp fs0 (count_call fs).
Proof. intros Ho k Hk. etrans; [by apply Ho|]. apply untouched_count. Qed.

Lemma others_set temp o fs0 fs :
  others_untouched temp fs0 fs -> others_untouched temp fs0 (set_entry temp o fs).
Proof. intros Ho k Hk. etrans; [by apply Ho|]. by apply untouched_set. Qed.

Section shows_rules.
Context (public : string -> Prop) (new : option File -> Prop) (target : string).
Implicit Types fs : Fs.

Lemma shows_refl fs : shows public new target fs fs.
Proof. split; [by left|done]. Qed.

Lemma shows_trans (new1 : option File -> Prop) fs0 fs1 fs :
  (forall o, new1 o -> new o) ->
  shows public new target fs0 fs1 -> shows public new1 target fs1 fs -> shows public new target fs0 fs.
Proof.
  intros Hn [Ha Hb] [Hc Hd]. split.
  - intros o Ho. destruct (Hc o Ho) as [Hin|]; [by apply Ha|auto].
  - intros k Hk Hne. etrans; [by apply Hd|by apply Hb].
Qed.

Lemma shows_others temp fs0 fs :
  ~ public temp -> public target -> others_untouched temp fs0 fs -> shows public new target fs0 fs.
Proof.
  intros Ht Hv Ho. assert (forall k, public k -> entries k fs = entries k fs0) as He.
  { intros k Hk. apply entries_untouched, Ho. by intros ->. }
  split; [intros o; rewrite He by done; by left|intros k Hk _; by rewrite He].
Qed.

Lemma shows_count fs0 fs : shows public new target fs0 fs -> shows public new target fs0 (count_call fs).
Proof. intros [Ha Hb]. split; [exact Ha|exact Hb]. Qed.

Lemma shows_sync fs0 fs : shows public new target fs0 fs -> shows public new target fs0 (sync_entries fs).
Proof.
  intros [Ha Hb]. split; [intros o Ho%entries_sync; by apply Ha|].
  intros k Hv Hne. etrans; [apply entries_sync|by apply Hb].
Qed.

Lemma shows_set name o fs0 fs :
  name = target /\ new o \/ ~ public name /\ name <> target ->
  shows public new target fs0 fs -> shows public new target fs0 (set_entry name o fs).
Proof.
  intros Hn [Ha Hb]. split.
  - intros o'. unfold entries. destruct Hn as [[-> Ho]|[_ Hne]].
    + rewrite files_set_entry, past_set_entry, elem_of_cons. intros [->|Hin]; [by right|by apply Ha].
    + rewrite files_set_other, past_set_other by done. apply Ha.
  - intros k Hk Hkt. rewrite (entries_untouched k fs); [by apply Hb|].
    apply untouched_set. destruct Hn as [[-> _]|[Hp _]]; [done|]. by intros ->.
Qed.
End shows_rules.

(** A file that was appended to since [fs0], and synced or not. *)
Definition grown (key : string) (f0 : File) (t : bytes) (fs : Fs) : Prop :=
  exists f, fs_files fs !! key = Some f /\ f_data f = (f_data f0 ++ t)%list.

Lemma grown_append key f0 t b fs :
  grown key f0 t fs -> grown key f0 (t ++ b)%list (alter_file (append_data b) key fs).
Proof.
  intros (f & Hf & Hd). exists (append_data b f). rewrite files_alter, Hf. cbn. split; [done|].
  by rewrite Hd, app_assoc.
Qed.

(** ** Calls *)

Lemma fault_not_missing ft : io_kind (fault_error ft) <> IoErrorKind.NotFound.
Proof. unfold fault_error. cbn. by destruct (ft_kind ft). Qed.


Section calls.
Context `{FaultPlan}.

Lemma during_syscall_partial P {A} c on_fault (f : Fs -> outcome IoError A * Fs) Q fs :
  P fs ->
  (forall ft, fault_at c (fs_calls fs) = Some ft ->
     P (on_fault ft (count_call fs)) /\ Q (Err (fault_error ft)) (on_fault ft (count_call fs))) ->
  (fault_at c (fs_calls fs) = None ->
     P (f (count_call fs)).2 /\ Q (f (count_call fs)).1 (f (count_call fs)).2) ->
  during P Q (syscall_partial c on_fault f) fs.
Proof.
  intros HP Hft Hok. unfold syscall_partial.
  destruct (fault_at c (fs_calls fs)) as [ft|] eqn:Hf.
  - destruct (Hft _ eq_refl). apply during_try_act; by rewrite ?Hf.
  - destruct (Hok eq_refl). apply during_try_act; by rewrite ?Hf.
Qed.

Lemma during_syscall P {A} (f : Fs -> outcome IoError A * Fs) Q fs :
  P fs -> P (count_call fs) ->
  (forall ft, fault_at SysOther (fs_calls fs) = Some ft -> Q (Err (fault_error ft)) (count_call fs)) ->
  (fault_at SysOther (fs_calls fs) = None ->
     P (f (count_call fs)).2 /\ Q (f (count_call fs)).1 (f (count_call fs)).2) ->
  during P Q (syscall f) fs.
Proof. intros. apply during_syscall_partial; auto. Qed.

Lemma wp_syscall {A} (f : Fs -> outcome IoError A * Fs) (Q : outcome IoError A -> Fs -> Prop) fs :
  (forall ft, fault_at SysOther (fs_calls fs) = Some ft -> Q (Err (fault_error ft)) (count_call fs)) ->
  (fault_at SysOther (fs_calls fs) = None -> Q (f (count_call fs)).1 (f (count_call fs)).2) ->
  wp (syscall f) Q fs.
Proof.
  intros Hft Hok. apply (during_wp (fun _ => True)). by apply during_syscall; auto.
Qed.

Lemma wp_syscall_faultless {A} c on_fault (f : Fs -> outcome IoError A * Fs)
    (Q : outcome IoError A -> Fs -> Prop) fs :
  faultless -> Q (f (count_call fs)).1 (f (count_call fs)).2 -> wp (syscall_partial c on_fault f) Q fs.
Proof.
  intros Hno HQ. unfold syscall_partial. apply wp_try_act. rewrite Hno.
  by destruct (f (count_call fs)).
Qed.

Lemma wp_io {A} (m : prog IoError Fs A) (Q : outcome Error.t A -> Fs -> Prop) fs :
  wp m (fun r fs' =>
          match r with
          | Ok a => Q (Ok a) fs'
          | Err e => Q (Err (io_error e)) fs'
          | Panic => Q Panic fs'
          end) fs -> wp (io m) Q fs.
Proof. apply wp_map_err. Qed.

Lemma wp_try_io {A} (m : prog IoError Fs A) (Q : outcome Error.t (IoError + A) -> Fs -> Prop) fs :
  wp m (fun r fs' =>
          match r with
          | Ok a => Q (Ok (inr a)) fs'
          | Err e => Q (Ok (inl e)) fs'
          | Panic => Q Panic fs'
          end) fs -> wp (try_io m) Q fs.
Proof.
  intros Hm. apply wp_map_err, wp_attempt. eapply wp_mono; [apply Hm|]. by intros [] w'.
Qed.

Lemma during_io P {A} (m : prog IoError Fs A) (Q : outcome Error.t A -> Fs -> Prop) fs :
  during P (fun r fs' =>
          match r with
          | Ok a => Q (Ok a) fs'
          | Err e => Q (Err (io_error e)) fs'
          | Panic => Q Panic fs'
          end) m fs -> during P Q (io m) fs.
Proof. apply during_map_err. Qed.

Lemma during_try_io P {A} (m : prog IoError Fs A)
    (Q : outcome Error.t (IoError + A) -> Fs -> Prop) fs :
  during P (fun r fs' =>
          match r with
          | Ok a => Q (Ok (inr a)) fs'
          | Err e => Q (Ok (inl e)) fs'
          | Panic => Q Panic fs'
          end) m fs -> during P Q (try_io m) fs.
Proof.
  intros Hm. apply during_map_err, during_attempt. eapply during_mono; [apply Hm|].
  by intros [] w'.
Qed.

Lemma during_rename (P : Fs -> Prop) Q source target f fs :
  (NAME_MAX <? N.of_nat (String.length target)) = false -> fs_files fs !! source = Some f ->
  P fs -> P (count_call fs) ->
  (forall ft, fault_at SysOther (fs_calls fs) = Some ft -> Q (Err (fault_error ft)) (count_call fs)) ->
  P (set_entry target (Some f) (set_entry source None (count_call fs))) ->
  Q (Ok tt) (set_entry target (Some f) (set_entry source None (count_call fs))) ->
  during P Q (fs_rename source target) fs.
Proof.
  intros Hl Hf HP Hc Hft HPm HQ. apply during_syscall; [done|done|done|].
  intros _. unfold with_name, with_file. rewrite Hl. cbn. by rewrite Hf.
Qed.

(** An attempt to remove a file that does not matter. *)
Lemma during_remove_temp (P : Fs -> Prop) (R : Fs -> Prop) name fs :
  P fs -> P (count_call fs) -> P (set_entry name None (count_call fs)) ->
  R (count_call fs) -> R (set_entry name None (count_call fs)) ->
  during P (fun r fs' => match r with Ok _ => R fs' | _ => False end)
    (try_io (fs_remove_file name)) fs.
Proof.
  intros HP Hc Hs Rc Rs. apply during_try_io, during_syscall; [done|done|done|].
  intros _. unfold with_file. cbn. by destruct (fs_files fs !! name).
Qed.

(** [File::create] on the temporary path leaves an empty file there. *)
Lemma during_fs_create temp fs0 fs :
  (NAME_MAX <? N.of_nat (String.length temp)) = false -> others_untouched temp fs0 fs ->
  during (others_untouched temp fs0) (fun r fs' =>
    match r with
    | Ok _ => grown temp new_file [] fs'
    | Err _ => True
    | Panic => False
    end) (fs_create temp) fs.
Proof.
  intros Hfit Ho. apply during_syscall; [done|by apply others_count|done|].
  intros _. unfold with_name. rewrite Hfit. cbn. destruct (fs_files fs !! temp) as [f|] eqn:Hf; cbn.
  - split; [by apply others_alter|]. exists (resize_data 0 f). cbn.
    by rewrite lookup_alter_eq, Hf.
  - split; [|exists new_file; by rewrite files_set_entry].
    intros k Hk. etrans; [by apply Ho|]. etrans; [apply (untouched_count k fs)|].
    by apply untouched_set.
Qed.

Lemma during_fs_sync temp t fs0 fs :
  others_untouched temp fs0 fs -> grown temp new_file t fs ->
  during (others_untouched temp fs0) (fun r fs' =>
    match r with
    | Ok _ => fs_files fs' !! temp = Some (synced_file t)
    | Err _ => True
    | Panic => False
    end) (fs_sync temp) fs.
Proof.
  intros Ho (f & Hf & Hd). apply during_syscall; [done|by apply others_count|done|].
  intros _. cbn. split; [by apply others_alter|]. rewrite lookup_alter_eq, Hf. cbn.
  unfold sync_data. by rewrite Hd.
Qed.

Lemma during_fs_create_new temp fs0 fs :
  others_untouched temp fs0 fs ->
  during (others_untouched temp fs0) (fun r fs' =>
    match r with
    | Ok _ => grown temp new_file [] fs'
    | Err _ => True
    | Panic => False
    end) (fs_create_new temp) fs.
Proof.
  intros Ho. pose proof (others_count temp fs0 fs Ho). apply during_syscall; [done..|].
  intros _. unfold with_name. destruct (NAME_MAX <? _); [done|]. cbn.
  destruct (fs_files fs !! temp); [done|]. split; [by apply others_set|].
  exists new_file. split; [apply files_set_entry|done].
Qed.

(** ** Writes whose failure is deferred *)

Lemma split_at_app n b : ((split_at n b).1 ++ (split_at n b).2)%list = b.
Proof.
  revert n. induction b as [|x b IH]; intros n; [done|]. cbn.
  destruct (n =? 0); [done|]. specialize (IH (n - 1)). destruct (split_at (n - 1) b). cbn in *. by rewrite IH.
Qed.

Lemma split_at_shorter n x b : n <> 0 -> (length (split_at n (x :: b)).2 <= length b)%nat.
Proof.
  intros Hn%N.eqb_neq. cbn. rewrite Hn. pose proof (split_at_app (n - 1) b) as Ha.
  destruct (split_at (n - 1) b) as [p q]. cbn in *. rewrite <- Ha, length_app. lia.
Qed.

(** [written key f0 t d fs]: since [f0] the file was given [t], or a beginning of it if
    a failure [d] is still to be reported. *)
Definition written (key : string) (f0 : File) (t : bytes) (d : option IoError) (fs : Fs) : Prop :=
  exists t', t' `prefix_of` t /\ grown key f0 t' fs /\ (d = None -> t' = t).

Lemma written_grown key f0 t fs : written key f0 t None fs -> grown key f0 t fs.
Proof. intros (t' & _ & Hg & Ht). by rewrite <- Ht. Qed.

Lemma grown_written key f0 t fs : grown key f0 t fs -> written key f0 t None fs.
Proof. intros Hg. by exists t. Qed.

Lemma written_more key f0 t b d fs : d <> None -> written key f0 t d fs -> written key f0 (t ++ b)%list d fs.
Proof. intros Hd (t' & Ht & Hg & _). exists t'. split_and!; [by apply prefix_app_r|done|done]. Qed.

Section deferred.
Context (P : Fs -> Prop) (path : string) (f0 : File).
Hypothesis Happend : forall b fs, P fs -> P (alter_file (append_data b) path (count_call fs)).

Lemma during_fs_write t b fs :
  P fs -> grown path f0 t fs ->
  during P (fun r fs' =>
    exists d, r = Ok d /\ written path f0 (t ++ b)%list d fs' /\ (writes_succeed -> d = None))
    (fs_write path b) fs.
Proof using Happend.
  intros HP Hg. apply during_bind, during_attempt, during_syscall_partial; [done| |].
  - intros ft Hft. cbn. split; [by apply Happend|]. apply during_done; [by apply Happend|].
    eexists. split; [done|]. split; [|by intros Hw; rewrite Hw in Hft].
    exists (t ++ take (ft_written ft) b)%list. split_and!; [|by apply (grown_append _ _ t)|done].
    apply prefix_app. exists (drop (ft_written ft) b). by rewrite take_drop.
  - intros _. cbn. split; [by apply Happend|]. apply during_done; [by apply Happend|].
    exists None. split_and!; [done| |done]. by apply grown_written, (grown_append _ _ t).
Qed.

Lemma during_file_write_all t b d fs :
  P fs -> written path f0 t d fs ->
  during P (fun r fs' =>
    match r with
    | Ok d' => written path f0 (t ++ b)%list d' fs' /\ (writes_succeed -> d = None -> d' = None)
    | Err _ => d <> None \/ ~ writes_succeed
    | Panic => False
    end) (file_write_all path b d) fs.
Proof using Happend.
  unfold file_write_all. assert (length b <= length b)%nat as Hf by done. revert Hf. generalize (length b) at 2 3 as fuel.
  intros fuel. revert t b d fs. induction fuel as [|fuel IH]; intros t b d fs Hf HP Hw.
  { destruct b; [|cbn in Hf; lia]. apply during_done; [done|]. by rewrite app_nil_r. }
  cbn [write_pieces]. destruct b as [|x b]; [apply during_done; [done|]; by rewrite app_nil_r|].
  destruct d as [e|]; [by apply during_done; [|left]|].
  pose proof (split_at_app MAX_BUF (x :: b)) as Ha. pose proof (split_at_shorter MAX_BUF x b) as Hs.
  destruct (split_at MAX_BUF (x :: b)) as [p q]. cbn [fst snd] in *. rewrite <- Ha.
  apply during_bind. eapply during_mono; [by apply (during_fs_write t p); [|apply written_grown]|].
  cbv beta. intros r fs1 HP1 (d1 & -> & Hw1 & Hd1). rewrite app_assoc.
  eapply during_mono; [apply (IH (t ++ p)%list q d1 fs1); [|done..]|].
  - cbn in Hf. specialize (Hs ltac:(done)). lia.
  - cbv beta. intros [d2|e|] fs2 _ Hr; [|right|done].
    + destruct Hr as [Hw2 Hd2]. split; [done|]. auto.
    + intros Hws. destruct Hr as [Hne|Hno]; [by apply Hne, Hd1|done].
Qed.
End deferred.
End calls.
