(* ===== verification/FileStorage.v ===== *)
(** * File storage ([storage/file.rs])

    [FileStorage]: one file per upload in a root directory, under generated keys.
    The operations are the code's sequences of file system calls; the program's
    world is the file system below the root. *)

From S2P Require Import Prelude Text Errors Crates Config State Headers Hooks Backends Files.
Local Open Scope string_scope.
Local Open Scope N_scope.
Local Open Scope prog_scope.

(** ** Interfaces of [uuid] and [tokio_util] *)

Class Uuids := {
  (** [Uuid::new_v4().simple()], the n-th of a run *)
  uuid_simple : nat -> string;
  (** [Uuid::parse_str(s).is_ok()] *)
  uuid_parses : string -> bool;
}.

Definition hex_char (c : ascii) : bool :=
  in_range 48 57 (byte_of c) || in_range 97 102 (byte_of c).

Class UuidLaws `{Uuids} := {
  uuid_simple_length n : String.length (uuid_simple n) = 32%nat;
  uuid_simple_hex n : str_all hex_char (uuid_simple n) = true;
  uuid_simple_parses n : uuid_parses (uuid_simple n) = true;
}.

(** [ReaderStream::new]: the stream of the chunks read. *)
Class Readers := { reader_stream : bytes -> ByteStream }.
Class ReaderLaws `{Readers} := {
  reader_stream_data b : stream_data (reader_stream b) = Some b;
}.

(** ** Keys and paths *)

Inductive Component := RootDir | CurDir | ParentDir | Normal (s : string).

(** [Path::components] on Unix: repeated and trailing separators and inner [.]
    components are dropped. *)
Definition path_component (s : string) : list Component :=
  if String.eqb s "" || String.eqb s "." then [] else if String.eqb s ".." then [ParentDir]
  else [Normal s].

Definition path_components (path : string) : list Component :=
  let pieces := split_char "/" path in
  let names := flat_map path_component pieces in
  match pieces with
  | "" :: _ :: _ => RootDir :: names
  | "." :: _ => CurDir :: names
  | _ => names
  end.

(** [str::strip_suffix] *)
Fixpoint str_strip_suffix (suffix s : string) : option string :=
  if String.eqb s suffix then Some ""
  else match s with
       | EmptyString => None
       | String c s => String c <$> str_strip_suffix suffix s
       end.

Section file_storage.
Context `{FaultPlan, Uuids, Readers}.

Definition new_key : M Fs string :=
  let! n := next_id in
  ret (uuid_simple n ++ ".upload").

Definition is_generated_key (key : string) : bool :=
  match str_strip_suffix ".upload" key with
  | None => false
  | Some stem => Nat.eqb (String.length stem) 32 && uuid_parses stem
  end.

(** [path_for_key]; the path is named by its component below the root. *)
Definition path_for_key (key : string) : result string :=
  match path_components key with
  | [Normal _] =>
      if is_generated_key key then Ok key
      else Err (Error.Storage ("invalid file storage key: " ++ key))
  | _ => Err (Error.Storage ("invalid file storage key: " ++ key))
  end.

Definition path_for_handle (handle : StorageHandle) : result string :=
  path_for_key (handle_key handle).

(** [sync_parent_dir]: failures are logged. *)
Definition sync_parent_dir : M Fs unit :=
  let! dir := try_io fs_open_dir in
  match dir with
  | inr _ => do! try_io fs_sync_dir in ret tt
  | inl _ => ret tt
  end.

Definition file_create (upload_id : string) : M Fs StorageHandle :=
  let! key := new_key in
  let! path := of_outcome (path_for_key key) in
  do! io (fs_create_new path) in
  do! io (fs_sync path) in
  do! sync_parent_dir in
  ret (StorageHandle_new key).

(** What the file has still to report is passed on from write to write. *)
Fixpoint write_stream (path : string) (stream : ByteStream) (deferred : option IoError)
    : M (DeferredBodyError * Fs) (option IoError) :=
  match stream with
  | [] => ret deferred
  | i :: stream =>
      do! modify_local (fun cell => cell_after [i] cell) in
      match si_chunk i with
      | inl e => throw (Error.Io e)
      | inr chunk =>
          let! deferred := lift (io (file_write_all path chunk deferred)) in
          write_stream path stream deferred
      end
  end.

Definition write_chunk_stream (path : string) (data : ChunkStream)
    : M (DeferredBodyError * Fs) (option IoError) :=
  match data with
  | Buffered b => lift (io (file_write_all path b None))
  | Streamed stream => write_stream path stream None
  end.

Definition file_size_mismatch (size expected_offset : N) (key : string) : Error.t :=
  Error.Internal ("file storage size " ++ u64_to_string size
    ++ " does not match expected offset " ++ u64_to_string expected_offset
    ++ " for key " ++ key).

(** The size check of [append]. *)
Definition check_append_size (handle : StorageHandle) (path : string) (expected_offset : N)
    : M Fs unit :=
  let! metadata := try_io (fs_metadata path) in
  match metadata with
  | inl e =>
      if decide (io_kind e = IoErrorKind.NotFound) then throw (Error.NotFound (handle_key handle))
      else throw (io_error e)
  | inr size =>
      if negb (size =? expected_offset)
      then throw (file_size_mismatch size expected_offset (handle_key handle))
      else ret tt
  end.

(** The file is not flushed: [sync_data] drops what a write has still to report. *)
Definition file_append (request : AppendRequest) : M (DeferredBodyError * Fs) StorageHandle :=
  let handle := ar_handle request in
  let expected_offset := ar_expected_offset request in
  let! path := of_outcome (path_for_handle handle) in
  do! lift (check_append_size handle path expected_offset) in
  do! lift (io (fs_open path)) in
  let! written := attempt (write_chunk_stream path (ar_data request)) in
  match written with
  | inr _ =>
      do! lift (io (fs_sync path)) in
      ret handle
  | inl error =>
      do! lift (io (fs_set_len path expected_offset)) in
      do! lift (io (fs_sync path)) in
      throw error
  end.

(** [replace_file] *)
Definition replace_file (source target : string) : M Fs unit :=
  let! renamed := try_io (fs_rename source target) in
  match renamed with
  | inr _ => ret tt
  | inl error =>
      match io_kind error with
      | IoErrorKind.AlreadyExists | IoErrorKind.PermissionDenied =>
          let! removed := try_io (fs_remove_file target) in
          do! match removed with
              | inr _ => ret tt
              | inl remove_error =>
                  if decide (io_kind remove_error = IoErrorKind.NotFound) then ret tt
                  else throw (io_error remove_error)
              end in
          io (fs_rename source target)
      | _ => throw (io_error error)
      end
  end.

Definition unique_concat_temp_path (target : string) : M Fs string :=
  let! n := next_id in
  ret (target ++ "." ++ uuid_simple n ++ ".concat.tmp").

(** The copy loop of [concat]: each part is opened and read, and its content written
    to the temporary file; [tokio::io::copy] flushes it, so that a failure is reported. *)
Fixpoint copy_parts (temp : string) (parts : list StorageHandle) : M Fs unit :=
  match parts with
  | [] => ret tt
  | part :: parts =>
      let! path := of_outcome (path_for_handle part) in
      do! io (fs_open path) in
      let! content := io (fs_read path) in
      do! io (fs_write_all temp content) in
      copy_parts temp parts
  end.

Definition file_concat (request : ConcatRequest) : M Fs StorageHandle :=
  let target := cr_target request in
  let! target_path := of_outcome (path_for_handle target) in
  let! temp_path := unique_concat_temp_path target_path in
  do! io (fs_create temp_path) in
  do! copy_parts temp_path (cr_parts request) in
  do! io (fs_sync temp_path) in
  do! replace_file temp_path target_path in
  do! sync_parent_dir in
  ret target.

Definition file_delete (handle : StorageHandle) : M Fs unit :=
  let! path := of_outcome (path_for_handle handle) in
  let! removed := try_io (fs_remove_file path) in
  match removed with
  | inr _ => ret tt
  | inl error =>
      if decide (io_kind error = IoErrorKind.NotFound) then ret tt else throw (io_error error)
  end.

Definition file_size (handle : StorageHandle) : M Fs (option N) :=
  let! path := of_outcome (path_for_handle handle) in
  let! metadata := try_io (fs_metadata path) in
  match metadata with
  | inr size => ret (Some size)
  | inl error =>
      if decide (io_kind error = IoErrorKind.NotFound) then ret None else throw (io_error error)
  end.

Definition FileStorage_Storage : Storage Fs := {|
  storage_create := file_create;
  storage_append := file_append;
  storage_concat := file_concat;
  storage_delete := file_delete;
  storage_size := file_size;
|}.

(** The streams read lazily; an upload that can be downloaded no longer changes, so
    they are taken to read when they are opened. *)
Definition file_stream (handle : StorageHandle) : M Fs ByteStream :=
  let! path := of_outcome (path_for_handle handle) in
  do! io (fs_open path) in
  let! content := io (fs_read path) in
  ret (reader_stream content).

Definition file_stream_range (handle : StorageHandle) (start : N) (stop : option N)
    : M Fs ByteStream :=
  let! path := of_outcome (path_for_handle handle) in
  let! size := io (fs_metadata path) in
  let start := N.min start size in
  let stop := N.min (default size stop) size in
  if stop <=? start then ret [ {| si_chunk := inr []; si_deferred := None |} ]
  else
    do! io (fs_open path) in
    do! io (fs_seek path) in
    let! content := io (fs_read path) in
    ret (reader_stream (slice start stop content)).

Definition FileStorage_StorageReader : StorageReader Fs := {|
  storage_stream := file_stream;
  storage_stream_range := file_stream_range;
|}.
End file_storage.
