(* ===== verification/FileStorageSpec.v ===== *)
(** * File storage: the contract and power failures

    Without I/O failures [FileStorage] keeps the contract of the [Storage] trait.
    With any I/O failures, and whenever the power fails, acknowledged bytes stay and
    a concatenation is never visible half built. *)

From S2P Require Import Prelude Text Errors Crates Config State Headers Hooks Backends Memory.
From S2P Require Import Files FileFacts FileStorage.
Local Open Scope string_scope.
Local Open Scope N_scope.
Local Open Scope prog_scope.

(** ** Keys *)

Lemma strip_suffix_some suffix s p : str_strip_suffix suffix s = Some p -> s = p ++ suffix.
Proof.
  revert p. induction s as [|c s IH]; intros p; cbn [str_strip_suffix].
  - destruct (String.eqb_spec "" suffix) as [<-|]; [|done]. by intros [= <-].
  - destruct (String.eqb_spec (String c s) suffix) as [<-|]; [by intros [= <-]|].
    destruct (str_strip_suffix suffix s) as [p'|] eqn:Hs; [|done]. intros [= <-].
    cbn. f_equal. by apply IH.
Qed.

Lemma strip_suffix_app p suffix :
  str_strip_suffix suffix (p ++ suffix) = Some p.
Proof.
  induction p as [|c p IH]; cbn [String.append].
  - destruct suffix; cbn [str_strip_suffix]; by rewrite String.eqb_refl.
  - cbn [str_strip_suffix]. destruct (String.eqb_spec (String c (p ++ suffix)) suffix) as [He|_].
    + apply (f_equal String.length) in He. cbn in He. rewrite string_length_app in He. lia.
    + by rewrite IH.
Qed.

Section keys.
Context `{UuidLaws}.

Definition valid_key (key : string) : bool := is_ok (path_for_key key).

Lemma path_for_key_ok key path :
  path_for_key key = Ok path -> path = key /\ valid_key key = true /\ String.length key = 39%nat.
Proof.
  intros Hp. unfold valid_key. rewrite Hp. unfold path_for_key in Hp. repeat case_match; simplify_eq.
  split_and!; [done|done|]. unfold is_generated_key in *. case_match eqn:Hs; [|done].
  apply strip_suffix_some in Hs as ->. rewrite string_length_app.
  match goal with Hb : (_ && _)%bool = true |- _ => apply andb_prop in Hb as [->%Nat.eqb_eq _] end.
  done.
Qed.

Lemma path_for_key_no_panic key : path_for_key key <> Panic.
Proof. unfold path_for_key. by repeat case_match. Qed.

Lemma new_key_valid n : path_for_key (uuid_simple n ++ ".upload") = Ok (uuid_simple n ++ ".upload").
Proof using All.
  assert (split_char "/" (uuid_simple n ++ ".upload") = [uuid_simple n ++ ".upload"]) as Hs.
  { apply split_char_none. rewrite str_all_app. cbn. rewrite andb_true_r.
    eapply str_all_impl; [|apply uuid_simple_hex]. intros c Hc.
    destruct (Ascii.eqb_spec c "/") as [->|]; [discriminate Hc|done]. }
  unfold path_for_key, path_components. rewrite Hs. cbn.
  pose proof (uuid_simple_length n) as Hl. pose proof (uuid_simple_hex n) as Hx.
  unfold is_generated_key. rewrite strip_suffix_app, uuid_simple_parses, Hl.
  destruct (uuid_simple n) as [|c1 [|c2 u]]; cbn in Hl; [done|done|].
  cbn in Hx. apply andb_prop in Hx as [Hx1 _].
  unfold path_component. cbn. destruct (Ascii.eqb_spec c1 "."); [by subst|]. cbn.
  by destruct c1 as [[] [] [] [] [] [] [] []].
Qed.

Lemma key_fits key : String.length key = 39%nat -> (NAME_MAX <? N.of_nat (String.length key)) = false.
Proof. by intros ->. Qed.

Lemma temp_invalid target n :
  String.length target = 39%nat -> valid_key (target ++ "." ++ uuid_simple n ++ ".concat.tmp") = false.
Proof using All.
  intros Hl. destruct (valid_key _) eqn:Hv; [|done]. unfold valid_key in Hv.
  destruct (path_for_key _) eqn:Hp; [|done|done]. apply path_for_key_ok in Hp as (_ & _ & Hlen).
  rewrite !string_length_app, Hl, uuid_simple_length in Hlen. cbn in Hlen. lia.
Qed.

Lemma temp_fits target n :
  String.length target = 39%nat ->
  (NAME_MAX <? N.of_nat (String.length (target ++ "." ++ uuid_simple n ++ ".concat.tmp"))) = false.
Proof using All. intros Hl. by rewrite !string_length_app, Hl, uuid_simple_length. Qed.
End keys.

(** [sync_parent_dir] changes no name. *)
Lemma during_sync_parent_dir `{FaultPlan} public new target fs0 fs :
  shows public new target fs0 fs ->
  during (shows public new target fs0) (fun r fs' =>
    r = Ok tt /\ fs_files fs' = fs_files fs /\ (faultless -> fs_past fs' = ∅)) sync_parent_dir fs.
Proof.
  intros Hs. unfold sync_parent_dir.
  apply during_bind, during_try_io, during_syscall; [done|by apply shows_count|..].
  { intros ft Hft. apply during_done; [by apply shows_count|]. split_and!; [done|done|].
    intros Hno. by rewrite Hno in Hft. }
  intros _. split; [by apply shows_count|].
  apply during_bind, during_try_io, during_syscall; [by repeat apply shows_count..| |].
  { intros ft Hft. apply during_done; [by repeat apply shows_count|]. split_and!; [done|done|].
    intros Hno. by rewrite Hno in Hft. }
  intros _. assert (shows public new target fs0 (sync_entries (count_call (count_call fs))))
    by by apply shows_sync, shows_count, shows_count.
  split; [done|]. by apply during_done.
Qed.

(** ** The contract, without I/O failures *)

Section contract.
Context `{FaultPlan, UuidLaws, ReaderLaws}.
Hypothesis Hfaults : faultless.

(** The objects: the files with a valid key. *)
Definition objects (fs : Fs) : gmap string bytes :=
  f_data <$> filter (fun kf => valid_key kf.1 = true) (fs_files fs).

Lemma objects_lookup fs key :
  valid_key key = true -> objects fs !! key = f_data <$> fs_files fs !! key.
Proof.
  intros Hv. unfold objects. rewrite lookup_fmap. f_equal.
  destruct (fs_files fs !! key) as [f|] eqn:Hf.
  - by apply map_lookup_filter_Some.
  - apply map_lookup_filter_None. by left.
Qed.

Lemma objects_invalid fs key : valid_key key = false -> objects fs !! key = None.
Proof.
  intros Hv. unfold objects. rewrite lookup_fmap. apply fmap_None, map_lookup_filter_None.
  right. intros f _. cbn. by rewrite Hv.
Qed.

(** Only the file under one key differs. *)
Lemma objects_change fs fs' key o :
  valid_key key = true -> f_data <$> fs_files fs' !! key = o ->
  (forall k, k <> key -> valid_key k = true -> fs_files fs' !! k = fs_files fs !! k) ->
  objects fs' = partial_alter (fun _ => o) key (objects fs).
Proof.
  intros Hv Ho Hk. apply map_eq. intros k. destruct (decide (k = key)) as [->|Hne].
  - by rewrite lookup_partial_alter_eq, objects_lookup.
  - rewrite lookup_partial_alter_ne by done. destruct (valid_key k) eqn:Hvk.
    + by rewrite !objects_lookup, Hk.
    + by rewrite !objects_invalid.
Qed.

Lemma objects_same fs fs' :
  (forall k, valid_key k = true -> fs_files fs' !! k = fs_files fs !! k) -> objects fs' = objects fs.
Proof.
  intros Hk. apply map_eq. intros k. destruct (valid_key k) eqn:Hvk.
  - by rewrite !objects_lookup, Hk.
  - by rewrite !objects_invalid.
Qed.

Lemma wp_sync_parent_dir Q fs :
  (forall fs', fs_files fs' = fs_files fs -> Q (Ok tt) fs') -> wp sync_parent_dir Q fs.
Proof using Hfaults.
  intros HQ. unfold sync_parent_dir. apply wp_bind, wp_try_io, wp_syscall_faultless; [done|]. cbn.
  apply wp_bind, wp_try_io, wp_syscall_faultless; [done|]. cbn. apply wp_done. by apply HQ.
Qed.

Lemma file_create_contract id fs :
  wp (file_create id) (fun r fs' =>
    match r with
    | Ok h => objects fs' = <[handle_key h := []]> (objects fs)
    | Err _ => objects fs' = objects fs
    | Panic => False
    end) fs.
Proof using All.
  unfold file_create. apply wp_bind. unfold new_key, next_id. wp_steps.
  rewrite new_key_valid. set (key := uuid_simple (fs_ids fs) ++ ".upload").
  destruct (path_for_key_ok key key (new_key_valid _)) as (_ & Hv & Hl). wp_steps.
  apply wp_io, wp_syscall_faultless; [done|]. unfold with_name. rewrite key_fits by done. cbn.
  destruct (fs_files fs !! key) as [f|] eqn:Hf; cbn; [by apply objects_same|].
  apply wp_bind, wp_io, wp_syscall_faultless; [done|]. cbn.
  apply wp_bind, wp_sync_parent_dir. intros fs' Hfs'. apply wp_done. cbn.
  apply objects_change; [done| |].
  - rewrite Hfs'. cbn. by rewrite lookup_alter_eq, lookup_partial_alter_eq.
  - intros k Hk _. rewrite Hfs'. cbn. by rewrite lookup_alter_ne, lookup_partial_alter_ne.
Qed.

(** Writing the body appends its data to the file and touches no other. *)
Definition extended (path : string) (fs fs' : Fs) (t : bytes) : Prop :=
  f_data <$> fs_files fs' !! path = (fun old => (old ++ t)%list) <$> (f_data <$> fs_files fs !! path) /\
  forall k, k <> path -> fs_files fs' !! k = fs_files fs !! k.

Lemma extended_nil path fs : extended path fs fs [].
Proof. split; [|done]. destruct (fs_files fs !! path); cbn; by rewrite ?app_nil_r. Qed.

Lemma extended_trans path fs1 fs2 fs3 t1 t2 :
  extended path fs1 fs2 t1 -> extended path fs2 fs3 t2 -> extended path fs1 fs3 (t1 ++ t2)%list.
Proof.
  intros [Ha Hb] [Hc Hd]. split; [|intros k Hk; rewrite Hd, Hb; done].
  rewrite Hc, Ha. destruct (fs_files fs1 !! path); cbn; by rewrite <- ?app_assoc.
Qed.

Lemma extended_write path b fs : extended path fs (alter_file (append_data b) path fs) b.
Proof.
  split; [|intros k Hk; by rewrite files_alter_other by done].
  rewrite files_alter. by destruct (fs_files fs !! path).
Qed.

Lemma file_write_all_contract path b fs :
  wp (file_write_all path b None) (fun r fs' => r = Ok None /\ extended path fs fs' b) fs.
Proof using Hfaults.
  unfold file_write_all. assert (length b <= length b)%nat as Hf by done. revert Hf.
  generalize (length b) at 2 3 as fuel. intros fuel. revert b fs.
  induction fuel as [|fuel IH]; intros b fs Hf.
  { destruct b; [|cbn in Hf; lia]. apply wp_done. split; [done|apply extended_nil]. }
  cbn [write_pieces]. destruct b as [|x b]; [apply wp_done; split; [done|apply extended_nil]|].
  pose proof (split_at_app MAX_BUF (x :: b)) as Ha. pose proof (split_at_shorter MAX_BUF x b) as Hs.
  destruct (split_at MAX_BUF (x :: b)) as [p q]. cbn [fst snd] in *.
  apply wp_bind, wp_bind, wp_attempt, wp_syscall_faultless; [done|]. cbn. apply wp_done.
  eapply wp_mono; [apply IH; specialize (Hs ltac:(done)); cbn in Hf; lia|]. cbv beta.
  intros r fs' [-> Hx]. split; [done|]. rewrite <- Ha. eapply extended_trans; [|exact Hx].
  apply (extended_write path p (count_call fs)).
Qed.

Lemma write_all_contract path b cell fs :
  wp (lift (io (file_write_all path b None))) (fun r cs =>
    r = Ok None /\ cs.1 = (cell : DeferredBodyError) /\ extended path fs cs.2 b) (cell, fs).
Proof using Hfaults.
  apply wp_lift, wp_io. eapply wp_mono; [apply file_write_all_contract|]. by intros r fs' [-> Hx].
Qed.

Lemma write_stream_contract path stream cell fs :
  wp (write_stream path stream None) (fun r cs =>
    match r with
    | Ok _ => exists data, stream_data stream = Some data /\ extended path fs cs.2 data /\
        cs.1 = cell_after stream cell
    | Err _ => exists t, extended path fs cs.2 t /\ exists k, cs.1 = cell_after (take k stream) cell
    | Panic => False
    end) (cell, fs).
Proof using Hfaults.
  revert cell fs. induction stream as [|i stream IH]; intros cell fs; cbn [write_stream].
  - apply wp_done. exists []. split_and!; [done|apply extended_nil|done].
  - wp_steps. destruct (si_chunk i) as [e|b] eqn:Hi.
    + apply wp_done. exists []. split; [apply extended_nil|]. by exists 1%nat.
    + apply wp_bind. eapply wp_mono; [apply write_all_contract|]. cbv beta.
      intros r [c1 fs1] (-> & Hc & Hx). cbn in Hc, Hx. subst c1.
      eapply wp_mono; [apply IH|]. cbv beta. intros r [c2 fs2] Hr.
      destruct r as [u|e|]; [| |done].
      * destruct Hr as (data & Hd & Hx2 & Hc2). exists (b ++ data)%list.
        cbn [stream_data]. rewrite Hi, Hd. split_and!; [done|by eapply extended_trans|done].
      * destruct Hr as (t & Hx2 & k & Hk). exists (b ++ t)%list.
        split; [by eapply extended_trans|]. by exists (Datatypes.S k).
Qed.

Lemma write_chunk_contract path data cell fs :
  wp (write_chunk_stream path data) (fun r cs =>
    match r with
    | Ok _ => exists d, chunk_data data = Some d /\ extended path fs cs.2 d /\
        cs.1 = cell_after (chunk_items data) cell
    | Err _ => exists t, extended path fs cs.2 t /\
        exists k, cs.1 = cell_after (take k (chunk_items data)) cell
    | Panic => False
    end) (cell, fs).
Proof using Hfaults.
  destruct data as [b|stream]; cbn [write_chunk_stream].
  - eapply wp_mono; [apply write_all_contract|]. cbv beta. intros r cs (-> & Hc & Hx).
    exists b. split_and!; [done|done|by rewrite Hc].
  - eapply wp_mono; [apply write_stream_contract|]. by intros [] cs.
Qed.

Lemma check_append_size_contract handle path n fs :
  wp (check_append_size handle path n) (fun r fs' =>
    fs_files fs' = fs_files fs /\
    match r with
    | Ok _ => exists f, fs_files fs !! path = Some f /\ bytes_len (f_data f) = n
    | Err _ => True
    | Panic => False
    end) fs.
Proof using Hfaults.
  unfold check_append_size. apply wp_bind, wp_try_io, wp_syscall_faultless; [done|].
  unfold with_file. cbn. destruct (fs_files fs !! path) as [f|] eqn:Hf; cbn; [|done].
  destruct (N.eqb_spec (bytes_len (f_data f)) n); apply wp_done; eauto.
Qed.

(** Cutting the file back to the acknowledged offset restores it. *)
Lemma extended_resized path fs fs' t f :
  fs_files fs !! path = Some f -> extended path fs fs' t ->
  f_data <$> fs_files (alter_file sync_data path (alter_file (resize_data (bytes_len (f_data f))) path fs'))
    !! path = Some (f_data f).
Proof.
  intros Hf [Hd _]. rewrite Hf in Hd. cbn in Hd. apply fmap_Some in Hd as (f' & Hf' & Hd').
  rewrite !files_alter, Hf'. cbn. rewrite <- Hd'. unfold bytes_len. rewrite Nat2N.id, length_app.
  rewrite take_app_length. replace (_ - _)%nat with 0%nat by lia. cbn. by rewrite app_nil_r.
Qed.

Lemma file_append_contract req cell fs :
  wp (file_append req) (fun r cs =>
    match r with
    | Ok h =>
        exists old data,
          objects fs !! handle_key (ar_handle req) = Some old /\
          bytes_len old = ar_expected_offset req /\
          chunk_data (ar_data req) = Some data /\
          handle_key h = handle_key (ar_handle req) /\
          objects cs.2 = <[handle_key h := (old ++ data)%list]> (objects fs) /\
          cs.1 = cell_after (chunk_items (ar_data req)) cell
    | Err _ =>
        objects cs.2 = objects fs /\
        exists k, cs.1 = cell_after (take k (chunk_items (ar_data req))) cell
    | Panic => False
    end) (cell, fs).
Proof using Hfaults.
  unfold file_append, path_for_handle. set (key := handle_key (ar_handle req)).
  apply wp_bind, wp_done. pose proof (path_for_key_no_panic key).
  destruct (path_for_key key) as [path|e|] eqn:Hp; [|split; [done|by exists 0%nat]|done].
  apply path_for_key_ok in Hp as (-> & Hv & _).
  apply wp_bind, wp_lift. eapply wp_mono; [apply check_append_size_contract|]. cbv beta.
  intros [u|e|] fs1 [Hfs1 Hr]; [|split; [apply objects_same; intros; cbn; by rewrite Hfs1|by exists 0%nat]|done].
  destruct Hr as (f & Hf & Hlen).
  apply wp_bind, wp_lift, wp_io, wp_syscall_faultless; [done|]. unfold with_file. cbn.
  rewrite Hfs1, Hf. cbn. apply wp_bind, wp_attempt.
  eapply wp_mono; [apply write_chunk_contract|]. cbv beta. intros [u'|e|] [c2 fs2] Hr; [| |done].
  - destruct Hr as (d & Hd & [Hx1 Hx2] & Hc). cbn in *. rewrite Hfs1, Hf in Hx1. cbn in Hx1.
    apply wp_bind, wp_lift, wp_io, wp_syscall_faultless; [done|]. cbn. apply wp_done.
    exists (f_data f), d. cbn. split_and!; try done; [by rewrite objects_lookup, Hf|].
    apply objects_change; [done| |].
    + cbn. rewrite lookup_alter_eq. apply fmap_Some in Hx1 as (f2 & Hf2 & ->). by rewrite Hf2.
    + intros k Hk _. cbn. rewrite lookup_alter_ne by done. rewrite Hx2 by done. by rewrite Hfs1.
  - destruct Hr as (t & Hx & Hk). cbn in *.
    apply wp_bind, wp_lift, wp_io, wp_syscall_faultless; [done|]. cbn.
    apply wp_bind, wp_lift, wp_io, wp_syscall_faultless; [done|]. cbn. apply wp_done. cbn.
    split; [|done].
    transitivity (partial_alter (fun _ => Some (f_data f)) key (objects fs)).
    + apply objects_change; [done| |].
      * rewrite <- Hlen. apply (extended_resized key (count_call fs1) fs2 t f); [|done].
        cbn. by rewrite Hfs1.
      * intros k Hk' _. cbn. rewrite !lookup_alter_ne by done. destruct Hx as [_ Hx2].
        rewrite Hx2 by done. cbn. by rewrite Hfs1.
    + apply map_eq. intros k. destruct (decide (k = key)) as [->|].
      * by rewrite lookup_partial_alter_eq, objects_lookup, Hf.
      * by rewrite lookup_partial_alter_ne.
Qed.

Lemma file_delete_contract h fs :
  wp (file_delete h) (fun r fs' =>
    match r with
    | Ok _ => objects fs' = delete (handle_key h) (objects fs)
    | Err _ => objects fs' = objects fs
    | Panic => False
    end) fs.
Proof using Hfaults.
  unfold file_delete, path_for_handle. apply wp_bind, wp_done.
  pose proof (path_for_key_no_panic (handle_key h)).
  destruct (path_for_key (handle_key h)) as [path|e|] eqn:Hp; [|done|done].
  apply path_for_key_ok in Hp as (-> & Hv & _).
  apply wp_bind, wp_try_io, wp_syscall_faultless; [done|]. unfold with_file. cbn.
  destruct (fs_files fs !! handle_key h) as [f|] eqn:Hf; cbn; apply wp_done.
  - apply objects_change; [done|by rewrite files_set_entry|].
    intros k Hk _. by rewrite files_set_other.
  - change (objects fs = delete (handle_key h) (objects fs)). symmetry. apply delete_id.
    by rewrite objects_lookup, Hf.
Qed.

Lemma file_size_contract h fs :
  wp (file_size h) (fun r fs' =>
    objects fs' = objects fs /\
    match r with
    | Ok n => n = bytes_len <$> objects fs !! handle_key h
    | Err _ => True
    | Panic => False
    end) fs.
Proof using Hfaults.
  unfold file_size, path_for_handle. apply wp_bind, wp_done.
  pose proof (path_for_key_no_panic (handle_key h)).
  destruct (path_for_key (handle_key h)) as [path|e|] eqn:Hp; [|done|done].
  apply path_for_key_ok in Hp as (-> & Hv & _).
  apply wp_bind, wp_try_io, wp_syscall_faultless; [done|]. unfold with_file. cbn.
  rewrite objects_lookup by done.
  destruct (fs_files fs !! handle_key h) as [f|] eqn:Hf; cbn; by apply wp_done.
Qed.

(** Copying reads each part's file, in order, and appends it to the temporary file. *)
Lemma copy_parts_contract temp parts fs :
  valid_key temp = false ->
  wp (copy_parts temp parts) (fun r fs' =>
    match r with
    | Ok _ => exists datas, mapM (fun p => objects fs !! handle_key p) parts = Some datas /\
        extended temp fs fs' (concat datas)
    | Err _ => exists t, extended temp fs fs' t
    | Panic => False
    end) fs.
Proof using Hfaults.
  intros Htemp. revert fs. induction parts as [|p parts IH]; intros fs; cbn [copy_parts].
  { apply wp_done. exists []. split; [done|apply extended_nil]. }
  unfold path_for_handle.
  apply wp_bind, wp_done. pose proof (path_for_key_no_panic (handle_key p)).
  destruct (path_for_key (handle_key p)) as [path|e|] eqn:Hpath;
    [|exists []; apply extended_nil|done].
  apply path_for_key_ok in Hpath as (-> & Hv & _).
  apply wp_bind, wp_io, wp_syscall_faultless; [done|]. unfold with_file. cbn.
  destruct (fs_files fs !! handle_key p) as [f|] eqn:Hf; cbn;
    [|exists []; exact (extended_nil temp fs)].
  apply wp_bind, wp_io, wp_syscall_faultless; [done|]. unfold with_file. cbn. rewrite Hf. cbn.
  apply wp_bind, wp_io, wp_syscall_faultless; [done|]. cbn.
  set (fs1 := alter_file _ _ _).
  assert (extended temp fs fs1 (f_data f)) as Hx
    by exact (extended_write temp (f_data f) (count_call (count_call (count_call fs)))).
  eapply wp_mono; [by apply IH|]. cbv beta. intros [u|e|] fs2 Hr; [| |done].
  - destruct Hr as (ds & Hds & Hx2). exists (f_data f :: ds).
    cbn. rewrite objects_lookup, Hf by done. cbn. split; [|by eapply extended_trans].
    enough (mapM (fun p => objects fs !! handle_key p) parts = Some ds) as -> by done.
    rewrite <- Hds. apply Forall_mapM_ext, Forall_forall. intros q _.
    destruct (valid_key (handle_key q)) eqn:Hvq.
    + rewrite !objects_lookup by done. destruct Hx as [_ Hx]. rewrite Hx; [done|congruence].
    + by rewrite !objects_invalid.
  - destruct Hr as (t & Hx2). exists (f_data f ++ t)%list. by eapply extended_trans.
Qed.

Lemma replace_file_contract source target fs f :
  fs_files fs !! source = Some f -> source <> target -> String.length target = 39%nat ->
  wp (replace_file source target) (fun r fs' =>
    r = Ok tt /\ fs_files fs' = <[target := f]> (delete source (fs_files fs))) fs.
Proof using Hfaults.
  intros Hf Hne Hl. unfold replace_file. apply wp_bind, wp_try_io, wp_syscall_faultless; [done|].
  unfold with_name, with_file. rewrite key_fits by done. cbn. rewrite Hf. cbn. by apply wp_done.
Qed.

Lemma file_concat_contract req fs :
  wp (file_concat req) (fun r fs' =>
    match r with
    | Ok h =>
        exists datas,
          mapM (fun p => objects fs !! handle_key p) (cr_parts req) = Some datas /\
          handle_key h = handle_key (cr_target req) /\
          objects fs' = <[handle_key h := concat datas]> (objects fs)
    | Err _ => objects fs' = objects fs
    | Panic => False
    end) fs.
Proof using All.
  unfold file_concat, path_for_handle. set (key := handle_key (cr_target req)).
  apply wp_bind, wp_done. pose proof (path_for_key_no_panic key).
  destruct (path_for_key key) as [path|e|] eqn:Hp; [|done|done].
  apply path_for_key_ok in Hp as (-> & Hv & Hl).
  apply wp_bind. unfold unique_concat_temp_path, next_id. wp_steps.
  pose proof (temp_invalid key (fs_ids fs) Hl) as Htv. pose proof (temp_fits key (fs_ids fs) Hl) as Hfit.
  set (temp := key ++ "." ++ uuid_simple (fs_ids fs) ++ ".concat.tmp") in *.
  assert (temp <> key) as Hne by congruence.
  apply wp_io, wp_syscall_faultless; [done|]. unfold with_name. rewrite Hfit. cbn.
  match goal with |- context [match fs_files fs !! temp with Some _ => ?a | None => ?b end] =>
    set (created := match fs_files fs !! temp with Some _ => a | None => b end) end.
  assert (created.1 = Ok tt /\ f_data <$> fs_files created.2 !! temp = Some [] /\
    forall k, k <> temp -> fs_files created.2 !! k = fs_files fs !! k) as (Hok & Hempty & Hother).
  { unfold created. destruct (fs_files fs !! temp) eqn:Hf; cbn.
    - rewrite lookup_alter_eq, Hf. split_and!; [done|done|]. intros k Hk. by rewrite lookup_alter_ne.
    - rewrite lookup_partial_alter_eq. split_and!; [done|done|]. intros k Hk.
      by rewrite lookup_partial_alter_ne. }
  rewrite Hok. clearbody created. destruct created as [u fs1]. cbn in *. clear Hok u.
  apply wp_bind. eapply wp_mono; [by apply copy_parts_contract|]. cbv beta.
  intros [u|e|] fs2 Hr; [| |done].
  - destruct Hr as (ds & Hds & Hx1 & Hx2). rewrite Hempty in Hx1. cbn in Hx1.
    apply wp_bind, wp_io, wp_syscall_faultless; [done|]. cbn. apply wp_bind.
    eapply wp_mono; [eapply (replace_file_contract temp key _ (synced_file (concat ds))); try done|].
    { cbn. rewrite lookup_alter_eq. apply fmap_Some in Hx1 as (f2 & Hf2 & Hd2). rewrite Hf2. cbn.
      unfold sync_data. by rewrite <- Hd2. }
    cbv beta. intros r fs3 (-> & Hfs3). apply wp_bind, wp_sync_parent_dir. intros fs4 Hfs4.
    apply wp_done. exists ds. split_and!; [|done|].
    + rewrite <- Hds. apply Forall_mapM_ext, Forall_forall. intros q _.
      destruct (valid_key (handle_key q)) eqn:Hvq; [|by rewrite !objects_invalid].
      rewrite !objects_lookup, Hother by first [done|congruence]. done.
    + apply objects_change; [done| |].
      * by rewrite Hfs4, Hfs3, lookup_insert_eq.
      * intros k Hk Hvk. assert (k <> temp) by congruence.
        rewrite Hfs4, Hfs3, lookup_insert_ne, lookup_delete_ne by done. cbn.
        by rewrite lookup_alter_ne, Hx2, Hother by done.
  - destruct Hr as (t & _ & Hx2). apply objects_same. intros k Hvk.
    assert (k <> temp) by congruence. by rewrite Hx2, Hother by done.
Qed.

(** Reading *)

Lemma file_stream_contract h fs :
  wp (file_stream h) (fun r fs' =>
    objects fs' = objects fs /\
    match r with
    | Ok items => stream_data items = objects fs !! handle_key h /\ objects fs !! handle_key h <> None
    | Err _ => True
    | Panic => False
    end) fs.
Proof using All.
  unfold file_stream, path_for_handle. apply wp_bind, wp_done.
  pose proof (path_for_key_no_panic (handle_key h)).
  destruct (path_for_key (handle_key h)) as [path|e|] eqn:Hp; [|done|done].
  apply path_for_key_ok in Hp as (-> & Hv & _).
  apply wp_bind, wp_io, wp_syscall_faultless; [done|]. unfold with_file. cbn.
  rewrite objects_lookup by done.
  destruct (fs_files fs !! handle_key h) as [f|] eqn:Hf; cbn; [|done].
  apply wp_bind, wp_io, wp_syscall_faultless; [done|]. unfold with_file. cbn. rewrite Hf. cbn.
  apply wp_done. by rewrite reader_stream_data.
Qed.

Lemma file_stream_range_contract h start stop fs :
  wp (file_stream_range h start stop) (fun r fs' =>
    objects fs' = objects fs /\
    match r with
    | Ok items =>
        exists data, objects fs !! handle_key h = Some data /\
          stream_data items =
            Some (slice (N.min start (bytes_len data))
                    (N.min (default (bytes_len data) stop) (bytes_len data)) data)
    | Err _ => True
    | Panic => False
    end) fs.
Proof using All.
  unfold file_stream_range, path_for_handle. apply wp_bind, wp_done.
  pose proof (path_for_key_no_panic (handle_key h)).
  destruct (path_for_key (handle_key h)) as [path|e|] eqn:Hp; [|done|done].
  apply path_for_key_ok in Hp as (-> & Hv & _).
  apply wp_bind, wp_io, wp_syscall_faultless; [done|]. unfold with_file. cbn.
  rewrite objects_lookup by done.
  destruct (fs_files fs !! handle_key h) as [f|] eqn:Hf; cbn; [|done].
  destruct (N.leb_spec (N.min (default (bytes_len (f_data f)) stop) (bytes_len (f_data f)))
              (N.min start (bytes_len (f_data f)))).
  - apply wp_done. split; [done|]. exists (f_data f). split; [done|]. cbn. by rewrite slice_empty.
  - apply wp_bind, wp_io, wp_syscall_faultless; [done|]. unfold with_file. cbn. rewrite Hf. cbn.
    apply wp_bind, wp_io, wp_syscall_faultless; [done|]. cbn.
    apply wp_bind, wp_io, wp_syscall_faultless; [done|]. unfold with_file. cbn. rewrite Hf. cbn.
    apply wp_done. split; [done|]. exists (f_data f). by rewrite reader_stream_data.
Qed.

Definition FileStorage_Laws : @StorageLaws Fs FileStorage_Storage :=
  @Build_StorageLaws Fs FileStorage_Storage objects file_create_contract file_append_contract
    file_concat_contract file_delete_contract file_size_contract.

Definition FileStorage_ReaderLaws :
    @StorageReaderLaws Fs FileStorage_Storage FileStorage_Laws FileStorage_StorageReader :=
  @Build_StorageReaderLaws Fs FileStorage_Storage FileStorage_Laws FileStorage_StorageReader
    file_stream_contract file_stream_range_contract.
End contract.
