(* ===== verification/FileCrash.v ===== *)
(** * File storage: failures and power failures

    The operations of [FileStorage] under any failures of the file system, and what
    a power failure leaves at any point of them: acknowledged bytes stay, and a
    concatenation is never visible half built. *)

From S2P Require Import Prelude Text Errors Crates Config State Headers Hooks Backends Memory.
From S2P Require Import Files FileFacts FileStorage FileStorageSpec.
Local Open Scope string_scope.
Local Open Scope N_scope.
Local Open Scope prog_scope.

(** ** Acknowledged bytes

    [kept key old fs]: the file of [key] starts with [old], and so does all that a
    power failure may leave of it. *)

Definition keeps (old : bytes) (f : File) : Prop :=
  old `prefix_of` f_data f /\ old `prefix_of` f_stable f.

Record kept (key : string) (old : bytes) (fs : Fs) : Prop := {
  kept_file : exists f, fs_files fs !! key = Some f /\ keeps old f;
  kept_past : past key fs = [];
}.

Lemma kept_crashed key old fs disk :
  kept key old fs -> crashed fs disk -> exists t, disk !! key = Some (old ++ t)%list.
Proof.
  intros [(f & Hf & Hd & Hs) Hp] Hdisk. specialize (Hdisk key).
  apply on_disk_synced in Hdisk; [|done]. rewrite Hf in Hdisk.
  destruct (disk !! key) as [b|]; [|done]. cbn in Hdisk. unfold survives in Hdisk.
  destruct (f_dirty f).
  - destruct Hs as [s Hs], Hdisk as [u ->]. exists (s ++ u)%list. by rewrite Hs, <- app_assoc.
  - destruct Hd as [s Hs']. subst b. exists s. by rewrite Hs'.
Qed.

Lemma keeps_append old b f : keeps old f -> keeps old (append_data b f).
Proof. intros [Hd Hs]. split; [by apply prefix_app_r|done]. Qed.

Lemma keeps_sync old f : keeps old f -> keeps old (sync_data f).
Proof. by intros [Hd _]. Qed.

Lemma prefix_take {A} (old l : list A) n :
  (length old <= n)%nat -> old `prefix_of` l -> old `prefix_of` take n l.
Proof.
  intros Hn [t ->]. rewrite take_app_ge by done. by apply prefix_app_r.
Qed.

Lemma keeps_resize old n f : bytes_len old <= n -> keeps old f -> keeps old (resize_data n f).
Proof.
  unfold bytes_len. intros Hn [Hd Hs]. split; cbn.
  - apply prefix_app_r, prefix_take; [lia|done].
  - apply prefix_take; [lia|done].
Qed.

Lemma kept_alter key old g fs :
  (forall f, keeps old f -> keeps old (g f)) -> kept key old fs -> kept key old (alter_file g key fs).
Proof.
  intros Hg [(f & Hf & Hk) Hp]. split; [|done]. exists (g f). rewrite files_alter, Hf. auto.
Qed.

Lemma kept_untouched key old fs fs' : untouched key fs fs' -> kept key old fs -> kept key old fs'.
Proof. intros [Hf Hp] [H1 H2]. split; [by rewrite Hf|by rewrite Hp]. Qed.

Lemma kept_sync_entries key old fs : kept key old fs -> kept key old (sync_entries fs).
Proof. by intros [H1 H2]. Qed.

Lemma kept_count key old fs : kept key old fs -> kept key old (count_call fs).
Proof. by intros [H1 H2]. Qed.

(** A change of one file by a function that keeps what is acknowledged in it. *)
Lemma kept_alter_any key old path g fs :
  (path = key -> forall f, keeps old f -> keeps old (g f)) ->
  kept key old fs -> kept key old (alter_file g path fs).
Proof.
  intros Hg Hk. destruct (decide (path = key)) as [->|Hne]; [by apply kept_alter; [apply Hg|]|].
  by eapply kept_untouched; [by apply untouched_alter|].
Qed.

(** [append] keeps the acknowledged bytes of every file, whatever fails. *)
Section append.
Context `{FaultPlan, Uuids, Readers}.
Context (key : string) (old : bytes).
Abbreviation safe := (fun cs : DeferredBodyError * Fs => kept key old cs.2).

Lemma kept_append path b fs :
  kept key old fs -> kept key old (alter_file (append_data b) path (count_call fs)).
Proof. intros Hk. apply kept_alter_any, kept_count; [|done]. intros _ f. apply keeps_append. Qed.

Lemma during_write_all path f0 t b d cell fs :
  kept key old fs -> written path f0 t d fs ->
  during safe (fun r cs =>
    match r with
    | Ok d' => written path f0 (t ++ b)%list d' cs.2 /\ (writes_succeed -> d = None -> d' = None)
    | Err _ => True
    | Panic => False
    end) (lift (io (file_write_all path b d))) (cell, fs).
Proof.
  intros Hk Hw. apply (during_lift (kept key old)), during_io. eapply during_mono.
  { apply (during_file_write_all (kept key old) path f0 (kept_append path) t b d); done. }
  by intros [].
Qed.

Lemma during_write_stream path f0 t stream d cell fs :
  kept key old fs -> written path f0 t d fs ->
  during safe (fun r cs =>
    match r with
    | Ok d' => exists data, stream_data stream = Some data /\ written path f0 (t ++ data)%list d' cs.2 /\
        (writes_succeed -> d = None -> d' = None)
    | Err _ => True
    | Panic => False
    end) (write_stream path stream d) (cell, fs).
Proof.
  revert t d cell fs. induction stream as [|i stream IH]; intros t d cell fs Hk Hw; cbn [write_stream].
  - apply during_done; [done|]. exists []. by rewrite app_nil_r.
  - apply during_bind, during_act; cbn; [done|done|].
    destruct (si_chunk i) as [e|b] eqn:Hi; [by apply during_done|].
    apply during_bind. eapply during_mono; [by apply during_write_all|]. cbv beta.
    intros [d1|e|] [c1 fs1] Hk1 Hr; [|done|done]. destruct Hr as [Hw1 Hd1].
    eapply during_mono; [by apply (IH (t ++ b)%list d1)|]. cbv beta.
    intros [d2|e|] [c2 fs2] Hk2 Hr2; [|done|done].
    destruct Hr2 as (data & Hd & Hw2 & Hd2). exists (b ++ data)%list.
    rewrite Hd, app_assoc. split_and!; [done|done|auto].
Qed.

Lemma during_write_chunk path f0 data cell fs :
  kept key old fs -> grown path f0 [] fs ->
  during safe (fun r cs =>
    match r with
    | Ok d' => exists d, chunk_data data = Some d /\ written path f0 d d' cs.2 /\ (writes_succeed -> d' = None)
    | Err _ => True
    | Panic => False
    end) (write_chunk_stream path data) (cell, fs).
Proof.
  intros Hk Hg%grown_written. destruct data as [b|stream]; cbn [write_chunk_stream].
  - eapply during_mono; [by apply during_write_all|]. intros [d|e|] cs _ Hr; [|done..]. destruct Hr. eauto 6.
  - eapply during_mono; [by apply (during_write_stream _ f0 [])|].
    intros [d|e|] cs _ Hr; [|done..]. destruct Hr as (data & Hd & Hw & Hn). eauto 6.
Qed.
End append.

(** ** [append] *)

Section append_safe.
Context `{FaultPlan, Uuids, Readers}.

Lemma during_check_append_size key old handle path n fs :
  kept key old fs ->
  during (kept key old) (fun r fs' =>
    match r with
    | Ok _ => fs_files fs' = fs_files fs /\
        exists f, fs_files fs !! path = Some f /\ bytes_len (f_data f) = n
    | Err _ => True
    | Panic => False
    end) (check_append_size handle path n) fs.
Proof.
  intros Hk. unfold check_append_size. apply during_bind, during_try_io, during_syscall; [done|..].
  - by apply kept_count.
  - intros ft _. cbv beta iota. case_decide; by apply during_done; [apply kept_count|].
  - intros _. unfold with_file. cbn. destruct (fs_files fs !! path) as [f|] eqn:Hf; cbn.
    + split; [by apply kept_count|].
      destruct (N.eqb_spec (bytes_len (f_data f)) n); apply during_done; eauto using kept_count.
    + split; [by apply kept_count|]. by apply during_done; [apply kept_count|].
Qed.

Lemma during_alter key old path g {A} (a : A) cell fs Q :
  (path = key -> forall f, keeps old f -> keeps old (g f)) -> kept key old fs ->
  (forall e, kept key old (count_call fs) -> Q (Err e) (cell, count_call fs)) ->
  (kept key old (alter_file g path (count_call fs)) -> Q (Ok a) (cell, alter_file g path (count_call fs))) ->
  during (fun cs : DeferredBodyError * Fs => kept key old cs.2) Q
    (lift (io (syscall (fun fs => (Ok a, alter_file g path fs))))) (cell, fs).
Proof.
  intros Hg Hk He Ho. apply during_lift, during_io, during_syscall; [done|by apply kept_count| |].
  - intros ft _. by apply He, kept_count.
  - intros _. cbn. assert (kept key old (alter_file g path (count_call fs))).
    { by apply kept_alter_any, kept_count. }
    auto.
Qed.

Lemma file_append_kept key old req cell fs :
  kept key old fs ->
  during (fun cs => kept key old cs.2) (fun r cs =>
    match r with
    | Ok h =>
        exists f data t,
          fs_files fs !! handle_key (ar_handle req) = Some f /\
          bytes_len (f_data f) = ar_expected_offset req /\
          chunk_data (ar_data req) = Some data /\
          t `prefix_of` data /\ (writes_succeed -> t = data) /\
          fs_files cs.2 !! handle_key (ar_handle req) = Some (synced_file (f_data f ++ t))
    | Err _ => True
    | Panic => False
    end) (file_append req) (cell, fs).
Proof.
  intros Hk. unfold file_append, path_for_handle. set (path := handle_key (ar_handle req)).
  apply during_bind. pose proof (path_for_key_no_panic path).
  destruct (path_for_key path) as [p|e|] eqn:Hp; [|by apply during_done|done].
  apply path_for_key_ok in Hp as (-> & _ & _). apply during_done; [done|].
  apply during_bind, during_lift. eapply during_mono; [by apply during_check_append_size|]. cbv beta.
  intros [u|e|] fs1 Hk1 Hr; [|done|done]. destruct Hr as (Hfs1 & f & Hf & Hlen).
  assert (path = key -> bytes_len old <= ar_expected_offset req) as Hle.
  { intros <-. destruct Hk as [(f' & Hf' & [Hpre _]) _]. rewrite Hf in Hf'.
    injection Hf' as <-. apply prefix_length in Hpre. unfold bytes_len in *. lia. }
  apply during_bind, during_lift, during_io, during_syscall; [done|by apply kept_count|done|].
  intros _. unfold with_file. cbn. rewrite Hfs1, Hf. cbn. split; [by apply kept_count|].
  apply during_bind, during_attempt. eapply during_mono.
  { apply (during_write_chunk key old path f); [by apply kept_count|].
    exists f. cbn. by rewrite Hfs1, Hf, app_nil_r. }
  cbv beta. intros [u'|e|] [c2 fs2] Hk2 Hr; [| |done]; cbn in Hk2, Hr.
  - destruct Hr as (d & Hd & (t & Ht & (f2 & Hf2 & Hd2) & Hwhole) & Hnone).
    apply during_bind, during_alter; [|done|done|].
    { intros _ f'. apply keeps_sync. }
    intros Hk3. apply during_done; [done|]. exists f, d, t. split_and!; try done; [by auto|].
    cbn. rewrite lookup_alter_eq, Hf2. cbn. unfold sync_data. by rewrite Hd2.
  - apply during_bind, during_alter; [|done|done|].
    { intros He f'. by apply keeps_resize, Hle. }
    intros Hk3. apply during_bind, during_alter; [|done|done|].
    { intros _ f'. apply keeps_sync. }
    intros Hk4. by apply during_done.
Qed.
End append_safe.

(** ** [concat] *)

Section concat.
Context `{FaultPlan, UuidLaws, ReaderLaws}.

Lemma objects_untouched temp fs0 fs k :
  valid_key temp = false -> others_untouched temp fs0 fs -> objects fs !! k = objects fs0 !! k.
Proof.
  intros Ht Ho. destruct (valid_key k) eqn:Hv; [|by rewrite !objects_invalid].
  rewrite !objects_lookup by done. destruct (Ho k) as [-> _]; [congruence|done].
Qed.

Lemma during_copy_parts temp parts t fs0 fs :
  valid_key temp = false -> others_untouched temp fs0 fs -> grown temp new_file t fs ->
  during (others_untouched temp fs0) (fun r fs' =>
    match r with
    | Ok _ => exists datas, mapM (fun p => objects fs0 !! handle_key p) parts = Some datas /\
        grown temp new_file (t ++ concat datas) fs'
    | Err _ => True
    | Panic => False
    end) (copy_parts temp parts) fs.
Proof.
  intros Htemp. revert t fs. induction parts as [|p parts IH]; intros t fs Ho Hg; cbn [copy_parts].
  { apply during_done; [done|]. exists []. split; [done|]. by rewrite app_nil_r. }
  unfold path_for_handle. apply during_bind.
  pose proof (path_for_key_no_panic (handle_key p)).
  destruct (path_for_key (handle_key p)) as [path|e|] eqn:Hp; [|by apply during_done|done].
  apply path_for_key_ok in Hp as (-> & Hv & _). apply during_done; [done|].
  apply during_bind, during_io, during_syscall; [done|by apply others_count|done|].
  intros _. unfold with_file. cbn. destruct (fs_files fs !! handle_key p) as [f|] eqn:Hf; cbn;
    [|by auto using others_count].
  split; [by apply others_count|].
  apply during_bind, during_io, during_syscall; [by auto using others_count..|done|].
  intros _. unfold with_file. cbn. rewrite Hf. cbn. split; [by auto using others_count|].
  apply during_bind, during_io, during_syscall_partial; [by auto using others_count| |].
  { intros ft _. cbn. split; [|done]. by apply others_alter, others_count, others_count. }
  intros _. cbn. split; [by apply others_alter, others_count, others_count|].
  eapply during_mono; [apply (IH (t ++ f_data f)%list)|].
  - by apply others_alter, others_count, others_count.
  - apply grown_append, Hg.
  - cbv beta. intros [u|e|] fs2 _ Hr; [|done|done]. destruct Hr as (ds & Hds & Hg2).
    exists (f_data f :: ds). cbn. rewrite Hds.
    rewrite <- (objects_untouched temp fs0 fs) by done. rewrite objects_lookup, Hf by done. cbn.
    by rewrite app_assoc.
Qed.

(** What the directory shows of [target] while [f] replaces it: what it showed
    before, no file, or [f]. *)
Abbreviation valid := (fun k => valid_key k = true).
Definition replaced (f : File) (target : string) : Fs -> Fs -> Prop :=
  shows valid (fun o => o = None \/ o = Some f) target.

Lemma during_replace_file source target f fs0 fs :
  valid_key source = false -> valid_key target = true -> String.length target = 39%nat ->
  fs_files fs !! source = Some f -> replaced f target fs0 fs ->
  during (replaced f target fs0) (fun r fs' =>
    match r with
    | Ok _ => fs_files fs' !! target = Some f
    | Err _ => True
    | Panic => False
    end) (replace_file source target) fs.
Proof.
  intros Hs Hv Hl Hf Hr. assert (source <> target) as Hne by congruence.
  assert (~ valid_key source = true) as Hsv by congruence.
  assert (forall fs1, replaced f target fs0 fs1 -> replaced f target fs0 (count_call fs1)) as Hcount
    by (intros; by apply shows_count).
  assert (forall fs1, replaced f target fs0 fs1 ->
    replaced f target fs0 (set_entry target (Some f) (set_entry source None fs1))) as Hmove.
  { intros fs1 Hr1. apply shows_set; [by left; eauto|]. apply shows_set; [by right|done]. }
  assert (forall fs1, replaced f target fs0 fs1 -> replaced f target fs0 (set_entry target None fs1))
    as Hdrop by (intros fs1 Hr1; apply shows_set; [by left; eauto|done]).
  assert (forall fs1, fs_files (set_entry target (Some f) (set_entry source None fs1)) !! target = Some f)
    as Hdone by (intros; apply files_set_entry).
  assert (forall fs1, replaced f target fs0 fs1 -> fs_files fs1 !! source = Some f ->
    during (replaced f target fs0) (fun r fs' => match r with
      | Ok _ => fs_files fs' !! target = Some f | Err _ => True | Panic => False end)
      (io (fs_rename source target)) fs1) as Hagain.
  { intros fs1 Hr1 Hf1. apply during_io, (during_rename _ _ _ _ f); auto using key_fits. }
  unfold replace_file. apply during_bind, during_try_io, (during_rename _ _ _ _ f);
    auto using key_fits; [|apply during_done; by auto].
  intros ft _. destruct (io_kind (fault_error ft)); try (apply during_done; by auto).
  all: apply during_bind, during_try_io, during_syscall; [by auto|by auto|..]; cbv beta iota.
  1, 3: intros ft' _; case_decide; apply during_bind, during_done; auto.
  all: intros _; unfold with_file; cbn; destruct (fs_files fs !! target) as [f'|] eqn:Ht; cbn;
    (split; [by auto|]); apply during_bind, during_done; auto; apply Hagain; auto.
  all: by rewrite files_set_other.
Qed.

(** What may be seen of the directory, after a power failure or by a reader, at any
    point of a concatenation of [parts] to [target]. *)
Definition concat_shows (target : string) (parts : list StorageHandle) (fs0 : Fs) : Fs -> Prop :=
  shows valid (fun o => o = None \/
    exists datas, mapM (fun p => objects fs0 !! handle_key p) parts = Some datas /\
      o = Some (synced_file (concat datas))) target fs0.

Lemma file_concat_shows req fs :
  during (concat_shows (handle_key (cr_target req)) (cr_parts req) fs)
    (fun r fs' =>
      match r with
      | Ok h =>
          exists datas,
            mapM (fun p => objects fs !! handle_key p) (cr_parts req) = Some datas /\
            fs_files fs' !! handle_key (cr_target req) = Some (synced_file (concat datas))
      | Err _ => True
      | Panic => False
      end) (file_concat req) fs.
Proof using All.
  unfold file_concat, path_for_handle. set (key := handle_key (cr_target req)).
  apply during_bind. pose proof (path_for_key_no_panic key).
  destruct (path_for_key key) as [path|e|] eqn:Hp; [|by apply during_done; [apply shows_refl|]|done].
  apply path_for_key_ok in Hp as (-> & Hv & Hl). apply during_done; [apply shows_refl|].
  pose proof (temp_invalid key (fs_ids fs) Hl) as Htv. pose proof (temp_fits key (fs_ids fs) Hl) as Hfit.
  apply during_bind. unfold unique_concat_temp_path, next_id.
  set (temp := key ++ "." ++ uuid_simple (fs_ids fs) ++ ".concat.tmp") in *.
  set (fs1 := mkFs (fs_files fs) (fs_past fs) (fs_calls fs) (Datatypes.S (fs_ids fs))).
  assert (concat_shows key (cr_parts req) fs fs1) as Hs1 by (split; [by left|done]).
  apply during_bind, during_act; [apply shows_refl|exact Hs1|]. cbn. fold temp fs1.
  apply during_done; [exact Hs1|].
  assert (others_untouched temp fs fs1) as Ho1 by done.
  assert (forall fs', others_untouched temp fs fs' -> concat_shows key (cr_parts req) fs fs') as Hshow
    by (intros; apply (shows_others _ _ _ temp); [congruence|done..]).
  apply during_bind, during_io, (during_weaken _ _ _ _ _ Hshow).
  eapply during_mono; [by apply during_fs_create|]. cbv beta.
  intros [u|e|] fs2 Ho2 Hg; [|done|done].
  apply during_bind, (during_weaken _ _ _ _ _ Hshow).
  eapply during_mono; [by apply (during_copy_parts temp _ [] fs)|]. cbv beta.
  intros [u2|e|] fs3 Ho3 Hr; [|done|done]. destruct Hr as (datas & Hd & Hg3). cbn in Hg3.
  apply during_bind, during_io, (during_weaken _ _ _ _ _ Hshow).
  eapply during_mono; [by apply during_fs_sync|]. cbv beta.
  intros [u3|e|] fs4 Ho4 Hf4; [|done|done].
  apply during_bind, (during_weaken (replaced (synced_file (concat datas)) key fs4)).
  { intros fs' Hr. eapply shows_trans; [|by apply Hshow|exact Hr]. cbv beta.
    intros o [-> | ->]; eauto. }
  eapply during_mono; [by apply during_replace_file; [..|by apply shows_refl]|]. cbv beta.
  intros [u4|e|] fs5 Hr5 Hf5; [|done|done].
  apply during_bind. eapply during_mono; [eapply during_sync_parent_dir|].
  { eapply shows_trans; [|by apply Hshow|exact Hr5]. cbv beta. intros o [-> | ->]; eauto. }
  cbv beta. intros r fs6 Hs6 (-> & Hf6 & _). apply during_done; [done|].
  exists datas. split; [done|]. by rewrite Hf6.
Qed.
End concat.

(** ** What the operations promise *)

Section promises.
Context `{FaultPlan, UuidLaws, ReaderLaws}.

(** C19: without I/O failures [FileStorage] implements the contract of the [Storage]
    and [StorageReader] traits that every theorem about handlers rests on; its
    objects are the files under generated keys, other files (temporary ones) are
    never objects. *)
Theorem file_storage_refines :
  faultless ->
  exists (L : @StorageLaws Fs FileStorage_Storage)
    (_ : @StorageReaderLaws Fs FileStorage_Storage L FileStorage_StorageReader),
  forall fs key, @stored Fs FileStorage_Storage L fs !! key =
    if valid_key key then f_data <$> fs_files fs !! key else None.
Proof using All.
  intros Hf. exists (FileStorage_Laws Hf), (FileStorage_ReaderLaws Hf). intros fs key. cbn.
  destruct (valid_key key) eqn:Hv; [by apply objects_lookup|by apply objects_invalid].
Qed.

(** C7: acknowledged bytes survive: let the content of [key] start with [old] on disk.
    At every point of an append, to this or another key, with any I/O failures, a
    power failure leaves a file that starts with [old].  An append that succeeds
    found exactly the expected offset, and what it leaves is certain to survive: the
    old content and the new bytes, all of them unless a write call failed.  (The file
    is not flushed before it is synced, so that the failure of the last write goes
    unreported; then only a beginning of the new bytes is there.) *)
Theorem append_crash_safe key old req cell fs :
  kept key old fs ->
  during (fun cs => forall disk, crashed cs.2 disk -> exists t, disk !! key = Some (old ++ t)%list)
    (fun r cs =>
      match r with
      | Ok _ => handle_key (ar_handle req) = key ->
          exists content data t,
            bytes_len content = ar_expected_offset req /\ old `prefix_of` content /\
            chunk_data (ar_data req) = Some data /\
            t `prefix_of` data /\ (writes_succeed -> t = data) /\
            durable cs.2 key (content ++ t)%list
      | Err _ => kept key old cs.2
      | Panic => False
      end) (file_append req) (cell, fs).
Proof.
  intros Hk. eapply during_weaken; [intros cs Hcs disk; apply kept_crashed, Hcs|].
  eapply during_mono; [by apply file_append_kept|]. cbv beta. intros [h|e|] cs Hcs Hr; [|done|done].
  intros <-. destruct Hr as (f & data & t & Hf & Hl & Hd & Ht & Hw & Hfs). exists (f_data f), data, t.
  split_and!; [done| |done|done|done|].
  - destruct Hk as [(f' & Hf' & Hp & _) _]. rewrite Hf in Hf'. by injection Hf' as <-.
  - apply durable_synced; [done|apply Hcs].
Qed.

(** C26: a concatenation is never visible half built.  At every point, with any I/O
    failures, what the disk may show under the target is a content it could show
    before, no file, or the complete concatenation of the parts; under other keys
    nothing changes.  When it succeeds the target is the complete concatenation. *)
Theorem concat_never_partial req fs :
  during (fun fs' =>
      (forall d, on_disk fs' (handle_key (cr_target req)) d ->
        on_disk fs (handle_key (cr_target req)) d \/ d = None \/
        exists datas, mapM (fun p => objects fs !! handle_key p) (cr_parts req) = Some datas /\
          d = Some (concat datas)) /\
      forall k d, valid_key k = true -> k <> handle_key (cr_target req) ->
        on_disk fs' k d -> on_disk fs k d)
    (fun r fs' =>
      match r with
      | Ok h =>
          exists datas,
            mapM (fun p => objects fs !! handle_key p) (cr_parts req) = Some datas /\
            fs_files fs' !! handle_key (cr_target req) = Some (synced_file (concat datas))
      | Err _ => True
      | Panic => False
      end) (file_concat req) fs.
Proof using All.
  eapply during_weaken; [|apply file_concat_shows]. intros fs' [Ht Hk]. split.
  - intros d (o & Hin & Ho). destruct (Ht o Hin) as [Hin'|[->|(datas & Hd & ->)]].
    + left. by exists o.
    + right. left. by destruct d.
    + right. right. exists datas. split; [done|]. exact (entry_synced _ _ Ho).
  - intros k d Hv Hne (o & Hin & Ho). exists o. split; [exact (Hk k Hv Hne o Hin)|done].
Qed.
End promises.
