(* ===== verification/FileState.v ===== *)
(** * File state store ([state/file.rs])

    [FileStateStore]: one JSON file per upload record in a directory.  A record is
    written to a temporary file, synced, and moved (or, for a new record, linked)
    to its name. *)

From S2P Require Import Prelude Text Errors Crates Config State Headers Hooks Backends Files FileStorage.
Local Open Scope string_scope.
Local Open Scope N_scope.
Local Open Scope prog_scope.

(** ** Interface of [serde_json], for [UploadState] *)

Class SerdeJson := {
  (** [serde_json::to_string_pretty] *)
  json_to_string_pretty : UploadState -> string + string;
  (** [serde_json::from_str] *)
  json_from_str : string -> string + UploadState;
}.

(** What is printed is text, and parses back to the record. *)
Class SerdeJsonLaws `{SerdeJson} := {
  json_roundtrip st s : json_to_string_pretty st = inr s -> json_from_str s = inr st;
  json_utf8 st s : json_to_string_pretty st = inr s -> utf8_valid (list_byte_of_string s) = true;
}.

(** ** [Path::extension] and [Path::file_stem] of a file name *)

Fixpoint rsplit_char (c : ascii) (s : string) : option (string * string) :=
  match s with
  | EmptyString => None
  | String a s =>
      match rsplit_char c s with
      | Some (before, after) => Some (String a before, after)
      | None => if Ascii.eqb a c then Some ("", s) else None
      end
  end.

Definition path_extension (name : string) : option string :=
  if String.eqb name ".." then None
  else match rsplit_char "." name with
       | Some (before, after) => if is_empty before then None else Some after
       | None => None
       end.

Definition path_file_stem (name : string) : string :=
  if String.eqb name ".." then name
  else match rsplit_char "." name with
       | Some (before, after) => if is_empty before then name else before
       | None => name
       end.

(** ** Names *)

Definition MAX_STATE_FILE_NAME_LEN : N := 255.

Definition file_validate_upload_id (id : string) : result unit :=
  check? UploadId_from_str id in
  if MAX_STATE_FILE_NAME_LEN <? str_len id + str_len ".json" then
    Err (Error.InvalidUploadId
      ("id plus .json suffix is " ++ u64_to_string (str_len id + str_len ".json")
        ++ " bytes; max " ++ u64_to_string MAX_STATE_FILE_NAME_LEN))
  else Ok tt.

Definition state_path (id : string) : result string :=
  check? file_validate_upload_id id in Ok (id ++ ".json").

Section file_state.
Context `{FaultPlan, Uuids, SerdeJson, HashOrder}.

Definition unique_temp_path (path : string) : M Fs string :=
  let! n := next_id in
  ret (path ++ "." ++ uuid_simple n ++ ".tmp").

(** [fs::read_to_string] *)
Definition invalid_utf8 : IoError :=
  {| io_kind := IoErrorKind.InvalidData; io_message := "stream did not contain valid UTF-8" |}.

Definition fs_read_to_string (path : string) : prog IoError Fs string :=
  do! fs_open path in
  let! content := fs_read path in
  if utf8_valid content then ret (string_of_list_byte content) else throw invalid_utf8.

Definition parse_state (content : string) : result UploadState :=
  match json_from_str content with
  | inr state => Ok state
  | inl message => Err (Error.StateStore message)
  end.

Definition read_state (path : string) : M Fs (option UploadState) :=
  let! read := try_io (fs_read_to_string path) in
  match read with
  | inr content =>
      let! state := of_outcome (parse_state content) in
      ret (Some state)
  | inl e =>
      if decide (io_kind e = IoErrorKind.NotFound) then ret None else throw (io_error e)
  end.

(** The file is not flushed: [sync_all] drops what the write has still to report. *)
Definition write_state (path : string) (state : UploadState) (create : bool) : M Fs unit :=
  let! content := of_outcome
    match json_to_string_pretty state with
    | inr content => Ok content
    | inl message => Err (Error.StateStore message)
    end in
  let! temp_path := unique_temp_path path in
  do! io (fs_create_new temp_path) in
  do! io (file_write_all temp_path (list_byte_of_string content) None) in
  do! io (fs_sync temp_path) in
  if create then
    let! linked := try_io (fs_hard_link temp_path path) in
    do! try_io (fs_remove_file temp_path) in
    match linked with
    | inr _ => sync_parent_dir
    | inl error =>
        if decide (io_kind error = IoErrorKind.AlreadyExists)
        then throw (Error.AlreadyExists (UploadState.id state))
        else throw (io_error error)
    end
  else
    do! io (fs_rename temp_path path) in
    sync_parent_dir.

Definition file_set (state : UploadState) (mode : WriteMode) : M Fs unit :=
  let! path := of_outcome (state_path (UploadState.id state)) in
  write_state path state (bool_decide (mode = CreateNew)).

Definition file_get (id : string) : M Fs (option UploadState) :=
  let! path := of_outcome (state_path id) in
  read_state path.

Definition file_state_delete (id : string) : M Fs unit :=
  let! path := of_outcome (state_path id) in
  let! removed := try_io (fs_remove_file path) in
  match removed with
  | inr _ => ret tt
  | inl e =>
      if decide (io_kind e = IoErrorKind.NotFound) then ret tt else throw (io_error e)
  end.

(** [entries.next_entry()]: reading the directory goes on. *)
Definition fs_next_entry : prog IoError Fs unit := syscall (fun fs => (Ok tt, fs)).

Definition is_json (name : string) : bool := bool_decide (path_extension name = Some "json").

Fixpoint list_expired_loop (before : DateTime) (entries : list string) (expired : list string)
    : M Fs (list string) :=
  do! io fs_next_entry in
  match entries with
  | [] => ret expired
  | name :: entries =>
      if negb (is_json name) then list_expired_loop before entries expired
      else
        let! read := attempt (read_state name) in
        list_expired_loop before entries
          match read with
          | inr (Some state) =>
              if UploadState.expires_before state before
              then (expired ++ [UploadState.id state])%list else expired
          | _ => expired
          end
  end.

Definition file_list_expired (before : DateTime) : M Fs (list string) :=
  let! entries := io fs_read_dir in
  list_expired_loop before entries [].

#[export] Instance FileStateStore_StateStore : StateStore Fs := {|
  state_set := file_set;
  state_get := file_get;
  state_delete := file_state_delete;
  state_list_expired := file_list_expired;
|}.

(** [path.file_stem().and_then(|stem| stem.to_str())] with an id that validates. *)
Definition inventory_id (name : string) : option string :=
  let stem := path_file_stem name in
  if is_json name && utf8_valid (list_byte_of_string stem) && valid_upload_id stem
  then Some stem else None.

Fixpoint list_ids_loop (entries : list string) (ids : list string) : M Fs (list string) :=
  do! io fs_next_entry in
  match entries with
  | [] => ret ids
  | name :: entries =>
      list_ids_loop entries
        match inventory_id name with Some id => (ids ++ [id])%list | None => ids end
  end.

Definition file_list_upload_ids (limit offset : N) : M Fs (list string) :=
  let! entries := io fs_read_dir in
  let! ids := list_ids_loop entries [] in
  ret (take (N.to_nat limit) (drop (N.to_nat offset) (sort_strings ids))).

#[export] Instance FileStateStore_UploadInventory : UploadInventory Fs := {|
  list_upload_ids := file_list_upload_ids;
|}.
End file_state.
