(* ===== verification/FileStateSpec.v ===== *)
(** * File state store: the contract and power failures

    Whatever calls fail, [FileStateStore] keeps the contract of the [StateStore]
    trait: an operation that reports an error has changed no record.  A power
    failure during a write leaves the old record or the new one. *)

From S2P Require Import Prelude Text Errors Crates Config State Headers Hooks Backends Memory.
From S2P Require Import Files FileFacts FileStorage FileStorageSpec FileState.
Local Open Scope string_scope.
Local Open Scope N_scope.
Local Open Scope prog_scope.

(** ** File names *)

Lemma rsplit_char_some c s a b : rsplit_char c s = Some (a, b) -> s = a ++ String c b.
Proof.
  revert a b. induction s as [|d s IH]; intros a b; cbn; [done|].
  destruct (rsplit_char c s) as [[x y]|]; [|by destruct (Ascii.eqb_spec d c) as [->|]; intros; simplify_eq].
  intros [= <- <-]. cbn. f_equal. by apply IH.
Qed.

Lemma rsplit_char_none c s : str_all (fun d => negb (Ascii.eqb d c)) s = true -> rsplit_char c s = None.
Proof.
  induction s as [|d s IH]; cbn; [done|]. intros [Hd Hs]%andb_prop. rewrite IH by done.
  by destruct (Ascii.eqb d c).
Qed.

Lemma rsplit_char_app c a b :
  str_all (fun d => negb (Ascii.eqb d c)) b = true -> rsplit_char c (a ++ String c b) = Some (a, b).
Proof.
  intros Hb. induction a as [|d a IH]; cbn; [|by rewrite IH].
  by rewrite rsplit_char_none, Ascii.eqb_refl.
Qed.

Lemma json_name_not_dots k : String.eqb (k ++ ".json") ".." = false.
Proof.
  apply String.eqb_neq. intros Heq%(f_equal String.length). rewrite string_length_app in Heq.
  cbn in Heq. lia.
Qed.

Lemma is_json_name k : k <> "" -> is_json (k ++ ".json") = true /\ path_file_stem (k ++ ".json") = k.
Proof.
  intros Hk. unfold is_json, path_extension, path_file_stem.
  rewrite json_name_not_dots, (rsplit_char_app "." k "json") by done. by destruct k.
Qed.

Lemma is_json_stem name :
  is_json name = true -> path_file_stem name <> "" /\ name = path_file_stem name ++ ".json".
Proof.
  unfold is_json, path_extension, path_file_stem. rewrite bool_decide_eq_true.
  destruct (String.eqb name ".."); [done|].
  destruct (rsplit_char "." name) as [[a b]|] eqn:Hs; [|done].
  apply rsplit_char_some in Hs. destruct a as [|c a]; cbn [is_empty]; [done|].
  intros [= ->]. by split.
Qed.

Lemma json_name_inj k k' : k ++ ".json" = k' ++ ".json" -> k = k'.
Proof.
  intros Heq. destruct (decide (k = "")) as [->|Hk], (decide (k' = "")) as [->|Hk']; [done| | |].
  - apply (f_equal String.length) in Heq. rewrite !string_length_app in Heq. by destruct k'; cbn in Heq; [|lia].
  - apply (f_equal String.length) in Heq. rewrite !string_length_app in Heq. by destruct k; cbn in Heq; [|lia].
  - apply is_json_name in Hk as [_ Hk], Hk' as [_ Hk']. congruence.
Qed.

Section contract.
Context `{FaultPlan, UuidLaws, SerdeJsonLaws, HashOrder}.

(** ** The records: the JSON files that parse *)

Definition parse_file (f : File) : option UploadState :=
  if utf8_valid (f_data f) then
    match json_from_str (string_of_list_byte (f_data f)) with
    | inr state => Some state
    | inl _ => None
    end
  else None.

Definition record_at (fs : Fs) (k : string) : option UploadState :=
  if is_empty k then None else fs_files fs !! (k ++ ".json") ≫= parse_file.

Definition file_records (fs : Fs) : gmap string UploadState :=
  list_to_map (omap (fun nf =>
    if is_json nf.1 then (path_file_stem nf.1,.) <$> parse_file nf.2 else None)
    (map_to_list (fs_files fs))).

Lemma file_records_lookup fs k : file_records fs !! k = record_at fs k.
Proof.
  unfold file_records. set (l := omap _ _).
  assert (forall st, (k, st) ∈ l <-> record_at fs k = Some st) as Hl.
  { intros st. unfold l. rewrite list_elem_of_omap. unfold record_at. split.
    - intros ([name f] & Hin & Hx). cbn in Hx. destruct (is_json name) eqn:Hj; [|done].
      destruct (parse_file f) as [st'|] eqn:Hp; [|done]. injection Hx as <- <-.
      apply is_json_stem in Hj as [Hne Heq]. apply elem_of_map_to_list in Hin.
      destruct (is_empty (path_file_stem name)) eqn:He; [by destruct (path_file_stem name)|].
      rewrite <- Heq, Hin. exact Hp.
    - destruct (is_empty k) eqn:He; [done|]. intros (f & Hf & Hp)%bind_Some.
      exists (k ++ ".json", f). split; [by apply elem_of_map_to_list|].
      destruct (is_json_name k) as [Hj Hs]; [by intros ->|]. cbn. by rewrite Hj, Hs, Hp. }
  destruct (record_at fs k) as [st|] eqn:Hr.
  - apply elem_of_list_to_map_1'; [|by apply Hl]. intros st' Hin. apply Hl in Hin. congruence.
  - apply not_elem_of_list_to_map_1. intros Hin. apply list_elem_of_fmap in Hin as ([k' st] & -> & Hin).
    by apply Hl in Hin.
Qed.

(** Files that are not records do not matter. *)
Definition same_json (fs fs' : Fs) : Prop :=
  forall name, is_json name = true -> fs_files fs' !! name = fs_files fs !! name.

Lemma records_same fs fs' : same_json fs fs' -> file_records fs' = file_records fs.
Proof.
  intros Hs. apply map_eq. intros k. rewrite !file_records_lookup. unfold record_at.
  destruct (is_empty k) eqn:He; [done|]. rewrite Hs; [done|].
  apply is_json_name. by intros ->.
Qed.

(** Only the file of one id differs. *)
Lemma records_change fs fs' k o :
  k <> "" -> fs_files fs' !! (k ++ ".json") ≫= parse_file = o ->
  (forall name, is_json name = true -> name <> k ++ ".json" ->
    fs_files fs' !! name = fs_files fs !! name) ->
  file_records fs' = partial_alter (fun _ => o) k (file_records fs).
Proof.
  intros Hk Ho Hs. apply map_eq. intros k'. rewrite file_records_lookup. unfold record_at.
  destruct (decide (k' = k)) as [->|Hne].
  - rewrite lookup_partial_alter_eq. destruct (is_empty k) eqn:He; [by destruct k|done].
  - rewrite lookup_partial_alter_ne, file_records_lookup by done. unfold record_at.
    destruct (is_empty k') eqn:He; [done|]. rewrite Hs; [done| |].
    + apply is_json_name. by intros ->.
    + by intros Heq%json_name_inj.
Qed.

Lemma others_same_json temp fs fs' :
  is_json temp = false -> others_untouched temp fs fs' -> same_json fs fs'.
Proof. intros Ht Ho name Hj. destruct (Ho name) as [Hf _]; [congruence|done]. Qed.

(** ** Ids and paths *)

Lemma state_path_ok id path :
  state_path id = Ok path ->
  path = id ++ ".json" /\ id <> "" /\ is_json path = true /\ str_len id <= 250.
Proof.
  unfold state_path, file_validate_upload_id, UploadId_from_str.
  destruct (is_empty id) eqn:He; [done|]. destruct (MAX_UPLOAD_ID_LEN <? str_len id); [done|]. cbn.
  destruct (check_id_chars (chars id)); [|done|done]. cbn.
  destruct (N.ltb_spec MAX_STATE_FILE_NAME_LEN (str_len id + str_len ".json")) as [|Hl]; [done|].
  intros [= <-]. assert (id <> "") as Hne by (by intros ->).
  split_and!; [done|done|by apply is_json_name|].
  unfold MAX_STATE_FILE_NAME_LEN in Hl. change (str_len ".json") with 5 in Hl. lia.
Qed.

Lemma state_path_no_panic id : state_path id <> Panic.
Proof.
  unfold state_path, file_validate_upload_id, UploadId_from_str.
  destruct (is_empty id); [done|]. destruct (MAX_UPLOAD_ID_LEN <? str_len id); [done|]. cbn.
  assert (check_id_chars (chars id) <> Panic).
  { induction (chars id) as [|c l IH]; cbn; [done|]. by repeat case_match. }
  destruct (check_id_chars (chars id)); [|done|done]. cbn.
  by destruct (MAX_STATE_FILE_NAME_LEN <? _).
Qed.

Lemma state_path_fits id path :
  state_path id = Ok path -> (NAME_MAX <? N.of_nat (String.length path)) = false.
Proof.
  intros (-> & _ & _ & Hl)%state_path_ok. apply N.ltb_ge. rewrite string_length_app.
  unfold NAME_MAX, str_len in *. cbn. lia.
Qed.

Lemma temp_not_json path u : is_json (path ++ "." ++ u ++ ".tmp") = false.
Proof.
  unfold is_json, path_extension.
  replace (path ++ "." ++ u ++ ".tmp") with ((path ++ "." ++ u) ++ String "." "tmp")
    by (by rewrite !string_app_assoc).
  rewrite rsplit_char_app by done. destruct (String.eqb _ ".."); [done|]. by destruct (is_empty _).
Qed.

(** ** Writing a record *)

(** What a write of [state] puts into its file: the record, or a beginning of it if a
    write call fails. *)
Definition record_bytes (state : UploadState) (b : bytes) : Prop :=
  exists content, json_to_string_pretty state = inr content /\
    b `prefix_of` list_byte_of_string content /\
    (writes_succeed -> b = list_byte_of_string content).

(** What the directory shows of the records while [state] is written to [path]. *)
Definition state_shows (path : string) (state : UploadState) (fs0 : Fs) : Fs -> Prop :=
  shows (fun k => is_json k = true)
    (fun o => exists b, record_bytes state b /\ o = Some (synced_file b)) path fs0.

(** The record has been stored under [path], and nothing else happened to records. *)
Definition state_written (path : string) (state : UploadState) (create : bool) (fs0 fs : Fs) : Prop :=
  exists b, record_bytes state b /\ fs_files fs !! path = Some (synced_file b) /\
    (forall name, is_json name = true -> name <> path -> fs_files fs !! name = fs_files fs0 !! name) /\
    (create = true -> fs_files fs0 !! path = None).

(** How a write ends. *)
Definition write_end (path : string) (state : UploadState) (create : bool) (fs0 : Fs)
    (r : outcome Error.t unit) (fs : Fs) : Prop :=
  match r with
  | Ok _ => state_written path state create fs0 fs /\ (faultless -> past path fs = [])
  | Err _ => same_json fs0 fs
  | Panic => False
  end.

Lemma during_publish path state create fs0 fs :
  state_shows path state fs0 fs -> state_written path state create fs0 fs ->
  during (state_shows path state fs0) (write_end path state create fs0) sync_parent_dir fs.
Proof.
  intros Hs Hw. eapply during_mono; [by apply during_sync_parent_dir|]. cbv beta.
  intros r fs' Hs' (-> & Hf & Hp). split; [unfold state_written in *; by rewrite Hf|].
  intros Hno. unfold past. by rewrite (Hp Hno), lookup_empty.
Qed.

Section write.
Context (path temp : string) (content : bytes) (state : UploadState) (fs0 : Fs).
Context (Hpath : is_json path = true) (Htemp : is_json temp = false).
Context (Hcontent : record_bytes state content).
Context (Hfit : (NAME_MAX <? N.of_nat (String.length path)) = false).

Lemma temp_other : temp <> path.
Proof using All. congruence. Qed.

Lemma shows_temp fs : others_untouched temp fs0 fs -> state_shows path state fs0 fs.
Proof using All. apply shows_others; [|done]. by rewrite Htemp. Qed.

Lemma shows_drop_temp fs :
  state_shows path state fs0 fs -> state_shows path state fs0 (set_entry temp None fs).
Proof using All.
  apply shows_set. right. split; [by rewrite Htemp|apply temp_other].
Qed.

Lemma shows_publish fs :
  state_shows path state fs0 fs ->
  state_shows path state fs0 (set_entry path (Some (synced_file content)) fs).
Proof using All. apply shows_set. left. eauto. Qed.

Lemma written_publish create fs fs' :
  (create = true -> fs_files fs0 !! path = None) -> same_json fs0 fs ->
  fs_files fs' !! path = Some (synced_file content) ->
  (forall name, name <> path -> name <> temp -> fs_files fs' !! name = fs_files fs !! name) ->
  state_written path state create fs0 fs'.
Proof using All.
  intros Hc Hs Hp Ho. exists content. split_and!; [done|done| |done].
  intros name Hj Hne. rewrite Ho by congruence. by apply Hs.
Qed.

(** The tail of [write_state] for an update: the temporary file replaces the old one. *)
Lemma during_update fs :
  others_untouched temp fs0 fs ->
  fs_files fs !! temp = Some (synced_file content) ->
  during (state_shows path state fs0) (write_end path state false fs0)
    (do! io (fs_rename temp path) in sync_parent_dir) fs.
Proof using All.
  intros Ho Hf. pose proof (shows_temp fs Ho) as Hs. pose proof temp_other.
  assert (same_json fs0 fs) as Hj by by eapply others_same_json.
  assert (state_shows path state fs0 (set_entry path (Some (synced_file content))
    (set_entry temp None (count_call fs)))) as Hs'.
  { apply shows_publish, shows_drop_temp. by apply shows_count. }
  apply during_bind, during_io, (during_rename _ _ _ _ _ _ Hfit Hf); [done|by apply shows_count|done|done|].
  apply during_publish; [done|]. eapply written_publish; [done|exact Hj|apply files_set_entry|].
  intros name Hn1 Hn2. by rewrite !files_set_other.
Qed.

(** After a failed link: the temporary file is dropped and the error reported. *)
Lemma during_link_failed create fs (error : IoError) :
  others_untouched temp fs0 fs ->
  during (state_shows path state fs0) (write_end path state create fs0)
    (do! try_io (fs_remove_file temp) in
     if decide (io_kind error = IoErrorKind.AlreadyExists)
     then throw (Error.AlreadyExists (UploadState.id state)) else throw (io_error error)) fs.
Proof using All.
  intros Ho. pose proof (shows_temp fs Ho) as Hs.
  assert (others_untouched temp fs0 (count_call fs)) as Hc by by apply others_count.
  assert (others_untouched temp fs0 (set_entry temp None (count_call fs))) as Hd by by apply others_set.
  apply during_bind. eapply during_mono.
  { apply (during_remove_temp _ (others_untouched temp fs0)); by auto using shows_temp. }
  cbv beta. intros [u|e|] fs2 Hs2 Ho2; [|done|done].
  assert (same_json fs0 fs2) by by eapply others_same_json.
  case_decide; by apply during_done.
Qed.

(** The tail of [write_state] for a new record: the temporary file is linked. *)
Lemma during_create fs :
  others_untouched temp fs0 fs ->
  fs_files fs !! temp = Some (synced_file content) ->
  during (state_shows path state fs0) (write_end path state true fs0)
    (let! linked := try_io (fs_hard_link temp path) in
     do! try_io (fs_remove_file temp) in
     match linked with
     | inr _ => sync_parent_dir
     | inl error =>
         if decide (io_kind error = IoErrorKind.AlreadyExists)
         then throw (Error.AlreadyExists (UploadState.id state)) else throw (io_error error)
     end) fs.
Proof using All.
  intros Ho Hf. pose proof (shows_temp fs Ho) as Hs. pose proof temp_other.
  assert (others_untouched temp fs0 (count_call fs)) as Hoc by by apply others_count.
  pose proof (shows_temp _ Hoc) as Hsc.
  assert (same_json fs0 fs) as Hj by by eapply others_same_json.
  apply during_bind, during_try_io, during_syscall; [done|done| |].
  { intros ft _. by apply during_link_failed. }
  intros _. unfold with_name, with_file. rewrite Hfit. cbn. rewrite Hf.
  destruct (fs_files fs !! path) as [f|] eqn:Hp; cbn.
  { split; [done|]. by apply (during_link_failed _ _ already_exists). }
  set (fs1 := set_entry path _ _).
  assert (state_shows path state fs0 fs1) as Hs1 by apply shows_publish, Hsc.
  assert (forall o, state_written path state true fs0 (set_entry temp o (count_call fs1))) as Hw.
  { intros o. eapply written_publish; [|exact Hj| |].
    - intros _. rewrite <- Hp. symmetry. by apply Hj.
    - rewrite files_set_other by done. apply files_set_entry.
    - intros name Hn1 Hn2. rewrite files_set_other by done.
      by apply (files_set_other path name _ (count_call fs)). }
  assert (state_written path state true fs0 (count_call fs1)) as Hw1.
  { eapply written_publish; [|exact Hj|apply files_set_entry|].
    - intros _. rewrite <- Hp. symmetry. by apply Hj.
    - intros name Hn1 Hn2. by apply (files_set_other path name _ (count_call fs)). }
  split; [done|]. apply during_bind. eapply during_mono.
  { apply (during_remove_temp _ (state_written path state true fs0)); try done;
      [by apply shows_count|by apply shows_drop_temp, shows_count]. }
  cbv beta. intros [u|e|] fs2 Hs2 Hw2; [|done|done]. by apply during_publish.
Qed.
End write.

Lemma write_state_shows path state create fs :
  is_json path = true -> (NAME_MAX <? N.of_nat (String.length path)) = false ->
  during (state_shows path state fs) (write_end path state create fs)
    (write_state path state create) fs.
Proof using All.
  intros Hpath Hfit. assert (state_shows path state fs fs) as Hs by apply shows_refl.
  unfold write_state. apply during_bind.
  destruct (json_to_string_pretty state) as [m|content] eqn:Hc; [by apply during_done|].
  apply during_done; [done|]. apply during_bind. unfold unique_temp_path, next_id.
  set (temp := path ++ "." ++ uuid_simple (fs_ids fs) ++ ".tmp").
  set (fs1 := mkFs (fs_files fs) (fs_past fs) (fs_calls fs) (Datatypes.S (fs_ids fs))).
  assert (is_json temp = false) as Htemp by apply temp_not_json.
  assert (others_untouched temp fs fs1) as Ho1 by done.
  assert (forall fs', others_untouched temp fs fs' -> state_shows path state fs fs') as Hshow
    by (intros fs'; apply shows_others; [by rewrite Htemp|done]).
  assert (forall fs', others_untouched temp fs fs' -> same_json fs fs') as Hsame
    by (intros fs'; by apply others_same_json).
  apply during_bind, during_act; [done|by apply Hshow|]. cbn [fst snd]. fold temp fs1.
  apply during_done; [by apply Hshow|].
  apply during_bind, during_io, (during_weaken _ _ _ _ _ Hshow).
  eapply during_mono; [by apply during_fs_create_new|]. cbv beta.
  intros [u0|e|] fs2 Ho2 Hg2; [|by apply Hsame|done].
  apply during_bind, during_io, (during_weaken _ _ _ _ _ Hshow).
  assert (forall b fs', others_untouched temp fs fs' ->
    others_untouched temp fs (alter_file (append_data b) temp (count_call fs'))) as Happ
    by (intros b fs'; apply others_alter).
  eapply during_mono; [by apply (during_file_write_all _ temp new_file Happ [] _ None); [|apply grown_written]|].
  cbv beta. intros [d|e|] fs3 Ho3 Hg3; [|by apply Hsame|done].
  destruct Hg3 as [(b & Hb & Hg & Hwhole) Hnone].
  assert (record_bytes state b) as Hrec by (exists content; split_and!; auto).
  apply during_bind, during_io, (during_weaken _ _ _ _ _ Hshow).
  eapply during_mono; [by apply during_fs_sync|]. cbv beta.
  intros [u'|e|] fs4 Ho4 Hf4; [|by apply Hsame|done]. cbn in Hf4.
  destruct create; [by apply (during_create path temp b)|].
  by apply (during_update path temp b).
Qed.

(** ** The operations, with any failures *)

Lemma parse_written state b :
  writes_succeed -> record_bytes state b -> parse_file (synced_file b) = Some state.
Proof using All.
  intros Hws (content & Hc & _ & Hb). rewrite (Hb Hws). unfold parse_file. cbn [f_data synced_file]. rewrite (json_utf8 _ _ Hc), string_of_list_byte_of_string.
  by rewrite (json_roundtrip _ _ Hc).
Qed.

Lemma file_set_contract st mode fs :
  writes_succeed ->
  wp (file_set st mode) (fun r fs' =>
    match r with
    | Ok _ =>
        file_records fs' = <[UploadState.id st := st]> (file_records fs) /\
        (mode = CreateNew -> file_records fs !! UploadState.id st = None)
    | Err _ => file_records fs' = file_records fs
    | Panic => False
    end) fs.
Proof using All.
  intros Hws. unfold file_set. apply wp_bind, wp_done. pose proof (state_path_no_panic (UploadState.id st)).
  destruct (state_path (UploadState.id st)) as [path|e|] eqn:Hp; [|done|done].
  pose proof (state_path_fits _ _ Hp) as Hfit. apply state_path_ok in Hp as (Heq & Hne & Hj & _).
  eapply wp_mono; [eapply during_wp; by apply write_state_shows|].
  intros [u|e|] fs' Hr; [|by apply records_same|done]. cbn in Hr.
  destruct Hr as [(b & Hb & Hf & Ho & Hn) _]. split.
  - apply records_change; [done| |intros name; rewrite <- Heq; apply Ho].
    rewrite <- Heq, Hf. by apply parse_written.
  - intros ->. rewrite file_records_lookup. unfold record_at.
    destruct (is_empty _); [done|]. rewrite <- Heq, Hn; [done|by rewrite bool_decide_eq_true].
Qed.

(** Reading finds the record of the file, or reports an error, and changes nothing. *)
Lemma wp_read_state path fs :
  wp (read_state path) (fun r fs' =>
    fs_files fs' = fs_files fs /\
    match r with
    | Ok None => fs_files fs !! path = None
    | Ok (Some st) => fs_files fs !! path ≫= parse_file = Some st
    | Err _ => True
    | Panic => False
    end) fs.
Proof.
  unfold read_state, fs_read_to_string. apply wp_bind, wp_try_io, wp_bind, wp_syscall.
  { intros ft _. case_decide as Hk; apply wp_done; [by apply fault_not_missing in Hk|done]. }
  intros _. unfold with_file. cbn. destruct (fs_files fs !! path) as [f|] eqn:Hf; cbn;
    [|by apply wp_done].
  apply wp_bind, wp_syscall.
  { intros ft _. case_decide as Hk; apply wp_done; [by apply fault_not_missing in Hk|done]. }
  intros _. unfold with_file. cbn. rewrite Hf. cbn. unfold parse_file.
  destruct (utf8_valid (f_data f)); cbn; [|by apply wp_done].
  unfold parse_state. apply wp_bind, wp_done. by destruct (json_from_str _).
Qed.

Lemma file_get_contract id fs :
  wp (file_get id) (fun r fs' =>
    file_records fs' = file_records fs /\
    match r with
    | Ok o => o = file_records fs !! id
    | Err _ => True
    | Panic => False
    end) fs.
Proof using All.
  unfold file_get. apply wp_bind, wp_done. pose proof (state_path_no_panic id).
  destruct (state_path id) as [path|e|] eqn:Hp; [|done|done].
  apply state_path_ok in Hp as (-> & Hne & _). eapply wp_mono; [apply wp_read_state|]. cbv beta.
  intros r fs' [Hfs Hr]. split; [apply records_same; intros n _; by rewrite Hfs|].
  rewrite file_records_lookup. unfold record_at. destruct (is_empty id) eqn:He; [by destruct id|].
  destruct r as [[st|]|e|]; [by rewrite Hr|by rewrite Hr|done|done].
Qed.

Lemma file_state_delete_contract id fs :
  wp (file_state_delete id) (fun r fs' =>
    match r with
    | Ok _ => file_records fs' = delete id (file_records fs)
    | Err _ => file_records fs' = file_records fs
    | Panic => False
    end) fs.
Proof using All.
  unfold file_state_delete. apply wp_bind, wp_done. pose proof (state_path_no_panic id).
  destruct (state_path id) as [path|e|] eqn:Hp; [|done|done].
  apply state_path_ok in Hp as (-> & Hne & _). apply wp_bind, wp_try_io, wp_syscall.
  { intros ft _. case_decide as Hk; apply wp_done; [by apply fault_not_missing in Hk|by apply records_same]. }
  intros _. unfold with_file. cbn. destruct (fs_files fs !! (id ++ ".json")) as [f|] eqn:Hf; cbn;
    apply wp_done.
  - apply records_change; [done|by rewrite files_set_entry|].
    intros name _ Hn. by apply (files_set_other _ _ _ (count_call fs)).
  - change (file_records fs = delete id (file_records fs)). symmetry. apply delete_id.
    rewrite file_records_lookup. unfold record_at. destruct (is_empty id); [done|]. by rewrite Hf.
Qed.

Definition expired_record (before : DateTime) (fs : Fs) (id : string) : Prop :=
  exists key st, file_records fs !! key = Some st /\ UploadState.id st = id /\
    UploadState.expires_before st before = true.

Lemma wp_list_expired_loop before names ids fs0 fs :
  fs_files fs = fs_files fs0 -> (forall id, In id ids -> expired_record before fs0 id) ->
  wp (list_expired_loop before names ids) (fun r fs' =>
    fs_files fs' = fs_files fs0 /\
    match r with
    | Ok ids => forall id, In id ids -> expired_record before fs0 id
    | Err _ => True
    | Panic => False
    end) fs.
Proof using All.
  revert ids fs. induction names as [|name names IH]; intros ids fs Hfs Hids; cbn [list_expired_loop];
    (apply wp_bind, wp_io, wp_syscall; [intros ft _; by split|intros _; cbn]); [by apply wp_done|].
  destruct (is_json name) eqn:Hj; cbn; [|by apply IH].
  apply wp_bind, wp_attempt. eapply wp_mono; [apply wp_read_state|]. cbv beta.
  intros [[st|]|e|] fs1 [Hfs1 Hr]; [|by apply IH; [rewrite Hfs1|]..|done].
  apply IH; [by rewrite Hfs1|]. destruct (UploadState.expires_before st before) eqn:He; [|done].
  intros id [Hin|[<-|[]]]%in_app_or; [by apply Hids|].
  apply is_json_stem in Hj as [Hne Heq]. exists (path_file_stem name), st. split_and!; [|done|done].
  rewrite file_records_lookup. unfold record_at. destruct (is_empty _) eqn:Hx.
  - by destruct (path_file_stem name).
  - rewrite <- Heq, <- Hfs. exact Hr.
Qed.

Lemma file_list_expired_contract before fs :
  wp (file_list_expired before) (fun r fs' =>
    file_records fs' = file_records fs /\
    match r with
    | Ok ids => forall id, In id ids -> expired_record before fs id
    | Err _ => True
    | Panic => False
    end) fs.
Proof using All.
  unfold file_list_expired. apply wp_bind, wp_io, wp_syscall; [by intros ft _|]. intros _. cbn.
  eapply wp_mono; [by apply (wp_list_expired_loop before _ [] fs)|]. cbv beta.
  intros r fs' [Hfs Hr]. split; [apply records_same; intros n _; by rewrite Hfs|done].
Qed.

Definition FileStateStore_Laws (Hws : writes_succeed) : StateStoreLaws Fs :=
  @Build_StateStoreLaws Fs _ file_records (fun st mode fs => file_set_contract st mode fs Hws) file_get_contract
    file_state_delete_contract file_list_expired_contract.
End contract.

(** ** What the store promises *)

Section promises.
Context `{FaultPlan, UuidLaws, SerdeJsonLaws, HashOrder}.

(** The record in the bytes of a file. *)
Definition parse_bytes (b : bytes) : option UploadState := parse_file (synced_file b).

(** C20: whatever file system calls fail, except for the write into a temporary file,
    [FileStateStore] implements the contract of the [StateStore] trait; its record of an
    id is what the file [id.json] parses to.  (A write that fails is not noticed:
    [failed_write_is_published].) *)
Theorem file_state_store_refines :
  writes_succeed ->
  exists L : StateStoreLaws Fs, forall fs id, id <> "" ->
    @records Fs FileStateStore_StateStore L fs !! id =
      fs_files fs !! (id ++ ".json") ≫= fun f => parse_bytes (f_data f).
Proof using All.
  intros Hws. exists (FileStateStore_Laws Hws). intros fs id Hne. cbn. rewrite file_records_lookup. unfold record_at.
  by destruct (is_empty id) eqn:He; [by destruct id|].
Qed.

(** C11: writing a record never leaves a mixture.  At every point of [set], with any
    failures, a power failure leaves under the record's name what could be there
    before, or the new record; other records are not affected.  The new record is there
    as a whole unless a write call fails: the file is not flushed, so that such a
    failure goes unreported, and a beginning of the record takes its place.  When [set]
    succeeds and no call failed the new record is certain to survive; when it fails,
    the records are what they were. *)
Theorem state_write_atomic st mode fs :
  during (fun fs' =>
      (forall d, on_disk fs' (UploadState.id st ++ ".json") d ->
        on_disk fs (UploadState.id st ++ ".json") d \/
        exists b, d = Some b /\ record_bytes st b /\ (writes_succeed -> parse_bytes b = Some st)) /\
      forall name d, is_json name = true -> name <> UploadState.id st ++ ".json" ->
        on_disk fs' name d -> on_disk fs name d)
    (fun r fs' =>
      match r with
      | Ok _ => faultless -> exists b, durable fs' (UploadState.id st ++ ".json") b /\ parse_bytes b = Some st
      | Err _ => same_json fs fs'
      | Panic => False
      end) (file_set st mode) fs.
Proof using All.
  set (path := UploadState.id st ++ ".json").
  assert (forall fs', state_shows path st fs fs' ->
    (forall d, on_disk fs' path d -> on_disk fs path d \/
       exists b, d = Some b /\ record_bytes st b /\ (writes_succeed -> parse_bytes b = Some st)) /\
    forall name d, is_json name = true -> name <> path -> on_disk fs' name d -> on_disk fs name d)
    as Hshow.
  { intros fs' [Ht Hk]. split.
    - intros d (o & Hin & Ho). destruct (Ht o Hin) as [Hin'|(b & Hb & ->)]; [left; by exists o|].
      right. apply entry_synced in Ho as ->. exists b. split_and!; [done|done|].
      intros Hws. by apply parse_written.
    - intros name d Hj Hne (o & Hin & Ho). exists o. split; [exact (Hk name Hj Hne o Hin)|done]. }
  apply (during_weaken _ _ _ _ _ Hshow). unfold file_set. apply during_bind.
  pose proof (state_path_no_panic (UploadState.id st)).
  destruct (state_path (UploadState.id st)) as [p|e|] eqn:Hp;
    [|by apply during_done; [apply shows_refl|]|done].
  apply during_done; [apply shows_refl|]. pose proof (state_path_fits _ _ Hp) as Hfit.
  apply state_path_ok in Hp as (-> & _ & Hj & _). fold path in Hj, Hfit |- *.
  eapply during_mono; [by apply write_state_shows|]. cbv beta.
  intros [u|e|] fs' _ Hr; [|done|done]. destruct Hr as [(b & Hb & Hf & _) Hpast].
  intros Hno. exists b. split; [|apply parse_written; [intros n; apply Hno|done]].
  by apply durable_synced, Hpast.
Qed.

(** an id of 214 to 250 bytes passes the validation of this store but can never
    be stored: the name of the temporary file exceeds what a directory entry can
    have, and [set] fails with an I/O error. *)
Theorem long_ids_cannot_be_stored st mode fs :
  213 < str_len (UploadState.id st) ->
  wp (file_set st mode) (fun r fs' => is_ok r = false /\ file_records fs' = file_records fs) fs.
Proof using All.
  intros Hlong. unfold file_set. apply wp_bind, wp_done.
  pose proof (state_path_no_panic (UploadState.id st)).
  destruct (state_path (UploadState.id st)) as [p|e|] eqn:Hp; [|done|done].
  apply state_path_ok in Hp as (-> & _ & Hj & _).
  unfold write_state, unique_temp_path, next_id. apply wp_bind.
  destruct (json_to_string_pretty st) as [m|content]; [by apply wp_done|].
  apply wp_done, wp_bind, wp_bind, wp_act, wp_done, wp_bind, wp_io, wp_syscall;
    [by intros ft _|intros _]. unfold with_name.
  destruct (N.ltb_spec NAME_MAX
    (N.of_nat (String.length ((UploadState.id st ++ ".json") ++ "." ++ uuid_simple (fs_ids fs) ++ ".tmp"))))
    as [Hlt|Hle]; [by split|].
  rewrite !string_length_app, uuid_simple_length in Hle. unfold NAME_MAX, str_len in *.
  cbn in Hle, Hlong. lia.
Qed.
End promises.
