(* ===== verification/Ownership.v ===== *)
(** * Owned resources in pools of programs

    A program logic for pools of programs under every schedule, used where tasks
    own resources of a shared world.  Each task has a local assertion ([own]) about
    its resources; an action of a task must keep the global invariant, establish
    the task's next assertion, and keep the assertion of every task whose resources
    are disjoint from its own ([disjoint_from]). *)

From S2P Require Import Prelude Interleaving.
From stdpp Require Import relations.

Section ownership.
Context {W L : Type}.
Context (inv : W -> Prop) (own : L -> W -> Prop) (disjoint_from : L -> L -> Prop).

(** A step from [l] in [w] to [l'] in [w']. *)
Definition owned_step (l : L) (w : W) (l' : L) (w' : W) : Prop :=
  inv w' /\ own l' w' /\
  forall o, own o w -> disjoint_from l o -> own o w' /\ disjoint_from l' o.

(** [m] acts on a component of the world. *)
Fixpoint owns {E S A} (get : W -> S) (set : S -> W -> W) (l : L) (m : prog E S A)
    (Q : outcome E A -> L -> Prop) : Prop :=
  match m with
  | Done r => Q r l
  | Act f k =>
      forall w, inv w -> own l w ->
        exists l', owned_step l w l' (set (f (get w)).2 w) /\
          owns get set l' (k (f (get w)).1) Q
  end.

Definition whole (w' w : W) : W := w'.
Abbreviation owns_whole := (owns (fun w => w) whole).

Section rules.
Context {E S : Type} (get : W -> S) (set : S -> W -> W).
Implicit Types l : L.

Lemma owns_mono {A} (m : prog E S A) (Q Q' : outcome E A -> L -> Prop) l :
  owns get set l m Q -> (forall r l', Q r l' -> Q' r l') -> owns get set l m Q'.
Proof.
  intros Hm HQ. revert l Hm. induction m as [r|B f k IH]; intros l; cbn; [apply HQ|].
  intros Hm w Hi Ho. destruct (Hm w Hi Ho) as (l' & Hs & Hk). eauto.
Qed.

Lemma owns_bind {A B} (m : prog E S A) (k : A -> prog E S B) (Q : outcome E B -> L -> Prop) l :
  owns get set l m (fun r l' =>
    match r with
    | Ok a => owns get set l' (k a) Q
    | Err e => Q (Err e) l'
    | Panic => Q Panic l'
    end) ->
  owns get set l (bind m k) Q.
Proof.
  revert l. induction m as [r|C f c IH]; intros l; cbn; [by destruct r|].
  intros Hm w Hi Ho. destruct (Hm w Hi Ho) as (l' & Hs & Hk). eauto.
Qed.

Lemma owns_attempt {A} (m : prog E S A) (Q : outcome E (E + A) -> L -> Prop) l :
  owns get set l m (fun r l' =>
    match r with
    | Ok a => Q (Ok (inr a)) l'
    | Err e => Q (Ok (inl e)) l'
    | Panic => Q Panic l'
    end) ->
  owns get set l (attempt m) Q.
Proof.
  revert l. induction m as [r|C f c IH]; intros l; cbn; [by destruct r|].
  intros Hm w Hi Ho. destruct (Hm w Hi Ho) as (l' & Hs & Hk). eauto.
Qed.

Lemma owns_map_err {F A} (g : E -> F) (m : prog E S A) (Q : outcome F A -> L -> Prop) l :
  owns get set l m (fun r l' =>
    match r with
    | Ok a => Q (Ok a) l'
    | Err e => Q (Err (g e)) l'
    | Panic => Q Panic l'
    end) ->
  owns get set l (map_err g m) Q.
Proof.
  revert l. induction m as [r|C f c IH]; intros l; cbn; [by destruct r|].
  intros Hm w Hi Ho. destruct (Hm w Hi Ho) as (l' & Hs & Hk). eauto.
Qed.

Lemma owns_done {A} (r : outcome E A) (Q : outcome E A -> L -> Prop) l : Q r l -> owns get set l (Done r) Q.
Proof. done. Qed.

Lemma owns_act {A} (f : S -> A * S) (Q : outcome E A -> L -> Prop) l :
  (forall w, inv w -> own l w -> exists l', owned_step l w l' (set (f (get w)).2 w) /\
    Q (Ok (f (get w)).1) l') ->
  owns get set l (act f) Q.
Proof. done. Qed.

Lemma owns_try_act {A} (f : S -> outcome E A * S) (Q : outcome E A -> L -> Prop) l :
  (forall w, inv w -> own l w -> exists l', owned_step l w l' (set (f (get w)).2 w) /\
    Q (f (get w)).1 l') ->
  owns get set l (try_act f) Q.
Proof. done. Qed.

Lemma owns_focus {A} (m : prog E S A) (Q : outcome E A -> L -> Prop) l :
  owns get set l m Q -> owns_whole l (focus get set m) Q.
Proof.
  revert l. induction m as [r|C f c IH]; intros l; cbn; [done|].
  intros Hm w Hi Ho. destruct (Hm w Hi Ho) as (l' & Hs & Hk). exists l'.
  destruct (f (get w)) as [x s]. cbn in *. split; [done|]. by apply IH.
Qed.

End rules.

(** ** Pools *)

Context {E A : Type} (Hsym : forall a b, disjoint_from a b -> disjoint_from b a).

(** Every task follows the logic, its assertion holds, and no two share resources. *)
Record pool_owned (ps : list (prog E W A)) (w : W) (ls : list L) : Prop := {
  po_inv : inv w;
  po_progs i m : task ps i = Some m -> exists l, ls !! i = Some l /\ owns_whole l m (fun _ _ => True);
  po_own i l : ls !! i = Some l -> own l w;
  po_disjoint i j a b : ls !! i = Some a -> ls !! j = Some b -> i <> j -> disjoint_from a b;
}.

Lemma task_set_task {T : Type} (ps : list T) i j t t' :
  task (set_task ps i t) j = Some t' -> i = j /\ t' = t \/ i <> j /\ task ps j = Some t'.
Proof.
  revert i j. induction ps as [|p ps IH]; intros [|i] [|j]; cbn; try done.
  - intros [= ->]. by left.
  - by right.
  - by right.
  - intros [[-> ->]|[Hne Ht]]%IH; [by left|right]. split; [congruence|done].
Qed.

Lemma pool_owned_step ps w ps' w' ls :
  pool_owned ps w ls -> pool_step (ps, w) (ps', w') -> exists ls', pool_owned ps' w' ls'.
Proof using Hsym.
  intros [Hi Hp Ho Hd] Hstep. inversion Hstep as [? ? i m m' ? Hm Hs]; subst.
  destruct m as [r|B f k]; [done|]. cbn in Hs.
  destruct (Hp _ _ Hm) as (l & Hl & Hown). cbn in Hown.
  destruct (Hown w Hi (Ho _ _ Hl)) as (l' & (Hi' & Ho' & Hothers) & Hk).
  destruct (f w) as [b w1]. injection Hs as <- <-. cbn in *.
  exists (<[i := l']> ls). assert (i < length ls) as Hlt by by eapply lookup_lt_Some.
  split; [done| | |].
  - intros j m [[<- ->]|[Hne Hj]]%task_set_task.
    + exists l'. by rewrite list_lookup_insert_eq.
    + destruct (Hp j m Hj) as (o & Hlo & Hox). exists o. by rewrite list_lookup_insert_ne.
  - intros j o Hj. destruct (decide (i = j)) as [<-|Hne].
    + rewrite list_lookup_insert_eq in Hj by done. by injection Hj as <-.
    + rewrite list_lookup_insert_ne in Hj by done. eapply Hothers; eauto.
  - intros j1 j2 a b' H1 H2 Hne. destruct (decide (i = j1)) as [<-|], (decide (i = j2)) as [<-|];
      [done| | |]; rewrite ?list_lookup_insert_eq, ?list_lookup_insert_ne in * by done.
    + injection H1 as <-. eapply Hothers; eauto.
    + injection H2 as <-. apply Hsym. eapply Hothers; eauto.
    + eauto.
Qed.

Lemma pool_owned_steps c c' :
  rtc pool_step c c' -> (exists ls, pool_owned c.1 c.2 ls) -> exists ls, pool_owned c'.1 c'.2 ls.
Proof using Hsym.
  induction 1 as [c|[ps w] [ps' w'] c'' Hs _ IH]; [done|]. intros [ls Hls]. apply IH.
  by eapply pool_owned_step.
Qed.
End ownership.
