(* ===== verification/JoinSet.v ===== *)
(** * Programs with a set of tasks ([tokio::task::JoinSet])

    A program that spawns tasks into a set, waits for any of them to finish and may
    abort the rest.  Its steps and those of its tasks are taken in any order; an
    aborted task is dropped between two of its actions.  Every run ends, for every
    schedule, and a program logic in the style of [Ownership.v] covers all of them: the
    program hands resources to the tasks it spawns, and what a task establishes holds
    when it is joined and after. *)

From S2P Require Import Prelude Interleaving Ownership.
From stdpp Require Import relations.

Inductive par (E W T A : Type) : Type :=
| PDone (r : outcome E A)
| PAct {B : Type} (f : W -> B * W) (k : B -> par E W T A)
| PSpawn (t : prog E W T) (k : par E W T A)
| PLen (k : nat -> par E W T A)
| PJoin (k : option (option T) -> par E W T A)
| PAbort (k : par E W T A).
Arguments PDone {E W T A} r.
Arguments PAct {E W T A B} f k.
Arguments PSpawn {E W T A} t k.
Arguments PLen {E W T A} k.
Arguments PJoin {E W T A} k.
Arguments PAbort {E W T A} k.

Fixpoint pbind {E W T A B} (m : par E W T A) (k : A -> par E W T B) : par E W T B :=
  match m with
  | PDone (Ok a) => k a
  | PDone (Err e) => PDone (Err e)
  | PDone Panic => PDone Panic
  | PAct f c => PAct f (fun b => pbind (c b) k)
  | PSpawn t c => PSpawn t (pbind c k)
  | PLen c => PLen (fun n => pbind (c n) k)
  | PJoin c => PJoin (fun r => pbind (c r) k)
  | PAbort c => PAbort (pbind c k)
  end.

(** A program without tasks. *)
Fixpoint alone {E W T A} (m : prog E W A) : par E W T A :=
  match m with
  | Done r => PDone r
  | Act f k => PAct f (fun b => alone (k b))
  end.

(** [join_set.spawn(t)], [join_set.len()], [join_set.abort_all()], and [join_next()]: the
    result of a task that has finished, or a [JoinError] if it panicked or was aborted;
    nothing when no task is left. *)
Definition spawn {E W T} (t : prog E W T) : par E W T unit := PSpawn t (PDone (Ok tt)).
Definition set_len {E W T} : par E W T nat := PLen (fun n => PDone (Ok n)).
Definition abort_all {E W T} : par E W T unit := PAbort (PDone (Ok tt)).
Definition join_next {E W T} : par E W T (option (option T)) := PJoin (fun r => PDone (Ok r)).

Declare Scope par_scope.
Delimit Scope par_scope with par.
Notation "'let!' x ':=' m 'in' k" := (pbind m (fun x => k))
  (at level 10, x pattern, m at level 100, k at level 200,
   format "'let!'  x  ':='  m  'in' '//' k") : par_scope.
Notation "'do!' m 'in' k" := (pbind m (fun _ => k))
  (at level 10, m at level 100, k at level 200,
   format "'do!'  m  'in' '//' k") : par_scope.

(** ** Steps *)

(** A task that was joined is [None]. *)
Record Pool (E W T A : Type) := mkPool {
  pl_main : par E W T A;
  pl_tasks : list (option (prog E W T));
  pl_aborted : bool;
  pl_world : W;
}.
Arguments mkPool {E W T A} _ _ _ _.
Arguments pl_main {E W T A} _.
Arguments pl_tasks {E W T A} _.
Arguments pl_aborted {E W T A} _.
Arguments pl_world {E W T A} _.

Definition live {E W T} (t : option (prog E W T)) : nat := match t with Some _ => 1 | None => 0 end.
Definition live_tasks {E W T} (ts : list (option (prog E W T))) : nat := sum_list_with live ts.
#[global] Arguments live_tasks : simpl never.

(** One action of the program itself. *)
Definition par_act {E W T A} (m : par E W T A) (w : W) : option (par E W T A * W) :=
  match m with
  | PAct f k => Some (k (f w).1, (f w).2)
  | _ => None
  end.

Definition join_result {E T} (r : outcome E T) : option T :=
  match r with Ok t => Some t | _ => None end.

Inductive par_step {E W T A} : Pool E W T A -> Pool E W T A -> Prop :=
| step_act m m' ts ab w w' :
    par_act m w = Some (m', w') -> par_step (mkPool m ts ab w) (mkPool m' ts ab w')
| step_spawn t k ts ab w :
    par_step (mkPool (PSpawn t k) ts ab w) (mkPool k (ts ++ [Some t]) ab w)
| step_len k ts ab w :
    par_step (mkPool (PLen k) ts ab w) (mkPool (k (live_tasks ts)) ts ab w)
| step_join_none k ts ab w :
    live_tasks ts = 0 -> par_step (mkPool (PJoin k) ts ab w) (mkPool (k None) ts ab w)
| step_join k ts ab w i r :
    ts !! i = Some (Some (Done r)) ->
    par_step (mkPool (PJoin k) ts ab w) (mkPool (k (Some (join_result r))) (<[i := None]> ts) ab w)
| step_join_aborted k ts w i t :
    ts !! i = Some (Some t) ->
    par_step (mkPool (PJoin k) ts true w) (mkPool (k (Some None)) (<[i := None]> ts) true w)
| step_abort k ts ab w :
    par_step (mkPool (PAbort k) ts ab w) (mkPool k ts true w)
| step_task m ts ab w i t t' w' :
    ts !! i = Some (Some t) -> prog_step t w = Some (t', w') ->
    par_step (mkPool m ts ab w) (mkPool m (<[i := Some t']> ts) ab w').

Lemma live_insert {E W T} (ts : list (option (prog E W T))) i t t' :
  ts !! i = Some t ->
  live_tasks (<[i := t']> ts) + live t = live_tasks ts + live t'.
Proof. apply sum_insert. Qed.

Lemma live_snoc {E W T} (ts : list (option (prog E W T))) t :
  live_tasks (ts ++ [t]) = live_tasks ts + live t.
Proof. unfold live_tasks. induction ts as [|t' ts IH]; cbn; lia. Qed.

(** ** Every run ends *)

Section termination.
Context {E W T A : Type}.

(** One task of a list goes on. *)
Inductive goes_on : list (option (prog E W T)) -> list (option (prog E W T)) -> Prop :=
| goes_on_intro i t t' w w' ts :
    ts !! i = Some (Some t) -> prog_step t w = Some (t', w') -> goes_on (<[i := Some t']> ts) ts.

Lemma goes_on_cons_inv t ts ts' :
  goes_on ts' (t :: ts) ->
  (exists m m' w w', t = Some m /\ prog_step m w = Some (m', w') /\ ts' = Some m' :: ts) \/
  (exists ts2, goes_on ts2 ts /\ ts' = t :: ts2).
Proof.
  inversion 1 as [[|i] m m' w w' ? Hi Hm]; subst; cbn in Hi.
  - left. injection Hi as ->. by exists m, m', w, w'.
  - right. eexists. split; [by econstructor|done].
Qed.

Lemma goes_on_cons t ts : Acc goes_on ts -> Acc goes_on (t :: ts).
Proof.
  destruct t as [m|].
  - revert ts. induction m as [r|B f k IH]; intros ts Hts; induction Hts as [ts Hts IHts];
      constructor; intros ts' [(m & m' & w & w' & [= <-] & Hm & ->)|(ts2 & Hg & ->)]%goes_on_cons_inv.
    + done.
    + by apply IHts.
    + cbn in Hm. destruct (f w) as [b w2]. injection Hm as <- _. apply IH. by constructor.
    + by apply IHts.
  - intros Hts. induction Hts as [ts Hts IHts]. constructor.
    intros ts' [(? & ? & ? & ? & Heq & _)|(ts2 & Hg & ->)]%goes_on_cons_inv; [done|auto].
Qed.

Lemma goes_on_wf ts : Acc goes_on ts.
Proof.
  induction ts as [|t ts IH]; [|by apply goes_on_cons]. constructor. intros ts' Hg. inversion Hg; subst. done.
Qed.

Definition next_pool (p' p : Pool E W T A) : Prop := par_step p p'.

(** No run is infinite. *)
Lemma par_terminates (p : Pool E W T A) : Acc next_pool p.
Proof.
  destruct p as [m ts ab w]. revert ts ab w.
  induction m as [r|B f k IH|t k IH|k IH|k IH|k IH]; intros ts;
    induction (goes_on_wf ts) as [ts _ IHts]; intros ab w; constructor; intros p' Hs.
  all: inversion Hs as [m m' ? ? ? ? Ha| | | | | | |]; subst;
    try discriminate; try (apply IHts; eapply goes_on_intro; eassumption); try apply IH.
  injection Ha as <- <-. apply IH.
Qed.

(** A program that is not done can go on. *)
Lemma par_progress (p : Pool E W T A) :
  (exists r, pl_main p = PDone r) \/ (exists p', par_step p p').
Proof.
  destruct p as [[r|B f k|t k|k|k|k] ts ab w]; cbn; [left; by exists r|right..].
  - eexists. by apply step_act.
  - eexists. apply step_spawn.
  - eexists. apply step_len.
  - destruct (live_tasks ts) as [|n] eqn:Hl; [eexists; by apply step_join_none|].
    assert (exists i t, ts !! i = Some (Some t)) as (i & t & Hi).
    { revert Hl. unfold live_tasks. clear. induction ts as [|[t|] ts IH]; cbn; [intros Hl; discriminate|intros _; by exists 0, t|].
      intros (i & t & Hi)%IH. by exists (S i), t. }
    destruct t as [r|C f c]; [eexists; eapply step_join, Hi|].
    eexists. apply (step_task _ _ _ _ i _ (c (f w).1) (f w).2 Hi). cbn. by destruct (f w).
  - eexists. apply step_abort.
Qed.
End termination.

(** ** Schedules *)

(** What a scheduler can choose: an action of the program or of a task, or which task is
    joined next. *)
Inductive Choice := MainStep | TaskStep (i : nat) | Joins (i : nat).

Definition pick {E W T A} (c : Choice) (p : Pool E W T A) : option (Pool E W T A) :=
  let '(mkPool m ts ab w) := p in
  match c with
  | MainStep =>
      match m with
      | PAct f k => Some (mkPool (k (f w).1) ts ab (f w).2)
      | PSpawn t k => Some (mkPool k (ts ++ [Some t]) ab w)
      | PLen k => Some (mkPool (k (live_tasks ts)) ts ab w)
      | PJoin k => if Nat.eqb (live_tasks ts) 0 then Some (mkPool (k None) ts ab w) else None
      | PAbort k => Some (mkPool k ts true w)
      | PDone _ => None
      end
  | TaskStep i =>
      match ts !! i with
      | Some (Some t) =>
          match prog_step t w with
          | Some (t', w') => Some (mkPool m (<[i := Some t']> ts) ab w')
          | None => None
          end
      | _ => None
      end
  | Joins i =>
      match m, ts !! i with
      | PJoin k, Some (Some (Done r)) =>
          Some (mkPool (k (Some (join_result r))) (<[i := None]> ts) ab w)
      | PJoin k, Some (Some _) =>
          if ab then Some (mkPool (k (Some None)) (<[i := None]> ts) ab w) else None
      | _, _ => None
      end
  end.

(** A choice that is not possible is skipped. *)
Definition run_choices {E W T A} (cs : list Choice) (p : Pool E W T A) : Pool E W T A :=
  foldl (fun p c => default p (pick c p)) p cs.

Lemma pick_step {E W T A} c (p p' : Pool E W T A) : pick c p = Some p' -> par_step p p'.
Proof.
  destruct p as [m ts ab w]. destruct c as [|i|i]; cbn.
  - destruct m; try done; [intros [= <-]..| |intros [= <-]].
    + by apply step_act.
    + apply step_spawn.
    + apply step_len.
    + destruct (Nat.eqb_spec (live_tasks ts) 0); [|done]. intros [= <-]. by apply step_join_none.
    + apply step_abort.
  - destruct (ts !! i) as [[t|]|] eqn:Hi; [|done|done].
    destruct (prog_step t w) as [[t' w']|] eqn:Ht; [|done]. intros [= <-]. by eapply step_task.
  - destruct m; [done..| |done]. destruct (ts !! i) as [[[r|]|]|] eqn:Hi; [| |done|done].
    + intros [= <-]. eapply step_join, Hi.
    + destruct ab; [|done]. intros [= <-]. eapply step_join_aborted, Hi.
Qed.

Lemma run_choices_steps {E W T A} cs (p : Pool E W T A) : rtc par_step p (run_choices cs p).
Proof.
  unfold run_choices. revert p. induction cs as [|c cs IH]; intros p; cbn; [apply rtc_refl|].
  destruct (pick c p) as [p'|] eqn:Hp; cbn; [|apply IH]. eapply rtc_l; [by eapply pick_step|apply IH].
Qed.

(** ** A logic for programs with tasks *)

Section logic.
Context {E W T A L : Type}.
Context (inv : W -> Prop) (own : L -> W -> Prop) (disjoint_from : L -> L -> Prop).
Context (Hsym : forall a b, disjoint_from a b -> disjoint_from b a).
(** what the i-th task establishes, and how many tasks there may be at once *)
Context (post : nat -> outcome E T -> L -> Prop) (cap : nat).

Abbreviation own_step := (owned_step inv own disjoint_from).
Abbreviation task_owns o t Q := (owns inv own disjoint_from (fun w : W => w) whole o t Q).

(** What was established by the tasks that were joined with a result holds still. *)
Definition established (l : L) (joined : list (nat * option T)) (w : W) : Prop :=
  forall i t, (i, Some t) ∈ joined -> exists o, post i (Ok t) o /\ own o w /\ disjoint_from l o.

(** [l] is parted into [l'] and [o]. *)
Definition parted (l l' o : L) : Prop :=
  (forall w, inv w -> own l w -> own l' w /\ own o w) /\
  (forall x, disjoint_from l x -> disjoint_from l' x /\ disjoint_from o x) /\
  disjoint_from l' o.

(** The program follows the logic from [l] on, after [n] tasks were spawned and those in
    [joined] joined, and ends with [Q]. *)
Fixpoint follows (m : par E W T A) (l : L) (n : nat) (joined : list (nat * option T))
    (Q : outcome E A -> L -> nat -> list (nat * option T) -> Prop) : Prop :=
  match m with
  | PDone r => Q r l n joined
  | PAct f k =>
      forall w, inv w -> own l w -> established l joined w ->
        exists l', own_step l w l' (f w).2 /\ follows (k (f w).1) l' n joined Q
  | PSpawn t k =>
      n - length joined < cap /\
      exists l' o, parted l l' o /\ task_owns o t (post n) /\ follows k l' (S n) joined Q
  | PLen k => follows (k (n - length joined)) l n joined Q
  | PJoin k =>
      (n = length joined -> follows (k None) l n joined Q) /\
      forall i r, i < n -> i ∉ joined.*1 ->
        (forall t, r = Some t -> exists o, post i (Ok t) o) ->
        follows (k (Some r)) l n ((i, r) :: joined) Q
  | PAbort k => follows k l n joined Q
  end.

(** A program without tasks follows the logic, from [l] on. *)
Fixpoint acts {X} (m : prog E W X) (l : L) (joined : list (nat * option T))
    (K : outcome E X -> L -> Prop) : Prop :=
  match m with
  | Done r => K r l
  | Act f k =>
      forall w, inv w -> own l w -> established l joined w ->
        exists l', own_step l w l' (f w).2 /\ acts (k (f w).1) l' joined K
  end.

Lemma acts_mono {X} (m : prog E W X) l joined (K K' : outcome E X -> L -> Prop) :
  acts m l joined K -> (forall r l', K r l' -> K' r l') -> acts m l joined K'.
Proof.
  intros Hm HK. revert l Hm. induction m as [r|B f k IH]; intros l; cbn; [apply HK|].
  intros Hm w Hi Ho He. destruct (Hm w Hi Ho He) as (l' & Hs & Hk). eauto.
Qed.

Lemma acts_bind {X Y} (m : prog E W X) (k : X -> prog E W Y) l joined (K : outcome E Y -> L -> Prop) :
  acts m l joined (fun r l' =>
    match r with Ok a => acts (k a) l' joined K | Err e => K (Err e) l' | Panic => K Panic l' end) ->
  acts (bind m k) l joined K.
Proof.
  revert l. induction m as [r|C f c IH]; intros l; cbn; [by destruct r|].
  intros Hm w Hi Ho He. destruct (Hm w Hi Ho He) as (l' & Hs & Hk). eauto.
Qed.

Lemma acts_attempt {X} (m : prog E W X) l joined (K : outcome E (E + X) -> L -> Prop) :
  acts m l joined (fun r l' =>
    match r with Ok a => K (Ok (inr a)) l' | Err e => K (Ok (inl e)) l' | Panic => K Panic l' end) ->
  acts (attempt m) l joined K.
Proof.
  revert l. induction m as [r|C f c IH]; intros l; cbn; [by destruct r|].
  intros Hm w Hi Ho He. destruct (Hm w Hi Ho He) as (l' & Hs & Hk). eauto.
Qed.

(** Tasks do not know what was joined. *)
Lemma acts_task {X} (m : prog E W X) l (K : outcome E X -> L -> Prop) :
  acts m l [] K -> task_owns l m K.
Proof.
  revert l. induction m as [r|C f c IH]; intros l; cbn; [done|].
  intros Hm w Hi Ho. destruct (Hm w Hi Ho) as (l' & Hs & Hk); [by intros i t Ht; apply not_elem_of_nil in Ht|].
  exists l'. split; [done|]. auto.
Qed.

Lemma follows_mono (m : par E W T A) l n joined (Q Q' : outcome E A -> L -> nat -> list (nat * option T) -> Prop) :
  follows m l n joined Q -> (forall r l' n' j', Q r l' n' j' -> Q' r l' n' j') -> follows m l n joined Q'.
Proof.
  intros Hm HQ. revert l n joined Hm. induction m as [r|B f k IH|t k IH|k IH|k IH|k IH]; intros l n joined; cbn.
  - apply HQ.
  - intros Hm w Hi Ho He. destruct (Hm w Hi Ho He) as (l' & Hs & Hk). eauto.
  - intros (Hc & l' & o & Hp & Ht & Hf). split; [done|]. exists l', o. eauto.
  - eauto.
  - intros [H1 H2]. split; [eauto|]. intros i r Hi Hn Hr. eauto.
  - eauto.
Qed.

Context (Q : outcome E A -> L -> nat -> list (nat * option T) -> Prop).

Record pool_follows (p : Pool E W T A) (l : L) (ls : list L) (joined : list (nat * option T)) : Prop := {
  pf_inv : inv (pl_world p);
  pf_main : own l (pl_world p);
  pf_length : length ls = length (pl_tasks p);
  pf_live : length joined + live_tasks (pl_tasks p) = length (pl_tasks p);
  pf_cap : live_tasks (pl_tasks p) <= cap;
  pf_tasks i t : pl_tasks p !! i = Some (Some t) -> exists o, ls !! i = Some o /\ task_owns o t (post i);
  pf_own i o : ls !! i = Some o -> own o (pl_world p) /\ disjoint_from l o;
  pf_disjoint i j a b : ls !! i = Some a -> ls !! j = Some b -> i <> j -> disjoint_from a b;
  pf_joined i r : (i, r) ∈ joined -> pl_tasks p !! i = Some None;
  pf_established i t : (i, Some t) ∈ joined -> exists o, ls !! i = Some o /\ post i (Ok t) o;
  pf_follows : follows (pl_main p) l (length ls) joined Q;
}.

Lemma pf_holds p l ls joined : pool_follows p l ls joined -> established l joined (pl_world p).
Proof.
  intros Hp i t (o & Ho & Hpost)%(pf_established _ _ _ _ Hp). exists o.
  destruct (pf_own _ _ _ _ Hp i o Ho). done.
Qed.

(** Joining a task. *)
Lemma pool_follows_join k ts ab w l ls joined i t r :
  pool_follows (mkPool (PJoin k) ts ab w) l ls joined ->
  ts !! i = Some (Some t) ->
  (forall x, r = Some x -> t = Done (Ok x)) ->
  pool_follows (mkPool (k (Some r)) (<[i := None]> ts) ab w) l ls ((i, r) :: joined).
Proof.
  intros Hp Hi Hr. destruct Hp as [H1 H2 H3 H4 H5 H6 H7 H8 H9 H10 H11]; cbn in *.
  pose proof (live_insert ts i (Some t) None Hi) as Hlive. cbn in Hlive.
  destruct (H6 i t Hi) as (o & Ho & Hot).
  assert (forall x, r = Some x -> post i (Ok x) o) as Hpost.
  { intros x Hx. specialize (Hr x Hx). subst t. exact Hot. }
  assert (i ∉ joined.*1) as Hni.
  { intros ([j r'] & -> & Hj)%list_elem_of_fmap. cbn in Hi. rewrite (H9 _ _ Hj) in Hi. done. }
  split; cbn; [done|done|by rewrite length_insert|rewrite length_insert; lia|lia| |done|done| | |].
  - intros j t' Hj. apply H6. rewrite list_lookup_insert in Hj. by case_decide.
  - intros j r' [[= -> ->]|Hj]%elem_of_cons.
    + apply list_lookup_insert_eq. by eapply lookup_lt_Some.
    + rewrite list_lookup_insert_ne; [by eapply H9|]. intros ->. rewrite (H9 _ _ Hj) in Hi. done.
  - intros j x [[= -> <-]|Hj]%elem_of_cons; [|by apply H10]. exists o. auto.
  - apply H11; [|done|]; [rewrite H3; by eapply lookup_lt_Some|]. intros x Hx. exists o. auto.
Qed.

(** A task is spawned. *)
Lemma pool_follows_spawn t k ts ab w l ls joined :
  pool_follows (mkPool (PSpawn t k) ts ab w) l ls joined ->
  exists l' o, pool_follows (mkPool k (ts ++ [Some t]) ab w) l' (ls ++ [o]) joined.
Proof using Hsym.
  intros Hp.
  destruct Hp as [H1 H2 H3 H4 H5 H6 H7 H8 H9 H10 H11]; cbn in *.
  destruct H11 as (Hc & l' & o & (Ho & Hd & Hlo) & Ht & Hf). destruct (Ho w H1 H2) as [Hl' Hoo].
  exists l', o. split; cbn; try done.
  - by rewrite !length_app, H3.
  - rewrite live_snoc, length_app. cbn. lia.
  - rewrite live_snoc. cbn. rewrite H3 in Hc. lia.
  - intros i t' [Hi|[Hi Hx]]%lookup_app_Some.
    + destruct (H6 i t' Hi) as (o' & Ho' & Hto). exists o'. split; [|done]. by apply lookup_app_l_Some.
    + apply list_lookup_singleton_Some in Hx as [Hz [= <-]]. exists o.
      assert (i = length ls) as -> by lia. split; [|done].
      rewrite lookup_app_r by lia. by rewrite Nat.sub_diag.
  - intros i o' [Hi|[Hi Hx]]%lookup_app_Some.
    + destruct (H7 i o' Hi) as [Ho' Hd']. split; [done|]. by apply Hd.
    + apply list_lookup_singleton_Some in Hx as [_ <-]. done.
  - intros i j a b [Hi|[Hi Hx]]%lookup_app_Some [Hj|[Hj Hy]]%lookup_app_Some Hne.
    + by eapply H8.
    + apply list_lookup_singleton_Some in Hy as [_ <-]. apply Hsym, Hd. by eapply H7.
    + apply list_lookup_singleton_Some in Hx as [_ <-]. apply Hd. by eapply H7.
    + apply list_lookup_singleton_Some in Hx as [Hx _], Hy as [Hy _]. lia.
  - intros i r Hi. apply lookup_app_l_Some. by eapply H9.
  - intros i t' Hi. destruct (H10 i t' Hi) as (o' & Ho' & Hpo). exists o'. split; [|done].
    by apply lookup_app_l_Some.
  - rewrite length_app. cbn. by rewrite Nat.add_1_r.
Qed.

(** A task goes on. *)
Lemma pool_follows_task m ts ab w l ls joined i t t' w' :
  pool_follows (mkPool m ts ab w) l ls joined ->
  ts !! i = Some (Some t) -> prog_step t w = Some (t', w') ->
  exists o', pool_follows (mkPool m (<[i := Some t']> ts) ab w') l (<[i := o']> ls) joined.
Proof using Hsym.
  intros Hp Hi Ht.
  destruct Hp as [H1 H2 H3 H4 H5 H6 H7 H8 H9 H10 H11]; cbn in *.
  destruct (H6 i t Hi) as (o & Ho & Hto). destruct (H7 i o Ho) as [Hown Hlo].
  destruct t as [r|B f k]; [done|]. cbn in Ht, Hto.
  destruct (Hto w H1 Hown) as (o' & (Hi' & Ho' & Hothers) & Hk). destruct (f w) as [b w2].
  injection Ht as <- <-. cbn in *. exists o'.
  pose proof (live_insert ts i _ (Some (k b)) Hi) as Hlive. cbn in Hlive.
  assert (i < length ls) as Hlt by by eapply lookup_lt_Some.
  destruct (Hothers l H2 (Hsym _ _ Hlo)) as [Hl2 Hd2].
  split; cbn; rewrite ?length_insert; try done; try lia.
  - intros j t' Hj. rewrite list_lookup_insert in Hj. case_decide as Hc.
    + destruct Hc as [<- _]. assert (t' = k b) as -> by congruence. exists o'. split; [|done].
      by apply list_lookup_insert_eq.
    + destruct (H6 j t' Hj) as (x & Hx & Htx). exists x. split; [|done].
      rewrite list_lookup_insert_ne; [done|]. intros ->. apply Hc. split; [done|]. by eapply lookup_lt_Some.
  - intros j x Hj. rewrite list_lookup_insert in Hj. case_decide as Hc.
    + assert (x = o') as -> by congruence. split; [done|]. by apply Hsym.
    + assert (i <> j) as Hne by (intros ->; apply Hc; split; [done|lia]).
      destruct (H7 j x Hj) as [Hx Hdx]. split; [|done]. eapply Hothers; [done|by eapply H8].
  - intros j1 j2 a c Hj1 Hj2 Hne. rewrite list_lookup_insert in Hj1, Hj2.
    destruct (decide (i = j1 /\ i < length ls)) as [[<- _]|Hc1],
      (decide (i = j2 /\ i < length ls)) as [[<- _]|Hc2]; [done| | |by eapply (H8 j1 j2)].
    + injection Hj1 as <-. destruct (H7 j2 c Hj2) as [Hc Hdc]. eapply Hothers; [done|].
      by eapply H8.
    + injection Hj2 as <-. destruct (H7 j1 a Hj1) as [Ha Hda]. apply Hsym. eapply Hothers; [done|].
      by eapply H8.
  - intros j r Hj. rewrite list_lookup_insert_ne; [by eapply H9|]. intros <-. rewrite (H9 _ _ Hj) in Hi. done.
  - intros j x Hj. destruct (H10 j x Hj) as (y & Hy & Hpy). exists y. split; [|done].
    rewrite list_lookup_insert_ne; [done|]. intros <-. rewrite (H9 _ _ Hj) in Hi. done.
Qed.

Lemma pool_follows_step p p' l ls joined :
  pool_follows p l ls joined -> par_step p p' ->
  exists l' ls' joined', pool_follows p' l' ls' joined'.
Proof using Hsym.
  intros Hp Hs. pose proof (pf_holds _ _ _ _ Hp) as Hest. destruct Hs as [m m' ts ab w w' Ha|t k ts ab w|k ts ab w
    |k ts ab w Hz|k ts ab w i r Hi|k ts w i t Hi|k ts ab w|m ts ab w i t t' w' Hi Ht].
  - destruct Hp as [H1 H2 H3 H4 H5 H6 H7 H8 H9 H10 H11]; cbn in *.
    destruct m as [|B f k| | | |]; try discriminate. injection Ha as <- <-.
    destruct (H11 w H1 H2 Hest) as (l' & (Hi & Ho & Hothers) & Hf). exists l', ls, joined.
    split; cbn; [done..| |done|done|done|done]. intros i o Hl. destruct (H7 i o Hl) as [Hox Hd]. by apply Hothers.
  - destruct (pool_follows_spawn _ _ _ _ _ _ _ _ Hp) as (l' & o & Hp'). by exists l', (ls ++ [o]), joined.
  - exists l, ls, joined. destruct Hp as [H1 H2 H3 H4 H5 H6 H7 H8 H9 H10 H11]; cbn in *.
    split; cbn; try done. replace (live_tasks ts) with (length ls - length joined) by lia. done.
  - exists l, ls, joined. destruct Hp as [H1 H2 H3 H4 H5 H6 H7 H8 H9 H10 H11]; cbn in *.
    split; cbn; try done. apply H11. lia.
  - exists l, ls, ((i, join_result r) :: joined). eapply pool_follows_join; [exact Hp|exact Hi|].
    intros x. by destruct r as [t| |]; intros [= ->].
  - exists l, ls, ((i, None) :: joined). by eapply pool_follows_join.
  - exists l, ls, joined. destruct Hp as [H1 H2 H3 H4 H5 H6 H7 H8 H9 H10 H11]; cbn in *. by split.
  - destruct (pool_follows_task _ _ _ _ _ _ _ _ _ _ _ Hp Hi Ht) as [o' Hp']. by exists l, (<[i := o']> ls), joined.
Qed.

Lemma pool_follows_steps p p' :
  rtc par_step p p' -> (exists l ls joined, pool_follows p l ls joined) ->
  exists l ls joined, pool_follows p' l ls joined.
Proof using Hsym.
  induction 1 as [p|p p1 p2 Hs _ IH]; [done|]. intros (l & ls & joined & Hp). apply IH.
  by eapply pool_follows_step.
Qed.

(** A program that follows the logic, before its first step. *)
Lemma pool_follows_start m l w :
  inv w -> own l w -> follows m l 0 [] Q -> pool_follows (mkPool m [] false w) l [] [].
Proof.
  intros Hi Ho Hf. split; cbn; try done; try lia; unfold live_tasks; cbn; try lia.
  all: by intros i r Hr; apply not_elem_of_nil in Hr.
Qed.
End logic.

Section composition.
Context {E W T L : Type}.
Context (inv : W -> Prop) (own : L -> W -> Prop) (disjoint_from : L -> L -> Prop).
Context (post : nat -> outcome E T -> L -> Prop) (cap : nat).
Abbreviation follows := (follows inv own disjoint_from post cap).

Lemma follows_bind {A B} (m : par E W T A) (k : A -> par E W T B) l n joined Q :
  follows m l n joined (fun r l' n' joined' =>
    match r with
    | Ok a => follows (k a) l' n' joined' Q
    | Err e => Q (Err e) l' n' joined'
    | Panic => Q Panic l' n' joined'
    end) ->
  follows (pbind m k) l n joined Q.
Proof.
  revert l n joined. induction m as [r|C f c IH|t c IH|c IH|c IH|c IH]; intros l n joined; cbn.
  - by destruct r.
  - intros Hm w Hi Ho He. destruct (Hm w Hi Ho He) as (l' & Hs & Hk). eauto.
  - intros (Hc & l' & o & Hp & Ht & Hf). split; [done|]. exists l', o. eauto.
  - eauto.
  - intros [H1 H2]. split; [eauto|]. intros i r Hi Hn Hr. eauto.
  - eauto.
Qed.

Lemma follows_alone {A} (m : prog E W A) l n joined (Q : outcome E A -> L -> nat -> list (nat * option T) -> Prop) :
  acts inv own disjoint_from post m l joined (fun r l' => Q r l' n joined) ->
  follows (alone m) l n joined Q.
Proof.
  revert l. induction m as [r|C f c IH]; intros l; cbn; [done|].
  intros Hm w Hi Ho He. destruct (Hm w Hi Ho He) as (l' & Hs & Hk). eauto.
Qed.
End composition.
