(* ===== verification/FileLocking.v ===== *)
(** * File locking ([locking/file.rs])

    [FileLocker]: an advisory lock ([flock]) on a lock file per upload.  The kernel
    has a directory of names for files (inodes), the open descriptors, the
    descriptor that holds the lock of each file, and a clock.  Every system call is
    an atomic action that may fail ([FaultPlan]); closing a descriptor releases its
    lock and cannot fail.  A file that is open keeps its number, so equal numbers
    mean the same file. *)

From S2P Require Import Prelude Text Errors Crates Config State Headers Hooks Backends Files.
Local Open Scope string_scope.
Local Open Scope N_scope.
Local Open Scope prog_scope.

Record Kernel := mkKernel {
  kn_names : gmap string nat;
  (** the file behind each open descriptor *)
  kn_files : gmap nat nat;
  (** the descriptor that holds the lock of each file *)
  kn_locks : gmap nat nat;
  (** numbers above are unused, by files and by descriptors *)
  kn_next : nat;
  kn_now : N;
  kn_calls : nat;
}.

Definition empty_kernel : Kernel := mkKernel ∅ ∅ ∅ 0 0 0.

Definition would_block : IoError :=
  {| io_kind := IoErrorKind.WouldBlock;
     io_message := "Resource temporarily unavailable (os error 11)" |}.

Definition set_names (m : gmap string nat) (k : Kernel) : Kernel :=
  mkKernel m (kn_files k) (kn_locks k) (kn_next k) (kn_now k) (kn_calls k).
Definition set_locks (m : gmap nat nat) (k : Kernel) : Kernel :=
  mkKernel (kn_names k) (kn_files k) m (kn_next k) (kn_now k) (kn_calls k).
Definition set_now (t : N) (k : Kernel) : Kernel :=
  mkKernel (kn_names k) (kn_files k) (kn_locks k) (kn_next k) t (kn_calls k).
Definition kernel_call (k : Kernel) : Kernel :=
  mkKernel (kn_names k) (kn_files k) (kn_locks k) (kn_next k) (kn_now k) (S (kn_calls k)).

(** A new descriptor of a file. *)
Definition new_descriptor (ino : nat) (k : Kernel) : nat * Kernel :=
  (kn_next k, mkKernel (kn_names k) (<[kn_next k := ino]> (kn_files k)) (kn_locks k)
                (S (kn_next k)) (kn_now k) (kn_calls k)).

(** A new, empty file. *)
Definition new_inode (path : string) (k : Kernel) : nat * Kernel :=
  (kn_next k, mkKernel (<[path := kn_next k]> (kn_names k)) (kn_files k) (kn_locks k)
                (S (kn_next k)) (kn_now k) (kn_calls k)).

(** The lock of a descriptor's file, if the descriptor holds it, is released. *)
Definition drop_lock (fd : nat) (k : Kernel) : Kernel :=
  match kn_files k !! fd with
  | Some ino =>
      if decide (kn_locks k !! ino = Some fd) then set_locks (delete ino (kn_locks k)) k else k
  | None => k
  end.

(** How much time passes before the n-th reading of the clock, and by how much the n-th
    call, if it is a sleep, is late. *)
Class Passing := passing : nat -> N.

Section file_locker.
Context `{FaultPlan, Passing}.

Definition kernel (A : Type) : Type := prog IoError Kernel A.

Definition kcall {A} (f : Kernel -> outcome IoError A * Kernel) : kernel A :=
  try_act (fun k =>
    match fault_at SysOther (kn_calls k) with
    | Some ft => (Err (fault_error ft), kernel_call k)
    | None => f (kernel_call k)
    end).

(** [f().map_err(Error::Io)?], and a [match] on the result *)
Definition kio {A} (m : kernel A) : M Kernel A := map_err io_error m.
Definition try_kio {A} (m : kernel A) : M Kernel (IoError + A) := map_err io_error (attempt m).

Definition kn_open (create : bool) (path : string) : kernel nat :=
  kcall (fun k =>
    match kn_names k !! path with
    | Some ino => let '(fd, k) := new_descriptor ino k in (Ok fd, k)
    | None =>
        if create then
          let '(ino, k) := new_inode path k in
          let '(fd, k) := new_descriptor ino k in (Ok fd, k)
        else (Err not_found, k)
    end).

(** [file.try_lock_exclusive()]: [flock(LOCK_EX | LOCK_NB)] *)
Definition kn_try_lock (fd : nat) : kernel unit :=
  kcall (fun k =>
    match kn_files k !! fd with
    | Some ino =>
        match kn_locks k !! ino with
        | Some owner =>
            if Nat.eqb owner fd then (Ok tt, k) else (Err would_block, k)
        | None => (Ok tt, set_locks (<[ino := fd]> (kn_locks k)) k)
        end
    | None => (Err not_found, k)
    end).

(** [file.metadata()] and [fs::metadata(path)]: the number of the file *)
Definition kn_fstat (fd : nat) : kernel nat :=
  kcall (fun k => (match kn_files k !! fd with Some ino => Ok ino | None => Err not_found end, k)).
Definition kn_stat (path : string) : kernel nat :=
  kcall (fun k => (match kn_names k !! path with Some ino => Ok ino | None => Err not_found end, k)).

(** [FileExt::unlock(&file)] *)
Definition kn_unlock (fd : nat) : kernel unit := kcall (fun k => (Ok tt, drop_lock fd k)).

(** The drop of a [File]. *)
Definition close_descriptor (fd : nat) (k : Kernel) : Kernel :=
  let k := drop_lock fd k in
  mkKernel (kn_names k) (delete fd (kn_files k)) (kn_locks k) (kn_next k) (kn_now k) (kn_calls k).
Definition close (fd : nat) : M Kernel unit := act (fun k => (tt, close_descriptor fd k)).

Definition kn_remove_file (path : string) : kernel unit :=
  kcall (fun k =>
    match kn_names k !! path with
    | Some _ => (Ok tt, set_names (delete path (kn_names k)) k)
    | None => (Err not_found, k)
    end).

(** [Instant::now()] and [sleep(d)] *)
Definition instant_now : M Kernel N :=
  act (fun k =>
    let t := kn_now k + passing (kn_calls k) in
    (t, set_now t (kernel_call k))).
Definition sleep (d : N) : M Kernel unit :=
  act (fun k => (tt, set_now (kn_now k + d + passing (kn_calls k)) (kernel_call k))).

(** ** [FileLocker] *)

Definition MAX_LOCK_FILE_NAME_LEN : N := 255.

Definition lock_validate_upload_id (id : string) : result unit :=
  check? UploadId_from_str id in
  if MAX_LOCK_FILE_NAME_LEN <? str_len id + str_len ".lock" then
    Err (Error.InvalidUploadId
      ("id plus .lock suffix is " ++ u64_to_string (str_len id + str_len ".lock")
        ++ " bytes; max " ++ u64_to_string MAX_LOCK_FILE_NAME_LEN))
  else Ok tt.

Definition lock_path (upload_id : string) : result string :=
  check? lock_validate_upload_id upload_id in Ok (upload_id ++ ".lock").

Definition open_lock_file (path : string) : M Kernel nat := kio (kn_open true path).

Definition is_current_lock_file (path : string) (file : nat) : M Kernel bool :=
  let! held := kio (kn_fstat file) in
  let! current := try_kio (kn_stat path) in
  match current with
  | inr current => ret (Nat.eqb current held)
  | inl error =>
      if decide (io_kind error = IoErrorKind.NotFound) then ret false else throw (io_error error)
  end.

(** One turn of the loop of [try_acquire]: [None] to [continue], else what is returned.
    A descriptor that is not returned is dropped. *)
Definition try_acquire_turn (path : string) : M Kernel (option (option nat)) :=
  let! file := open_lock_file path in
  let! locked := try_kio (kn_try_lock file) in
  match locked with
  | inr _ =>
      let! current := attempt (is_current_lock_file path file) in
      match current with
      | inr true => ret (Some (Some file))
      | inr false =>
          do! try_kio (kn_unlock file) in
          do! close file in
          ret None
      | inl error => do! close file in throw error
      end
  | inl error =>
      do! close file in
      if decide (io_kind error = IoErrorKind.WouldBlock) then ret (Some None)
      else throw (io_error error)
  end.

(** A loop of at most [fuel] turns; [None]: it goes on. *)
Fixpoint turns {W A} (fuel : nat) (turn : M W (option A)) : M W (option A) :=
  match fuel with
  | O => ret None
  | S fuel =>
      let! r := turn in
      match r with
      | Some a => ret (Some a)
      | None => turns fuel turn
      end
  end.

Definition try_acquire (fuel : nat) (path : string) : M Kernel (option (option nat)) :=
  turns fuel (try_acquire_turn path).

Definition release_lock_file (path : string) (file : nat) : M Kernel unit :=
  do! try_kio (kn_remove_file path) in
  do! try_kio (kn_unlock file) in
  do! close file in
  ret tt.

Definition file_is_locked (upload_id : string) : M Kernel bool :=
  let! path := of_outcome (lock_path upload_id) in
  let! file := try_kio (kn_open false path) in
  match file with
  | inl error =>
      if decide (io_kind error = IoErrorKind.NotFound) then ret false else throw (io_error error)
  | inr file =>
      let! locked := try_kio (kn_try_lock file) in
      match locked with
      | inr _ =>
          do! try_kio (kn_unlock file) in
          do! close file in
          ret false
      | inl error =>
          do! close file in
          if decide (io_kind error = IoErrorKind.WouldBlock) then ret true else throw (io_error error)
      end
  end.

(** One turn of the loop of [lock]. *)
Definition lock_turn (fuel : nat) (retry_interval deadline : N) (upload_id path : string)
    : M Kernel (option LockGuard) :=
  let! acquired := try_acquire fuel path in
  match acquired with
  | Some (Some file) => ret (Some (LockGuard_with_release upload_id file))
  | Some None =>
      let! now := instant_now in
      if deadline <=? now then throw (Error.LockTimeout upload_id)
      else
        let! now := instant_now in
        let remaining := deadline - now in
        do! sleep (N.min remaining retry_interval) in
        ret None
  | None => ret None
  end.

Definition file_lock (fuel : nat) (retry_interval : N) (upload_id : string) (timeout : N)
    : M Kernel (option LockGuard) :=
  let! path := of_outcome (lock_path upload_id) in
  let! now := instant_now in
  turns fuel (lock_turn fuel retry_interval (now + timeout) upload_id path).

Definition file_try_lock (fuel : nat) (upload_id : string) : M Kernel (option (option LockGuard)) :=
  let! path := of_outcome (lock_path upload_id) in
  let! acquired := try_acquire fuel path in
  ret (match acquired with
       | Some (Some file) => Some (Some (LockGuard_with_release upload_id file))
       | Some None => Some None
       | None => None
       end).

(** The drop of a [LockGuard]: the callback has captured the path of its id. *)
Definition file_release (guard : LockGuard) : M Kernel unit :=
  match guard_release guard with
  | Some file => release_lock_file (guard_upload_id guard ++ ".lock") file
  | None => ret tt
  end.
End file_locker.
