(* ===== verification/FileLockingSpec.v ===== *)
(** * Interleaved use of [FileLocker]

    Tasks, of one process or of several, lock ids with [lock] and [try_lock], probe
    them with [is_locked], pass through critical sections and drop their guards.
    Under every interleaving of their system calls, with any of these failing, at
    most one task is inside the critical section of an id: unlinking the lock file
    on release does not break the exclusion. *)

From S2P Require Import Prelude Text Errors Crates Config State Headers Hooks Backends Files FileFacts.
From S2P Require Import Interleaving Ownership FileLocking.
From stdpp Require Import relations.
Local Open Scope string_scope.
Local Open Scope prog_scope.

Abbreviation LockWorld := (Kernel * gmap string (list nat))%type.

(** The descriptors whose task is in the critical section of an id. *)
Definition inside (id : string) (w : LockWorld) : list nat := default [] (w.2 !! id).
Definition enter (id : string) (fd : nat) (w : LockWorld) : LockWorld :=
  (w.1, <[id := fd :: inside id w]> w.2).
Definition leave (id : string) (fd : nat) (w : LockWorld) : LockWorld :=
  (w.1, <[id := filter (fun x => x <> fd) (inside id w)]> w.2).

Definition with_kernel (k : Kernel) (w : LockWorld) : LockWorld := (k, w.2).

Section clients.
Context `{FaultPlan, Passing} (fuel : nat) (retry_interval : N).

Definition on_kernel {A} (m : M Kernel A) : M LockWorld A := focus fst with_kernel m.

(** ** The tasks *)

Inductive Job := LockJob (id : string) (timeout : N) | TryLockJob (id : string) | ProbeJob (id : string).

Definition use_guard (o : option LockGuard) : M LockWorld unit :=
  match o with
  | Some (Build_LockGuard id (Some fd) as g) =>
      do! act (fun w => (tt, enter id fd w)) in
      do! act (fun w => (tt, leave id fd w)) in
      on_kernel (file_release g)
  | _ => ret tt
  end.

Definition job (j : Job) : M LockWorld unit :=
  match j with
  | LockJob id timeout =>
      let! r := attempt (on_kernel (file_lock fuel retry_interval id timeout)) in
      use_guard match r with inr o => o | inl _ => None end
  | TryLockJob id =>
      let! r := attempt (on_kernel (file_try_lock fuel id)) in
      use_guard match r with inr (Some o) => o | _ => None end
  | ProbeJob id =>
      do! attempt (on_kernel (file_is_locked id)) in ret tt
  end.

Fixpoint jobs (js : list Job) : M LockWorld unit :=
  match js with
  | [] => ret tt
  | j :: js => do! job j in jobs js
  end.

(** ** Resources *)

Inductive Res :=
| Idle
| Opened (fd ino : nat)
| Locked (fd ino : nat)
| Holding (fd ino : nat) (path : string)
| InSection (fd ino : nat) (id : string).

Definition res_fd (r : Res) : option nat :=
  match r with
  | Idle => None
  | Opened fd _ | Locked fd _ | Holding fd _ _ | InSection fd _ _ => Some fd
  end.

Definition disjoint_fds (a b : Res) : Prop := forall fd, res_fd a = Some fd -> res_fd b <> Some fd.

Definition lock_file (id : string) : string := (id ++ ".lock")%string.

Definition has_lock (fd ino : nat) (w : LockWorld) : Prop :=
  kn_files w.1 !! fd = Some ino /\ kn_locks w.1 !! ino = Some fd /\
  forall i, kn_locks w.1 !! i = Some fd -> i = ino.

Definition outside (fd : nat) (w : LockWorld) : Prop := forall id, ~ In fd (inside id w).

Definition res_own (r : Res) (w : LockWorld) : Prop :=
  match r with
  | Idle => True
  | Opened fd ino =>
      kn_files w.1 !! fd = Some ino /\ (forall i, kn_locks w.1 !! i <> Some fd) /\ outside fd w
  | Locked fd ino => has_lock fd ino w /\ outside fd w
  | Holding fd ino path => has_lock fd ino w /\ outside fd w /\ kn_names w.1 !! path = Some ino
  | InSection fd ino id =>
      has_lock fd ino w /\ kn_names w.1 !! lock_file id = Some ino /\
      forall id', In fd (inside id' w) -> id' = id
  end.

Record lock_inv (w : LockWorld) : Prop := {
  li_files fd ino : kn_files w.1 !! fd = Some ino -> fd < kn_next w.1;
  li_locks ino fd : kn_locks w.1 !! ino = Some fd -> fd < kn_next w.1;
  li_inside id : inside id w = [] \/
    exists fd ino, inside id w = [fd] /\ kn_names w.1 !! lock_file id = Some ino /\
      kn_locks w.1 !! ino = Some fd;
}.

Abbreviation lock_step := (owned_step lock_inv res_own disjoint_fds).

Lemma disjoint_fds_sym a b : disjoint_fds a b -> disjoint_fds b a.
Proof. intros Hd fd Hb Ha. by apply (Hd fd). Qed.

Lemma disjoint_same a b o : res_fd b = res_fd a -> disjoint_fds a o -> disjoint_fds b o.
Proof. intros Hf Hd fd Hb. apply Hd. congruence. Qed.

Lemma disjoint_idle o : disjoint_fds Idle o.
Proof. done. Qed.

(** What the owner of a descriptor relies on. *)
Record respects (fd : nat) (w w' : LockWorld) : Prop := {
  rs_file : kn_files w'.1 !! fd = kn_files w.1 !! fd;
  rs_locks i : kn_locks w'.1 !! i = Some fd <-> kn_locks w.1 !! i = Some fd;
  rs_inside id : In fd (inside id w') <-> In fd (inside id w);
  rs_names p i : kn_locks w.1 !! i = Some fd -> kn_names w.1 !! p = Some i -> kn_names w'.1 !! p = Some i;
}.

Lemma res_own_transfer o w w' :
  (forall fd, res_fd o = Some fd -> respects fd w w') -> res_own o w -> res_own o w'.
Proof.
  intros Ht Ho. destruct o as [|fd ino|fd ino|fd ino p|fd ino id]; [done|..];
    destruct (Ht fd eq_refl) as [Hf Hl Hi Hn]; cbn in Ho |- *; unfold has_lock, outside in *.
  - destruct Ho as (H1 & H2 & H3). split_and!; [congruence|..].
    + intros i Hx. by apply Hl, H2 in Hx.
    + intros id Hx. by apply Hi, H3 in Hx.
  - destruct Ho as ((H1 & H2 & H3) & H4). split_and!; [congruence|by apply Hl|..].
    + intros i Hx. by apply H3, Hl.
    + intros id Hx. by apply Hi, H4 in Hx.
  - destruct Ho as ((H1 & H2 & H3) & H4 & H5). split_and!; [congruence|by apply Hl|..|by apply Hn].
    + intros i Hx. by apply H3, Hl.
    + intros id Hx. by apply Hi, H4 in Hx.
  - destruct Ho as ((H1 & H2 & H3) & H4 & H5). split_and!; [congruence|by apply Hl|..|by apply Hn|].
    + intros i Hx. by apply H3, Hl.
    + intros id' Hx. by apply H5, Hi.
Qed.

Lemma res_own_file o w fd : res_own o w -> res_fd o = Some fd -> exists ino, kn_files w.1 !! fd = Some ino.
Proof.
  destruct o; cbn; unfold has_lock; [done|..]; intros Ho [= <-]; destruct_and?; eauto.
Qed.

Lemma lock_step_intro l l' w w' :
  lock_inv w -> lock_inv w' -> res_own l' w' ->
  (forall fd, res_fd l' = Some fd -> res_fd l = Some fd \/ kn_next w.1 <= fd) ->
  (forall fd, fd < kn_next w.1 -> res_fd l <> Some fd -> respects fd w w') ->
  lock_step l w l' w'.
Proof.
  intros Hi Hi' Ho Hfd Hr. split_and!; [done|done|]. intros o Hoo Hd. split.
  - eapply res_own_transfer; [|done]. intros fd Hf. apply Hr.
    + destruct (res_own_file _ _ _ Hoo Hf) as [ino Hino]. by eapply li_files.
    + intros Hl. by apply (Hd fd).
  - intros fd Hf Hof. destruct (Hfd fd Hf) as [Hl|Hn]; [by apply (Hd fd)|].
    destruct (res_own_file _ _ _ Hoo Hof) as [ino Hino]. apply li_files in Hino; [lia|done].
Qed.

(** Calls that change nothing the tasks rely on: failed calls, questions, the clock. *)
Record same_kernel (k k' : Kernel) : Prop := {
  sk_names : kn_names k' = kn_names k;
  sk_files : kn_files k' = kn_files k;
  sk_locks : kn_locks k' = kn_locks k;
  sk_next : kn_next k' = kn_next k;
}.

Lemma inv_same w k : same_kernel w.1 k -> lock_inv w -> lock_inv (with_kernel k w).
Proof.
  intros [Hn Hf Hl Hx] [H1 H2 H3]. split; cbn; rewrite ?Hn, ?Hf, ?Hl, ?Hx; [done|done|].
  intros id. destruct (H3 id) as [Hi|(fd & ino & Hi & Ha & Hb)]; [by left|right].
  by exists fd, ino.
Qed.

Lemma respects_same fd w k : same_kernel w.1 k -> respects fd w (with_kernel k w).
Proof. intros [Hn Hf Hl Hx]. by split; cbn; rewrite ?Hn, ?Hf, ?Hl. Qed.

Lemma step_same l w k :
  same_kernel w.1 k -> lock_inv w -> res_own l w -> lock_step l w l (with_kernel k w).
Proof.
  intros Hs Hi Ho. apply lock_step_intro; auto using inv_same, respects_same.
  eapply res_own_transfer; [|done]. intros fd _. by apply respects_same.
Qed.

(** A system call: it fails and changes nothing, or its effect is a step. *)
Lemma owns_kcall {A} (f : Kernel -> outcome IoError A * Kernel) (Q : outcome IoError A -> Res -> Prop) l :
  (forall ft, Q (Err (fault_error ft)) l) ->
  (forall w, lock_inv w -> res_own l w ->
     exists l', lock_step l w l' (with_kernel (f w.1).2 w) /\ Q (f w.1).1 l') ->
  owns lock_inv res_own disjoint_fds fst with_kernel l (kcall f) Q.
Proof.
  intros Hft Hf. apply owns_try_act. intros [k m] Hi Ho. cbn [fst].
  assert (same_kernel k (kernel_call k)) as Hs by done.
  destruct (fault_at SysOther (kn_calls k)) as [ft|].
  - exists l. split; [by apply (step_same l (k, m))|apply Hft].
  - destruct (step_same l (k, m) _ Hs Hi Ho) as (Hi' & Ho' & Hothers).
    destruct (Hf (kernel_call k, m) Hi' Ho') as (l' & (Hi2 & Ho2 & Hothers2) & HQ).
    exists l'. split; [|done]. split_and!; [done|done|]. intros o Hoo Hd.
    destruct (Hothers o Hoo Hd) as [Hoo' Hd']. by apply (Hothers2 o).
Qed.

(** ** Steps of the kernel *)

Lemma step_trans l l1 l2 w w1 w2 : lock_step l w l1 w1 -> lock_step l1 w1 l2 w2 -> lock_step l w l2 w2.
Proof.
  intros (_ & _ & Ha) (Hi & Ho & Hb). split_and!; [done|done|]. intros o Hoo Hd.
  destruct (Ha o Hoo Hd) as [Hoo' Hd']. by apply (Hb o).
Qed.

(** Only the assertion changes. *)
Lemma step_assert l l' w : lock_inv w -> res_own l' w -> res_fd l' = res_fd l -> lock_step l w l' w.
Proof.
  intros Hi Ho Hf. split_and!; [done|done|]. intros o Hoo Hd. split; [done|]. by eapply disjoint_same.
Qed.

Lemma inside_below w id fd : lock_inv w -> In fd (inside id w) -> fd < kn_next w.1.
Proof.
  intros [_ Hl Hi] Hin. destruct (Hi id) as [Hn|(fd' & ino & Hn & _ & Hlk)]; rewrite Hn in Hin; [done|].
  destruct Hin as [<-|[]]. by eapply Hl.
Qed.

Lemma step_descriptor ino w :
  lock_inv w ->
  lock_step Idle w (Opened (kn_next w.1) ino) (with_kernel (new_descriptor ino w.1).2 w).
Proof.
  intros Hi. pose proof (li_files _ Hi) as Hf. pose proof (li_locks _ Hi) as Hl.
  apply lock_step_intro; [done| | | |].
  - split; cbn; [| |apply (li_inside _ Hi)].
    + intros fd i. destruct (decide (fd = kn_next w.1)) as [->|Hne]; [lia|].
      rewrite lookup_insert_ne by done. intros Hx%Hf. lia.
    + intros i fd Hx%Hl. lia.
  - cbn. rewrite lookup_insert_eq. split_and!; [done| |].
    + intros i Hx%Hl. lia.
    + intros id Hin. change (In (kn_next w.1) (inside id w)) in Hin.
      apply inside_below in Hin; [lia|done].
  - cbn. intros fd [= <-]. by right.
  - intros fd Hlt _. split; cbn; [by rewrite lookup_insert_ne by lia|done..].
Qed.

Lemma step_inode path w :
  lock_inv w -> kn_names w.1 !! path = None ->
  lock_step Idle w Idle (with_kernel (new_inode path w.1).2 w).
Proof.
  intros Hi Hp. apply lock_step_intro; [done| |done|done|].
  - split; cbn.
    + intros fd ino Hx%(li_files _ Hi). lia.
    + intros ino fd Hx%(li_locks _ Hi). lia.
    + intros id. destruct (li_inside _ Hi id) as [Hn|(fd & ino & Hn & Hx & Hlk)]; [by left|right].
      exists fd, ino. split_and!; [done| |done]. rewrite lookup_insert_ne; [done|congruence].
  - intros fd Hlt _. split; cbn; [done..|]. intros p i _ Hn. rewrite lookup_insert_ne; [done|congruence].
Qed.

Lemma step_lock fd ino w :
  lock_inv w -> res_own (Opened fd ino) w -> kn_locks w.1 !! ino = None ->
  lock_step (Opened fd ino) w (Locked fd ino)
    (with_kernel (set_locks (<[ino := fd]> (kn_locks w.1)) w.1) w).
Proof.
  intros Hi (Hf & Hl & Ho) Hnone. apply lock_step_intro; [done| | |by left|].
  - split; cbn; [apply (li_files _ Hi)| |].
    + intros i d. destruct (decide (i = ino)) as [->|Hne].
      * rewrite lookup_insert_eq. intros [= <-]. by eapply li_files.
      * rewrite lookup_insert_ne by done. apply (li_locks _ Hi).
    + intros id. destruct (li_inside _ Hi id) as [Hn|(d & i & Hn & Hx & Hlk)]; [by left|right].
      exists d, i. split_and!; [done|done|]. rewrite lookup_insert_ne; [done|congruence].
  - split; [|done]. split_and!; cbn; [done|apply lookup_insert_eq|].
    intros i. destruct (decide (i = ino)) as [->|Hne]; [done|].
    rewrite lookup_insert_ne by done. intros Hx. by apply Hl in Hx.
  - cbn. intros d Hlt Hne. split; cbn; [done| |done|done]. intros i.
    destruct (decide (i = ino)) as [->|Hni]; [|by rewrite lookup_insert_ne].
    rewrite lookup_insert_eq, Hnone. split; [|done]. intros [= ->]. done.
Qed.

Lemma step_unlock fd ino w :
  lock_inv w -> res_own (Locked fd ino) w ->
  lock_step (Locked fd ino) w (Opened fd ino) (with_kernel (drop_lock fd w.1) w).
Proof.
  intros Hi ((Hf & Hl & Hu) & Ho). unfold drop_lock. rewrite Hf, decide_True by done.
  apply lock_step_intro; [done| | |by left|].
  - split; cbn; [apply (li_files _ Hi)| |].
    + intros i d [_ Hx]%lookup_delete_Some. by eapply li_locks.
    + intros id. destruct (li_inside _ Hi id) as [Hn|(d & i & Hn & Hx & Hlk)]; [by left|right].
      exists d, i. split_and!; [done|done|]. apply lookup_delete_Some. split; [|done].
      intros <-. assert (d = fd) as -> by congruence. apply (Ho id). rewrite Hn. by left.
  - cbn. split_and!; [done| |done]. intros i [Hne Hx]%lookup_delete_Some. by apply Hne, eq_sym, Hu.
  - cbn. intros d Hlt Hne. split; cbn; [done| |done|done]. intros i. rewrite lookup_delete_Some.
    split; [by intros []|]. intros Hx. split; [|done]. intros <-. congruence.
Qed.

Lemma step_close fd ino w :
  lock_inv w -> res_own (Opened fd ino) w ->
  lock_step (Opened fd ino) w Idle (with_kernel (close_descriptor fd w.1) w).
Proof.
  intros Hi (Hf & Hl & Ho). unfold close_descriptor, drop_lock. rewrite Hf, decide_False by apply Hl.
  apply lock_step_intro; [done| |done|done|].
  - split; cbn; [|apply (li_locks _ Hi)|apply (li_inside _ Hi)].
    intros d i [_ Hx]%lookup_delete_Some. by eapply li_files.
  - cbn. intros d Hlt Hne. split; cbn; [|done..]. rewrite lookup_delete_ne; [done|congruence].
Qed.

(** Only the holder of the current file's lock unlinks it. *)
Lemma step_unlink fd ino path w :
  lock_inv w -> res_own (Holding fd ino path) w ->
  lock_step (Holding fd ino path) w (Locked fd ino)
    (with_kernel (set_names (delete path (kn_names w.1)) w.1) w).
Proof.
  intros Hi ((Hf & Hl & Hu) & Ho & Hp).
  assert (forall d p i, d <> fd -> kn_locks w.1 !! i = Some d -> kn_names w.1 !! p = Some i ->
    delete path (kn_names w.1) !! p = Some i) as Hn.
  { intros d p i Hne Hx Hy. apply lookup_delete_Some. split; [|done]. intros <-. congruence. }
  apply lock_step_intro; [done| |done|by left|].
  - split; cbn; [apply (li_files _ Hi)|apply (li_locks _ Hi)|].
    intros id. destruct (li_inside _ Hi id) as [Hx|(d & i & Hx & Hy & Hlk)]; [by left|right].
    exists d, i. split_and!; [done| |done]. apply (Hn d); [|done|done].
    intros ->. apply (Ho id). change (In fd (inside id w)). rewrite Hx. by left.
  - cbn. intros d Hlt Hne. split; cbn; [done..|]. intros p i. by apply (Hn d); congruence.
Qed.

(** ** The critical section *)

Lemma inside_enter id id' fd w :
  inside id' (enter id fd w) = if decide (id' = id) then fd :: inside id w else inside id' w.
Proof.
  unfold inside, enter. cbn. case_decide as Hd; [subst id'; by rewrite lookup_insert_eq|].
  by rewrite lookup_insert_ne by congruence.
Qed.

Lemma inside_leave id id' fd w :
  inside id' (leave id fd w) =
    if decide (id' = id) then filter (fun x => x <> fd) (inside id w) else inside id' w.
Proof.
  unfold inside, leave. cbn. case_decide as Hd; [subst id'; by rewrite lookup_insert_eq|].
  by rewrite lookup_insert_ne by congruence.
Qed.

(** Nobody is inside when the holder of the current lock file enters. *)
Lemma inside_empty fd ino id w :
  lock_inv w -> res_own (Holding fd ino (lock_file id)) w -> inside id w = [].
Proof.
  intros Hi ((Hf & Hl & Hu) & Ho & Hp).
  destruct (li_inside _ Hi id) as [Hn|(d & i & Hn & Hx & Hlk)]; [done|].
  assert (d = fd) as -> by congruence. destruct (Ho id). rewrite Hn. by left.
Qed.

Lemma step_enter fd ino id w :
  lock_inv w -> res_own (Holding fd ino (lock_file id)) w ->
  lock_step (Holding fd ino (lock_file id)) w (InSection fd ino id) (enter id fd w).
Proof.
  intros Hi Hown. pose proof (inside_empty _ _ _ _ Hi Hown) as He.
  destruct Hown as ((Hf & Hl & Hu) & Ho & Hp). apply lock_step_intro; [done| | |by left|].
  - split; [apply (li_files _ Hi)|apply (li_locks _ Hi)|]. intros id'. rewrite inside_enter.
    case_decide as Hd; [|apply (li_inside _ Hi)]. subst id'. right. exists fd, ino. by rewrite He.
  - split_and!; [done|done|]. intros id'. rewrite inside_enter. case_decide; [done|].
    intros Hin. by apply Ho in Hin.
  - cbn. intros d Hlt Hne. split; [done|done| |done]. intros id'. rewrite inside_enter.
    case_decide as Hd; [|done]. subst id'. cbn. split; [|by right]. intros [->|Hin]; [done|done].
Qed.

Lemma step_leave fd ino id w :
  lock_inv w -> res_own (InSection fd ino id) w ->
  lock_step (InSection fd ino id) w (Holding fd ino (lock_file id)) (leave id fd w).
Proof.
  intros Hi ((Hf & Hl & Hu) & Hp & Hin).
  assert (forall x id', In x (inside id' (leave id fd w)) <-> In x (inside id' w) /\ (id' = id -> x <> fd))
    as Hleave.
  { intros x id'. rewrite inside_leave. case_decide as Hd; [subst id'|by intuition].
    rewrite <- !list_elem_of_In, list_elem_of_filter. by intuition. }
  apply lock_step_intro; [done| | |by left|].
  - split; [apply (li_files _ Hi)|apply (li_locks _ Hi)|]. intros id'. rewrite inside_leave.
    case_decide as Hd; [subst id'|apply (li_inside _ Hi)].
    destruct (li_inside _ Hi id) as [Hn|(d & i & Hn & Hx & Hlk)]; rewrite Hn; [by left|].
    assert (d = fd) as -> by congruence. left. rewrite filter_cons_False; [done|]. by intros [].
  - split_and!; [done..| |done]. intros id' [Hx Hne]%Hleave.
    apply Hne; [|done]. by apply Hin.
  - cbn. intros d Hlt Hne. split; [done|done| |done]. intros id'. rewrite Hleave.
    split; [by intros []|]. intros Hx. split; [done|]. congruence.
Qed.

(** ** The operations follow the logic *)

Abbreviation lock_owns := (owns lock_inv res_own disjoint_fds fst with_kernel).

(** The state of a task between two uses of its descriptor. *)
Definition has_file (fd : nat) (l : Res) : Prop :=
  exists ino, l = Opened fd ino \/ l = Locked fd ino.

Lemma with_kernel_id w : with_kernel w.1 w = w.
Proof. by destruct w. Qed.

Lemma drop_lock_idem fd k : drop_lock fd (drop_lock fd k) = drop_lock fd k.
Proof.
  unfold drop_lock at 2 3. destruct (kn_files k !! fd) as [ino|] eqn:Hf.
  - case_decide; unfold drop_lock; cbn; rewrite Hf; [|by rewrite decide_False].
    rewrite decide_False; [done|]. by rewrite lookup_delete_eq.
  - unfold drop_lock. by rewrite Hf.
Qed.

Lemma owns_close fd {A} (k : M Kernel A) l Q :
  has_file fd l -> lock_owns Idle k Q -> lock_owns l (do! close fd in k) Q.
Proof.
  intros [ino Hl] Hk. apply owns_bind, owns_act. intros w Hi Ho. exists Idle. split; [|exact Hk].
  destruct Hl as [-> | ->]; [by apply step_close|].
  pose proof (step_unlock fd ino w Hi Ho) as Hs. eapply step_trans; [exact Hs|].
  destruct Hs as (Hi1 & Ho1 & _). pose proof (step_close fd ino _ Hi1 Ho1) as Hc.
  cbn in Hc. unfold close_descriptor in Hc |- *. by rewrite drop_lock_idem in Hc.
Qed.

Lemma owns_open create path :
  lock_owns Idle (kn_open create path) (fun r l =>
    match r with
    | Ok fd => exists ino, l = Opened fd ino
    | Err _ => l = Idle
    | Panic => False
    end).
Proof.
  apply owns_kcall; [done|]. intros w Hi Ho.
  destruct (kn_names w.1 !! path) as [ino|] eqn:Hp; cbn [new_descriptor fst snd].
  - exists (Opened (kn_next w.1) ino). split; [by apply (step_descriptor ino w)|eauto].
  - destruct create; cbn [fst snd]; [|exists Idle; rewrite with_kernel_id; split; [by apply step_assert|done]].
    pose proof (step_inode path w Hi Hp) as Hs. destruct Hs as (Hi1 & Ho1 & Hs1).
    cbn [new_inode fst snd] in *.
    eexists (Opened _ (kn_next w.1)). split; [|cbn; eauto].
    eapply step_trans; [by split_and!|]. exact (step_descriptor (kn_next w.1) _ Hi1).
Qed.

Lemma owns_try_lock fd ino :
  lock_owns (Opened fd ino) (kn_try_lock fd) (fun r l =>
    match r with
    | Ok _ => l = Locked fd ino
    | Err _ => l = Opened fd ino
    | Panic => False
    end).
Proof.
  apply owns_kcall; [done|]. intros w Hi Ho. pose proof Ho as (Hf & Hl & _). rewrite Hf.
  destruct (kn_locks w.1 !! ino) as [owner|] eqn:Hk.
  - destruct (Nat.eqb_spec owner fd) as [->|]; [by apply Hl in Hk|].
    exists (Opened fd ino). cbn [fst snd]. rewrite with_kernel_id. split; [by apply step_assert|done].
  - exists (Locked fd ino). split; [by apply step_lock|done].
Qed.

Lemma owns_unlock fd ino :
  lock_owns (Locked fd ino) (kn_unlock fd) (fun r l =>
    r <> Panic /\ (l = Opened fd ino \/ l = Locked fd ino)).
Proof.
  apply owns_kcall; [by split; [|right]|]. intros w Hi Ho. exists (Opened fd ino).
  split; [by apply step_unlock|]. by split; [|left].
Qed.

Lemma owns_kio {A} (m : kernel A) (Q : outcome Error.t A -> Res -> Prop) l :
  lock_owns l m (fun r l' =>
    match r with
    | Ok a => Q (Ok a) l'
    | Err e => Q (Err (io_error e)) l'
    | Panic => Q Panic l'
    end) -> lock_owns l (kio m) Q.
Proof. apply owns_map_err. Qed.

Lemma owns_try_kio {A} (m : kernel A) (Q : outcome Error.t (IoError + A) -> Res -> Prop) l :
  lock_owns l m (fun r l' =>
    match r with
    | Ok a => Q (Ok (inr a)) l'
    | Err e => Q (Ok (inl e)) l'
    | Panic => Q Panic l'
    end) -> lock_owns l (try_kio m) Q.
Proof.
  intros Hm. apply owns_map_err, owns_attempt. eapply owns_mono; [exact Hm|]. by intros [] l'.
Qed.

(** [unlock(&file)] and the drop of the file. *)
Lemma owns_unlock_close fd ino {A} (k : M Kernel A) Q :
  lock_owns Idle k Q -> lock_owns (Locked fd ino) (do! try_kio (kn_unlock fd) in do! close fd in k) Q.
Proof.
  intros Hk. apply owns_bind, owns_try_kio. eapply owns_mono; [apply owns_unlock|]. cbv beta.
  intros [u|e|] l [Hr Hl]; [| |done]; (apply owns_close; [|done]);
    exists ino; by destruct Hl; [left|right].
Qed.

Lemma owns_fstat fd ino :
  lock_owns (Locked fd ino) (kn_fstat fd) (fun r l =>
    l = Locked fd ino /\ match r with Ok n => n = ino | Err _ => True | Panic => False end).
Proof.
  apply owns_kcall; [done|]. intros w Hi Ho. exists (Locked fd ino). cbn [fst snd].
  rewrite with_kernel_id. destruct Ho as [Hl Hout]. pose proof Hl as (Hf & _). rewrite Hf.
  split; [|done]. by apply step_assert.
Qed.

(** Finding the locked file at its path makes the task the holder of the id. *)
Lemma owns_stat fd ino path :
  lock_owns (Locked fd ino) (kn_stat path) (fun r l =>
    match r with
    | Ok n => l = if Nat.eqb n ino then Holding fd ino path else Locked fd ino
    | Err _ => l = Locked fd ino
    | Panic => False
    end).
Proof.
  apply owns_kcall; [done|]. intros w Hi Ho. cbn [fst snd]. rewrite with_kernel_id.
  destruct (kn_names w.1 !! path) as [n|] eqn:Hn.
  - exists (if Nat.eqb n ino then Holding fd ino path else Locked fd ino). split; [|done].
    destruct (Nat.eqb_spec n ino) as [->|]; [|by apply step_assert].
    apply step_assert; [done| |done]. destruct Ho as [Hl Hout]. by split_and!.
  - exists (Locked fd ino). split; [by apply step_assert|done].
Qed.

Lemma owns_is_current path fd ino :
  lock_owns (Locked fd ino) (is_current_lock_file path fd) (fun r l =>
    match r with
    | Ok true => l = Holding fd ino path
    | Ok false => l = Locked fd ino
    | Err _ => l = Locked fd ino
    | Panic => False
    end).
Proof.
  unfold is_current_lock_file. apply owns_bind, owns_kio. eapply owns_mono; [apply owns_fstat|].
  cbv beta. intros [held|e|] l [-> Hr]; [|done|done]. subst held.
  apply owns_bind, owns_try_kio. eapply owns_mono; [apply owns_stat|]. cbv beta.
  intros [n|e|] l Hl; [| |done]; subst l.
  - apply owns_done. by destruct (Nat.eqb n ino).
  - by case_decide; apply owns_done.
Qed.

Lemma owns_turn path :
  lock_owns Idle (try_acquire_turn path) (fun r l =>
    match r with
    | Ok (Some (Some fd)) => exists ino, l = Holding fd ino path
    | Ok _ | Err _ => l = Idle
    | Panic => False
    end).
Proof.
  unfold try_acquire_turn, open_lock_file. apply owns_bind, owns_kio.
  eapply owns_mono; [apply owns_open|]. cbv beta. intros [fd|e|] l Hr; [|done|done].
  destruct Hr as [ino ->]. apply owns_bind, owns_try_kio.
  eapply owns_mono; [apply owns_try_lock|]. cbv beta. intros [u|e|] l Hl; [subst l..|done].
  - apply owns_bind, owns_attempt. eapply owns_mono; [apply owns_is_current|]. cbv beta.
    intros [[]|e|] l Hl; [| | |done]; subst l.
    + apply owns_done. eauto.
    + by apply owns_unlock_close.
    + apply owns_close; [exists ino; by right|done].
  - apply owns_close; [exists ino; by left|]. by case_decide.
Qed.

Lemma owns_turns {A} (turn : M Kernel (option A)) n (Q : outcome Error.t (option A) -> Res -> Prop) :
  Q (Ok None) Idle ->
  lock_owns Idle turn (fun r l =>
    match r with
    | Ok (Some a) => Q (Ok (Some a)) l
    | Ok None => l = Idle
    | Err e => Q (Err e) l
    | Panic => Q Panic l
    end) ->
  lock_owns Idle (turns n turn) Q.
Proof.
  intros HQ Ht. induction n as [|n IH]; cbn [turns]; [done|]. apply owns_bind.
  eapply owns_mono; [apply Ht|]. cbv beta. intros [[a|]|e|] l Hl; [done| |done|done].
  subst l. apply IH.
Qed.

Lemma owns_try_acquire path :
  lock_owns Idle (try_acquire fuel path) (fun r l =>
    match r with
    | Ok (Some (Some fd)) => exists ino, l = Holding fd ino path
    | Ok _ | Err _ => l = Idle
    | Panic => False
    end).
Proof.
  apply owns_turns; [done|]. eapply owns_mono; [apply owns_turn|]. by intros [[[]|]|e|] l.
Qed.

(** What [lock] and [try_lock] give: a guard of the id whose descriptor holds it. *)
Definition grants (id : string) (o : option LockGuard) (l : Res) : Prop :=
  match o with
  | Some g => exists fd ino, g = LockGuard_with_release id fd /\ l = Holding fd ino (lock_file id)
  | None => l = Idle
  end.

Lemma lock_path_ok id path : lock_path id = Ok path -> path = lock_file id.
Proof. unfold lock_path. destruct (lock_validate_upload_id id); [|done|done]. by intros [= <-]. Qed.



Lemma lock_path_no_panic id : lock_path id <> Panic.
Proof.
  unfold lock_path, lock_validate_upload_id, UploadId_from_str.
  destruct (is_empty id); [done|]. destruct (_ <? _)%N; [done|]. cbn.
  assert (check_id_chars (chars id) <> Panic).
  { induction (chars id) as [|c l IH]; cbn; [done|]. by repeat case_match. }
  destruct (check_id_chars (chars id)); [|done|done]. cbn. by destruct (_ <? _)%N.
Qed.

Lemma owns_clock {A} (f : Kernel -> A * Kernel) (Q : outcome Error.t A -> Res -> Prop) l :
  (forall k, same_kernel k (f k).2) -> (forall a, Q (Ok a) l) ->
  lock_owns l (act f) Q.
Proof.
  intros Hs HQ. apply owns_act. intros w Hi Ho. exists l. split; [by apply step_same|done].
Qed.

Lemma owns_lock id timeout :
  lock_owns Idle (file_lock fuel retry_interval id timeout) (fun r l =>
    match r with
    | Ok o => grants id o l
    | Err _ => l = Idle
    | Panic => False
    end).
Proof.
  unfold file_lock. apply owns_bind. pose proof (lock_path_no_panic id).
  destruct (lock_path id) as [path|e|] eqn:Hp; [|done|done]. apply lock_path_ok in Hp as ->.
  apply owns_done, owns_bind, owns_clock; [done|]. intros now. apply owns_turns; [done|].
  unfold lock_turn. apply owns_bind. eapply owns_mono; [apply owns_try_acquire|]. cbv beta.
  intros [[[fd|]|]|e|] l Hl; [destruct Hl as [ino ->]|subst l..|done].
  - apply owns_done. by exists fd, ino.
  - apply owns_bind, owns_clock; [done|]. intros now1. destruct (_ <=? _)%N; [done|].
    apply owns_bind, owns_clock; [done|]. intros now2.
    apply owns_bind, owns_clock; [done|]. done.
  - done.
  - done.
Qed.

Lemma owns_file_try_lock id :
  lock_owns Idle (file_try_lock fuel id) (fun r l =>
    match r with
    | Ok (Some o) => grants id o l
    | Ok None | Err _ => l = Idle
    | Panic => False
    end).
Proof.
  unfold file_try_lock. apply owns_bind. pose proof (lock_path_no_panic id).
  destruct (lock_path id) as [path|e|] eqn:Hp; [|done|done]. apply lock_path_ok in Hp as ->.
  apply owns_done, owns_bind. eapply owns_mono; [apply owns_try_acquire|]. cbv beta.
  intros [[[fd|]|]|e|] l Hl; [destruct Hl as [ino ->]|done..].
  apply owns_done. by exists fd, ino.
Qed.

Lemma owns_is_locked id :
  lock_owns Idle (file_is_locked id) (fun r l => r <> Panic /\ l = Idle).
Proof.
  unfold file_is_locked. apply owns_bind. pose proof (lock_path_no_panic id).
  destruct (lock_path id) as [path|e|] eqn:Hp; [|done|done].
  apply owns_done, owns_bind, owns_try_kio. eapply owns_mono; [apply owns_open|]. cbv beta.
  intros [fd|e|] l Hr; [|subst l; by case_decide|done]. destruct Hr as [ino ->].
  apply owns_bind, owns_try_kio. eapply owns_mono; [apply owns_try_lock|]. cbv beta.
  intros [u|e|] l Hl; [subst l; by apply owns_unlock_close|subst l|done].
  apply owns_close; [exists ino; by left|]. by case_decide.
Qed.

Lemma owns_remove fd ino path :
  lock_owns (Holding fd ino path) (kn_remove_file path) (fun r l => r <> Panic /\ l = Locked fd ino).
Proof.
  assert (forall w, lock_inv w -> res_own (Holding fd ino path) w ->
    lock_step (Holding fd ino path) w (Locked fd ino) w) as Hweak.
  { intros w Hi (Hl & Ho & _). by apply step_assert. }
  apply owns_try_act. intros [k m] Hi Ho. cbn [fst]. exists (Locked fd ino).
  assert (same_kernel k (kernel_call k)) as Hs by done.
  pose proof (step_same _ (k, m) _ Hs Hi Ho) as Hcall. destruct (Hcall) as (Hi1 & Ho1 & _).
  destruct (fault_at SysOther (kn_calls k)).
  - split; [|done]. eapply step_trans; [exact Hcall|by apply Hweak].
  - destruct Ho1 as (Hl & Hout & Hn). cbn in Hn |- *. rewrite Hn. cbn.
    split; [|done]. eapply step_trans; [exact Hcall|].
    exact (step_unlink fd ino path (kernel_call k, m) Hi1 (conj Hl (conj Hout Hn))).
Qed.

Lemma owns_release fd ino id :
  lock_owns (Holding fd ino (lock_file id)) (file_release (LockGuard_with_release id fd))
    (fun r l => r = Ok tt /\ l = Idle).
Proof.
  unfold file_release, release_lock_file. cbn [guard_release guard_upload_id LockGuard_with_release].
  apply owns_bind, owns_try_kio. eapply owns_mono; [apply owns_remove|]. cbv beta.
  intros r l [Hr ->]. destruct r; [| |done]; by apply owns_unlock_close.
Qed.

Abbreviation client_owns := (owns lock_inv res_own disjoint_fds (fun w => w) whole).

Lemma owns_focus_kernel {A} (m : M Kernel A) (Q : outcome Error.t A -> Res -> Prop) l :
  lock_owns l m Q -> client_owns l (on_kernel m) Q.
Proof. apply owns_focus. Qed.

(** The critical section, from a granted guard to its drop. *)
Lemma owns_use_guard id o l :
  grants id o l -> client_owns l (use_guard o) (fun r l => r = Ok tt /\ l = Idle).
Proof.
  destruct o as [g|]; cbn [grants use_guard]; [|intros ->; by apply owns_done].
  intros (fd & ino & -> & ->). cbn [LockGuard_with_release].
  apply owns_bind, owns_act. intros w Hi Ho. exists (InSection fd ino id).
  split; [by apply step_enter|]. apply owns_bind, owns_act. clear w Hi Ho. intros w Hi Ho.
  exists (Holding fd ino (lock_file id)). split; [by apply step_leave|].
  apply owns_focus_kernel, owns_release.
Qed.

Lemma owns_job j :
  client_owns Idle (job j) (fun r l => r = Ok tt /\ l = Idle).
Proof.
  destruct j as [id timeout|id|id]; cbn [job]; apply owns_bind, owns_attempt.
  - eapply owns_mono; [apply owns_focus_kernel, owns_lock|]. cbv beta.
    intros [o|e|] l Hl; [|subst l|done]; by apply (owns_use_guard id).
  - eapply owns_mono; [apply owns_focus_kernel, owns_file_try_lock|]. cbv beta.
    intros [[o|]|e|] l Hl; [|subst l..|done]; by apply (owns_use_guard id).
  - eapply owns_mono; [apply owns_focus_kernel, owns_is_locked|]. cbv beta.
    intros [b|e|] l [Hr ->]; by try apply owns_done.
Qed.

Lemma owns_jobs js :
  client_owns Idle (jobs js) (fun r l => r = Ok tt /\ l = Idle).
Proof.
  induction js as [|j js IH]; cbn [jobs]; [by apply owns_done|]. apply owns_bind.
  eapply owns_mono; [apply owns_job|]. cbv beta. intros r l [-> ->]. apply IH.
Qed.

(** ** Mutual exclusion *)

Fixpoint pool_of (tasks : list (list Job)) : list (M LockWorld unit) :=
  match tasks with
  | [] => []
  | js :: tasks => jobs js :: pool_of tasks
  end.

Definition locker_start (tasks : list (list Job)) : list (M LockWorld unit) * LockWorld :=
  (pool_of tasks, (empty_kernel, ∅)).

Lemma pool_of_task tasks i m :
  task (pool_of tasks) i = Some m -> i < length tasks /\ exists js, m = jobs js.
Proof.
  revert i. induction tasks as [|js tasks IH]; intros [|i]; cbn; try done.
  - intros [= <-]. split; [lia|]. by exists js.
  - intros [Hl Hm]%IH. split; [lia|done].
Qed.

Lemma start_owned tasks :
  pool_owned lock_inv res_own disjoint_fds (locker_start tasks).1 (locker_start tasks).2
    (replicate (length tasks) Idle).
Proof.
  split.
  - split; cbn; [done|done|]. intros id. by left.
  - cbn. intros i m [Hlt [js ->]]%pool_of_task. exists Idle. split; [by apply lookup_replicate|].
    eapply owns_mono; [apply owns_jobs|done].
  - intros i l Hl. by apply lookup_replicate in Hl as [-> _].
  - intros i j a b Ha _ _. by apply lookup_replicate in Ha as [-> _].
Qed.

(** C8: for any number of tasks that use [FileLocker] on any ids - blocking, not
    blocking or probing, any number of times - under every interleaving of their
    system calls and with any of these failing, at most one task is inside the
    critical section of an id. *)
Theorem file_locker_mutual_exclusion tasks c id :
  rtc pool_step (locker_start tasks) c -> length (inside id c.2) <= 1.
Proof.
  intros Hsteps. destruct (pool_owned_steps lock_inv res_own disjoint_fds disjoint_fds_sym _ _ Hsteps)
    as [ls Hls]; [eexists; apply start_owned|].
  destruct (li_inside _ (po_inv _ _ _ _ _ _ Hls) id) as [->|(fd & ino & -> & _)]; cbn; lia.
Qed.
End clients.

(** ** Waiting

    [FileLocker::lock] run alone, from any state of the kernel: it returns. *)

Section alone.
Context `{FaultPlan, Passing}.
Local Open Scope N_scope.












Section waiting.
Context (late : N).
Hypothesis punctual : forall n, passing n <= late.



End waiting.
End alone.
