(* ===== verification/HttpHooks.v ===== *)
(** * HTTP webhooks ([tus-hook-http])

    [HttpHookExecutor]: a [HookExecutor] that posts every hook event to an endpoint.
    The world has the clock, the log of what was sent when, and the number of ids and
    random numbers drawn.  The endpoint and the HTTP client between are a parameter
    ([Reqwest]). *)

From S2P Require Import Prelude Text Errors Crates State Hooks.
Local Open Scope string_scope.
Local Open Scope N_scope.
Local Open Scope prog_scope.

Record WebhookRequest := {
  wr_headers : list (string * string);
  wr_timeout : Duration;
  wr_body : bytes;
}.

(** A response: its body arrives in chunks and may break off. *)
Record WebhookResponse `{HttpLib} := {
  rs_status : N;
  rs_headers : HeaderMap;
  rs_chunks : list (string + bytes);
}.

(** ** Interfaces of [reqwest], [url], [serde_json], [hmac], [tokio] and [fastrand] *)

Record Url := {
  url_scheme : string;
  url_host : option string;
  url_port : option N;
  url_path : string;
}.

(** What a webhook answers to a pre-hook, after [serde_json]. *)
Record PreHookResponse := {
  pr_proceed : bool;
  pr_metadata : option UploadMetadata;
  pr_reject_status : option N;
  pr_reject_message : option string;
  pr_response_headers : option (gmap string string);
}.

Class Reqwest `{HttpLib} := {
  (** the outcome of the n-th request, and how long it takes *)
  client_send : nat -> Url -> WebhookRequest -> string + WebhookResponse;
  send_takes : nat -> Duration;
  url_parse : string -> string + Url;
  (** [StatusCode]'s [Display], [String::from_utf8_lossy] *)
  status_display : N -> string;
  from_utf8_lossy : bytes -> string;
  context_to_vec : HookContext -> string + bytes;
  response_from_slice : bytes -> string + PreHookResponse;
  hmac_sha256 : string -> bytes -> bytes;
  (** [Uuid::new_v4().to_string()], the n-th *)
  uuid_string : nat -> string;
  (** [SystemTime] as seconds since 1970, [None] before *)
  unix_seconds : N -> option N;
  (** the largest [Instant] *)
  instant_max : N;
  (** [d.mul_f64(fastrand::f64() * 0.5)], for the n-th random number *)
  jitter : nat -> Duration -> Duration;
  (** how late [tokio::time::sleep] ends, after [n] requests: it has the granularity of
      a millisecond, and the task is resumed some time after *)
  sleep_late : nat -> Duration;
}.

(** A random fraction below one half, rounded to a nanosecond. *)
Class ReqwestLaws `{Reqwest} := {
  jitter_half n d : 2 * jitter n d <= d + 1;
}.

Record Web := {
  wb_now : N;
  wb_sent : list (N * WebhookRequest);
  wb_ids : nat;
  wb_draws : nat;
}.

(** ** Configuration *)

Definition milliseconds (n : N) : Duration := n * 1000000.
Definition from_secs (n : N) : Duration := n * 1000000000.

Definition DEFAULT_TIMEOUT : Duration := from_secs 30.
Definition DEFAULT_RETRY_DEADLINE : Duration := from_secs 30.
Definition MAX_RETRY_DELAY_MILLIS : N := 10000.
Definition MAX_ERROR_BODY_BYTES : N := 8 * 1024.
Definition MAX_PRE_HOOK_BODY_BYTES : N := 64 * 1024.
Definition TRUNCATION_MARKER : string := " [truncated]".
Definition DELIVERY_HEADER : string := "X-Tus-Hook-Delivery".
Definition SIGNATURE_HEADER : string := "X-Tus-Signature-256".

Record HttpHookConfig := mkHttpHookConfig {
  hh_url : string;
  hh_timeout : Duration;
  hh_headers : gmap string string;
  hh_retry_enabled : bool;
  (** a [u32] *)
  hh_max_retries : N;
  hh_retry_deadline : Duration;
  hh_retry_post_hooks : bool;
  hh_signing_secret : option string;
  hh_fail_open : bool;
}.

Definition HttpHookConfig_new (url : string) : HttpHookConfig :=
  mkHttpHookConfig url DEFAULT_TIMEOUT ∅ false 3 DEFAULT_RETRY_DEADLINE false None false.

Definition hh_with_timeout (t : Duration) (c : HttpHookConfig) : HttpHookConfig :=
  mkHttpHookConfig (hh_url c) t (hh_headers c) (hh_retry_enabled c) (hh_max_retries c)
    (hh_retry_deadline c) (hh_retry_post_hooks c) (hh_signing_secret c) (hh_fail_open c).
Definition hh_with_header (name value : string) (c : HttpHookConfig) : HttpHookConfig :=
  mkHttpHookConfig (hh_url c) (hh_timeout c) (<[name := value]> (hh_headers c)) (hh_retry_enabled c)
    (hh_max_retries c) (hh_retry_deadline c) (hh_retry_post_hooks c) (hh_signing_secret c)
    (hh_fail_open c).
Definition hh_with_retry (b : bool) (c : HttpHookConfig) : HttpHookConfig :=
  mkHttpHookConfig (hh_url c) (hh_timeout c) (hh_headers c) b (hh_max_retries c)
    (hh_retry_deadline c) (hh_retry_post_hooks c) (hh_signing_secret c) (hh_fail_open c).
Definition hh_with_max_retries (n : N) (c : HttpHookConfig) : HttpHookConfig :=
  mkHttpHookConfig (hh_url c) (hh_timeout c) (hh_headers c) (hh_retry_enabled c) n
    (hh_retry_deadline c) (hh_retry_post_hooks c) (hh_signing_secret c) (hh_fail_open c).
Definition hh_with_retry_deadline (d : Duration) (c : HttpHookConfig) : HttpHookConfig :=
  mkHttpHookConfig (hh_url c) (hh_timeout c) (hh_headers c) (hh_retry_enabled c)
    (hh_max_retries c) d (hh_retry_post_hooks c) (hh_signing_secret c) (hh_fail_open c).
Definition hh_with_post_hook_retry (b : bool) (c : HttpHookConfig) : HttpHookConfig :=
  mkHttpHookConfig (hh_url c) (hh_timeout c) (hh_headers c) (hh_retry_enabled c)
    (hh_max_retries c) (hh_retry_deadline c) b (hh_signing_secret c) (hh_fail_open c).
Definition hh_with_signing_secret (s : string) (c : HttpHookConfig) : HttpHookConfig :=
  mkHttpHookConfig (hh_url c) (hh_timeout c) (hh_headers c) (hh_retry_enabled c)
    (hh_max_retries c) (hh_retry_deadline c) (hh_retry_post_hooks c) (Some s) (hh_fail_open c).
Definition hh_with_fail_open (b : bool) (c : HttpHookConfig) : HttpHookConfig :=
  mkHttpHookConfig (hh_url c) (hh_timeout c) (hh_headers c) (hh_retry_enabled c)
    (hh_max_retries c) (hh_retry_deadline c) (hh_retry_post_hooks c) (hh_signing_secret c) b.

(** ** [PreHookResponse] *)

Definition default_proceed : bool := true.

Definition PreHookResponse_default : PreHookResponse :=
  Build_PreHookResponse default_proceed None None None None.

Definition pr_with_proceed (b : bool) (r : PreHookResponse) : PreHookResponse :=
  Build_PreHookResponse b (pr_metadata r) (pr_reject_status r) (pr_reject_message r)
    (pr_response_headers r).
Definition pr_with_metadata (m : UploadMetadata) (r : PreHookResponse) : PreHookResponse :=
  Build_PreHookResponse (pr_proceed r) (Some m) (pr_reject_status r) (pr_reject_message r)
    (pr_response_headers r).
Definition pr_with_reject_status (s : N) (r : PreHookResponse) : PreHookResponse :=
  Build_PreHookResponse (pr_proceed r) (pr_metadata r) (Some s) (pr_reject_message r)
    (pr_response_headers r).
Definition pr_with_reject_message (s : string) (r : PreHookResponse) : PreHookResponse :=
  Build_PreHookResponse (pr_proceed r) (pr_metadata r) (pr_reject_status r) (Some s)
    (pr_response_headers r).
Definition pr_with_response_header (name value : string) (r : PreHookResponse) : PreHookResponse :=
  Build_PreHookResponse (pr_proceed r) (pr_metadata r) (pr_reject_status r) (pr_reject_message r)
    (Some (<[name := value]> (default ∅ (pr_response_headers r)))).

(** [impl From<PreHookResponse> for PreHookResult]; inserting every header of a map
    into no headers gives that map. *)
Definition PreHookResult_from (response : PreHookResponse) : PreHookResult :=
  let result :=
    if pr_proceed response then PreHookResult_proceed
    else PreHookResult_reject (default 403 (pr_reject_status response))
           (default "" (pr_reject_message response)) in
  let result :=
    match pr_metadata response with
    | Some metadata => PreHookResult_with_metadata metadata result
    | None => result
    end in
  map_fold (fun name value r => PreHookResult_with_header name value r) result
    (default ∅ (pr_response_headers response)).

(** ** [HttpHookExecutor] *)

Inductive BuildError := InvalidUrl (source : string) | ClientError (source : string).

Definition BuildError_to_string (e : BuildError) : string :=
  match e with
  | InvalidUrl _ => "invalid webhook URL"
  | ClientError _ => "failed to build HTTP client"
  end.

Record HttpHookExecutor := { hx_url : Url; hx_config : HttpHookConfig }.

Section executor.
Context `{Reqwest, HashOrder}.

Definition with_client (config : HttpHookConfig) : outcome BuildError HttpHookExecutor :=
  match url_parse (hh_url config) with
  | inl e => Err (InvalidUrl e)
  | inr url =>
      if negb (String.eqb (url_scheme url) "http") && negb (String.eqb (url_scheme url) "https")
      then Err (InvalidUrl ("unsupported webhook URL scheme `" ++ url_scheme url
                              ++ "`; expected `http` or `https`"))
      else Ok {| hx_url := url; hx_config := config |}
  end.

Definition redacted_url (url : Url) : string :=
  url_scheme url ++ "://" ++ default "" (url_host url)
    ++ match url_port url with Some port => ":" ++ u64_to_string port | None => "" end
    ++ url_path url.

Definition payload (ctx : HookContext) : result bytes :=
  match context_to_vec ctx with
  | inr v => Ok v
  | inl e => Err (Error.Hook e)
  end.

(** [write!(&mut hex, "{byte:02x}")] *)
Definition hex_digit_lower (n : N) : ascii := ascii_of_N (if n <? 10 then 48 + n else 87 + n).
Definition hex_byte (b : Byte.byte) : string :=
  String (hex_digit_lower (Byte.to_N b / 16)) (String (hex_digit_lower (Byte.to_N b mod 16)) "").
Fixpoint to_hex (bs : bytes) : string :=
  match bs with
  | [] => ""
  | b :: bs => hex_byte b ++ to_hex bs
  end.

Definition signature_header_value (secret : string) (timestamp : N) (body : bytes) : string :=
  let digest := hmac_sha256 secret
    (list_byte_of_string (u64_to_string timestamp) ++ list_byte_of_string "." ++ body)%list in
  "t=" ++ u64_to_string timestamp ++ ",v1=" ++ to_hex digest.

Definition current_timestamp : M Web N :=
  act (fun w => (default 0 (unix_seconds (wb_now w)), w)).

(** The request of a delivery: the same for all of its attempts. *)
Definition webhook_request (config : HttpHookConfig) (event delivery_id : string) (timestamp : N)
    (body : bytes) : WebhookRequest := {|
  wr_headers :=
    ([("Content-Type", "application/json"); ("X-Tus-Hook-Event", event); (DELIVERY_HEADER, delivery_id)]
     ++ match hh_signing_secret config with
        | Some secret => [(SIGNATURE_HEADER, signature_header_value secret timestamp body)]
        | None => []
        end
     ++ hash_iter (hh_headers config))%list;
  wr_timeout := hh_timeout config;
  wr_body := body |}.

Definition client_post (url : Url) (request : WebhookRequest) : M Web (string + WebhookResponse) :=
  act (fun w =>
    let n := length (wb_sent w) in
    (client_send n url request,
     {| wb_now := wb_now w + send_takes n; wb_sent := (wb_sent w ++ [(wb_now w, request)])%list;
        wb_ids := wb_ids w; wb_draws := wb_draws w |})).

Definition send_webhook (x : HttpHookExecutor) (event delivery_id : string) (timestamp : N)
    (body : bytes) : M Web (string + WebhookResponse) :=
  client_post (hx_url x) (webhook_request (hx_config x) event delivery_id timestamp body).

Definition is_retryable_status (status : N) : bool :=
  (status =? 429) || in_range 500 599 status.

Definition is_success (status : N) : bool := in_range 200 299 status.

Definition webhook_retry_after (response : WebhookResponse) : option Duration :=
  let status := rs_status response in
  if negb (status =? 429) && negb (status =? 503) then None
  else
    match header_get (rs_headers response) "retry-after" with
    | None => None
    | Some value =>
        match header_to_str value with
        | inl _ => None
        | inr text => from_secs <$> parse_u64 (trim text)
        end
    end.

(** [100u64 << attempt.min(8)] does not overflow. *)
Definition retry_backoff (attempt : N) : Duration :=
  milliseconds (N.min (N.shiftl 100 (N.min attempt 8)) MAX_RETRY_DELAY_MILLIS).

Definition draw : M Web nat :=
  act (fun w => (wb_draws w, {| wb_now := wb_now w; wb_sent := wb_sent w; wb_ids := wb_ids w;
                                wb_draws := S (wb_draws w) |})).

Definition retry_delay (config : HttpHookConfig) (attempt : N) (after : option Duration)
    : M Web Duration :=
  match after with
  | Some after => ret (N.min after (hh_retry_deadline config))
  | None =>
      let! n := draw in
      ret (retry_backoff attempt + jitter n (retry_backoff attempt))
  end.

Definition web_now : M Web N := act (fun w => (wb_now w, w)).
Definition web_sleep (d : Duration) : M Web unit :=
  act (fun w => (tt, {| wb_now := wb_now w + d + sleep_late (length (wb_sent w)); wb_sent := wb_sent w; wb_ids := wb_ids w;
                        wb_draws := wb_draws w |})).

Definition instant_checked_add (t : N) (d : Duration) : option N :=
  if t + d <=? instant_max then Some (t + d) else None.

Definition exceeds_deadline (delay : Duration) (deadline : option N) : M Web bool :=
  match deadline with
  | None => ret false
  | Some deadline =>
      let! now := web_now in
      ret (match instant_checked_add now delay with
           | None => true
           | Some next_attempt => deadline <? next_attempt
           end)
  end.

Definition u32_saturating_succ (n : N) : N := N.min (n + 1) 4294967295.

(** The loop of [send_webhook_with_retry]. *)
Fixpoint send_loop (fuel : nat) (x : HttpHookExecutor) (event delivery_id : string) (timestamp : N)
    (body : bytes) (max_attempts : N) (deadline : option N) (attempt : N)
    : M Web (option WebhookResponse) :=
  match fuel with
  | O => ret None
  | S fuel =>
      let is_last_attempt := max_attempts <=? u32_saturating_succ attempt in
      let again delay :=
        do! web_sleep delay in
        send_loop fuel x event delivery_id timestamp body max_attempts deadline
          (u32_saturating_succ attempt) in
      let! sent := send_webhook x event delivery_id timestamp body in
      match sent with
      | inr response =>
          if is_last_attempt || negb (is_retryable_status (rs_status response))
          then ret (Some response)
          else
            let! delay := retry_delay (hx_config x) attempt (webhook_retry_after response) in
            let! late := exceeds_deadline delay deadline in
            if (late : bool) then ret (Some response) else again delay
      | inl error =>
          if is_last_attempt then throw (Error.Hook error)
          else
            let! delay := retry_delay (hx_config x) attempt None in
            let! late := exceeds_deadline delay deadline in
            if (late : bool) then throw (Error.Hook error) else again delay
      end
  end.

Definition max_attempts (config : HttpHookConfig) (retry_enabled : bool) : N :=
  if retry_enabled then u32_saturating_succ (hh_max_retries config) else 1.

Definition next_delivery_id : M Web string :=
  act (fun w => (uuid_string (wb_ids w),
    {| wb_now := wb_now w; wb_sent := wb_sent w; wb_ids := S (wb_ids w); wb_draws := wb_draws w |})).

(** [None] is never reached: the loop ends within [max_attempts]. *)
Definition send_webhook_with_retry (x : HttpHookExecutor) (ctx : HookContext) (retry_enabled : bool)
    : M Web WebhookResponse :=
  let! body := of_outcome (payload ctx) in
  let! delivery_id := next_delivery_id in
  let! timestamp := current_timestamp in
  let attempts := max_attempts (hx_config x) retry_enabled in
  let! now := web_now in
  let deadline := instant_checked_add now (hh_retry_deadline (hx_config x)) in
  let! sent := send_loop (N.to_nat attempts) x (HookEvent.as_str (hc_event ctx)) delivery_id
                 timestamp body attempts deadline 0 in
  match sent with
  | Some response => ret response
  | None => panic
  end.

Fixpoint read_body_capped (cap : N) (chunks : list (string + bytes)) (body : bytes)
    : string + (bytes * bool) :=
  match chunks with
  | [] => inr (body, false)
  | inl e :: _ => inl e
  | inr chunk :: chunks =>
      if cap <? bytes_len body + bytes_len chunk
      then inr ((body ++ take (N.to_nat (cap - bytes_len body)) chunk)%list, true)
      else read_body_capped cap chunks (body ++ chunk)%list
  end.

Definition read_error_body (response : WebhookResponse) : string :=
  match read_body_capped MAX_ERROR_BODY_BYTES (rs_chunks response) [] with
  | inr (body, truncated) =>
      from_utf8_lossy body ++ if (truncated : bool) then TRUNCATION_MARKER else ""
  | inl _ => "Webhook error"
  end.

(** [HttpHookStatusError] *)
Definition http_hook_status_error (status : N) (body : string) : Error.t :=
  Error.Hook ("unexpected response code from hook endpoint (" ++ status_display status ++ "): " ++ body).

(** What the response to a pre-hook decides. *)
Definition pre_hook_decision (response : WebhookResponse) : result PreHookResult :=
  let status := rs_status response in
  if negb (is_success status)
  then Err (http_hook_status_error status (read_error_body response))
  else
    match read_body_capped MAX_PRE_HOOK_BODY_BYTES (rs_chunks response) [] with
    | inl e => Err (Error.Hook e)
    | inr (_, true) =>
        Err (Error.Hook ("pre-hook response body exceeded "
               ++ u64_to_string MAX_PRE_HOOK_BODY_BYTES ++ " bytes"))
    | inr (body, false) =>
        match response_from_slice body with
        | inl e => Err (Error.Hook e)
        | inr hook_response => Ok (PreHookResult_from hook_response)
        end
    end.

Definition deliver_pre_hook (x : HttpHookExecutor) (ctx : HookContext) : M Web PreHookResult :=
  let! response := send_webhook_with_retry x ctx (hh_retry_enabled (hx_config x)) in
  of_outcome (pre_hook_decision response).

Definition http_execute_pre (x : HttpHookExecutor) (ctx : HookContext) : M Web PreHookResult :=
  let! delivered := attempt (deliver_pre_hook x ctx) in
  match delivered with
  | inr result => ret result
  | inl error => if hh_fail_open (hx_config x) then ret PreHookResult_proceed else throw error
  end.

(** The outcome of a post-hook is logged only. *)
Definition http_execute_post (x : HttpHookExecutor) (ctx : HookContext) : prog Empty_set Web unit :=
  let retry_enabled := hh_retry_enabled (hx_config x) && hh_retry_post_hooks (hx_config x) in
  swallow (do! send_webhook_with_retry x ctx retry_enabled in ret tt).

Definition HttpHookExecutor_executor (x : HttpHookExecutor) : HookExecutor Web := {|
  execute_pre := http_execute_pre x;
  execute_post := http_execute_post x;
|}.
End executor.
