(* ===== verification/HttpHooksSpec.v ===== *)
(** * HTTP webhooks: what a delivery does

    Retries repeat one and the same request, stay within the configured number of
    attempts and the deadline, and happen after retryable outcomes only; a pre-hook
    fails closed unless configured otherwise; bodies are read up to their limits. *)

From S2P Require Import Prelude Text Errors Crates State Hooks Backends HttpHooks.
Local Open Scope string_scope.
Local Open Scope N_scope.
Local Open Scope prog_scope.

(** ** Response bodies *)

Lemma read_body_capped_spec cap chunks body :
  bytes_len body <= cap ->
  read_body_capped cap (map inr chunks) body =
    (let whole := (body ++ concat chunks)%list in
     inr (take (N.to_nat cap) whole, cap <? bytes_len whole)).
Proof.
  unfold bytes_len. revert body. induction chunks as [|c chunks IH]; intros body Hb; cbn [map read_body_capped].
  - cbn. rewrite app_nil_r. rewrite take_ge by lia. f_equal. f_equal.
    symmetry. apply N.ltb_ge. unfold bytes_len. lia.
  - cbn [concat]. unfold bytes_len. destruct (N.ltb_spec cap (N.of_nat (length body) + N.of_nat (length c))).
    + cbv zeta. f_equal. f_equal.
      * rewrite take_app_ge by lia. f_equal.
        rewrite take_app_le by lia. f_equal. lia.
      * symmetry. apply N.ltb_lt. rewrite !length_app. lia.
    + rewrite IH by (rewrite length_app; lia). cbv zeta. by rewrite <- app_assoc.
Qed.

(** a webhook body is read up to its limit: the result is the first [cap] bytes of
    the body, however it arrives in chunks, with the mark whether it is longer. *)
Theorem body_read_is_capped cap chunks :
  read_body_capped cap (map inr chunks) [] =
    inr (take (N.to_nat cap) (concat chunks), cap <? bytes_len (concat chunks)).
Proof. apply read_body_capped_spec. unfold bytes_len. cbn. lia. Qed.

(** ** Decisions *)

Lemma map_fold_headers (m : gmap string string) r :
  map_fold (fun name value r => PreHookResult_with_header name value r) r m =
    PreHookResult_with_response_headers (m ∪ ph_response_headers r) r.
Proof.
  apply (map_fold_weak_ind (fun r' m => r' = PreHookResult_with_response_headers (m ∪ ph_response_headers r) r)).
  - rewrite (left_id_L ∅ (∪)). by destruct r.
  - intros k v m' r' Hk ->. unfold PreHookResult_with_header, PreHookResult_with_response_headers.
    cbn. by rewrite insert_union_l.
Qed.

(** the decision of a webhook becomes the hook's result: a rejection has the
    status it names, else 403; a decision to proceed never has a rejection status;
    metadata and response headers are those of the decision. *)
Theorem decision_is_taken_over response :
  let result := PreHookResult_from response in
  ph_proceed result = pr_proceed response /\
  ph_metadata result = pr_metadata response /\
  ph_response_headers result = default ∅ (pr_response_headers response) /\
  ph_reject_status result =
    (if pr_proceed response then None else Some (default 403 (pr_reject_status response))) /\
  ph_reject_message result =
    (if pr_proceed response then None else Some (default "" (pr_reject_message response))).
Proof.
  unfold PreHookResult_from. rewrite map_fold_headers.
  destruct (pr_proceed response), (pr_metadata response); cbn; rewrite (right_id_L ∅ (∪)); done.
Qed.

(** ** Signatures *)

(** What the documentation tells a receiver to do with the header. *)
Definition parse_signature (value : string) : option (N * string) :=
  match split_once "," value with
  | Some (t, v) =>
      match str_strip_prefix "t=" t, str_strip_prefix "v1=" v with
      | Some seconds, Some mac => (fun n => (n, mac)) <$> parse_u64 seconds
      | _, _ => None
      end
  | None => None
  end.

Definition hex_digit_value (c : ascii) : N :=
  if byte_of c <? 97 then byte_of c - 48 else byte_of c - 87.
Definition unhex (s : string) : option Byte.byte :=
  match s with
  | String c (String d "") => Byte.of_N (16 * hex_digit_value c + hex_digit_value d)
  | _ => None
  end.

Lemma unhex_hex_byte b : unhex (hex_byte b) = Some b.
Proof. by destruct b. Qed.

Lemma hex_byte_inj a b : hex_byte a = hex_byte b -> a = b.
Proof. intros Heq%(f_equal unhex). rewrite !unhex_hex_byte in Heq. by injection Heq. Qed.

Lemma to_hex_inj a b : to_hex a = to_hex b -> a = b.
Proof.
  revert b. induction a as [|x a IH]; intros [|y b]; try done.
  cbn [to_hex]. unfold hex_byte. cbn [String.append]. intros [= H1 H2 H3].
  f_equal; [|by apply IH]. apply hex_byte_inj. unfold hex_byte. by rewrite H1, H2.
Qed.

(** a receiver that follows the documentation gets the timestamp and the MAC of
    "timestamp.body" out of the signature header, and no other MAC gives the same
    header. *)
Theorem signature_parses `{Reqwest} secret timestamp body :
  timestamp <= u64_max ->
  exists mac,
    parse_signature (signature_header_value secret timestamp body) = Some (timestamp, mac) /\
    forall digest, to_hex digest = mac <->
      digest = hmac_sha256 secret
        (list_byte_of_string (u64_to_string timestamp) ++ list_byte_of_string "." ++ body)%list.
Proof.
  intros Ht. eexists. split; [|intros digest; split; [apply to_hex_inj|by intros ->]].
  unfold parse_signature, signature_header_value.
  match goal with |- context [to_hex ?d] => set (mac := to_hex d) end.
  change ("t=" ++ u64_to_string timestamp ++ ",v1=" ++ mac)
    with ("t=" ++ (u64_to_string timestamp ++ String "," ("v1=" ++ mac))).
  rewrite <- string_app_assoc, split_once_char.
  - rewrite str_strip_prefix_app, str_strip_prefix_app, parse_u64_to_string by done. done.
  - rewrite str_all_app. cbn [str_all]. apply andb_true_intro. split; [done|].
    apply u64_to_string_all. intros d Hd. apply negb_true_iff, Ascii.eqb_neq.
    intros Heq%(f_equal byte_of). rewrite digit_value in Heq by done. cbn in Heq. lia.
Qed.

Section delivery.
Context `{ReqwestLaws, HashOrder}.

(** ** Delays *)

Lemma backoff_bounds attempt :
  milliseconds 100 <= retry_backoff attempt <= milliseconds 10000.
Proof.
  unfold retry_backoff, milliseconds, MAX_RETRY_DELAY_MILLIS.
  assert (100 <= N.shiftl 100 (N.min attempt 8)); [|lia].
  rewrite N.shiftl_mul_pow2. pose proof (N.pow_nonzero 2 (N.min attempt 8)). nia.
Qed.

(** a retry is never delayed for longer than the retry deadline or fifteen
    seconds: exponential backoff is capped, its shift does not overflow, and a
    Retry-After of the endpoint is clipped. *)
Theorem retry_delay_bounded config attempt after w :
  wp (retry_delay config attempt after) (fun r w' =>
    exists d, r = Ok d /\ wb_now w' = wb_now w /\ wb_sent w' = wb_sent w /\
      match after with
      | Some _ => d <= hh_retry_deadline config
      | None => milliseconds 100 <= d <= milliseconds 15000
      end) w.
Proof using All.
  unfold retry_delay. destruct after as [a|].
  - apply wp_done. exists (N.min a (hh_retry_deadline config)). split_and!; [done..|lia].
  - apply wp_bind, wp_act, wp_done. cbn [fst snd]. eexists. split; [done|]. split_and!; [done..| |].
    all: pose proof (jitter_half (wb_draws w) (retry_backoff attempt)) as Hj;
      pose proof (backoff_bounds attempt); unfold milliseconds in *; lia.
Qed.

(** ** Attempts *)

Definition retryable (outcome : string + WebhookResponse) : bool :=
  match outcome with
  | inl _ => true
  | inr response => is_retryable_status (rs_status response)
  end.

(** From [w] to [w'] the request [r] was sent at each of the times [ts], the last
    time with [outcome]; each outcome before was retryable and each retry in time. *)
Record attempted (url : Url) (r : WebhookRequest) (deadline : option N) (w w' : Web) (ts : list N)
    (outcome : string + WebhookResponse) : Prop := {
  at_sent : wb_sent w' = (wb_sent w ++ map (fun t => (t, r)) ts)%list;
  at_first : hd_error ts = Some (wb_now w);
  at_in_time i t d : ts !! S i = Some t -> deadline = Some d ->
    t <= d + sleep_late (length (wb_sent w) + S i);
  at_outcome : outcome = client_send (length (wb_sent w) + pred (length ts)) url r;
  at_retried i : (Datatypes.S i < length ts)%nat ->
    retryable (client_send (length (wb_sent w) + i) url r) = true;
}.

(** How a delivery ends. *)
Definition delivery_end (outcome : string + WebhookResponse) (r : Prelude.outcome Error.t (option WebhookResponse))
    : Prop :=
  match r with
  | Ok (Some response) => outcome = inr response
  | Err e => exists s, outcome = inl s /\ e = Error.Hook s
  | Ok None | Panic => False
  end.

Lemma attempted_once url r deadline w w' :
  wb_sent w' = (wb_sent w ++ [(wb_now w, r)])%list ->
  attempted url r deadline w w' [wb_now w] (client_send (length (wb_sent w)) url r).
Proof.
  intros Hs. split; [done|done|..]; cbn.
  - done.
  - by rewrite Nat.add_0_r.
  - lia.
Qed.

Lemma attempted_again url r deadline w w1 w' ts outcome :
  wb_sent w1 = (wb_sent w ++ [(wb_now w, r)])%list ->
  retryable (client_send (length (wb_sent w)) url r) = true ->
  (forall d, deadline = Some d -> wb_now w1 <= d + sleep_late (length (wb_sent w1))) ->
  attempted url r deadline w1 w' ts outcome ->
  attempted url r deadline w w' (wb_now w :: ts) outcome.
Proof.
  intros Hs Hr Hd [A1 A2 A3 A4 A5]. destruct ts as [|t0 ts]; [done|]. cbn in A2. injection A2 as ->.
  assert (length (wb_sent w1) = S (length (wb_sent w))) as Hl by (rewrite Hs, length_app; cbn; lia).
  split; cbn [tail hd_error map].
  - by rewrite A1, Hs, <- app_assoc.
  - done.
  - intros [|i] t d Ht Hx.
    + injection Ht as <-. specialize (Hd d Hx). by rewrite Hl, <- Nat.add_1_r in Hd.
    + specialize (A3 i t d Ht Hx). rewrite Hl in A3. by rewrite <- Nat.add_succ_comm.
  - rewrite A4, Hl. f_equal. cbn [length pred]. lia.
  - intros [|i] Hi; [by rewrite Nat.add_0_r|]. cbn [length] in Hi. specialize (A5 i).
    rewrite Hl in A5. rewrite <- Nat.add_succ_comm. apply A5. cbn [length]. lia.
Qed.

Lemma wp_send_webhook x event id timestamp body Q w :
  let r := webhook_request (hx_config x) event id timestamp body in
  (forall w', wb_sent w' = (wb_sent w ++ [(wb_now w, r)])%list ->
     Q (Ok (client_send (length (wb_sent w)) (hx_url x) r)) w') ->
  wp (send_webhook x event id timestamp body) Q w.
Proof. intros r HQ. apply wp_act. cbn [fst snd]. by apply HQ. Qed.

(** Whether to wait for another attempt: not if that would miss the deadline. *)
Lemma wp_wait config attempt after deadline {A} (stop : outcome Error.t A) (again : Duration -> M Web A) Q w :
  (forall w', wb_sent w' = wb_sent w -> Q stop w') ->
  (forall delay w', wb_sent w' = wb_sent w -> (forall d, deadline = Some d -> wb_now w' + delay <= d) ->
     wp (again delay) Q w') ->
  wp (let! delay := retry_delay config attempt after in
      let! late := exceeds_deadline delay deadline in
      if (late : bool) then Done stop else again delay) Q w.
Proof using All.
  intros Hstop Hagain. apply wp_bind. eapply wp_mono; [apply retry_delay_bounded|]. cbv beta.
  intros r w1 (delay & -> & Hn & Hs & _). apply wp_bind. unfold exceeds_deadline.
  destruct deadline as [d|].
  - apply wp_bind, wp_act. cbn [fst snd]. apply wp_done. unfold instant_checked_add.
    destruct (wb_now w1 + delay <=? instant_max); [|by apply wp_done, Hstop].
    destruct (N.ltb_spec d (wb_now w1 + delay)); [by apply wp_done, Hstop|].
    apply Hagain; [done|]. by intros d' [= <-].
  - apply wp_done. by apply Hagain.
Qed.

Lemma wp_send_loop fuel x event id timestamp body attempts deadline attempt w :
  let r := webhook_request (hx_config x) event id timestamp body in
  N.of_nat fuel + attempt = attempts -> (0 < fuel)%nat -> attempts <= 4294967295 ->
  wp (send_loop fuel x event id timestamp body attempts deadline attempt) (fun res w' =>
    exists ts outcome, attempted (hx_url x) r deadline w w' ts outcome /\
      (1 <= length ts <= fuel)%nat /\ delivery_end outcome res) w.
Proof using All.
  intros r. revert attempt w. induction fuel as [|fuel IH]; intros attempt w Hm Hf Hmax; [lia|].
  cbn [send_loop]. apply wp_bind, wp_send_webhook. fold r. intros w1 Hs1.
  assert (attempted (hx_url x) r deadline w w1 [wb_now w] (client_send (length (wb_sent w)) (hx_url x) r))
    as Hone by by apply attempted_once.
  assert (u32_saturating_succ attempt = attempt + 1) as Hsucc by (unfold u32_saturating_succ; lia).
  rewrite Hsucc.
  set (again := fun delay => do! web_sleep delay in
    send_loop fuel x event id timestamp body attempts deadline (attempt + 1)).
  set (last := attempts <=? attempt + 1).
  assert (forall outcome, client_send (length (wb_sent w)) (hx_url x) r = outcome ->
    retryable outcome = true -> last = false ->
    forall delay w2, wb_sent w2 = wb_sent w1 ->
      (forall d, deadline = Some d -> wb_now w2 + delay <= d) ->
      wp (again delay) (fun res w' => exists ts outcome,
        attempted (hx_url x) r deadline w w' ts outcome /\
        (1 <= length ts <= S fuel)%nat /\ delivery_end outcome res) w2) as Hagain.
  { intros outcome Ho Hr Hlast delay w2 Hs2 Hd. apply wp_bind, wp_act. cbn [fst snd].
    apply N.leb_gt in Hlast. eapply wp_mono; [apply IH; lia|]. cbv beta.
    intros res w' (ts & o & Hts & Hl & He). exists (wb_now w :: ts), o.
    split_and!; [|cbn; lia|cbn; lia|done].
    eapply attempted_again; [|by rewrite Ho| |exact Hts]; cbn; [by rewrite Hs2|]. intros d Hx. specialize (Hd d Hx). cbn. rewrite Hs2 in *. lia. }
  destruct (client_send (length (wb_sent w)) (hx_url x) r) as [error|response] eqn:Hc.
  - destruct last eqn:Hlast.
    + apply wp_done. exists [wb_now w], (inl error). split_and!; [done|cbn; lia|cbn; lia|by eexists].
    + apply (wp_wait _ _ _ _ (Err (Error.Hook error))); [|by apply (Hagain _ eq_refl)].
      intros w2 Hs2. exists [wb_now w], (inl error). split_and!; [|cbn; lia|cbn; lia|by eexists].
      rewrite <- Hc. apply attempted_once. by rewrite Hs2.
  - destruct (is_retryable_status (rs_status response)) eqn:Hr; [destruct last eqn:Hlast|]; cbn.
    + apply wp_done. exists [wb_now w], (inr response). split_and!; [done|cbn; lia|cbn; lia|done].
    + apply (wp_wait _ _ _ _ (Ok (Some response))); [|by apply (Hagain _ eq_refl)].
      intros w2 Hs2. exists [wb_now w], (inr response). split_and!; [|cbn; lia|cbn; lia|done].
      rewrite <- Hc. apply attempted_once. by rewrite Hs2.
    + rewrite orb_true_r. apply wp_done. exists [wb_now w], (inr response).
      split_and!; [done|cbn; lia|cbn; lia|done].
Qed.

Lemma attempted_start url r deadline w0 w w' ts outcome :
  wb_now w0 = wb_now w -> wb_sent w0 = wb_sent w ->
  attempted url r deadline w w' ts outcome -> attempted url r deadline w0 w' ts outcome.
Proof. intros Hn Hs [A1 A2 A3 A4 A5]. split; rewrite ?Hn, ?Hs; done. Qed.

Lemma max_attempts_bounds config enabled : 1 <= max_attempts config enabled <= 4294967295.
Proof. unfold max_attempts, u32_saturating_succ. destruct enabled; lia. Qed.

(** The request of the delivery that starts in [w]. *)
Definition delivery_request (x : HttpHookExecutor) (ctx : HookContext) (body : bytes) (w : Web)
    : WebhookRequest :=
  webhook_request (hx_config x) (HookEvent.as_str (hc_event ctx)) (uuid_string (wb_ids w))
    (default 0 (unix_seconds (wb_now w))) body.

(** From [w] to [w'] the delivery was attempted, with this final outcome. *)
Definition delivery (x : HttpHookExecutor) (ctx : HookContext) (enabled : bool) (body : bytes)
    (w w' : Web) (outcome : string + WebhookResponse) : Prop :=
  exists ts,
    attempted (hx_url x) (delivery_request x ctx body w)
      (instant_checked_add (wb_now w) (hh_retry_deadline (hx_config x))) w w' ts outcome /\
    1 <= N.of_nat (length ts) <= max_attempts (hx_config x) enabled.

Lemma wp_send_with_retry x ctx enabled w :
  wp (send_webhook_with_retry x ctx enabled) (fun res w' =>
    match payload ctx with
    | Ok body => exists outcome, delivery x ctx enabled body w w' outcome /\
        match res with
        | Ok response => outcome = inr response
        | Err e => exists s, outcome = inl s /\ e = Error.Hook s
        | Panic => False
        end
    | Err e => res = Err e /\ w' = w
    | Panic => False
    end) w.
Proof using All.
  unfold send_webhook_with_retry. apply wp_bind, wp_done.
  destruct (payload ctx) as [body|e|] eqn:Hp; [|done|].
  - apply wp_bind, wp_act, wp_bind, wp_act, wp_bind, wp_act. cbn [fst snd wb_now].
    pose proof (max_attempts_bounds (hx_config x) enabled) as Hm.
    apply wp_bind. eapply wp_mono; [apply wp_send_loop; lia|]. cbv beta.
    intros res w' (ts & outcome & Hts & Hl & He). apply (attempted_start _ _ _ w) in Hts; [|done|done].
    assert (delivery x ctx enabled body w w' outcome) as Hd by (exists ts; split; [exact Hts|lia]).
    destruct res as [[response|]|e|]; [|done| |done].
    + apply wp_done. by exists outcome.
    + destruct He as (s & -> & ->). exists (inl s). eauto.
  - unfold payload in Hp. by destruct (context_to_vec ctx).
Qed.

(** C29: a delivery sends one and the same request - body, delivery id, timestamp and
    signature included - at least once and at most as often as configured (once
    when retries are off), each retry after a request error, a 429 or a 5xx
    response and due not after the deadline (it is sent when the sleep before it ends,
    which the timer may let happen late); its result is that of the last attempt. *)
Theorem delivery_repeats_one_request x ctx enabled body w :
  payload ctx = Ok body ->
  wp (send_webhook_with_retry x ctx enabled) (fun res w' =>
    exists ts outcome,
      wb_sent w' = (wb_sent w ++ map (fun t => (t, delivery_request x ctx body w)) ts)%list /\
      1 <= N.of_nat (length ts) <= max_attempts (hx_config x) enabled /\
      hd_error ts = Some (wb_now w) /\
      (forall i t, ts !! S i = Some t ->
         forall d, instant_checked_add (wb_now w) (hh_retry_deadline (hx_config x)) = Some d ->
           t <= d + sleep_late (length (wb_sent w) + S i)) /\
      (forall i, (S i < length ts)%nat ->
         retryable (client_send (length (wb_sent w) + i) (hx_url x) (delivery_request x ctx body w)) = true) /\
      outcome = client_send (length (wb_sent w) + pred (length ts)) (hx_url x)
                  (delivery_request x ctx body w) /\
      res = match outcome with inr response => Ok response | inl s => Err (Error.Hook s) end) w.
Proof using All.
  intros Hp. eapply wp_mono; [apply wp_send_with_retry|]. cbv beta. rewrite Hp.
  intros res w' (outcome & (ts & [A1 A2 A3 A4 A5] & Hl) & Hr). exists ts, outcome.
  split_and!; try done; [lia|lia|..].
  - intros i t Ht d Hd. exact (A3 i t d Ht Hd).
  - by destruct res as [response|e|]; [rewrite Hr|destruct Hr as (s & -> & ->)|].
Qed.

(** A delivery was answered with the decision [d]: a 2xx response whose body arrived
    whole, within the limit, and says so. *)
Definition answered_with (outcome : string + WebhookResponse) (d : PreHookResponse) : Prop :=
  exists response chunks,
    outcome = inr response /\ 200 <= rs_status response < 300 /\
    rs_chunks response = map inr chunks /\ bytes_len (concat chunks) <= 64 * 1024 /\
    response_from_slice (concat chunks) = inr d.

(** The decision as the result of the hook: a rejection has the status it names, or 403. *)
Definition taken_over (d : PreHookResponse) (result : PreHookResult) : Prop :=
  ph_proceed result = pr_proceed d /\
  ph_metadata result = pr_metadata d /\
  ph_response_headers result = default ∅ (pr_response_headers d) /\
  ph_reject_status result = (if pr_proceed d then None else Some (default 403 (pr_reject_status d))) /\
  ph_reject_message result = (if pr_proceed d then None else Some (default "" (pr_reject_message d))).

(** What a delivery without a decision becomes: an error, or, when that is configured,
    leave to proceed that changes nothing. *)
Definition undecided (x : HttpHookExecutor) (res : result PreHookResult) : Prop :=
  if hh_fail_open (hx_config x)
  then res = Ok {| ph_proceed := true; ph_metadata := None; ph_reject_status := None;
                   ph_reject_message := None; ph_response_headers := ∅ |}
  else exists e, res = Err (Error.Hook e).

Lemma read_body_whole cap chunks b :
  read_body_capped cap chunks [] = inr (b, false) ->
  exists cs, chunks = map inr cs /\ b = concat cs /\ bytes_len b <= cap.
Proof using Type.
  assert (forall body, bytes_len body <= cap -> read_body_capped cap chunks body = inr (b, false) ->
    exists cs, chunks = map inr cs /\ b = (body ++ concat cs)%list /\ bytes_len b <= cap) as Hgen.
  { induction chunks as [|[e|c] chunks IH]; intros body Hb; cbn [read_body_capped].
    - intros [= <-]. exists []. cbn. by rewrite app_nil_r.
    - done.
    - destruct (N.ltb_spec cap (bytes_len body + bytes_len c)) as [Hlt|Hle]; [done|]. intros Hr.
      destruct (IH (body ++ c)%list) as (cs & -> & -> & Hl);
        [unfold bytes_len in *; rewrite length_app; lia|done|].
      exists (c :: cs). cbn. by rewrite app_assoc. }
  apply (Hgen []). unfold bytes_len. cbn. lia.
Qed.

(** What [pre_hook_decision] makes of a response. *)
Lemma decision_spec response :
  match pre_hook_decision response with
  | Ok result => exists d, answered_with (inr response) d /\ taken_over d result
  | Err e => (forall d, ~ answered_with (inr response) d) /\ exists s, e = Error.Hook s
  | Panic => False
  end.
Proof using Type.
  assert (forall d, answered_with (inr response) d ->
    is_success (rs_status response) = true /\ exists b,
    read_body_capped MAX_PRE_HOOK_BODY_BYTES (rs_chunks response) [] = inr (b, false) /\
    response_from_slice b = inr d) as Hinv.
  { intros d (r & cs & [= <-] & Hst & Hcs & Hl & Hd). split.
    - unfold is_success, in_range. apply andb_true_intro. split; apply N.leb_le; lia.
    - exists (concat cs). rewrite Hcs, body_read_is_capped. unfold MAX_PRE_HOOK_BODY_BYTES.
      rewrite (proj2 (N.ltb_ge _ _) Hl), take_ge by (unfold bytes_len in *; lia). done. }
  unfold pre_hook_decision. destruct (is_success (rs_status response)) eqn:Hs; cbn [negb].
  2: { split; [|by eexists]. by intros d [? _]%Hinv. }
  destruct (read_body_capped _ _ _) as [e|[b []]] eqn:Hb.
  - split; [|by eexists]. by intros d (_ & b & ? & _)%Hinv.
  - split; [|by eexists]. by intros d (_ & b' & ? & _)%Hinv.
  - destruct (response_from_slice b) as [e|d] eqn:Hd.
    + split; [|by eexists]. intros d (_ & b' & [= <-] & Hd')%Hinv. congruence.
    + exists d. split; [|apply decision_is_taken_over]. apply read_body_whole in Hb as (cs & Hcs & -> & Hl).
      exists response, cs. split_and!; [done| | |done|done|done];
        unfold is_success, in_range in Hs; apply andb_prop in Hs as [Hlo%N.leb_le Hhi%N.leb_le]; lia.
Qed.

Lemma pre_hook_policy x ctx w :
  wp (http_execute_pre x ctx) (fun res w' =>
    match payload ctx with
    | Ok body => exists outcome,
        delivery x ctx (hh_retry_enabled (hx_config x)) body w w' outcome /\
        ((exists d result, answered_with outcome d /\ taken_over d result /\ res = Ok result) \/
         ((forall d, ~ answered_with outcome d) /\ undecided x res))
    | _ => w' = w /\ undecided x res
    end) w.
Proof using All.
  unfold http_execute_pre, deliver_pre_hook. apply wp_bind, wp_attempt, wp_bind.
  eapply wp_mono; [apply wp_send_with_retry|]. cbv beta. intros res w' Hres. unfold undecided.
  assert (forall e, exists s, payload ctx = Err e -> e = Error.Hook s) as Hpay.
  { intros e. unfold payload. destruct (context_to_vec ctx) as [s|]; exists (match e with Error.Hook s => s | _ => "" end);
      [by intros [= <-]|done]. }
  destruct (payload ctx) as [body|e|]; [|destruct Hres as [-> ->]|done].
  - destruct Hres as (outcome & Hd & Hr). destruct res as [response|e|]; [| |done].
    + subst outcome. apply wp_done. pose proof (decision_spec response) as Hdec.
      destruct (pre_hook_decision response) as [result|e|]; [| |done].
      * destruct Hdec as (d & Ha & Ht). apply wp_done. exists (inr response). split; [done|]. left.
        by exists d, result.
      * destruct Hdec as [Hno (s & ->)].
        destruct (hh_fail_open _); apply wp_done; exists (inr response); (split; [done|]); right;
          (split; [done|]); by try eexists.
    + destruct Hr as (s & -> & ->).
      destruct (hh_fail_open _); apply wp_done; exists (inl s); (split; [done|]); right;
        (split; [by intros d (? & ? & ? & _)|]); by try eexists.
  - destruct (Hpay e) as [s Hs]. specialize (Hs eq_refl). subst e.
    destruct (hh_fail_open _); apply wp_done; (split; [done|]); by try eexists.
Qed.

(** C30: a pre-hook fails closed.  Only a decision that arrived whole, with a 2xx status
    and within the size limit, as a body that parses, decides, and it is taken over as it
    is: a decision to proceed lets the request proceed, a rejection rejects it.  Without
    one - the request failed, the status was another, the body broke off, was too long or
    did not parse - the hook is an error, or, only when configured to fail open, lets the
    request proceed unchanged. *)
Theorem pre_hook_fails_closed x ctx w :
  wp (http_execute_pre x ctx) (fun res w' =>
    match payload ctx with
    | Ok body => exists outcome,
        delivery x ctx (hh_retry_enabled (hx_config x)) body w w' outcome /\
        ((exists d result, answered_with outcome d /\ taken_over d result /\ res = Ok result) \/
         ((forall d, ~ answered_with outcome d) /\ undecided x res))
    | _ => w' = w /\ undecided x res
    end) w.
Proof using All. apply pre_hook_policy. Qed.

(** Webhooks as hooks of the server: neither kind of hook panics. *)
Lemma http_hooks_no_panic x : @HookLaws Web (HttpHookExecutor_executor x).
Proof using All.
  split; intros ctx w; cbn.
  - eapply wp_mono; [apply pre_hook_policy|]. intros r w' Hr ->. unfold undecided in Hr.
    destruct (payload ctx); [destruct Hr as (o & _ & [(d & result & _ & _ & ?)|[_ Hr]])|destruct Hr as [_ Hr]..];
      try done; destruct (hh_fail_open _); [done|by destruct Hr|done|by destruct Hr|done|by destruct Hr].
  - unfold http_execute_post, wp. rewrite run_swallow, run_bind.
    pose proof (wp_send_with_retry x ctx (hh_retry_enabled (hx_config x) && hh_retry_post_hooks (hx_config x)) w) as Hw.
    unfold wp in Hw. destruct (run (send_webhook_with_retry _ _ _) w) as [r w'].
    destruct r as [response|e|]; [done|done|]. exfalso.
    destruct (payload ctx); [by destruct Hw as (o & _ & Hw)|by destruct Hw|done].
Qed.
End delivery.

(** ** Concretely

    An endpoint that is overloaded at first, and the theorems about deliveries applied to
    hooks sent to it. *)

From S2P Require Import Config Headers Concrete.

Definition webhook_response (status : N) (body : string) : WebhookResponse :=
  {| rs_status := status; rs_headers := (∅ : gmap string string); rs_chunks := [inr (text body)] |}.

(** The connection is refused, then the endpoint is overloaded, then it answers. *)
#[export] Instance concrete_reqwest : Reqwest := {|
  client_send n _ _ :=
    match n with
    | 0%nat => inl "connection refused"
    | 1%nat => inr (webhook_response 503 "busy")
    | _ => inr (webhook_response 200 "{}")
    end;
  send_takes _ := 1000;
  url_parse _ := inl "relative URL without a base";
  status_display := u64_to_string;
  from_utf8_lossy := string_of_list_byte;
  context_to_vec ctx := inr (text (hu_id (hc_upload ctx)));
  response_from_slice b :=
    if decide (b = text "{}") then inr PreHookResponse_default else inl "expected value";
  hmac_sha256 secret body := (text secret ++ body)%list;
  uuid_string n := u64_to_string (N.of_nat n);
  unix_seconds now := Some (now / 1000000000);
  instant_max := 18446744073709551615 * 1000000000;
  jitter _ d := d / 2;
  sleep_late _ := 700000;
|}.

#[export] Instance concrete_reqwest_laws : ReqwestLaws.
Proof.
  split. intros n d. cbn [jitter concrete_reqwest]. pose proof (N.Div0.mul_div_le d 2). lia.
Qed.

Definition hook_executor : HttpHookExecutor :=
  {| hx_url := {| url_scheme := "https"; url_host := Some "hooks.example"; url_port := None; url_path := "/tus" |};
     hx_config := hh_with_signing_secret "key" (hh_with_retry true (HttpHookConfig_new "https://hooks.example/tus")) |}.

Definition create_context : HookContext :=
  HookContext_new HookEvent.PreCreate (upload "a" 5 [])
    {| hr_method := "POST"; hr_path := "/files"; hr_headers := ∅ |}.

Definition idle : Web := {| wb_now := 5000000000; wb_sent := []; wb_ids := 0; wb_draws := 0 |}.

(** Three attempts, the last of which gets the decision. *)
Lemma delivery_repeats_one_request_witness :
  length (wb_sent (run (send_webhook_with_retry hook_executor create_context true) idle).2) = 3%nat /\
  wp (send_webhook_with_retry hook_executor create_context true) (fun res w' =>
    exists ts outcome,
      wb_sent w' = (wb_sent idle ++ map (fun t => (t, delivery_request hook_executor create_context (text "a") idle)) ts)%list /\
      1 <= N.of_nat (length ts) <= max_attempts (hx_config hook_executor) true /\
      hd_error ts = Some (wb_now idle) /\
      (forall i t, ts !! S i = Some t ->
         forall d, instant_checked_add (wb_now idle) (hh_retry_deadline (hx_config hook_executor)) = Some d ->
           t <= d + sleep_late (length (wb_sent idle) + S i)) /\
      (forall i, (S i < length ts)%nat ->
         retryable (client_send (length (wb_sent idle) + i) (hx_url hook_executor)
                      (delivery_request hook_executor create_context (text "a") idle)) = true) /\
      outcome = client_send (length (wb_sent idle) + pred (length ts)) (hx_url hook_executor)
                  (delivery_request hook_executor create_context (text "a") idle) /\
      res = match outcome with inr response => Ok response | inl s => Err (Error.Hook s) end) idle.
Proof.
  split; [vm_compute; reflexivity|].
  assert (payload create_context = Ok (text "a")) as Hp by reflexivity.
  exact (delivery_repeats_one_request hook_executor create_context true (text "a") idle Hp).
Defined.

Lemma pre_hook_fails_closed_witness :
  is_ok (run (http_execute_pre hook_executor create_context) idle).1 = true /\
  wp (http_execute_pre hook_executor create_context) (fun res w' =>
    match payload create_context with
    | Ok body => exists outcome,
        delivery hook_executor create_context (hh_retry_enabled (hx_config hook_executor)) body idle w' outcome /\
        ((exists d result, answered_with outcome d /\ taken_over d result /\ res = Ok result) \/
         ((forall d, ~ answered_with outcome d) /\ undecided hook_executor res))
    | _ => w' = idle /\ undecided hook_executor res
    end) idle.
Proof.
  split; [vm_compute; reflexivity|]. exact (pre_hook_fails_closed hook_executor create_context idle).
Defined.

Lemma signature_parses_witness :
  signature_header_value "key" 5 (text "a") = "t=5,v1=6b6579352e61" /\
  exists mac,
    parse_signature (signature_header_value "key" 5 (text "a")) = Some (5, mac) /\
    forall digest, to_hex digest = mac <->
      digest = hmac_sha256 "key"
        (list_byte_of_string (u64_to_string 5) ++ list_byte_of_string "." ++ text "a")%list.
Proof.
  split; [vm_compute; reflexivity|].
  assert (5 <= u64_max) as Hl by by vm_compute.
  exact (signature_parses "key" 5 (text "a") Hl).
Defined.
