(* ===== verification/ClientError.v ===== *)
(** * Errors of the upload client ([tus-uploader/src/error.rs]) *)

From S2P Require Import Prelude Text Crates.
Local Open Scope string_scope.
Local Open Scope N_scope.

Module ClientError.
(** [Box<dyn Error>] sources by their texts. *)
Inductive t :=
| Io (message : string)
| Url (message : string)
| MissingHeader (header : string)
| InvalidHeader (header value : string)
| InvalidRequestHeader (name value : string)
| OffsetBeyondSource (offset source_len : N)
| LengthMismatch (remote local : N)
| OffsetDesync (expected actual : N)
| Source (source : string)
| HeaderProvider (source : string) (retryable : bool)
| UnexpectedResponse (operation : string) (status : N) (body : string) (retry_after : option Duration)
| Transport (source : string) (retryable : bool)
| CrossOriginLocation (endpoint location : string)
| UnsupportedExtension (extension : string)
| Internal (message : string).

#[global] Instance eq_dec : EqDecision t.
Proof. solve_decision. Defined.

Definition transport (source : string) : t := Transport source true.
Definition transport_permanent (source : string) : t := Transport source false.
Definition source (source : string) : t := Source source.
Definition header_provider (source : string) : t := HeaderProvider source true.
Definition header_provider_permanent (source : string) : t := HeaderProvider source false.

Definition retryable_status (status : N) : bool :=
  existsb (N.eqb status) [500; 502; 503; 504; 408; 409; 429; 460].

Definition is_retryable (e : t) : bool :=
  match e with
  | UnexpectedResponse _ status _ _ => retryable_status status
  | Transport _ retryable => retryable
  | HeaderProvider _ retryable => retryable
  | _ => false
  end.

Definition retry_after (e : t) : option Duration :=
  match e with
  | UnexpectedResponse _ _ _ after => after
  | _ => None
  end.

Definition transport_failure_message (retryable : bool) : string :=
  if retryable then "transport failed" else "transport failed permanently".

Definition header_provider_failure_message (retryable : bool) : string :=
  if retryable then "header provider failed" else "header provider failed permanently".

Definition to_string (e : t) : string :=
  match e with
  | Io m => "io failed: " ++ m
  | Url m => "invalid upload url: " ++ m
  | MissingHeader h => "missing required `" ++ h ++ "` header"
  | InvalidHeader h v => "invalid `" ++ h ++ "` header value `" ++ v ++ "`"
  | InvalidRequestHeader n v => "invalid `" ++ n ++ "` header: " ++ v
  | OffsetBeyondSource o l =>
      "server offset " ++ u64_to_string o ++ " exceeds local source size " ++ u64_to_string l
  | LengthMismatch r l =>
      "server length " ++ u64_to_string r ++ " does not match local source size " ++ u64_to_string l
  | OffsetDesync x a =>
      "server offset " ++ u64_to_string a ++ " does not match expected offset " ++ u64_to_string x
  | Source s => "upload source failed: " ++ s
  | HeaderProvider s r => header_provider_failure_message r ++ ": " ++ s
  | UnexpectedResponse op status body _ =>
      "unexpected " ++ op ++ " response: status " ++ u64_to_string status ++ ", body `" ++ body ++ "`"
  | Transport _ r => transport_failure_message r
  | CrossOriginLocation e l =>
      "server upload location `" ++ l ++ "` is not on the endpoint origin `" ++ e ++ "`"
  | UnsupportedExtension x => "server does not advertise the `" ++ x ++ "` tus extension"
  | Internal m => "internal client error: " ++ m
  end.
End ClientError.

Abbreviation cresult := (outcome ClientError.t).
Abbreviation CM := (prog ClientError.t).
