(* ===== verification/ClientHelpers.v ===== *)
(** * Helpers of the upload client ([tus-uploader/src/helpers.rs])

    Metadata and header codecs, validation of what the server reports, retry delays
    and the [Retry-After] date parser, with [i64] arithmetic that panics on
    overflow. *)

From S2P Require Import Prelude Text Crates Config State Headers ClientError.
Local Open Scope string_scope.
Local Open Scope N_scope.
Local Open Scope prog_scope.

(** ** Interfaces of [url], [http] and the system *)

Class UrlLib := {
  WebUrl : Type;
  weburl_parse : string -> string + WebUrl;
  weburl_as_str : WebUrl -> string;
  weburl_path : WebUrl -> string;
  weburl_set_path : string -> WebUrl -> WebUrl;
  weburl_join : WebUrl -> string -> string + WebUrl;
  (** [Url::origin]: equality, and the ASCII serialization *)
  same_origin : WebUrl -> WebUrl -> bool;
  origin_serialization : WebUrl -> string;
  (** [http::Uri], and the display text of its error *)
  uri_parse : string -> string + unit;
}.

(** An URL's text parses back to the URL. *)
Class UrlLaws `{UrlLib} := {
  weburl_parse_as_str u : weburl_parse (weburl_as_str u) = inr u;
}.

Class HttpClientLib `{HttpLib} := {
  header_iter : HeaderMap -> list (string * HeaderValue);
  header_append : string -> HeaderValue -> HeaderMap -> HeaderMap;
  header_remove : string -> HeaderMap -> HeaderMap;
  (** [String::from_utf8_lossy] of a value, and of bytes *)
  header_lossy : HeaderValue -> string;
  bytes_lossy : bytes -> string;
}.

Class ClientSystem := {
  (** [SystemTime::now()] in seconds since 1970, [None] before *)
  unix_now : option N;
  (** [fastrand::u64(0..=max)], for the n-th number drawn *)
  random_upto : nat -> N -> N;
}.

Class ClientSystemLaws `{ClientSystem} := {
  random_in_range n max : random_upto n max <= max;
}.

(** ** Metadata *)

Section codecs.
Context `{HttpClientLib, Base64, HashOrder}.

Fixpoint encode_metadata_pairs (pairs : list (string * MetadataValue)) (acc : list string)
    : cresult string :=
  match pairs with
  | [] => Ok (str_join "," acc)
  | (key, value) :: pairs =>
      if negb (is_valid_metadata_key key)
      then Err (ClientError.InvalidRequestHeader "Upload-Metadata" key)
      else encode_metadata_pairs pairs (acc ++ [(key ++ " " ++ b64_encode value)%string])
  end.

Definition encode_metadata (metadata : UploadMetadata) : cresult string :=
  encode_metadata_pairs (hash_iter metadata) [].

Fixpoint decode_metadata_pairs (metadata : UploadMetadata) (pairs : list string)
    : cresult UploadMetadata :=
  match pairs with
  | [] => Ok metadata
  | item :: pairs =>
      let item := trim item in
      let? kv :=
        match split_once " " item with
        | Some (key, encoded) =>
            match b64_decode encoded with
            | inr decoded => Ok (key, decoded)
            | inl _ => Err (ClientError.InvalidHeader "Upload-Metadata" item)
            end
        | None => Ok (item, [])
        end in
      if negb (is_valid_metadata_key kv.1)
      then Err (ClientError.InvalidHeader "Upload-Metadata" item)
      else decode_metadata_pairs (<[kv.1 := kv.2]> metadata) pairs
  end.

Definition decode_metadata (value : option HeaderValue) : cresult UploadMetadata :=
  match value with
  | None => Ok ∅
  | Some value =>
      match header_to_str value with
      | inl _ => Err (ClientError.InvalidHeader "Upload-Metadata" (header_lossy value))
      | inr text => if is_empty text then Ok ∅ else decode_metadata_pairs ∅ (split_char "," text)
      end
  end.

(** ** Headers *)

Definition header_string (headers : HeaderMap) (name label : string) : cresult string :=
  match header_get headers name with
  | None => Err (ClientError.MissingHeader label)
  | Some value =>
      match header_to_str value with
      | inr text => Ok text
      | inl _ => Err (ClientError.InvalidHeader label "<non-utf8>")
      end
  end.

Definition optional_header_u64 (headers : HeaderMap) (name label : string) : cresult (option N) :=
  match header_get headers name with
  | None => Ok None
  | Some value =>
      match header_to_str value with
      | inl _ => Err (ClientError.InvalidHeader label "<non-utf8>")
      | inr text =>
          match parse_u64 text with
          | Some n => Ok (Some n)
          | None => Err (ClientError.InvalidHeader label text)
          end
      end
  end.

Definition header_u64 (headers : HeaderMap) (name label : string) : cresult N :=
  let? value := optional_header_u64 headers name label in
  match value with
  | Some n => Ok n
  | None => Err (ClientError.MissingHeader label)
  end.

Definition parse_csv_header (value : string) : list string :=
  filter (fun s => is_empty s = false) (map trim (split_char "," value)).
End codecs.

(** ** URLs *)

Definition resolve_upload_url `{UrlLib} (endpoint : WebUrl) (reference : string) : cresult WebUrl :=
  let base :=
    if ends_with_char "/" (weburl_path endpoint) then endpoint
    else weburl_set_path (weburl_path endpoint ++ "/") endpoint in
  match weburl_join base reference with
  | inr url => Ok url
  | inl e => Err (ClientError.Url e)
  end.

Definition resolve_upload_location `{UrlLib} (endpoint : WebUrl) (location : string) : cresult WebUrl :=
  resolve_upload_url endpoint location.

(** ** Validation *)

Definition validate_offset_not_beyond_source (offset source_len : N) : cresult unit :=
  if source_len <? offset then Err (ClientError.OffsetBeyondSource offset source_len) else Ok tt.

(** [validate_remote_for_resume], on the offset and length of an [UploadInfo]. *)
Definition validate_remote_offset (offset : N) (length : option N) (file_length : N) : cresult unit :=
  match length with
  | Some remote_length =>
      if negb (remote_length =? file_length)
      then Err (ClientError.LengthMismatch remote_length file_length)
      else validate_offset_not_beyond_source offset file_length
  | None => validate_offset_not_beyond_source offset file_length
  end.

Definition validate_patch_advance (previous next chunk_len source_len : N) : cresult unit :=
  check? validate_offset_not_beyond_source next source_len in
  if next <=? previous then Err (ClientError.OffsetDesync (previous + 1) next)
  else if saturating_add previous chunk_len <? next
  then Err (ClientError.OffsetDesync (previous + chunk_len) next)
  else Ok tt.

(** ** Delays

    A [Duration] has at most [duration_max] nanoseconds. *)

Definition duration_max : N := 18446744073709551615 * 1000000000 + 999999999.

Definition backoff_delay (base : Duration) (attempt : N) : Duration :=
  N.min (base * N.shiftl 1 (N.min attempt 8)) duration_max.

(** [max.as_nanos() as u64] *)
Definition as_nanos_u64 (d : Duration) : N := d mod 18446744073709551616.

Definition jittered_backoff_delay `{ClientSystem} (draw : nat) (base : Duration) (attempt : N) : Duration :=
  let max := backoff_delay base attempt in
  let max_nanos := as_nanos_u64 max in
  if max_nanos =? 0 then max else N.min (random_upto draw max_nanos) max_nanos.

Definition max_backoff_delay (base : Duration) : Duration := backoff_delay base 8.

Definition next_retry_delay `{ClientSystem} (draw : nat) (retry_after : option Duration) (base : Duration)
    (attempt : N) : Duration :=
  match retry_after with
  | Some hint => N.min hint (max_backoff_delay base)
  | None => jittered_backoff_delay draw base attempt
  end.

(** ** [i64] *)

Definition i64_max : Z := 9223372036854775807.
Definition i64_min : Z := -9223372036854775808.
Definition in_i64 (z : Z) : bool := (i64_min <=? z)%Z && (z <=? i64_max)%Z.

(** A result of [+], [-] or [*]. *)
Definition i64 {E} (z : Z) : outcome E Z := if in_i64 z then Ok z else Panic.

Fixpoint parse_unsigned (s : string) (acc : Z) : option Z :=
  match s with
  | EmptyString => Some acc
  | String c s =>
      if in_range 48 57 (byte_of c) then parse_unsigned s (acc * 10 + Z.of_N (byte_of c - 48))%Z else None
  end.

(** [str::parse::<i64>] *)
Definition parse_i64 (s : string) : option Z :=
  let '(negative, digits) :=
    match s with
    | String "-" r => (true, r)
    | String "+" r => (false, r)
    | _ => (false, s)
    end in
  if is_empty digits then None
  else
    match parse_unsigned digits 0 with
    | Some n =>
        let z := if (negative : bool) then (- n)%Z else n in
        if in_i64 z then Some z else None
    | None => None
    end.

(** ** [Retry-After] *)

Definition month_number (s : string) : option Z :=
  if String.eqb s "Jan" then Some 1%Z else if String.eqb s "Feb" then Some 2%Z
  else if String.eqb s "Mar" then Some 3%Z else if String.eqb s "Apr" then Some 4%Z
  else if String.eqb s "May" then Some 5%Z else if String.eqb s "Jun" then Some 6%Z
  else if String.eqb s "Jul" then Some 7%Z else if String.eqb s "Aug" then Some 8%Z
  else if String.eqb s "Sep" then Some 9%Z else if String.eqb s "Oct" then Some 10%Z
  else if String.eqb s "Nov" then Some 11%Z else if String.eqb s "Dec" then Some 12%Z else None.

(** Division of the code truncates ([Z.quot]). *)
Definition days_from_civil {E} (year month day : Z) : outcome E Z :=
  let? year := if (month <=? 2)%Z then i64 (year - 1) else Ok year in
  let? shifted := if (0 <=? year)%Z then Ok year else i64 (year - 399) in
  let era := Z.quot shifted 400 in
  let? years := i64 (era * 400) in
  let? yoe := i64 (year - years) in
  let doy := (Z.quot (153 * (if (2 <? month)%Z then month - 3 else month + 9) + 2) 5 + day - 1)%Z in
  let doe := (yoe * 365 + Z.quot yoe 4 - Z.quot yoe 100 + doy)%Z in
  let? days := i64 (era * 146097) in
  let? days := i64 (days + doe) in
  i64 (days - 719468).

(** [value.strip_suffix(" GMT")] is in [FileStorage.v] for [.upload]; here the text
    before the last four characters. *)
Fixpoint strip_gmt (s : string) : option string :=
  if String.eqb s " GMT" then Some ""
  else match s with
       | EmptyString => None
       | String c s => String c <$> strip_gmt s
       end.

Definition parse_hms (time : string) : option (Z * Z * Z) :=
  match split_char ":" time with
  | [h; m; s] =>
      match parse_i64 h, parse_i64 m, parse_i64 s with
      | Some h, Some m, Some s => Some (h, m, s)
      | _, _, _ => None
      end
  | _ => None
  end.

(** The fields of a date, in the order they are read. *)
Definition parse_date_fields (value : string) : option (Z * Z * Z * (Z * Z * Z)) :=
  value ← strip_gmt value;
  '(_, rest) ← split_once ", " value;
  match split_char " " rest with
  | [d; m; y; t] =>
      day ← parse_i64 d; month ← month_number m; year ← parse_i64 y; hms ← parse_hms t;
      Some (year, month, day, hms)
  | _ => None
  end.

Definition parse_imf_fixdate_unix {E} (value : string) : outcome E (option Z) :=
  match parse_date_fields value with
  | None => Ok None
  | Some (year, month, day, (hour, minute, second)) =>
      if (day <? 1)%Z || (31 <? day)%Z || (23 <? hour)%Z || (59 <? minute)%Z || (60 <? second)%Z
      then Ok None
      else
        let? days := days_from_civil year month day in
        let? a := i64 (days * 86400) in
        let? b := i64 (hour * 3600) in
        let? ab := i64 (a + b) in
        let? c := i64 (minute * 60) in
        let? abc := i64 (ab + c) in
        let? total := i64 (abc + second) in
        Ok (Some total)
  end.

(** [n as i64] of a [u64] *)
Definition as_i64 (n : N) : Z :=
  if (Z.of_N n <=? i64_max)%Z then Z.of_N n else (Z.of_N n - 18446744073709551616)%Z.

Definition saturating_sub_i64 (a b : Z) : Z := Z.max i64_min (Z.min i64_max (a - b)).

Section retry_after.
Context `{ClientSystem}.

Definition parse_retry_after_date {E} (value : string) : outcome E (option Duration) :=
  let? target := parse_imf_fixdate_unix value in
  match target, unix_now with
  | Some target, Some now =>
      Ok (Some (Z.to_N (Z.max (saturating_sub_i64 target (as_i64 now)) 0) * 1000000000))
  | _, _ => Ok None
  end.

Definition parse_retry_after {E} (value : string) : outcome E (option Duration) :=
  let value := trim value in
  if is_empty value then Ok None
  else
    match parse_u64 value with
    | Some seconds => Ok (Some (seconds * 1000000000))
    | None => parse_retry_after_date value
    end.
End retry_after.

(** ** Unexpected responses *)

Record ClientResponse `{HttpLib} := {
  cr_status : N;
  cr_headers : HeaderMap;
  cr_body : bytes;
}.

Definition MAX_CAPTURED_ERROR_BODY_BYTES : N := 8 * 1024.
Definition TRUNCATED_ERROR_BODY_MARKER : string := "...[truncated]".

Definition unexpected_response `{HttpClientLib, ClientSystem} (operation : string)
    (response : ClientResponse) : cresult ClientError.t :=
  let? retry_after :=
    match header_get (cr_headers response) "retry-after" with
    | None => Ok None
    | Some value =>
        match header_to_str value with
        | inr text => parse_retry_after text
        | inl _ => Ok None
        end
    end in
  let bytes := cr_body response in
  let truncated := MAX_CAPTURED_ERROR_BODY_BYTES <? bytes_len bytes in
  let bytes := if truncated then take (N.to_nat MAX_CAPTURED_ERROR_BODY_BYTES) bytes else bytes in
  let body := if utf8_valid bytes then string_of_list_byte bytes else bytes_lossy bytes in
  let body := body ++ if truncated then TRUNCATED_ERROR_BODY_MARKER else "" in
  Ok (ClientError.UnexpectedResponse operation (cr_status response) body retry_after).

Definition encode_checksum `{Base64, Digests} (algorithm : ChecksumAlgorithm.t) (body : bytes) : string :=
  b64_encode (calculate algorithm body).
