(* ===== verification/ClientHelpersSpec.v ===== *)
(** * What the client's helpers compute

    Metadata as the server reads and prints it, bounded retry delays, and the dates of
    [Retry-After]: [days_from_civil] counts the days of the Gregorian calendar, and
    which dates overflow. *)

From S2P Require Import Prelude Text Errors Crates Config State Headers HeaderSpec ClientError ClientHelpers.
Local Open Scope string_scope.
Local Open Scope N_scope.
#[local] Set Default Proof Using "All".

(** ** Metadata *)

Section metadata.
Context `{HttpClientLib} `{Base64Laws, HashOrder}.

(** Pieces that are not empty are read by the client as by the server. *)
Lemma decode_agrees l (m m' : UploadMetadata) :
  Forall (fun piece => is_empty (trim piece) = false) l ->
  parse_metadata_pairs m l = Ok m' -> decode_metadata_pairs m l = Ok m'.
Proof.
  revert m. induction l as [|piece l IH]; intros m Hl; cbn [parse_metadata_pairs decode_metadata_pairs]; [by intros [= <-]|].
  apply Forall_cons in Hl as [Hne Hl]. unfold parse_metadata_pair. rewrite Hne.
  destruct (split_once " " (trim piece)) as [[key encoded]|]; cbv zeta.
  - destruct (is_empty key); [done|]. destruct (is_valid_metadata_key key) eqn:Hk; [|done]. cbn [negb].
    destruct (b64_decode encoded) as [|v]; [done|]. cbn. rewrite Hk. cbn.
    destruct (m !! key); [done|]. cbn. by apply IH.
  - rewrite Hne. destruct (is_valid_metadata_key (trim piece)) eqn:Hk; [|done]. cbn. rewrite Hk. cbn.
    destruct (m !! trim piece); [done|]. cbn. by apply IH.
Qed.

Lemma encode_pairs_ok l acc s :
  encode_metadata_pairs l acc = Ok s <->
  Forall (fun kv => is_valid_metadata_key kv.1 = true) l /\
  s = str_join "," (acc ++ map encode_metadata_pair l).
Proof.
  revert acc. induction l as [|[k v] l IH]; intros acc; cbn [encode_metadata_pairs map].
  - rewrite app_nil_r. split; [intros [= <-]; done|by intros [_ ->]].
  - rewrite Forall_cons. cbn [fst]. destruct (is_valid_metadata_key k); cbn [negb].
    + rewrite IH, <- app_assoc. tauto.
    + split; [done|]. by intros [[? _] _].
Qed.

Lemma hash_iter_keys (m : UploadMetadata) (P : string -> Prop) :
  Forall (fun kv => P kv.1) (hash_iter m) <-> forall k, is_Some (m !! k) -> P k.
Proof.
  rewrite hash_iter_perm, Forall_forall. split.
  - intros Hf k [v Hv]. by apply (Hf (k, v)), elem_of_map_to_list.
  - intros Hk [k v] Hin%elem_of_map_to_list. apply Hk. by eexists.
Qed.

(** What the client sends is what the server prints. *)
Lemma encode_metadata_ok (m : UploadMetadata) s :
  m <> ∅ ->
  encode_metadata m = Ok s <->
  (forall k, is_Some (m !! k) -> is_valid_metadata_key k = true) /\ s = encode_upload_metadata m.
Proof.
  intros Hne. unfold encode_metadata, encode_upload_metadata. rewrite decide_False by done.
  rewrite encode_pairs_ok. cbn [app]. by rewrite (hash_iter_keys m (fun k => is_valid_metadata_key k = true)).
Qed.

Lemma printed_not_empty (m : UploadMetadata) :
  m <> ∅ -> (forall k, is_Some (m !! k) -> is_valid_metadata_key k = true) ->
  Forall (fun piece => is_empty (trim piece) = false) (split_char "," (encode_upload_metadata m)).
Proof.
  intros Hne Hkeys. unfold encode_upload_metadata. rewrite decide_False by done.
  assert (Forall (fun kv => is_valid_metadata_key kv.1 = true) (hash_iter m)) as Hk
    by by apply (hash_iter_keys m (fun k => is_valid_metadata_key k = true)).
  rewrite split_join.
  - apply Forall_map. eapply Forall_impl; [exact Hk|]. intros [k v] Hkv. cbn [fst] in Hkv.
    destruct (metadata_key_solid k Hkv) as (Hn & Hws & _). destruct (b64_solid v) as [Hv _].
    unfold encode_metadata_pair. cbn [fst snd]. rewrite trim_pair by done.
    destruct (is_empty (b64_encode v)); by destruct k.
  - intros Hnil%map_eq_nil. apply Hne. pose proof (hash_iter_perm m) as Hp. rewrite Hnil in Hp.
    by apply map_to_list_empty_iff, Permutation_nil.
  - apply Forall_map. eapply Forall_impl; [exact Hk|]. intros [k v] Hkv. cbn [fst] in Hkv.
    destruct (metadata_key_solid k Hkv) as (_ & _ & Hc & _). destruct (b64_solid v) as [_ Hv].
    unfold encode_metadata_pair. cbn [fst snd]. by rewrite !str_all_app, Hc, Hv.
Qed.

(** metadata the client can send arrives: the server parses its header to the same
    map, and the client reads the map back from the header of the server's HEAD
    response; what it cannot send (a key that is empty, has a comma or is not visible
    ASCII) is refused before any request. *)
Theorem metadata_crosses (m : UploadMetadata) :
  m <> ∅ ->
  match encode_metadata m with
  | Ok s =>
      parse_upload_metadata_value s = Ok m /\
      forall value, header_to_str value = inr (encode_upload_metadata m) ->
        decode_metadata (Some value) = Ok m
  | Err e => exists k, is_Some (m !! k) /\ is_valid_metadata_key k = false /\
      e = ClientError.InvalidRequestHeader "Upload-Metadata" k
  | Panic => False
  end.
Proof.
  intros Hne. destruct (encode_metadata m) as [s|e|] eqn:He.
  - apply encode_metadata_ok in He as [Hk ->]; [|done].
    pose proof (metadata_header_roundtrip m Hne Hk) as Hp. split; [done|].
    intros value Hv. unfold decode_metadata. rewrite Hv.
    pose proof (printed_not_empty m Hne Hk) as Hn.
    destruct (is_empty (encode_upload_metadata m)) eqn:Hz.
    + destruct (encode_upload_metadata m); [|done]. by apply Forall_cons in Hn as [? _].
    + by apply decode_agrees.
  - assert (forall l acc, encode_metadata_pairs l acc = Err e ->
      exists kv, In kv l /\ is_valid_metadata_key kv.1 = false /\
        e = ClientError.InvalidRequestHeader "Upload-Metadata" kv.1) as Hf.
    { induction l as [|[k v] l IH]; intros acc; cbn [encode_metadata_pairs]; [done|].
      destruct (is_valid_metadata_key k) eqn:Hk; cbn [negb].
      - intros (kv & Hin & Hkv)%IH. exists kv. split; [by right|done].
      - intros [= <-]. exists (k, v). split; [by left|done]. }
    destruct (Hf _ _ He) as ([k v] & Hin & Hk & ->). exists k. split; [|done].
    apply list_elem_of_In in Hin. rewrite hash_iter_perm in Hin. apply elem_of_map_to_list in Hin. by eexists.
  - assert (forall l acc, encode_metadata_pairs l acc <> Panic) as Hf.
    { induction l as [|[k v] l IH]; intros acc; cbn [encode_metadata_pairs]; [done|].
      destruct (negb _); [done|apply IH]. }
    by apply Hf in He.
Qed.
End metadata.

(** ** Delays *)

Lemma backoff_monotone base a b : N.min a 8 <= N.min b 8 -> backoff_delay base a <= backoff_delay base b.
Proof.
  intros Hab. unfold backoff_delay. rewrite !N.shiftl_1_l.
  assert (2 ^ N.min a 8 <= 2 ^ N.min b 8) by (apply N.pow_le_mono_r; lia). nia.
Qed.

(** the pause before a retry is at most 256 times the base delay: exponential
    backoff stops growing after eight attempts and is jittered downwards only, and a
    [Retry-After] of the server counts up to that limit. *)
Theorem client_delay_bounded `{ClientSystemLaws} draw retry_after base attempt :
  next_retry_delay draw retry_after base attempt <= max_backoff_delay base <= 256 * base /\
  (retry_after = None -> next_retry_delay draw retry_after base attempt <= backoff_delay base attempt) /\
  (forall hint, retry_after = Some hint -> hint <= max_backoff_delay base ->
     next_retry_delay draw retry_after base attempt = hint).
Proof.
  assert (jittered_backoff_delay draw base attempt <= backoff_delay base attempt) as Hj.
  { unfold jittered_backoff_delay. destruct (N.eqb_spec (as_nanos_u64 (backoff_delay base attempt)) 0); [lia|].
    unfold as_nanos_u64. pose proof (N.Div0.mod_le (backoff_delay base attempt) 18446744073709551616). lia. }
  assert (backoff_delay base attempt <= max_backoff_delay base) by (apply backoff_monotone; lia).
  assert (max_backoff_delay base <= 256 * base).
  { unfold max_backoff_delay, backoff_delay. change (N.shiftl 1 (N.min 8 8)) with 256. lia. }
  unfold next_retry_delay. destruct retry_after as [hint|]; split_and!; try lia; try done.
  intros h [= ->] Hh. lia.
Qed.

(** ** The calendar *)

Local Open Scope Z_scope.

(** The Gregorian calendar: a leap day every fourth year, but for three in 400 years. *)
Definition is_leap (year : Z) : bool :=
  (year mod 4 =? 0) && (negb (year mod 100 =? 0) || (year mod 400 =? 0)).

Definition month_length (year month : Z) : Z :=
  if month =? 2 then (if is_leap year then 29 else 28)
  else if (month =? 4) || (month =? 6) || (month =? 9) || (month =? 11) then 30 else 31.

(** The day after a date. *)
Definition next_day (date : Z * Z * Z) : Z * Z * Z :=
  let '(year, month, day) := date in
  if day <? month_length year month then (year, month, day + 1)
  else if month <? 12 then (year, month + 1, 1)
  else (year + 1, 1, 1).

Definition is_date (date : Z * Z * Z) : Prop :=
  let '(year, month, day) := date in 1 <= month <= 12 /\ 1 <= day <= month_length year month.

(** [days_from_civil] without the checks. *)
Definition civil_days (year month day : Z) : Z :=
  let year := if month <=? 2 then year - 1 else year in
  let era := Z.quot (if 0 <=? year then year else year - 399) 400 in
  let yoe := year - era * 400 in
  let doy := Z.quot (153 * (if 2 <? month then month - 3 else month + 9) + 2) 5 + day - 1 in
  let doe := yoe * 365 + Z.quot yoe 4 - Z.quot yoe 100 + doy in
  era * 146097 + doe - 719468.

Lemma i64_ok {E} z : i64_min <= z <= i64_max -> @i64 E z = Ok z.
Proof. intros [Hl Hh]. unfold i64, in_i64. by rewrite (proj2 (Z.leb_le _ _) Hl), (proj2 (Z.leb_le _ _) Hh). Qed.

(** No intermediate result overflows. *)
Lemma days_from_civil_bounded {E} year month day :
  - 10000000000000000 <= year <= 10000000000000000 -> 1 <= month <= 12 -> 1 <= day <= 31 ->
  days_from_civil (E := E) year month day = Ok (civil_days year month day).
Proof.
  intros Hy Hm Hd. unfold days_from_civil, civil_days. cbv zeta.
  set (doy := Z.quot _ 5 + day - 1).
  assert (0 <= doy <= 400) as Hdoy.
  { unfold doy. destruct (Z.ltb_spec 2 month); Z.to_euclidean_division_equations; lia. }
  set (y := if month <=? 2 then year - 1 else year).
  assert (-10000000000000001 <= y <= 10000000000000000) as Hb by (unfold y; destruct (month <=? 2); lia).
  assert ((if month <=? 2 then i64 (year - 1) else Ok year) = (Ok y : outcome E Z)) as ->.
  { unfold y. destruct (month <=? 2); [|done]. apply i64_ok. unfold i64_min, i64_max. lia. }
  clearbody doy y. cbn [outcome_bind].
  set (shifted := if 0 <=? y then y else y - 399).
  assert (-10000000000000400 <= shifted <= 10000000000000000) as Hs by (unfold shifted; destruct (0 <=? y); lia).
  assert ((if 0 <=? y then Ok y else i64 (y - 399)) = (Ok shifted : outcome E Z)) as ->.
  { unfold shifted. destruct (0 <=? y); [done|]. apply i64_ok. unfold i64_min, i64_max. lia. }
  assert (0 <= y - Z.quot shifted 400 * 400 <= 399) as Hyoe.
  { unfold shifted. destruct (Z.leb_spec 0 y); Z.to_euclidean_division_equations; lia. }
  cbn [outcome_bind]. set (era := Z.quot shifted 400) in *.
  assert (-30000000000000 <= era <= 30000000000000) as He by lia. clearbody era shifted.
  rewrite i64_ok by (unfold i64_min, i64_max; lia). cbn [outcome_bind].
  rewrite i64_ok by (unfold i64_min, i64_max; lia). cbn [outcome_bind].
  set (yoe := y - era * 400) in *. clearbody yoe.
  set (doe := yoe * 365 + Z.quot yoe 4 - Z.quot yoe 100 + doy).
  assert (0 <= doe <= 200000) as Hdoe by (unfold doe; Z.to_euclidean_division_equations; lia). clearbody doe.
  rewrite i64_ok by (unfold i64_min, i64_max; lia). cbn [outcome_bind].
  rewrite i64_ok by (unfold i64_min, i64_max; lia). cbn [outcome_bind].
  by rewrite i64_ok by (unfold i64_min, i64_max; lia).
Qed.

(** The same by floor division: the days before a March 1st, and within that year. *)
Definition days_before_march (year : Z) : Z := 365 * year + year / 4 - year / 100 + year / 400.
Definition day_of_march_year (month : Z) : Z :=
  (153 * (if 2 <? month then month - 3 else month + 9) + 2) / 5.

Lemma civil_days_floor year month day :
  1 <= month ->
  civil_days year month day =
    days_before_march (if month <=? 2 then year - 1 else year) + day_of_march_year month + day - 719469.
Proof.
  intros Hm. unfold civil_days, days_before_march, day_of_march_year. cbv zeta.
  set (y := if month <=? 2 then year - 1 else year). clearbody y.
  assert (Z.quot (if 0 <=? y then y else y - 399) 400 = y / 400) as ->.
  { destruct (Z.leb_spec 0 y); Z.to_euclidean_division_equations; lia. }
  rewrite (Z.quot_div_nonneg (153 * _ + 2)) by (destruct (2 <? month) eqn:Hc; lia).
  assert (0 <= y - y / 400 * 400 < 400) as Hyoe by (Z.to_euclidean_division_equations; lia).
  rewrite !Z.quot_div_nonneg by lia.
  assert (y / 4 = y / 400 * 100 + (y - y / 400 * 400) / 4) as -> by (Z.to_euclidean_division_equations; lia).
  assert (y / 100 = y / 400 * 4 + (y - y / 400 * 400) / 100) as -> by (Z.to_euclidean_division_equations; lia).
  lia.
Qed.

Lemma leap_year_days year :
  days_before_march year - days_before_march (year - 1) = 365 + (if is_leap year then 1 else 0).
Proof.
  unfold days_before_march, is_leap.
  destruct (Z.eqb_spec (year mod 4) 0), (Z.eqb_spec (year mod 100) 0), (Z.eqb_spec (year mod 400) 0);
    cbn [andb orb negb]; Z.to_euclidean_division_equations; lia.
Qed.

Lemma civil_days_next year month day :
  is_date (year, month, day) ->
  let '(year', month', day') := next_day (year, month, day) in
  civil_days year' month' day' = civil_days year month day + 1.
Proof.
  intros [Hm Hd]. unfold next_day. destruct (Z.ltb_spec day (month_length year month)).
  { rewrite !civil_days_floor by lia. lia. }
  assert (day = month_length year month) as -> by lia. clear Hd H.
  assert (month = 1 \/ month = 2 \/ month = 3 \/ month = 4 \/ month = 5 \/ month = 6 \/ month = 7 \/
    month = 8 \/ month = 9 \/ month = 10 \/ month = 11 \/ month = 12) as Hms by lia.
  pose proof (leap_year_days year) as Hleap.
  repeat destruct Hms as [->|Hms]; [..|subst month]; cbn [Z.ltb Z.compare Pos.compare Pos.compare_cont];
    rewrite !civil_days_floor by lia; unfold month_length;
    repeat match goal with |- context [day_of_march_year ?m] =>
      let v := eval vm_compute in (day_of_march_year m) in change (day_of_march_year m) with v end;
    repeat match goal with |- context [?m <=? 2] =>
      let v := eval vm_compute in (m <=? 2) in change (m <=? 2) with v; cbv match end;
    cbn [Z.eqb Pos.eqb orb];
    replace (year + 1 - 1) with year by lia; destruct (is_leap year); lia.
Qed.

(** [days_from_civil] is the number of days since 1970-01-01 in the Gregorian
    calendar: none on that day, and one more on every next day, in every year up to
    a million billion before and after. *)
Theorem days_from_civil_counts year month day :
  days_from_civil (E := ClientError.t) 1970 1 1 = Ok 0 /\
  (is_date (year, month, day) -> - 1000000000000000 < year < 1000000000000000 ->
   exists n, days_from_civil (E := ClientError.t) year month day = Ok n /\
     let '(year', month', day') := next_day (year, month, day) in
     days_from_civil (E := ClientError.t) year' month' day' = Ok (n + 1)).
Proof.
  split; [reflexivity|]. intros Hdate Hy. exists (civil_days year month day).
  assert (1 <= month <= 12 /\ 1 <= day <= 31) as [Hm Hd].
  { destruct Hdate as [Hm Hd]. split; [done|]. unfold month_length in Hd. by repeat case_match; lia. }
  split; [apply days_from_civil_bounded; lia|].
  pose proof (civil_days_next year month day Hdate) as Hnext. revert Hnext. unfold next_day.
  destruct (Z.ltb_spec day (month_length year month)) as [Hlt|Hge].
  - intros <-. apply days_from_civil_bounded; [lia|lia|]. destruct Hdate as [_ Hd2].
    assert (month_length year month <= 31); [|lia]. unfold month_length. by repeat case_match; lia.
  - destruct (Z.ltb_spec month 12); intros <-; apply days_from_civil_bounded; lia.
Qed.

(** ** Dates in headers *)

Local Open Scope N_scope.

Lemma split_once_comma a b :
  str_all (fun c => negb (Ascii.eqb c ",")) a = true -> split_once ", " (a ++ ", " ++ b) = Some (a, b).
Proof.
  induction a as [|c a IH]; intros Ha; [done|]. cbn in Ha. apply andb_prop in Ha as [Hc Ha].
  specialize (IH Ha). cbn [String.append split_once] in *. rewrite IH. cbn [str_strip_prefix].
  apply negb_true_iff in Hc. by rewrite Ascii.eqb_sym, Hc.
Qed.

Lemma strip_gmt_app s : strip_gmt (s ++ " GMT") = Some s.
Proof.
  induction s as [|c s IH]; [done|].
  assert (String.eqb (String c s ++ " GMT") " GMT" = false) as Hne.
  { apply String.eqb_neq. intros Heq%(f_equal String.length). rewrite string_length_app in Heq. cbn in Heq. lia. }
  change (String c s ++ " GMT") with (String c (s ++ " GMT")) in *. cbn [strip_gmt]. by rewrite Hne, IH.
Qed.

(** Two and four digits. *)
Definition two (n : N) : string := String (digit (n / 10)) (String (digit (n mod 10)) "").
Definition four (n : N) : string :=
  String (digit (n / 1000)) (String (digit (n / 100 mod 10)) (two (n mod 100))).

Lemma parse_i64_digit d s : d < 10 ->
  parse_i64 (String (digit d) s) =
    match parse_unsigned (String (digit d) s) 0 with
    | Some z => if in_i64 z then Some z else None
    | None => None
    end.
Proof.
  intros Hd. assert (d = 0 \/ d = 1 \/ d = 2 \/ d = 3 \/ d = 4 \/ d = 5 \/ d = 6 \/ d = 7 \/ d = 8 \/ d = 9)
    as Hds by lia.
  repeat destruct Hds as [->|Hds]; [..|subst d]; reflexivity.
Qed.

Lemma parse_unsigned_digit d s acc : d < 10 ->
  parse_unsigned (String (digit d) s) acc = parse_unsigned s (acc * 10 + Z.of_N d).
Proof.
  intros Hd. cbn [parse_unsigned]. rewrite digit_in_range, digit_value by done. do 2 f_equal. lia.
Qed.

Lemma parse_two n : n < 100 -> parse_i64 (two n) = Some (Z.of_N n).
Proof.
  intros Hn. assert (n / 10 < 10) by (apply N.Div0.div_lt_upper_bound; lia).
  assert (n mod 10 < 10) by (apply N.mod_lt; lia). pose proof (N.div_mod n 10 ltac:(lia)).
  unfold two. rewrite parse_i64_digit, !parse_unsigned_digit by done. cbn [parse_unsigned].
  replace (((0 * 10 + Z.of_N (n / 10)) * 10 + Z.of_N (n mod 10)))%Z with (Z.of_N n) by lia.
  unfold in_i64, i64_min, i64_max. by rewrite (proj2 (Z.leb_le _ _)), (proj2 (Z.leb_le _ _)) by lia.
Qed.

Lemma parse_four n : n < 10000 -> parse_i64 (four n) = Some (Z.of_N n).
Proof.
  intros Hn. assert (n / 1000 < 10) by (apply N.Div0.div_lt_upper_bound; lia).
  assert (n / 100 mod 10 < 10) by (apply N.mod_lt; lia).
  assert (n mod 100 / 10 < 10).
  { pose proof (N.mod_lt n 100 ltac:(lia)). apply N.Div0.div_lt_upper_bound; lia. }
  assert (n mod 100 mod 10 < 10) by (apply N.mod_lt; lia).
  pose proof (N.div_mod n 100 ltac:(lia)). pose proof (N.div_mod (n / 100) 10 ltac:(lia)).
  pose proof (N.div_mod (n mod 100) 10 ltac:(lia)).
  assert (n / 100 / 10 = n / 1000) by (by rewrite N.Div0.div_div).
  unfold four, two. rewrite parse_i64_digit, !parse_unsigned_digit by done. cbn [parse_unsigned].
  match goal with |- context [in_i64 ?z] => replace z with (Z.of_N n) by lia end.
  unfold in_i64, i64_min, i64_max. by rewrite (proj2 (Z.leb_le _ _)), (proj2 (Z.leb_le _ _)) by lia.
Qed.

Lemma digits_all (p : ascii -> bool) s d :
  (forall e, e < 10 -> p (digit e) = true) -> d < 10 -> str_all p s = true -> str_all p (String (digit d) s) = true.
Proof. intros Hp Hd Hs. cbn. by rewrite Hp. Qed.

Lemma two_all (p : ascii -> bool) n : (forall e, e < 10 -> p (digit e) = true) -> n < 100 -> str_all p (two n) = true.
Proof.
  intros Hp Hn. apply digits_all; [done|apply N.Div0.div_lt_upper_bound; lia|].
  apply digits_all; [done|apply N.mod_lt; lia|done].
Qed.

Lemma four_all (p : ascii -> bool) n : (forall e, e < 10 -> p (digit e) = true) -> n < 10000 -> str_all p (four n) = true.
Proof.
  intros Hp Hn. apply digits_all; [done|apply N.Div0.div_lt_upper_bound; lia|].
  apply digits_all; [done|apply N.mod_lt; lia|]. apply two_all; [done|apply N.mod_lt; lia].
Qed.

Definition month_names : list string :=
  ["Jan"; "Feb"; "Mar"; "Apr"; "May"; "Jun"; "Jul"; "Aug"; "Sep"; "Oct"; "Nov"; "Dec"].

(** The preferred form of a date in HTTP. *)
Definition imf_fixdate (weekday month : string) (year day hour minute second : N) : string :=
  weekday ++ ", " ++ two day ++ " " ++ month ++ " " ++ four year ++ " "
    ++ (two hour ++ ":" ++ two minute ++ ":" ++ two second) ++ " GMT".

Lemma digit_not (c : ascii) e : in_range 48 57 (byte_of c) = false -> e < 10 -> negb (Ascii.eqb (digit e) c) = true.
Proof.
  intros Hc He. apply negb_true_iff, Ascii.eqb_neq. intros <-. by rewrite digit_in_range in Hc.
Qed.

Lemma parse_hms_two hour minute second :
  hour < 100 -> minute < 100 -> second < 100 ->
  parse_hms (two hour ++ ":" ++ two minute ++ ":" ++ two second)
    = Some (Z.of_N hour, Z.of_N minute, Z.of_N second).
Proof.
  intros Hh Hm Hs. unfold parse_hms.
  assert (forall n, n < 100 -> str_all (fun d => negb (Ascii.eqb d ":")) (two n) = true) as Ht.
  { intros n Hn. apply two_all; [|done]. intros e. by apply digit_not. }
  change (two hour ++ ":" ++ two minute ++ ":" ++ two second)
    with (two hour ++ String ":" (two minute ++ String ":" (two second))).
  rewrite !split_char_app, split_char_none by auto. by rewrite !parse_two.
Qed.

Lemma parse_date_fields_imf weekday month m year day hour minute second :
  str_all (fun c => negb (Ascii.eqb c ",")) weekday = true ->
  month_names !! m = Some month ->
  year < 10000 -> day < 100 -> hour < 100 -> minute < 100 -> second < 100 ->
  parse_date_fields (imf_fixdate weekday month year day hour minute second) =
    Some (Z.of_N year, Z.of_nat m + 1, Z.of_N day, (Z.of_N hour, Z.of_N minute, Z.of_N second))%Z.
Proof.
  intros Hw Hm Hy Hd Hh Hmi Hs. unfold parse_date_fields, imf_fixdate.
  rewrite <- !string_app_assoc, strip_gmt_app, !string_app_assoc. cbn [mbind option_bind].

  rewrite split_once_comma by done. cbn [mbind option_bind].
  set (hms := two hour ++ ":" ++ two minute ++ ":" ++ two second).
  assert (forall n, n < 10000 -> str_all (fun d => negb (Ascii.eqb d " ")) (four n) = true) as H4.
  { intros n Hn. apply four_all; [|done]. intros e. by apply digit_not. }
  assert (forall n, n < 100 -> str_all (fun d => negb (Ascii.eqb d " ")) (two n) = true) as H2.
  { intros n Hn. apply two_all; [|done]. intros e. by apply digit_not. }
  assert (str_all (fun d => negb (Ascii.eqb d " ")) month = true /\
    month_number month = Some (Z.of_nat m + 1)%Z) as [Hms Hmn].
  { unfold month_names in Hm. do 12 (destruct m as [|m]; [injection Hm as <-; by split|]). by destruct m. }
  change (two day ++ " " ++ month ++ " " ++ four year ++ " " ++ hms)
    with (two day ++ String " " (month ++ String " " (four year ++ String " " hms))).
  rewrite !split_char_app, (split_char_none " " hms) by (auto; unfold hms; rewrite !str_all_app, !H2 by done; done).
  rewrite parse_two, Hmn, parse_four by done. cbn [mbind option_bind]. unfold hms.
  by rewrite parse_hms_two.
Qed.

(** The seconds since 1970 of a date. *)
Definition unix_time (year month day hour minute second : Z) : Z :=
  civil_days year month day * 86400 + hour * 3600 + minute * 60 + second.

Lemma civil_days_bounds year month day :
  (0 <= year <= 9999)%Z -> (1 <= month <= 12)%Z -> (1 <= day <= 31)%Z ->
  (-1000000 <= civil_days year month day <= 10000000)%Z.
Proof.
  intros Hy Hm Hd. rewrite civil_days_floor by lia. unfold days_before_march, day_of_march_year.
  destruct (month <=? 2)%Z, (2 <? month)%Z; Z.to_euclidean_division_equations; lia.
Qed.

Lemma parse_imf_ok {E} value year month day hour minute second :
  parse_date_fields value = Some (year, month, day, (hour, minute, second)) ->
  (0 <= year <= 9999)%Z -> (1 <= month <= 12)%Z -> (1 <= day <= 31)%Z ->
  (0 <= hour <= 23)%Z -> (0 <= minute <= 59)%Z -> (0 <= second <= 60)%Z ->
  parse_imf_fixdate_unix (E := E) value = Ok (Some (unix_time year month day hour minute second)).
Proof.
  intros Hf Hy Hm Hd Hh Hmi Hs. unfold parse_imf_fixdate_unix. rewrite Hf.
  assert (((day <? 1) || (31 <? day) || (23 <? hour) || (59 <? minute) || (60 <? second))%Z = false) as ->.
  { repeat (apply orb_false_iff; split); apply Z.ltb_ge; lia. }
  rewrite days_from_civil_bounded by lia. cbn [outcome_bind]. unfold unix_time.
  pose proof (civil_days_bounds year month day Hy Hm Hd) as Hc.
  revert Hc. generalize (civil_days year month day). intros days Hc.
  do 5 (rewrite i64_ok by (unfold i64_min, i64_max; lia); cbn [outcome_bind]).
  by rewrite i64_ok by (unfold i64_min, i64_max; lia).
Qed.

(** a [Retry-After] with a date in the preferred form of HTTP gives the time from
    now to that date, zero when it has passed. *)
Theorem retry_after_date `{ClientSystem} weekday month m year day hour minute second now :
  weekday ∈ ["Mon"; "Tue"; "Wed"; "Thu"; "Fri"; "Sat"; "Sun"] ->
  month_names !! m = Some month ->
  year < 10000 -> 1 <= day <= 31 -> hour < 24 -> minute < 60 -> second <= 60 ->
  unix_now = Some now -> (Z.of_N now <= i64_max)%Z ->
  parse_retry_after (E := ClientError.t) (imf_fixdate weekday month year day hour minute second) =
    Ok (Some (Z.to_N (unix_time (Z.of_N year) (Z.of_nat m + 1) (Z.of_N day) (Z.of_N hour)
                        (Z.of_N minute) (Z.of_N second) - Z.of_N now) * 1000000000)).
Proof.
  intros Hw Hm Hy Hd Hh Hmi Hs Hnow Hu. set (value := imf_fixdate _ _ _ _ _ _ _).
  assert (parse_date_fields value = Some (Z.of_N year, Z.of_nat m + 1, Z.of_N day,
    (Z.of_N hour, Z.of_N minute, Z.of_N second))%Z) as Hf.
  { apply parse_date_fields_imf; [|done|lia..]. revert Hw.
    rewrite !elem_of_cons. intros Hw. by repeat destruct Hw as [->|Hw]; [..|apply not_elem_of_nil in Hw]. }
  assert (exists c r, weekday = String c r /\ is_whitespace c = false /\ in_range 48 57 (byte_of c) = false /\
    (byte_of c =? 43) = false) as (c & r & -> & Hws & Hdig & Hplus).
  { revert Hw. rewrite !elem_of_cons. intros Hw.
    repeat destruct Hw as [->|Hw]; [..|by apply not_elem_of_nil in Hw]; by do 2 eexists. }
  unfold parse_retry_after.
  assert (exists body, value = String c body ++ " GMT") as [body Hv].
  { eexists. unfold value, imf_fixdate. rewrite <- !string_app_assoc. reflexivity. }
  assert (trim value = value) as ->.
  { rewrite Hv. unfold trim. cbn [String.append]. rewrite trim_start_solid by done.
    change (trim_end (String c body ++ " GMT") = String c body ++ " GMT"). by rewrite trim_end_app. }
  assert (parse_u64 value = None) as ->.
  { rewrite Hv. unfold parse_u64. cbn [String.append]. rewrite Hplus. cbn [is_empty parse_digits]. by rewrite Hdig. }
  assert (is_empty value = false) as -> by by rewrite Hv.
  unfold parse_retry_after_date. erewrite parse_imf_ok; [|exact Hf|lia|..]; [|pose proof (lookup_lt_Some _ _ _ Hm) as Hl; cbn in Hl; lia|lia..].
  cbn [outcome_bind]. rewrite Hnow. do 3 f_equal.
  unfold as_i64. rewrite (proj2 (Z.leb_le _ _)) by done.
  pose proof (civil_days_bounds (Z.of_N year) (Z.of_nat m + 1) (Z.of_N day)) as Hc.
  unfold saturating_sub_i64, i64_min, i64_max, unix_time in *.
  pose proof (lookup_lt_Some _ _ _ Hm) as Hl. cbn in Hl. lia.
Qed.

(** dates that are not real can make the client panic, or be accepted: a date with a
    year beyond the range of [i64] arithmetic overflows it, and negative clock fields
    pass the range checks although only fixed-width dates are meant to. *)
Theorem retry_after_dates_unchecked `{ClientSystem} now :
  parse_retry_after (E := ClientError.t) "Sun, 06 Nov 99999999999999999 08:49:37 GMT" = Panic /\
  (unix_now = Some now ->
   exists d, parse_retry_after (E := ClientError.t) ", +6 Nov 94 -8:-49:-37 GMT" = Ok (Some d)).
Proof.
  split; [reflexivity|]. intros Hnow. eexists.
  unfold parse_retry_after, parse_retry_after_date. cbn. rewrite Hnow. reflexivity.
Qed.
