(* ===== verification/Client.v ===== *)
(** * The upload client ([tus-uploader/src/{client,transport}.rs], [client/{protocol,handle}.rs])

    Requests of the client and what it makes of their responses.  The transport and
    the server behind it are a parameter with a state of its own ([Transport]); the
    world of a client adds the capabilities shared by its clones, the log of its
    requests and of what it reported to its caller, and how often the header provider
    and the retry hook were called, delays computed and sources read. *)

From S2P Require Import Prelude Text Errors Crates Config State Headers ClientError ClientHelpers.
Local Open Scope string_scope.
Local Open Scope N_scope.
Local Open Scope prog_scope.

(** ** Requests *)

Module Method.
Inductive t := OPTIONS | POST | HEAD | PATCH | DELETE.

#[global] Instance eq_dec : EqDecision t.
Proof. solve_decision. Defined.
End Method.

Module TransportBody.
Inductive t :=
| Empty
| Bytes (body : bytes)
| BytesWithTrailer (body : bytes) (trailer_name trailer_value : string).

Definition bytes_of (b : t) : bytes :=
  match b with Empty => [] | Bytes body => body | BytesWithTrailer body _ _ => body end.
End TransportBody.

Record TransportRequest `{HttpLib} := mkTransportRequest {
  tr_method : Method.t;
  tr_uri : string;
  tr_headers : HeaderMap;
  tr_body : TransportBody.t;
}.

Definition with_headers_mut `{HttpLib} (f : HeaderMap -> HeaderMap) (r : TransportRequest)
    : TransportRequest :=
  mkTransportRequest _ (tr_method r) (tr_uri r) (f (tr_headers r)) (tr_body r).
Definition with_body_mut `{HttpLib} (b : TransportBody.t) (r : TransportRequest) : TransportRequest :=
  mkTransportRequest _ (tr_method r) (tr_uri r) (tr_headers r) b.

(** [trait Transport], and all that lies behind it. *)
Class Transport `{HttpLib} := {
  TransportState : Type;
  transport_send : TransportRequest -> TransportState ->
    (ClientError.t + ClientResponse) * TransportState;
}.

(** ** Uploads and capabilities *)

Record ServerCapabilities := {
  sc_versions : list string;
  sc_max_size : option N;
  sc_extensions : list string;
  sc_checksum_algorithms : list string;
}.

Definition eq_ignore_ascii_case (a b : string) : bool := String.eqb (to_lowercase a) (to_lowercase b).

Definition sc_has_extension (c : ServerCapabilities) (name : string) : bool :=
  existsb (fun e => eq_ignore_ascii_case e name) (sc_extensions c).

Definition supports_extension (c : ServerCapabilities) (extension : Extension.t) : bool :=
  sc_has_extension c (Extension.as_str extension).

Definition supports_version (c : ServerCapabilities) (version : string) : bool :=
  existsb (fun v => eq_ignore_ascii_case v version) (sc_versions c).

Record UploadInfo `{UrlLib} := mkUploadInfo {
  ui_url : WebUrl;
  ui_offset : N;
  ui_length : option N;
  ui_metadata : UploadMetadata;
}.

Inductive NewUploadContent := Length (length : N) | Body (body : bytes).

Record NewUpload := {
  nu_metadata : UploadMetadata;
  nu_content : NewUploadContent;
  nu_partial : bool;
}.

Definition NewUpload_new (length : N) (metadata : UploadMetadata) : NewUpload :=
  {| nu_metadata := metadata; nu_content := Length length; nu_partial := false |}.
Definition NewUpload_with_body (body : bytes) (metadata : UploadMetadata) : NewUpload :=
  {| nu_metadata := metadata; nu_content := Body body; nu_partial := false |}.
Definition NewUpload_partial (u : NewUpload) : NewUpload :=
  {| nu_metadata := nu_metadata u; nu_content := nu_content u; nu_partial := true |}.

Module ChecksumMode.
Inductive t := Header (a : ChecksumAlgorithm.t) | Trailer (a : ChecksumAlgorithm.t).
Definition algorithm (m : t) : ChecksumAlgorithm.t := match m with Header a | Trailer a => a end.
Definition from (a : ChecksumAlgorithm.t) : t := Header a.
End ChecksumMode.

(** ** The client *)

(** The header provider and the retry hook are told how often they were called. *)
Record Client `{UrlLib} `{HttpLib} := mkClient {
  cl_endpoint : WebUrl;
  cl_headers : HeaderMap;
  cl_max_retries : N;
  cl_retry_delay : Duration;
  cl_max_chunk_size : N;
  cl_max_initial_upload_size : N;
  cl_checksum : option ChecksumMode.t;
  cl_header_provider : option (nat -> ClientError.t + HeaderMap);
  cl_retry_hook : option (nat -> N -> ClientError.t -> bool);
  cl_restrict_to_endpoint_origin : bool;
}.

(** What the parts of a parallel upload share ([ParallelProgressState]), and what each
    of them keeps to itself ([PartProgress], and the URL of [upload_parallel_part]). *)
Record PartCell := mkPartCell {
  pc_last : N;
  pc_created_url : option string;
}.

Record ParallelState := mkParallelState {
  ps_uploaded : N;
  ps_reported : N;
  ps_parts : list PartCell;
}.

Definition no_parallel : ParallelState := mkParallelState 0 0 [].

Record ClientWorld `{Transport} := mkClientWorld {
  cw_transport : TransportState;
  cw_capabilities : option ServerCapabilities;
  cw_sent : list TransportRequest;
  cw_progress : list (N * N);
  cw_slept : list Duration;
  cw_provided : nat;
  cw_consulted : nat;
  cw_draws : nat;
  cw_reads : nat;
  cw_parallel : ParallelState;
}.

Section configuration.
Context `{UrlLib} `{HttpLib}.
Local Abbreviation mk := (mkClient _ _).

Definition with_transport (endpoint : WebUrl) : Client :=
  mk endpoint header_map_new 3 200000000 (8 * 1024 * 1024) (256 * 1024) None None None false.

Definition with_headers (h : HeaderMap) (c : Client) : Client :=
  mk (cl_endpoint c) h (cl_max_retries c) (cl_retry_delay c) (cl_max_chunk_size c)
    (cl_max_initial_upload_size c) (cl_checksum c) (cl_header_provider c) (cl_retry_hook c)
    (cl_restrict_to_endpoint_origin c).
Definition with_endpoint_origin_restriction (c : Client) : Client :=
  mk (cl_endpoint c) (cl_headers c) (cl_max_retries c) (cl_retry_delay c) (cl_max_chunk_size c)
    (cl_max_initial_upload_size c) (cl_checksum c) (cl_header_provider c) (cl_retry_hook c) true.
Definition with_max_retries (n : N) (c : Client) : Client :=
  mk (cl_endpoint c) (cl_headers c) n (cl_retry_delay c) (cl_max_chunk_size c)
    (cl_max_initial_upload_size c) (cl_checksum c) (cl_header_provider c) (cl_retry_hook c)
    (cl_restrict_to_endpoint_origin c).
Definition with_retry_delay (d : Duration) (c : Client) : Client :=
  mk (cl_endpoint c) (cl_headers c) (cl_max_retries c) d (cl_max_chunk_size c)
    (cl_max_initial_upload_size c) (cl_checksum c) (cl_header_provider c) (cl_retry_hook c)
    (cl_restrict_to_endpoint_origin c).
Definition client_with_max_chunk_size (n : N) (c : Client) : Client :=
  mk (cl_endpoint c) (cl_headers c) (cl_max_retries c) (cl_retry_delay c) (N.max n 1)
    (cl_max_initial_upload_size c) (cl_checksum c) (cl_header_provider c) (cl_retry_hook c)
    (cl_restrict_to_endpoint_origin c).
Definition with_max_initial_upload_size (n : N) (c : Client) : Client :=
  mk (cl_endpoint c) (cl_headers c) (cl_max_retries c) (cl_retry_delay c) (cl_max_chunk_size c)
    n (cl_checksum c) (cl_header_provider c) (cl_retry_hook c) (cl_restrict_to_endpoint_origin c).
Definition client_with_checksum (m : ChecksumMode.t) (c : Client) : Client :=
  mk (cl_endpoint c) (cl_headers c) (cl_max_retries c) (cl_retry_delay c) (cl_max_chunk_size c)
    (cl_max_initial_upload_size c) (Some m) (cl_header_provider c) (cl_retry_hook c)
    (cl_restrict_to_endpoint_origin c).
Definition with_header_provider (p : nat -> ClientError.t + HeaderMap) (c : Client) : Client :=
  mk (cl_endpoint c) (cl_headers c) (cl_max_retries c) (cl_retry_delay c) (cl_max_chunk_size c)
    (cl_max_initial_upload_size c) (cl_checksum c) (Some p) (cl_retry_hook c)
    (cl_restrict_to_endpoint_origin c).
Definition with_retry_hook (f : nat -> N -> ClientError.t -> bool) (c : Client) : Client :=
  mk (cl_endpoint c) (cl_headers c) (cl_max_retries c) (cl_retry_delay c) (cl_max_chunk_size c)
    (cl_max_initial_upload_size c) (cl_checksum c) (cl_header_provider c) (Some f)
    (cl_restrict_to_endpoint_origin c).
End configuration.

Section requests.
Context `{UrlLib} `{HttpClientLib} `{!Transport} `{ClientSystem, Base64, Digests, HashOrder}.
Local Abbreviation W := ClientWorld.
Local Abbreviation mkW := (mkClientWorld _ _).

(** [provider.headers().await?] *)
Definition provided_headers (provider : nat -> ClientError.t + HeaderMap) : CM W HeaderMap :=
  try_act (fun w =>
    (match provider (cw_provided w) with inr headers => Ok headers | inl e => Err e end,
     mkW (cw_transport w) (cw_capabilities w) (cw_sent w) (cw_progress w) (cw_slept w)
       (Datatypes.S (cw_provided w)) (cw_consulted w) (cw_draws w) (cw_reads w) (cw_parallel w))).

(** [self.transport.send(request).await?] *)
Definition send (request : TransportRequest) : CM W ClientResponse :=
  try_act (fun w =>
    let '(answer, t) := transport_send request (cw_transport w) in
    (match answer with inr response => Ok response | inl e => Err e end,
     mkW t (cw_capabilities w) (cw_sent w ++ [request])%list (cw_progress w) (cw_slept w)
       (cw_provided w) (cw_consulted w) (cw_draws w) (cw_reads w) (cw_parallel w))).

Definition append_headers (defaults : HeaderMap) (headers : HeaderMap) : HeaderMap :=
  foldl (fun h nv => header_append nv.1 nv.2 h) headers (header_iter defaults).
Definition insert_headers (dynamic : HeaderMap) (headers : HeaderMap) : HeaderMap :=
  foldl (fun h nv => header_insert nv.1 nv.2 h) headers (header_iter dynamic).

(** Building a request from a typed method and URI does not fail. *)
Definition request (c : Client) (method : Method.t) (url : string) : CM W TransportRequest :=
  let! url := of_outcome match weburl_parse url with
                         | inr url => Ok url
                         | inl e => Err (ClientError.Url e)
                         end in
  let! uri := of_outcome match uri_parse (weburl_as_str url) with
                         | inr _ => Ok (weburl_as_str url)
                         | inl e => Err (ClientError.transport_permanent
                             ("invalid transport URI " ++ weburl_as_str url ++ ": " ++ e))
                         end in
  let headers := append_headers (cl_headers c) header_map_new in
  let! headers :=
    match cl_header_provider c with
    | Some provider =>
        let! dynamic := provided_headers provider in
        ret (insert_headers dynamic headers)
    | None => ret headers
    end in
  ret (mkTransportRequest _ method uri
         (header_insert "tus-resumable" (header_value_from_static TUS_RESUMABLE) headers)
         TransportBody.Empty).

Definition known_capabilities : CM W (option ServerCapabilities) :=
  act (fun w => (cw_capabilities w, w)).

Definition store_capabilities (c : ServerCapabilities) : CM W unit :=
  act (fun w => (tt, mkW (cw_transport w) (Some c) (cw_sent w) (cw_progress w) (cw_slept w)
                       (cw_provided w) (cw_consulted w) (cw_draws w) (cw_reads w) (cw_parallel w))).

Definition insert_request_header (name value : string) (r : TransportRequest)
    : cresult TransportRequest :=
  match header_name_try_from name with
  | None => Err (ClientError.InvalidRequestHeader name value)
  | Some header_name =>
      match header_value_from_str value with
      | inl _ => Err (ClientError.InvalidRequestHeader header_name value)
      | inr header_value => Ok (with_headers_mut (header_insert header_name header_value) r)
      end
  end.

Definition checksum_value (algorithm : ChecksumAlgorithm.t) (body : bytes) : string :=
  ChecksumAlgorithm.as_str algorithm ++ " " ++ encode_checksum algorithm body.

Definition apply_checksum (c : Client) (r : TransportRequest) (body : bytes)
    : cresult TransportRequest :=
  match cl_checksum c with
  | None => Ok (with_body_mut (TransportBody.Bytes body) r)
  | Some (ChecksumMode.Header algorithm) =>
      match header_value_from_str (checksum_value algorithm body) with
      | inl _ => Err (ClientError.InvalidRequestHeader "Upload-Checksum" (encode_checksum algorithm body))
      | inr value =>
          Ok (with_body_mut (TransportBody.Bytes body)
                (with_headers_mut (header_insert "upload-checksum" value) r))
      end
  | Some (ChecksumMode.Trailer algorithm) =>
      Ok (with_body_mut
            (TransportBody.BytesWithTrailer body "upload-checksum" (checksum_value algorithm body))
            (with_headers_mut
               (header_insert "trailer" (header_value_from_static "upload-checksum")) r))
  end.

Definition apply_creation_checksum (c : Client) (r : TransportRequest) (body : bytes)
    : CM W TransportRequest :=
  let! capabilities := known_capabilities in
  let server_advertises_checksum :=
    match capabilities with
    | Some capabilities => sc_has_extension capabilities "checksum"
    | None => false
    end in
  of_outcome (if server_advertises_checksum then apply_checksum c r body
              else Ok (with_body_mut (TransportBody.Bytes body) r)).

(** [Err(unexpected_response(operation, response).await)] *)
Definition unexpected {A} (operation : string) (response : ClientResponse) : CM W A :=
  let! e := of_outcome (unexpected_response operation response) in
  throw e.

(** ** [OPTIONS] *)

Definition csv_header (headers : HeaderMap) (name : string) : list string :=
  match get_str headers name with Some value => parse_csv_header value | None => [] end.

Definition fetch_server_capabilities (c : Client) : CM W ServerCapabilities :=
  let! req := request c Method.OPTIONS (weburl_as_str (cl_endpoint c)) in
  let req := with_headers_mut (header_remove "tus-resumable") req in
  let! response := send req in
  if negb (cr_status response =? 200) && negb (cr_status response =? 204)
  then unexpected "server capabilities" response
  else
    let versions := csv_header (cr_headers response) "tus-version" in
    match versions with
    | [] => throw (ClientError.MissingHeader "Tus-Version")
    | _ =>
        let! max_size :=
          of_outcome (optional_header_u64 (cr_headers response) "tus-max-size" "Tus-Max-Size") in
        ret {| sc_versions := versions; sc_max_size := max_size;
               sc_extensions := csv_header (cr_headers response) "tus-extension";
               sc_checksum_algorithms := csv_header (cr_headers response) "tus-checksum-algorithm" |}
    end.

Definition server_capabilities (c : Client) : CM W ServerCapabilities :=
  let! known := known_capabilities in
  match known with
  | Some capabilities => ret capabilities
  | None =>
      let! capabilities := fetch_server_capabilities c in
      do! store_capabilities capabilities in
      ret capabilities
  end.

(** ** Creation *)

Definition resolve_server_location (c : Client) (location : string) : cresult WebUrl :=
  let? url := resolve_upload_location (cl_endpoint c) location in
  if cl_restrict_to_endpoint_origin c && negb (same_origin url (cl_endpoint c))
  then Err (ClientError.CrossOriginLocation (origin_serialization (cl_endpoint c)) (weburl_as_str url))
  else Ok url.

(** The headers of a creation, in the order they are inserted. *)
Definition creation_headers (length : N) (has_body : bool) (metadata : UploadMetadata) (partial : bool)
    (r : TransportRequest) : cresult TransportRequest :=
  let? r := insert_request_header "upload-length" (u64_to_string length) r in
  let? r := if has_body then insert_request_header "content-type" OFFSET_OCTET_STREAM r else Ok r in
  let? encoded_metadata := encode_metadata metadata in
  let? r := if is_empty encoded_metadata then Ok r
            else insert_request_header "upload-metadata" encoded_metadata r in
  if partial then insert_request_header "upload-concat" "partial" r else Ok r.

(** The headers and the body of a creation. *)
Definition creation_request (c : Client) (length : N) (body : option bytes) (metadata : UploadMetadata)
    (partial : bool) (r : TransportRequest) : CM W TransportRequest :=
  let has_body := match body with Some _ => true | None => false end in
  let! r := of_outcome (creation_headers length has_body metadata partial r) in
  match body with Some body => apply_creation_checksum c r body | None => ret r end.

Definition create_upload_request (c : Client) (length : N) (body : option bytes)
    (metadata : UploadMetadata) (partial : bool) : CM W UploadInfo :=
  let has_body := match body with Some _ => true | None => false end in
  let! r := request c Method.POST (weburl_as_str (cl_endpoint c)) in
  let! r := creation_request c length body metadata partial r in
  let! response := send r in
  if negb (cr_status response =? 201)
  then unexpected (if has_body then "create upload with body" else "create upload") response
  else
    let! location := of_outcome (header_string (cr_headers response) "location" "Location") in
    let! url := of_outcome (resolve_server_location c location) in
    let! offset :=
      of_outcome
        (if has_body
         then let? offset := header_u64 (cr_headers response) "upload-offset" "Upload-Offset" in
              check? validate_offset_not_beyond_source offset length in
              Ok offset
         else Ok 0) in
    ret (mkUploadInfo _ url offset (Some length) metadata).

Definition create_upload_info (c : Client) (upload : NewUpload) : CM W UploadInfo :=
  match nu_content upload with
  | Length length => create_upload_request c length None (nu_metadata upload) (nu_partial upload)
  | Body body =>
      create_upload_request c (bytes_len body) (Some body) (nu_metadata upload) (nu_partial upload)
  end.

(** ** Existing uploads *)

Definition upload_info_at (c : Client) (upload_url : WebUrl) : CM W UploadInfo :=
  let! r := request c Method.HEAD (weburl_as_str upload_url) in
  let! response := send r in
  if negb (cr_status response =? 200) && negb (cr_status response =? 204)
  then unexpected "upload info" response
  else
    let! offset := of_outcome (header_u64 (cr_headers response) "upload-offset" "Upload-Offset") in
    let! length :=
      of_outcome (optional_header_u64 (cr_headers response) "upload-length" "Upload-Length") in
    let! metadata := of_outcome (decode_metadata (header_get (cr_headers response) "upload-metadata")) in
    ret (mkUploadInfo _ upload_url offset length metadata).

Definition terminate_upload_at (c : Client) (upload_url : WebUrl) : CM W unit :=
  let! r := request c Method.DELETE (weburl_as_str upload_url) in
  let! response := send r in
  if negb (cr_status response =? 204) then unexpected "terminate upload" response else ret tt.

(** The headers and the body of a chunk. *)
Definition chunk_request (c : Client) (chunk : bytes) (offset : N) (r : TransportRequest)
    : cresult TransportRequest :=
  let? r := insert_request_header "upload-offset" (u64_to_string offset) r in
  let? r := insert_request_header "content-type" OFFSET_OCTET_STREAM r in
  apply_checksum c r chunk.

Definition send_upload_chunk_at (c : Client) (upload_url : WebUrl) (chunk : bytes) (offset : N)
    (operation : string) : CM W N :=
  let! r := request c Method.PATCH (weburl_as_str upload_url) in
  let! r := of_outcome (chunk_request c chunk offset r) in
  let! response := send r in
  if negb (cr_status response =? 204) then unexpected operation response
  else of_outcome (header_u64 (cr_headers response) "upload-offset" "Upload-Offset").

Definition upload_chunk_at (c : Client) (upload_url : WebUrl) (chunk : bytes) (offset : N) : CM W N :=
  send_upload_chunk_at c upload_url chunk offset "upload chunk".

Fixpoint resolve_part_urls (c : Client) (part_urls : list string) : cresult (list string) :=
  match part_urls with
  | [] => Ok []
  | url :: part_urls =>
      let? url := resolve_upload_location (cl_endpoint c) url in
      let? urls := resolve_part_urls c part_urls in
      Ok (weburl_as_str url :: urls)
  end.

Definition concat_request (part_urls : list string) (metadata : UploadMetadata) (r : TransportRequest)
    : cresult TransportRequest :=
  let? r := insert_request_header "upload-concat" ("final;" ++ str_join " " part_urls) r in
  let? encoded_metadata := encode_metadata metadata in
  if is_empty encoded_metadata then Ok r
  else insert_request_header "upload-metadata" encoded_metadata r.

Definition concatenate_uploads (c : Client) (part_urls : list string) (metadata : UploadMetadata)
    : CM W UploadInfo :=
  let! part_urls := of_outcome (resolve_part_urls c part_urls) in
  let! r := request c Method.POST (weburl_as_str (cl_endpoint c)) in
  let! r := of_outcome (concat_request part_urls metadata r) in
  let! response := send r in
  if negb (cr_status response =? 201) then unexpected "concatenate uploads" response
  else
    let! location := of_outcome (header_string (cr_headers response) "location" "Location") in
    let! final_url := of_outcome (resolve_server_location c location) in
    upload_info_at c final_url.

(** ** [Upload] handles: a client and a URL *)

Definition upload_at (c : Client) (upload_url : string) : cresult WebUrl :=
  resolve_upload_url (cl_endpoint c) upload_url.

Definition create_upload (c : Client) (upload : NewUpload) : CM W (WebUrl * UploadInfo) :=
  let! info := create_upload_info c upload in
  let! handle := of_outcome (upload_at c (weburl_as_str (ui_url info))) in
  ret (handle, info).
End requests.
