(* ===== verification/ClientUpload.v ===== *)
(** * Uploads of the client ([tus-uploader/src/client/upload.rs])

    Sources, the loop that sends a source in chunks, the loop that resumes an upload
    after failures, and uploads from scratch.  [usize] has 64 bits. *)

From S2P Require Import Prelude Text Crates Config State Headers ClientError ClientHelpers Client.
Local Open Scope string_scope.
Local Open Scope N_scope.
Local Open Scope prog_scope.

(** ** Sources *)

(** [trait UploadSource]; a read is told how many reads there were before. *)
Record UploadSource := {
  src_len : N;
  src_read_chunk : nat -> N -> N -> ClientError.t + bytes;
}.

(** [impl UploadSource for Vec<u8>] *)
Definition vec_read_chunk (v : bytes) (offset max_len : N) : bytes :=
  if bytes_len v <? offset then []
  else
    let bytes := drop (N.to_nat offset) v in
    take (N.to_nat (N.min (bytes_len bytes) max_len)) bytes.

Definition VecSource (v : bytes) : UploadSource := {|
  src_len := bytes_len v;
  src_read_chunk := fun _ offset max_len => inr (vec_read_chunk v offset max_len);
|}.

(** An open file, as the n-th read finds it: its length, and what a [read] into a
    buffer of that size returns after a seek. *)
Class TokioFile := {
  file_len : nat -> string + N;
  file_seek : nat -> N -> string + unit;
  file_read : nat -> N -> N -> string + bytes;
}.

Record FileSource := { fs_len : N; fs_path : string }.

Definition file_read_chunk `{TokioFile} (f : FileSource) (n : nat) (offset max_len : N)
    : ClientError.t + bytes :=
  if max_len =? 0 then inr []
  else
    match file_len n with
    | inl e => inl (ClientError.Io e)
    | inr current_len =>
        if negb (current_len =? fs_len f)
        then inl (ClientError.source ("file " ++ fs_path f ++ " changed length from "
               ++ u64_to_string (fs_len f) ++ " to " ++ u64_to_string current_len ++ " after open"))
        else
          match file_seek n offset with
          | inl e => inl (ClientError.Io e)
          | inr _ =>
              match file_read n offset max_len with
              | inl e => inl (ClientError.Io e)
              | inr bytes => inr bytes
              end
          end
    end.

(** [FileSource::open] of a file that could be opened. *)
Definition FileSource_open `{TokioFile} (path : string) : cresult FileSource :=
  match file_len 0 with
  | inl e => Err (ClientError.Io e)
  | inr len => Ok {| fs_len := len; fs_path := path |}
  end.

Definition FileSource_source `{TokioFile} (f : FileSource) : UploadSource := {|
  src_len := fs_len f;
  src_read_chunk := file_read_chunk f;
|}.

(** [validate_remote_for_resume] *)
Definition validate_remote_for_resume `{UrlLib} (remote : UploadInfo) (file_length : N) : cresult unit :=
  validate_remote_offset (ui_offset remote) (ui_length remote) file_length.

Section upload.
Context `{UrlLib} `{HttpClientLib} `{!Transport} `{ClientSystem, Base64, Digests, HashOrder}.
Local Abbreviation W := ClientWorld.
Local Abbreviation mkW := (mkClientWorld _ _).

(** [impl UploadProgress]: what is called when the remote offset advances. *)
Local Abbreviation Progress := (N -> N -> CM W unit).

(** A caller's reporter, which sees every call in order. *)
Definition report : Progress := fun uploaded total =>
  act (fun w => (tt, mkW (cw_transport w) (cw_capabilities w) (cw_sent w)
    (cw_progress w ++ [(uploaded, total)])%list (cw_slept w) (cw_provided w) (cw_consulted w)
    (cw_draws w) (cw_reads w) (cw_parallel w))).

Definition NoopProgress : Progress := fun _ _ => ret tt.

Definition read_chunk (source : UploadSource) (offset max_len : N) : CM W bytes :=
  try_act (fun w =>
    (match src_read_chunk source (cw_reads w) offset max_len with
     | inr bytes => Ok bytes
     | inl e => Err e
     end,
     mkW (cw_transport w) (cw_capabilities w) (cw_sent w) (cw_progress w) (cw_slept w)
       (cw_provided w) (cw_consulted w) (cw_draws w) (Datatypes.S (cw_reads w)) (cw_parallel w))).

Definition oversized_read (returned requested : N) : ClientError.t :=
  ClientError.source ("source returned " ++ u64_to_string returned ++ " bytes for a "
    ++ u64_to_string requested ++ "-byte read").

(** The loop of [read_source_exact]; every read fills at least one byte. *)
Fixpoint read_loop (fuel : nat) (source : UploadSource) (offset capacity : N) (body : bytes)
    : CM W bytes :=
  if capacity <=? bytes_len body then ret body
  else
    match fuel with
    | O => panic
    | S fuel =>
        let current := offset + bytes_len body in
        let remaining := capacity - bytes_len body in
        let! chunk := read_chunk source current remaining in
        if bytes_len chunk =? 0
        then throw (ClientError.OffsetBeyondSource current (src_len source))
        else if remaining <? bytes_len chunk then throw (oversized_read (bytes_len chunk) remaining)
        else read_loop fuel source offset capacity (body ++ chunk)%list
    end.

(** The largest [Vec]; a greater capacity panics. *)
Definition isize_max : N := 9223372036854775807.

Definition read_source_exact (source : UploadSource) (offset length : N) : CM W bytes :=
  if isize_max <? length then panic
  else read_loop (N.to_nat length) source offset length [].

(** ** Sending *)

(** One round of [patch_source]: the next chunk is sent, and the new offset checked. *)
Definition patch_round (c : Client) (upload_url : WebUrl) (source : UploadSource)
    (total_length : N) (progress : Progress) (sent remaining : N) : CM W N :=
  let chunk_len := N.min remaining (cl_max_chunk_size c) in
  let! chunk := read_chunk source sent chunk_len in
  if bytes_len chunk =? 0 then throw (ClientError.OffsetBeyondSource sent total_length)
  else if chunk_len <? bytes_len chunk then throw (oversized_read (bytes_len chunk) chunk_len)
  else
    let! new_offset := send_upload_chunk_at c upload_url chunk sent "patch upload" in
    do! of_outcome (validate_patch_advance sent new_offset (bytes_len chunk) total_length) in
    do! progress new_offset total_length in
    ret new_offset.

(** The loop of [patch_source]; every round advances [sent]. *)
Fixpoint patch_loop (fuel : nat) (c : Client) (upload_url : WebUrl) (source : UploadSource)
    (total_length : N) (progress : Progress) (sent remaining : N) : CM W unit :=
  if remaining =? 0 then ret tt
  else
    match fuel with
    | O => panic
    | S fuel =>
        let! new_offset := patch_round c upload_url source total_length progress sent remaining in
        patch_loop fuel c upload_url source total_length progress new_offset
          (saturating_sub total_length new_offset)
    end.

(** [total_length - offset] panics below zero. *)
Definition patch_source (c : Client) (upload_url : WebUrl) (source : UploadSource)
    (offset total_length : N) (progress : Progress) : CM W unit :=
  if total_length <? offset then panic
  else
    patch_loop (N.to_nat (total_length - offset)) c upload_url source total_length progress offset
      (total_length - offset).

(** ** Resuming *)

Definition consult_retry_hook (c : Client) (attempt : N) (error : ClientError.t) : CM W unit :=
  match cl_retry_hook c with
  | None => ret tt
  | Some hook =>
      try_act (fun w =>
        (if hook (cw_consulted w) attempt error then Ok tt else Err error,
         mkW (cw_transport w) (cw_capabilities w) (cw_sent w) (cw_progress w) (cw_slept w)
           (cw_provided w) (Datatypes.S (cw_consulted w)) (cw_draws w) (cw_reads w) (cw_parallel w)))
  end.

Definition sleep_before_retry (c : Client) (retry_after : option Duration) (attempt : N) : CM W unit :=
  act (fun w =>
    (tt, mkW (cw_transport w) (cw_capabilities w) (cw_sent w) (cw_progress w)
           (cw_slept w ++ [next_retry_delay (cw_draws w) retry_after (cl_retry_delay c) attempt])%list
           (cw_provided w) (cw_consulted w) (Datatypes.S (cw_draws w)) (cw_reads w) (cw_parallel w))).

(** What a round of the loop leaves: the upload is done, or the number of attempts and
    the greatest offset observed. *)
Definition RoundEnd : Type := UploadInfo + N * option N.

(** The round fails with [error], or is followed by another attempt. *)
Definition retry (c : Client) (attempt_no : N) (last : option N) (error : ClientError.t)
    : CM W RoundEnd :=
  do! consult_retry_hook c (attempt_no + 1) error in
  do! sleep_before_retry c (ClientError.retry_after error) attempt_no in
  ret (inr (attempt_no + 1, last)).

(** What is left of a round once the state of the upload is known. *)
Definition resume_known (c : Client) (upload_url : WebUrl) (source : UploadSource) (progress : Progress)
    (attempt_no : N) (last_observed_offset : option N) (remote : UploadInfo) : CM W RoundEnd :=
  let source_length := src_len source in
  do! of_outcome (validate_remote_for_resume remote source_length) in
  if ui_offset remote =? source_length then ret (inl remote)
  else
    let attempt_no :=
      match last_observed_offset with
      | Some previous => if previous <? ui_offset remote then 0 else attempt_no
      | None => attempt_no
      end in
    let last_observed_offset :=
      Some match last_observed_offset with
           | Some previous => N.max previous (ui_offset remote)
           | None => ui_offset remote
           end in
    let! patch_result :=
      attempt (patch_source c upload_url source (ui_offset remote) source_length progress) in
    match patch_result with
    | inr _ =>
        ret (inl (mkUploadInfo _ upload_url source_length (ui_length remote) (ui_metadata remote)))
    | inl error =>
        if negb (ClientError.is_retryable error) then throw error
        else if attempt_no =? cl_max_retries c then
          let! remote := upload_info_at c upload_url in
          do! of_outcome (validate_remote_for_resume remote source_length) in
          if ui_offset remote =? source_length then ret (inl remote) else throw error
        else retry c attempt_no last_observed_offset error
    end.

(** One round of the loop of [resume_at_with_progress_from]. *)
Definition resume_round (c : Client) (upload_url : WebUrl) (source : UploadSource) (progress : Progress)
    (attempt_no : N) (last_observed_offset : option N) (created : option UploadInfo) : CM W RoundEnd :=
  match created with
  | Some remote => resume_known c upload_url source progress attempt_no last_observed_offset remote
  | None =>
      let! found := attempt (upload_info_at c upload_url) in
      match found with
      | inr remote => resume_known c upload_url source progress attempt_no last_observed_offset remote
      | inl error =>
          if negb (ClientError.is_retryable error) || (attempt_no =? cl_max_retries c)
          then throw error
          else retry c attempt_no last_observed_offset error
      end
  end.

(** [None] when out of fuel. *)
Fixpoint resume_loop (fuel : nat) (c : Client) (upload_url : WebUrl) (source : UploadSource)
    (progress : Progress) (attempt_no : N) (last_observed_offset : option N) (created : option UploadInfo)
    : CM W (option UploadInfo) :=
  match fuel with
  | O => ret None
  | S fuel =>
      let! ended :=
        resume_round c upload_url source progress attempt_no last_observed_offset created in
      match ended with
      | inl info => ret (Some info)
      | inr (attempt_no, last) =>
          resume_loop fuel c upload_url source progress attempt_no last None
      end
  end.

(** Attempts without progress times the offsets that can be observed. *)
Definition resume_fuel (c : Client) (source_length : N) : nat :=
  N.to_nat ((source_length + 2) * (cl_max_retries c + 1)).

Definition resume_at_with_progress_from (c : Client) (upload_url : WebUrl) (source : UploadSource)
    (progress : Progress) (created : option UploadInfo) : CM W UploadInfo :=
  let! done := resume_loop (resume_fuel c (src_len source)) c upload_url source progress 0 None created in
  match done with
  | Some info => ret info
  | None => panic
  end.

Definition resume_at_with_progress (c : Client) (upload_url : WebUrl) (source : UploadSource)
    (progress : Progress) : CM W UploadInfo :=
  resume_at_with_progress_from c upload_url source progress None.

Definition resume_at (c : Client) (upload_url : WebUrl) (source : UploadSource) : CM W UploadInfo :=
  resume_at_with_progress c upload_url source NoopProgress.

(** ** New uploads *)

(** [matches!(&error, Error::UnexpectedResponse { status, .. } if ..)] *)
Definition is_auth_failure (e : ClientError.t) : bool :=
  match e with
  | ClientError.UnexpectedResponse _ status _ _ => existsb (N.eqb status) [401; 403; 407]
  | _ => false
  end.

Definition creation_capabilities (c : Client) (length : N) : CM W (option ServerCapabilities) :=
  if (length =? 0) || (cl_max_initial_upload_size c <? length) then ret None
  else
    let! found := attempt (server_capabilities c) in
    match found with
    | inr capabilities => ret (Some capabilities)
    | inl error => if is_auth_failure error then throw error else ret None
    end.

Definition should_use_creation_with_upload (c : Client) (length : N)
    (capabilities : option ServerCapabilities) : bool :=
  (0 <? length) && (length <=? cl_max_initial_upload_size c)
  && match capabilities with
     | Some capabilities => sc_has_extension capabilities "creation-with-upload"
     | None => false
     end.

(** The creation of an upload for the source and the sending of its bytes, shared by
    [upload_from_with_progress] and [upload_partial_with_capabilities];
    [created] is told the URL. *)
Definition create_and_upload (c : Client) (source : UploadSource) (metadata : UploadMetadata)
    (capabilities : option ServerCapabilities) (partial : bool) (created : WebUrl -> CM W unit)
    (progress : Progress) : CM W UploadInfo :=
  let length := src_len source in
  let content u := if partial then NewUpload_partial u else u in
  if should_use_creation_with_upload c length capabilities then
    let! body := read_source_exact source 0 length in
    let! upload := create_upload_info c (content (NewUpload_with_body body metadata)) in
    do! created (ui_url upload) in
    do! progress (ui_offset upload) length in
    if ui_offset upload =? length then ret upload
    else resume_at_with_progress_from c (ui_url upload) source progress (Some upload)
  else
    let! info := create_upload_info c (content (NewUpload_new length metadata)) in
    do! created (ui_url info) in
    resume_at_with_progress_from c (ui_url info) source progress (Some info).

Definition upload_from_with_progress (c : Client) (source : UploadSource) (metadata : UploadMetadata)
    (progress : Progress) : CM W UploadInfo :=
  let! capabilities := creation_capabilities c (src_len source) in
  create_and_upload c source metadata capabilities false (fun _ => ret tt) progress.

Definition upload_from (c : Client) (source : UploadSource) (metadata : UploadMetadata) : CM W UploadInfo :=
  upload_from_with_progress c source metadata NoopProgress.

(** [Upload::upload_with_progress] *)
Definition upload_handle_with_progress (c : Client) (url : WebUrl) (source : UploadSource)
    (progress : Progress) : CM W UploadInfo :=
  resume_at_with_progress c url source progress.
End upload.
