(* ===== verification/ClientParallel.v ===== *)
(** * Parallel uploads of the client ([tus-uploader/src/client/upload.rs])

    A source is cut into parts, each part is uploaded by a task of its own as a partial
    upload, a bounded number of them at once, and the parts are concatenated on the
    server.  The tasks share the client's world; what the code keeps behind [Arc]s and
    in the tasks' locals is [ParallelState]. *)

From S2P Require Import Prelude Text Crates Config State Headers ClientError ClientHelpers Client ClientUpload.
From S2P Require Import JoinSet.
Local Open Scope string_scope.
Local Open Scope N_scope.
Local Open Scope prog_scope.

(** Whether there is a progress reporter; it sees every call in order ([cw_progress]). *)
Record ParallelUpload := mkParallelUpload {
  pu_part_size : N;
  pu_max_concurrency : N;
  pu_progress : bool;
}.

Definition ParallelUpload_new (part_size : N) : ParallelUpload := mkParallelUpload (N.max part_size 1) 4 false.
Definition with_part_size (part_size : N) (u : ParallelUpload) : ParallelUpload :=
  mkParallelUpload (N.max part_size 1) (pu_max_concurrency u) (pu_progress u).
Definition with_max_concurrency (max_concurrency : N) (u : ParallelUpload) : ParallelUpload :=
  mkParallelUpload (pu_part_size u) (N.max max_concurrency 1) (pu_progress u).
Definition with_progress (u : ParallelUpload) : ParallelUpload :=
  mkParallelUpload (pu_part_size u) (pu_max_concurrency u) true.

(** What the setters keep: the fields are private. *)
Definition ParallelUpload_wf (u : ParallelUpload) : Prop := 1 <= pu_part_size u /\ 1 <= pu_max_concurrency u.

(** Assigning an element; out of bounds it panics. *)
Definition vec_set {A} (i : nat) (a : A) (l : list A) : cresult (list A) :=
  if Nat.ltb i (length l) then Ok (<[i := a]> l) else Panic.

Record PartOutcome := mkPartOutcome {
  po_index : nat;
  po_created_url : option string;
  po_result : ClientError.t + string;
}.

Section parallel.
Context `{UrlLib} `{HttpClientLib} `{!Transport} `{ClientSystem, Base64, Digests, HashOrder}.
(** the text of a [JoinError] *)
Context (join_error : string).
Local Abbreviation W := ClientWorld.
Local Abbreviation mkW := (mkClientWorld _ _).
Local Abbreviation Progress := (N -> N -> CM W unit).

(** ** Progress *)

Definition set_parallel (p : ParallelState) (w : W) : W :=
  mkW (cw_transport w) (cw_capabilities w) (cw_sent w) (cw_progress w) (cw_slept w) (cw_provided w)
    (cw_consulted w) (cw_draws w) (cw_reads w) p.

Definition set_part (i : nat) (cell : PartCell) (p : ParallelState) : ParallelState :=
  mkParallelState (ps_uploaded p) (ps_reported p) (<[i := cell]> (ps_parts p)).

Definition part_cell (i : nat) (w : W) : PartCell := default (mkPartCell 0 None) (ps_parts (cw_parallel w) !! i).

(** The first half of [PartProgress::on_progress] and [ParallelProgressState::advance]:
    the part's own [last] and the counter of all parts go up by the same number, and
    the new sum is returned.  Only the counter is shared. *)
Definition fetch_add_uploaded (i : nat) (uploaded : N) : CM W (option N) :=
  try_act (fun w =>
    let cell := part_cell i w in
    let p := cw_parallel w in
    if pc_last cell <? uploaded then
      let delta := uploaded - pc_last cell in
      let sum := ps_uploaded p + delta in
      (if u64_max <? sum then Panic else Ok (Some sum),
       set_parallel (mkParallelState (sum mod (u64_max + 1)) (ps_reported p)
         (<[i := mkPartCell uploaded (pc_created_url cell)]> (ps_parts p))) w)
    else (Ok None, w)).

(** The second half: under the lock of [reported], the reporter is called if this sum is
    greater than all reported before. *)
Definition report_sum (total sum : N) : CM W unit :=
  act (fun w =>
    let p := cw_parallel w in
    if ps_reported p <? sum then
      (tt, mkW (cw_transport w) (cw_capabilities w) (cw_sent w) (cw_progress w ++ [(sum, total)])%list
             (cw_slept w) (cw_provided w) (cw_consulted w) (cw_draws w) (cw_reads w)
             (mkParallelState (ps_uploaded p) sum (ps_parts p)))
    else (tt, w)).

Definition PartProgress (shared : bool) (i : nat) (total : N) : Progress := fun uploaded _ =>
  if negb shared then ret tt
  else
    let! sum := fetch_add_uploaded i uploaded in
    match sum with
    | Some sum => report_sum total sum
    | None => ret tt
    end.

(** ** Parts *)

(** [*created_url = Some(..)] *)
Definition set_created_url (i : nat) (url : WebUrl) : CM W unit :=
  act (fun w => (tt, set_parallel (set_part i (mkPartCell (pc_last (part_cell i w)) (Some (weburl_as_str url)))
                       (cw_parallel w)) w)).

Definition get_created_url (i : nat) : CM W (option string) := act (fun w => (pc_created_url (part_cell i w), w)).

Definition upload_parallel_part (c : Client) (index : nat) (bytes : bytes)
    (capabilities : option ServerCapabilities) (shared : bool) (total : N) : CM W PartOutcome :=
  let! result :=
    attempt (create_and_upload c (VecSource bytes) ∅ capabilities true (set_created_url index)
               (PartProgress shared index total)) in
  let! created_url := get_created_url index in
  ret (mkPartOutcome index created_url
         match result with inr upload => inr (weburl_as_str (ui_url upload)) | inl e => inl e end).

Definition read_parallel_part (source : UploadSource) (index : nat) (source_length part_size : N)
    : CM W bytes :=
  let start := N.of_nat index * part_size in
  let length := N.min (source_length - start) part_size in
  read_source_exact source start length.

(** ** The upload *)

Local Abbreviation Coordinator := (par ClientError.t W PartOutcome).
Local Open Scope par_scope.

(** What is fixed during an upload. *)
Record Plan := mkPlan {
  pn_client : Client;
  pn_source : UploadSource;
  pn_part_size : N;
  pn_capabilities : option ServerCapabilities;
  pn_shared : bool;
  pn_part_count : nat;
  pn_max_concurrency : nat;
}.

(** A part is read and its task spawned. *)
Definition start_part (p : Plan) (index : nat) : Coordinator (ClientError.t + unit) :=
  let! read := alone (attempt (read_parallel_part (pn_source p) index (src_len (pn_source p)) (pn_part_size p))) in
  match read with
  | inr bytes =>
      do! spawn (upload_parallel_part (pn_client p) index bytes (pn_capabilities p) (pn_shared p)
                   (src_len (pn_source p))) in
      PDone (Ok (inr tt))
  | inl error => PDone (Ok (inl error))
  end.

(** The first loop: parts are started up to the limit.  It returns the next part and a
    failure. *)
Fixpoint fill_loop (fuel : nat) (p : Plan) (next_index : nat) : Coordinator (nat * option ClientError.t) :=
  if negb (Nat.ltb next_index (pn_part_count p)) then PDone (Ok (next_index, None))
  else
    let! len := set_len in
    if negb (Nat.ltb len (pn_max_concurrency p)) then PDone (Ok (next_index, None))
    else
      match fuel with
      | O => PDone Panic
      | S fuel =>
          let! started := start_part p next_index in
          match started with
          | inr _ => fill_loop fuel p (S next_index)
          | inl error => PDone (Ok (next_index, Some error))
          end
      end.

Definition record_created (outcome : PartOutcome) (created_urls : list (option string))
    : cresult (list (option string)) :=
  match po_created_url outcome with
  | Some url => vec_set (po_index outcome) (Some url) created_urls
  | None => Ok created_urls
  end.

(** The second loop: parts are joined, and others started in their place, until all are
    done or one has failed.  It returns the URLs of the parts, those of the uploads
    created, and the failure. *)
Fixpoint join_loop (fuel : nat) (p : Plan) (part_urls created_urls : list (option string)) (next_index : nat)
    : Coordinator (list (option string) * list (option string) * option ClientError.t) :=
  let! joined := join_next in
  match joined with
  | None => PDone (Ok (part_urls, created_urls, None))
  | Some None =>
      PDone (Ok (part_urls, created_urls,
        Some (ClientError.Internal ("parallel upload task failed: " ++ join_error))))
  | Some (Some outcome) =>
      let! created_urls := PDone (record_created outcome created_urls) in
      match po_result outcome with
      | inl error => PDone (Ok (part_urls, created_urls, Some error))
      | inr url =>
          let! part_urls := PDone (vec_set (po_index outcome) (Some url) part_urls) in
          match fuel with
          | O => PDone Panic
          | S fuel =>
              if Nat.ltb next_index (pn_part_count p) then
                let! started := start_part p next_index in
                match started with
                | inr _ => join_loop fuel p part_urls created_urls (S next_index)
                | inl error => PDone (Ok (part_urls, created_urls, Some error))
                end
              else join_loop fuel p part_urls created_urls next_index
          end
      end
  end.

(** After a failure: the rest of the tasks are joined for the uploads they created. *)
Fixpoint drain_loop (fuel : nat) (created_urls : list (option string)) : Coordinator (list (option string)) :=
  let! joined := join_next in
  match joined with
  | None => PDone (Ok created_urls)
  | Some result =>
      match fuel with
      | O => PDone Panic
      | S fuel =>
          let! created_urls :=
            PDone match result with
                  | Some outcome => record_created outcome created_urls
                  | None => Ok created_urls
                  end in
          drain_loop fuel created_urls
      end
  end.

Fixpoint cleanup_partial_uploads (c : Client) (part_urls : list (option string)) : CM W unit :=
  match part_urls with
  | [] => ret tt
  | Some url :: part_urls =>
      match weburl_parse url with
      | inr url =>
          bind (attempt (terminate_upload_at c url)) (fun _ => cleanup_partial_uploads c part_urls)
      | inl _ => cleanup_partial_uploads c part_urls
      end
  | None :: part_urls => cleanup_partial_uploads c part_urls
  end.

Fixpoint collect_urls (part_urls : list (option string)) : cresult (list string) :=
  match part_urls with
  | [] => Ok []
  | Some url :: part_urls => outcome_map (cons url) (collect_urls part_urls)
  | None :: _ => Err (ClientError.Internal "parallel part completed without recording its upload URL")
  end.

(** [u64::div_ceil] *)
Definition div_ceil (a b : N) : N := if a mod b =? 0 then a / b else a / b + 1.

Definition no_urls (part_count : nat) : list (option string) := repeat None part_count.

(** A fresh [ParallelProgressState], and fresh locals of the tasks to come. *)
Definition fresh_parallel (part_count : nat) : CM W unit :=
  act (fun w => (tt, set_parallel (mkParallelState 0 0 (repeat (mkPartCell 0 None) part_count)) w)).

(** Both loops. *)
Definition upload_parts (p : Plan)
    : Coordinator (list (option string) * list (option string) * option ClientError.t) :=
  let urls := no_urls (pn_part_count p) in
  let! (next_index, failure) := fill_loop (pn_part_count p) p 0 in
  match failure with
  | Some error => PDone (Ok (urls, urls, Some error))
  | None => join_loop (pn_part_count p) p urls urls next_index
  end.

Definition finish_parts (p : Plan) (metadata : UploadMetadata) : Coordinator UploadInfo :=
  let! (part_urls, created_urls, failure) := upload_parts p in
  match failure with
  | Some error =>
      do! abort_all in
      let! created_urls := drain_loop (pn_part_count p) created_urls in
      do! alone (cleanup_partial_uploads (pn_client p) created_urls) in
      PDone (Err error)
  | None =>
      let! part_urls := PDone (collect_urls part_urls) in
      alone (concatenate_uploads (pn_client p) part_urls metadata)
  end.

Definition upload_plan (c : Client) (source : UploadSource) (options : ParallelUpload)
    (capabilities : ServerCapabilities) : Plan :=
  let part_count := N.to_nat (div_ceil (src_len source) (pu_part_size options)) in
  mkPlan c source (pu_part_size options) (Some capabilities) (pu_progress options) part_count
    (Nat.max (Nat.min (N.to_nat (pu_max_concurrency options)) part_count) 1).

Definition upload_parallel (c : Client) (source : UploadSource) (metadata : UploadMetadata)
    (options : ParallelUpload) : Coordinator UploadInfo :=
  do! alone (fresh_parallel (N.to_nat (div_ceil (src_len source) (pu_part_size options)))) in
  if src_len source =? 0 then alone (upload_from c source metadata)
  else
    let! capabilities := alone (server_capabilities c) in
    if negb (sc_has_extension capabilities "concatenation")
    then PDone (Err (ClientError.UnsupportedExtension "concatenation"))
    else finish_parts (upload_plan c source options capabilities) metadata.
End parallel.
