(* ===== verification/ClientFacts.v ===== *)
(** * What the requests of the client do

    Rules for the client's operations: what is in the requests, and that nothing but
    the transport sees a request. *)

From S2P Require Import Prelude Text Errors Crates Config State Headers ClientError ClientHelpers Client.
From S2P Require Import ClientUpload.
Local Open Scope string_scope.
Local Open Scope N_scope.
Local Open Scope prog_scope.
#[local] Set Default Proof Using "All".

Lemma outcome_bind_ok {E A B} (r : outcome E A) (k : A -> outcome E B) b :
  outcome_bind r k = Ok b -> exists a, r = Ok a /\ k a = Ok b.
Proof. destruct r; cbn; [by eexists|done|done]. Qed.

Section facts.
Context `{UrlLaws} `{HttpClientLib} `{!HttpLaws} `{!Transport} `{ClientSystem, Base64, Digests, HashOrder}.
Local Abbreviation W := ClientWorld.

(** ** A logic for the client's programs

    The client's programs are verified once for all logics of this shape: alone, with
    [wp] ([sequential]), and next to other programs that use the same server. *)

(** Only the counters changed. *)
Definition counted (w w' : W) : Prop :=
  cw_transport w' = cw_transport w /\ cw_sent w' = cw_sent w /\
  cw_progress w' = cw_progress w /\ cw_slept w' = cw_slept w /\ cw_parallel w' = cw_parallel w.

(** Only what precedes a retry happened. *)
Definition slept (w w' : W) : Prop :=
  cw_transport w' = cw_transport w /\ cw_sent w' = cw_sent w /\ cw_progress w' = cw_progress w /\
  (length (cw_slept w') <= S (length (cw_slept w)))%nat /\ cw_parallel w' = cw_parallel w.

(** [w'] is [w] after the request [r] was sent, and answered with [answer]. *)
Definition answered (r : TransportRequest) (answer : ClientError.t + ClientResponse) (w w' : W) : Prop :=
  transport_send r (cw_transport w) = (answer, cw_transport w') /\
  cw_sent w' = (cw_sent w ++ [r])%list /\
  cw_progress w' = cw_progress w /\ cw_slept w' = cw_slept w /\ cw_parallel w' = cw_parallel w.

Class ClientLogic := {
  lstate : Type;
  holds : forall {A}, CM W A -> (cresult A -> lstate -> Prop) -> lstate -> Prop;
  quiet : lstate -> lstate -> Prop;
  paused : lstate -> lstate -> Prop;
  can_send : TransportRequest -> lstate -> Prop;
  exchanged : TransportRequest -> ClientError.t + ClientResponse -> lstate -> lstate -> Prop;
  holds_done {A} (r : cresult A) Q s : Q r s -> holds (Done r) Q s;
  holds_mono {A} (m : CM W A) (Q Q' : cresult A -> lstate -> Prop) s :
    holds m Q s -> (forall r s', Q r s' -> Q' r s') -> holds m Q' s;
  holds_bind {A B} (m : CM W A) (k : A -> CM W B) Q s :
    holds m (fun r s' =>
      match r with Ok a => holds (k a) Q s' | Err e => Q (Err e) s' | Panic => Q Panic s' end) s ->
    holds (bind m k) Q s;
  holds_attempt {A} (m : CM W A) (Q : cresult (ClientError.t + A) -> lstate -> Prop) s :
    holds m (fun r s' =>
      match r with
      | Ok a => Q (Ok (inr a)) s'
      | Err e => Q (Ok (inl e)) s'
      | Panic => Q Panic s'
      end) s ->
    holds (attempt m) Q s;
  holds_count {A B} (f : W -> B * W) (k : B -> CM W A) Q s :
    (forall w, counted w (f w).2) ->
    (forall w s', quiet s s' -> holds (k (f w).1) Q s') -> holds (Act f k) Q s;
  holds_sleep {A B} (f : W -> B * W) (k : B -> CM W A) Q s :
    (forall w, slept w (f w).2) ->
    (forall w s', paused s s' -> holds (k (f w).1) Q s') -> holds (Act f k) Q s;
  holds_send r Q s :
    can_send r s ->
    (forall answer s', exchanged r answer s s' ->
       Q (match answer with inr response => Ok response | inl e => Err e end) s') ->
    holds (send r) Q s;
  quiet_refl s : quiet s s;
  quiet_trans s1 s2 s3 : quiet s1 s2 -> quiet s2 s3 -> quiet s1 s3;
  quiet_pauses s s' : quiet s s' -> paused s s';
  quiet_paused s1 s2 s3 : quiet s1 s2 -> paused s2 s3 -> paused s1 s3;
  quiet_can_send r s s' : quiet s s' -> can_send r s -> can_send r s';
  quiet_exchanged r answer s1 s2 s3 : quiet s1 s2 -> exchanged r answer s2 s3 -> exchanged r answer s1 s3;
  exchanged_answer r answer s s' : exchanged r answer s s' -> exists t, (transport_send r t).1 = answer;
}.

#[refine] Instance sequential : ClientLogic := {|
  lstate := W;
  holds A m Q w := wp m Q w;
  quiet := counted;
  paused := slept;
  can_send _ _ := True;
  exchanged := answered;
|}.
Proof.
  - intros A r Q w. apply wp_done.
  - intros A m Q Q' w. apply wp_mono.
  - intros A B m k Q w. apply wp_bind.
  - intros A m Q w. apply wp_attempt.
  - intros A B f k Q w Hf HQ. unfold wp. rewrite run_Act. specialize (HQ w). specialize (Hf w).
    destruct (f w) as [x w']. by apply HQ.
  - intros A B f k Q w Hf HQ. unfold wp. rewrite run_Act. specialize (HQ w). specialize (Hf w).
    destruct (f w) as [x w']. by apply HQ.
  - intros r Q w _ HQ. apply wp_try_act. destruct (transport_send r (cw_transport w)) as [answer t] eqn:Hs.
    by apply (HQ answer).
  - done.
  - unfold counted. intuition congruence.
  - intros w w' (Q1 & Q2 & Q3 & Q4 & Q5). unfold slept. rewrite Q1, Q2, Q3, Q4, Q5. split_and!; auto.
  - intros w1 w2 w3 (Q1 & Q2 & Q3 & Q4 & Q5). unfold slept. by rewrite Q1, Q2, Q3, Q4, Q5.
  - done.
  - intros r answer w1 w2 w3 (Q1 & Q2 & Q3 & Q4 & Q5). unfold answered. by rewrite Q1, Q2, Q3, Q4, Q5.
  - intros r answer w w' (Hs & _). exists (cw_transport w). by rewrite Hs.
Defined.

Section logic.
Context {logic : ClientLogic}.
Implicit Types s : lstate.

(** The request is sent, and [K] holds of the answer. *)
Definition sends (r : TransportRequest) (s : lstate)
    (K : ClientError.t + ClientResponse -> lstate -> Prop) : Prop :=
  can_send r s /\ forall answer s', exchanged r answer s s' -> K answer s'.

Lemma quiet_sends r s s' K : quiet s s' -> sends r s K -> sends r s' K.
Proof.
  intros Hq [Hc HK]. split; [by eapply quiet_can_send|]. intros answer s2 Hx. apply HK.
  by eapply quiet_exchanged.
Qed.

Lemma sends_mono r s K K' :
  sends r s K -> (forall answer s', exchanged r answer s s' -> K answer s' -> K' answer s') -> sends r s K'.
Proof. intros [Hc HK] HKK. split; [done|]. auto. Qed.

(** The URI of a request: the URL, parsed and printed. *)
Definition request_uri (url : string) (uri : string) : Prop :=
  exists u, weburl_parse url = inr u /\ uri = weburl_as_str u.

Lemma holds_request c method url Q s :
  (forall e s', quiet s s' -> Q (Err e) s') ->
  (forall r s', quiet s s' -> tr_method r = method -> request_uri url (tr_uri r) ->
     tr_body r = TransportBody.Empty -> Q (Ok r) s') ->
  holds (request c method url) Q s.
Proof.
  intros He Hok. unfold request. apply holds_bind, holds_done.
  destruct (weburl_parse url) as [e|u] eqn:Hu; [apply He, quiet_refl|].
  apply holds_bind, holds_done. destruct (uri_parse (weburl_as_str u)); [apply He, quiet_refl|].
  assert (request_uri url (weburl_as_str u)) as Huri by by exists u.
  apply holds_bind. destruct (cl_header_provider c) as [provider|].
  - apply holds_bind, holds_count; [done|]. intros w s' Hq. apply holds_done. cbn [fst].
    destruct (provider (cw_provided w)); [by apply He|]. apply holds_done, holds_done. by apply Hok.
  - apply holds_done, holds_done. apply Hok; [apply quiet_refl|done..].
Qed.

(** [unexpected] never returns. *)
Lemma holds_unexpected {A} operation response (Q : outcome ClientError.t A -> lstate -> Prop) s :
  (forall e, Q (Err e) s) -> (unexpected_response operation response = Panic -> Q Panic s) ->
  holds (unexpected operation response) Q s.
Proof.
  intros He Hp. apply holds_bind, holds_done. destruct (unexpected_response operation response); [|done|by apply Hp].
  by apply holds_done.
Qed.

(** [decorate] turns a request into one related by [D], or fails; it sends nothing. *)
Definition decorates (decorate : TransportRequest -> CM W TransportRequest)
    (D : TransportRequest -> TransportRequest -> Prop) : Prop :=
  forall r Q s, (forall e s', quiet s s' -> Q (Err e) s') ->
    (forall r' s', quiet s s' -> D r r' -> Q (Ok r') s') -> holds (decorate r) Q s.

Lemma decorates_pure (decorate : TransportRequest -> cresult TransportRequest) D :
  (forall r, decorate r <> Panic) -> (forall r r', decorate r = Ok r' -> D r r') ->
  decorates (fun r => of_outcome (decorate r)) D.
Proof.
  intros Hp HD r Q s He Hok. apply holds_done. specialize (Hp r). specialize (HD r).
  destruct (decorate r); [apply Hok; [apply quiet_refl|by apply HD]|apply He, quiet_refl|done].
Qed.

(** The common shape of an operation: a request is made, decorated and sent, and its
    response read. *)
Lemma holds_call {A} c method url decorate D (k : ClientResponse -> CM W A) Q s :
  decorates decorate D ->
  (forall e s', quiet s s' -> Q (Err e) s') ->
  (forall r0 r, request_uri url (tr_uri r0) -> tr_method r0 = method ->
     tr_body r0 = TransportBody.Empty -> D r0 r ->
     sends r s (fun answer s' =>
       match answer with inr response => holds (k response) Q s' | inl e => Q (Err e) s' end)) ->
  holds (let! r := request c method url in
      let! r := decorate r in
      let! response := send r in
      k response) Q s.
Proof.
  intros HD He Hk. apply holds_bind, holds_request; [done|]. intros r0 s1 Hq Hm Hu Hb.
  apply holds_bind, HD; [intros e s2 Hq2; apply He; by eapply quiet_trans|]. intros r s2 Hq2 Hr.
  destruct (quiet_sends _ _ _ _ (quiet_trans _ _ _ Hq Hq2) (Hk r0 r Hu Hm Hb Hr)) as [Hc HK].
  apply holds_bind, holds_send; [done|]. intros [e|response] s3 Hx; by apply (HK _ _ Hx).
Qed.

(** As [holds_call], for a request without decoration. *)
Lemma holds_plain_call {A} c method url (k : ClientResponse -> CM W A) Q s :
  (forall e s', quiet s s' -> Q (Err e) s') ->
  (forall r, request_uri url (tr_uri r) -> tr_method r = method ->
     tr_body r = TransportBody.Empty ->
     sends r s (fun answer s' =>
       match answer with inr response => holds (k response) Q s' | inl e => Q (Err e) s' end)) ->
  holds (let! r := request c method url in
      let! response := send r in
      k response) Q s.
Proof.
  intros He Hk. apply holds_bind, holds_request; [done|]. intros r s1 Hq Hm Hu Hb.
  destruct (quiet_sends _ _ _ _ Hq (Hk r Hu Hm Hb)) as [Hc HK].
  apply holds_bind, holds_send; [done|]. intros [e|response] s2 Hx; by apply (HK _ _ Hx).
Qed.

(** ** What decorating a request does *)

Lemma insert_request_header_ok name value r r' :
  name <> "" -> str_all name_char name = true ->
  insert_request_header name value r = Ok r' ->
  exists v, header_value_from_str value = inr v /\ r' = with_headers_mut (header_insert name v) r.
Proof.
  intros Hne Hn. unfold insert_request_header. rewrite header_name_lower by done.
  destruct (header_value_from_str value) as [|v]; [done|]. intros [= <-]. by exists v.
Qed.

Lemma optional_header_u64_no_panic headers name label : optional_header_u64 headers name label <> Panic.
Proof. unfold optional_header_u64. pure. Qed.

Lemma header_u64_no_panic headers name label : header_u64 headers name label <> Panic.
Proof. apply bind_no_panic; [apply optional_header_u64_no_panic|]. pure. Qed.

Lemma decode_metadata_no_panic value : decode_metadata value <> Panic.
Proof.
  unfold decode_metadata. destruct value as [value|]; [|done].
  destruct (header_to_str value) as [|text]; [done|]. destruct (is_empty text); [done|].
  generalize (∅ : UploadMetadata). induction (split_char "," text) as [|item items IH]; intros m; [done|].
  cbn [decode_metadata_pairs]. apply bind_no_panic; [pure|intros kv].
  destruct (negb _); [done|]. apply IH.
Qed.

(** Reading the response fails: reported with a [Retry-After] that overflows. *)
Definition panics (answer : ClientError.t + ClientResponse) : Prop :=
  exists operation response, answer = inr response /\ unexpected_response operation response = Panic.

(** The offset a request or a response states. *)
Definition stated_offset (headers : HeaderMap) : option N :=
  match header_u64 headers "upload-offset" "Upload-Offset" with Ok n => Some n | _ => None end.

Lemma stated_offset_insert n v headers :
  u64 n -> header_value_from_str (u64_to_string n) = inr v ->
  stated_offset (header_insert "upload-offset" v headers) = Some n.
Proof.
  intros Hn Hv. unfold stated_offset, header_u64, optional_header_u64.
  rewrite header_get_insert_eq, (header_from_to_str _ _ Hv), parse_u64_to_string by exact Hn. done.
Qed.

Lemma stated_offset_insert_ne name v headers :
  name <> "upload-offset" -> stated_offset (header_insert name v headers) = stated_offset headers.
Proof.
  intros Hne. unfold stated_offset, header_u64, optional_header_u64.
  by rewrite header_get_insert_ne.
Qed.

Lemma apply_checksum_ok c r body r' :
  apply_checksum c r body = Ok r' ->
  tr_method r' = tr_method r /\ tr_uri r' = tr_uri r /\ TransportBody.bytes_of (tr_body r') = body /\
  stated_offset (tr_headers r') = stated_offset (tr_headers r).
Proof.
  unfold apply_checksum. destruct (cl_checksum c) as [[a|a]|].
  - destruct (header_value_from_str _); [done|]. intros [= <-]. split_and!; [done..|].
    cbn. by rewrite stated_offset_insert_ne.
  - intros [= <-]. split_and!; [done..|]. cbn. by rewrite stated_offset_insert_ne.
  - by intros [= <-].
Qed.

Lemma insert_request_header_no_panic name value r : insert_request_header name value r <> Panic.
Proof. unfold insert_request_header. pure. Qed.

Lemma apply_checksum_no_panic c r body : apply_checksum c r body <> Panic.
Proof. unfold apply_checksum. pure. Qed.

(** A request that asks to append [chunk] at [offset]. *)
Definition appends (chunk : bytes) (offset : N) (r : TransportRequest) : Prop :=
  TransportBody.bytes_of (tr_body r) = chunk /\ stated_offset (tr_headers r) = Some offset.

Lemma decorates_chunk c chunk offset :
  u64 offset ->
  decorates (fun r => of_outcome (chunk_request c chunk offset r))
    (fun r r' => tr_method r' = tr_method r /\ tr_uri r' = tr_uri r /\ appends chunk offset r').
Proof.
  intros Ho. apply decorates_pure.
  - intros r. apply bind_no_panic; [apply insert_request_header_no_panic|intros ?].
    apply bind_no_panic; [apply insert_request_header_no_panic|intros ?]. apply apply_checksum_no_panic.
  - intros r r' Hr. apply outcome_bind_ok in Hr as (r1 & Hr1 & Hr).
    apply outcome_bind_ok in Hr as (r2 & Hr2 & Hr).
    destruct (insert_request_header_ok "upload-offset" _ _ _ ltac:(discriminate) eq_refl Hr1) as (v1 & Hv1 & ->).
    destruct (insert_request_header_ok "content-type" _ _ _ ltac:(discriminate) eq_refl Hr2) as (v2 & Hv2 & ->).
    apply apply_checksum_ok in Hr as (Hm & Hu & Hb & Hs). split_and!; [done|done|].
    split; [done|]. rewrite Hs. cbn. rewrite stated_offset_insert_ne by done.
    by apply stated_offset_insert.
Qed.

(** ** The operations on an existing upload *)

Definition sent_to_uri (method : Method.t) (uri : string) (r : TransportRequest) : Prop :=
  tr_method r = method /\ tr_uri r = uri.

Definition sent_to (method : Method.t) (upload_url : WebUrl) (r : TransportRequest) : Prop :=
  tr_method r = method /\ tr_uri r = weburl_as_str upload_url.

Lemma request_uri_url u uri : request_uri (weburl_as_str u) uri -> uri = weburl_as_str u.
Proof. intros (u' & Hu & ->). rewrite weburl_parse_as_str in Hu. by injection Hu as ->. Qed.

Lemma holds_upload_info_at c url Q s :
  (forall s' e, quiet s s' -> Q (Err e) s') ->
  (forall r, sent_to Method.HEAD url r -> sends r s (fun answer s' =>
     (panics answer -> Q Panic s') /\ (forall e, Q (Err e) s') /\
     (forall response info, answer = inr response ->
        cr_status response = 200 \/ cr_status response = 204 ->
        stated_offset (cr_headers response) = Some (ui_offset info) -> ui_url info = url ->
        Q (Ok info) s'))) ->
  holds (upload_info_at c url) Q s.
Proof.
  intros He Hk. unfold upload_info_at.
  apply holds_plain_call; [by intros; apply He|].
  intros r0 Hu%request_uri_url Hm Hb. apply (sends_mono _ _ _ _ (Hk r0 (conj Hm Hu))).
  intros [e|response] s' _ (Hp & Hes & Hok); [apply Hes|].
  destruct (N.eqb_spec (cr_status response) 200) as [Hs|Hs];
    [|destruct (N.eqb_spec (cr_status response) 204) as [Hs2|Hs2]]; cbn [negb andb];
    [| |apply holds_unexpected; [done|by intros ?; apply Hp; do 2 eexists]].
  all: apply holds_bind, holds_done; unfold stated_offset in Hok.
  all: destruct (header_u64 _ _ _) as [n|e|] eqn:Hn; [|apply Hes|by apply header_u64_no_panic in Hn].
  all: apply holds_bind, holds_done; destruct (optional_header_u64 _ _ _) as [l|e|] eqn:Hl;
    [|apply Hes|by apply optional_header_u64_no_panic in Hl].
  all: apply holds_bind, holds_done; destruct (decode_metadata _) as [m|e|] eqn:Hd;
    [|apply Hes|by apply decode_metadata_no_panic in Hd].
  all: apply holds_done; eapply Hok; [reflexivity|auto|by rewrite Hn|done].
Qed.

(** A chunk sent at [offset], and what the server answered. *)
Lemma holds_send_upload_chunk_at c url chunk offset operation Q s :
  u64 offset ->
  (forall s' e, quiet s s' -> Q (Err e) s') ->
  (forall r, sent_to Method.PATCH url r -> appends chunk offset r -> sends r s (fun answer s' =>
     (panics answer -> Q Panic s') /\ (forall e, Q (Err e) s') /\
     (forall response n, answer = inr response -> cr_status response = 204 ->
        stated_offset (cr_headers response) = Some n -> Q (Ok n) s'))) ->
  holds (send_upload_chunk_at c url chunk offset operation) Q s.
Proof.
  intros Ho He Hk. unfold send_upload_chunk_at.
  eapply holds_call; [by apply decorates_chunk|by intros; apply He|].
  intros r0 r Hu%request_uri_url Hm Hb (Hm' & Hu' & Ha).
  assert (sent_to Method.PATCH url r) as Hto by (split; congruence).
  apply (sends_mono _ _ _ _ (Hk r Hto Ha)). intros [e|response] s' _ (Hp & Hes & Hok); [apply Hes|].
  destruct (N.eqb_spec (cr_status response) 204) as [Hs|Hs]; cbn [negb]; [|apply holds_unexpected; [done|by intros ?; apply Hp; do 2 eexists]].
  apply holds_done. unfold stated_offset in Hok.
  destruct (header_u64 _ _ _) as [n|e|] eqn:Hn; [|apply Hes|by apply header_u64_no_panic in Hn]. eapply Hok; [done..|by rewrite Hn].
Qed.

(** ** Creation *)

(** The length a request states. *)
Definition stated_length (headers : HeaderMap) : option N :=
  match header_u64 headers "upload-length" "Upload-Length" with Ok n => Some n | _ => None end.

Lemma stated_length_insert n v headers :
  u64 n -> header_value_from_str (u64_to_string n) = inr v ->
  stated_length (header_insert "upload-length" v headers) = Some n.
Proof.
  intros Hn Hv. unfold stated_length, header_u64, optional_header_u64.
  rewrite header_get_insert_eq, (header_from_to_str _ _ Hv), parse_u64_to_string by exact Hn. done.
Qed.

Lemma stated_length_insert_ne name v headers :
  name <> "upload-length" -> stated_length (header_insert name v headers) = stated_length headers.
Proof.
  intros Hne. unfold stated_length, header_u64, optional_header_u64. by rewrite header_get_insert_ne.
Qed.

Lemma encode_metadata_no_panic m : encode_metadata m <> Panic.
Proof.
  unfold encode_metadata. generalize (@nil string).
  induction (hash_iter m) as [|[k v] l IH]; intros acc; cbn [encode_metadata_pairs]; [done|].
  destruct (negb _); [done|]. apply IH.
Qed.

(** A request with the same address, body and stated length. *)
Definition keeps_length (r r' : TransportRequest) : Prop :=
  tr_method r' = tr_method r /\ tr_uri r' = tr_uri r /\
  stated_length (tr_headers r') = stated_length (tr_headers r).

Lemma keeps_length_trans r1 r2 r3 : keeps_length r1 r2 -> keeps_length r2 r3 -> keeps_length r1 r3.
Proof. unfold keeps_length. intuition congruence. Qed.

Lemma insert_keeps_length name value r r' :
  name <> "" -> str_all name_char name = true -> name <> "upload-length" ->
  insert_request_header name value r = Ok r' -> keeps_length r r' /\ tr_body r' = tr_body r.
Proof.
  intros Hne Hn Hl Hr. apply insert_request_header_ok in Hr as (v & _ & ->); [|done|done].
  split; [|done]. split_and!; [done..|]. cbn. by rewrite stated_length_insert_ne.
Qed.

Lemma apply_checksum_keeps_length c r body r' :
  apply_checksum c r body = Ok r' -> keeps_length r r' /\ TransportBody.bytes_of (tr_body r') = body.
Proof.
  intros Hr. pose proof (apply_checksum_ok _ _ _ _ Hr) as (Hm & Hu & Hb & _). split; [|done].
  split_and!; [done..|]. revert Hr. unfold apply_checksum. destruct (cl_checksum c) as [[a|a]|].
  - destruct (header_value_from_str _); [done|]. intros [= <-]. cbn. by rewrite stated_length_insert_ne.
  - intros [= <-]. cbn. by rewrite stated_length_insert_ne.
  - by intros [= <-].
Qed.

Lemma creation_headers_ok length has_body metadata partial r r' :
  u64 length -> creation_headers length has_body metadata partial r = Ok r' ->
  tr_method r' = tr_method r /\ tr_uri r' = tr_uri r /\ tr_body r' = tr_body r /\
  stated_length (tr_headers r') = Some length.
Proof.
  intros Hl Hr. apply outcome_bind_ok in Hr as (r1 & Hr1 & Hr).
  apply outcome_bind_ok in Hr as (r2 & Hr2 & Hr). apply outcome_bind_ok in Hr as (m & _ & Hr).
  apply outcome_bind_ok in Hr as (r3 & Hr3 & Hr4).
  destruct (insert_request_header_ok "upload-length" _ _ _ ltac:(discriminate) eq_refl Hr1) as (v & Hv & ->).
  set (r1 := with_headers_mut (header_insert "upload-length" v) r) in *.
  assert (keeps_length r1 r2 /\ tr_body r2 = tr_body r1) as [K2 B2].
  { destruct has_body; [|by injection Hr2 as <-]. by eapply (insert_keeps_length "content-type"). }
  assert (keeps_length r2 r3 /\ tr_body r3 = tr_body r2) as [K3 B3].
  { destruct (is_empty m); [by injection Hr3 as <-|]. by eapply (insert_keeps_length "upload-metadata"). }
  assert (keeps_length r3 r' /\ tr_body r' = tr_body r3) as [K4 B4].
  { destruct partial; [by eapply (insert_keeps_length "upload-concat")|by injection Hr4 as <-]. }
  pose proof (keeps_length_trans _ _ _ (keeps_length_trans _ _ _ K2 K3) K4) as (Km & Ku & Kl).
  change (tr_body r1) with (tr_body r) in B2.
  split_and!; [done|done|congruence|]. rewrite Kl. cbn. by apply stated_length_insert.
Qed.

Lemma creation_headers_no_panic length has_body metadata partial r :
  creation_headers length has_body metadata partial r <> Panic.
Proof.
  apply bind_no_panic; [apply insert_request_header_no_panic|intros r1].
  apply bind_no_panic; [destruct has_body; [apply insert_request_header_no_panic|done]|intros r2].
  apply bind_no_panic; [apply encode_metadata_no_panic|intros m].
  apply bind_no_panic; [destruct (is_empty m); [done|apply insert_request_header_no_panic]|intros r3].
  destruct partial; [apply insert_request_header_no_panic|done].
Qed.

(** A request that asks to create an upload of [length] bytes beginning with [body]. *)
Definition creates (length : N) (body : bytes) (r : TransportRequest) : Prop :=
  stated_length (tr_headers r) = Some length /\ TransportBody.bytes_of (tr_body r) = body.

Lemma decorates_creation c length body metadata partial :
  u64 length ->
  decorates (creation_request c length body metadata partial)
    (fun r r' => tr_method r' = tr_method r /\ tr_uri r' = tr_uri r /\
       (tr_body r = TransportBody.Empty -> creates length (default [] body) r')).
Proof.
  intros Hl r Q s He Hok. apply holds_bind, holds_done.
  destruct (creation_headers _ _ _ _ r) as [r1|e|] eqn:Hr;
    [|apply He, quiet_refl|by apply creation_headers_no_panic in Hr].
  apply creation_headers_ok in Hr as (Hm & Hu & Hb & Hlen); [|done].
  destruct body as [body|].
  2: { apply holds_done, Hok; [apply quiet_refl|]. split_and!; [done|done|]. intros He'. split; [done|by rewrite Hb, He']. }
  apply holds_bind, holds_count; [done|]. intros w s' Hq. apply holds_done, holds_done.
  destruct (match _ with Some _ => _ | None => _ end).
  - destruct (apply_checksum c r1 body) as [r2|e|] eqn:Hr; [|by apply He|by apply apply_checksum_no_panic in Hr].
    apply apply_checksum_keeps_length in Hr as [(Hm2 & Hu2 & Hl2) Hb2]. apply Hok; [done|].
    split_and!; [congruence|congruence|]. intros _. split; [by rewrite Hl2|done].
  - apply Hok; [done|]. split_and!; [done|done|]. by intros _.
Qed.

Lemma header_string_no_panic headers name label : header_string headers name label <> Panic.
Proof. unfold header_string. pure. Qed.

Lemma resolve_server_location_no_panic c location : resolve_server_location c location <> Panic.
Proof.
  apply bind_no_panic; [unfold resolve_upload_location, resolve_upload_url; pure|].
  intros url. by destruct (_ && _).
Qed.

Lemma validate_offset_no_panic offset len : validate_offset_not_beyond_source offset len <> Panic.
Proof. unfold validate_offset_not_beyond_source. pure. Qed.

Lemma resolve_server_location_ok c location url :
  resolve_server_location c location = Ok url ->
  resolve_upload_location (cl_endpoint c) location = Ok url /\
  (cl_restrict_to_endpoint_origin c = true -> same_origin url (cl_endpoint c) = true).
Proof.
  intros Hr. apply outcome_bind_ok in Hr as (u & Hu & Hr).
  destruct (cl_restrict_to_endpoint_origin c), (same_origin u (cl_endpoint c)) eqn:Ho; cbn in Hr;
    [injection Hr as <-; by split..|done|injection Hr as <-; by split|injection Hr as <-; by split].
Qed.

(** The response to a creation: where the upload is, and how much of it is there. *)
Definition created_at (c : Client) (body : option bytes) (response : ClientResponse) (url : WebUrl)
    (offset : N) : Prop :=
  cr_status response = 201 /\
  (exists location, header_string (cr_headers response) "location" "Location" = Ok location /\
     resolve_server_location c location = Ok url) /\
  match body with
  | Some _ => stated_offset (cr_headers response) = Some offset
  | None => offset = 0
  end.

Lemma holds_create_upload_request c length body metadata partial Q s :
  u64 length ->
  (forall s' e, quiet s s' -> Q (Err e) s') ->
  (forall r, sent_to Method.POST (cl_endpoint c) r -> creates length (default [] body) r ->
     sends r s (fun answer s' =>
     (panics answer -> Q Panic s') /\ (forall e, Q (Err e) s') /\
     (forall response url offset, answer = inr response -> created_at c body response url offset ->
        offset <= length -> Q (Ok (mkUploadInfo _ url offset (Some length) metadata)) s'))) ->
  holds (create_upload_request c length body metadata partial) Q s.
Proof.
  intros Hl He Hk. unfold create_upload_request.
  eapply holds_call; [by apply decorates_creation|by intros; apply He|].
  intros r0 r Hu%request_uri_url Hm Hb (Hm' & Hu' & Hc).
  assert (sent_to Method.POST (cl_endpoint c) r) as Hto by (split; congruence).
  apply (sends_mono _ _ _ _ (Hk r Hto (Hc Hb))). intros [e|response] s' _ (Hp & Hes & Hok); [apply Hes|].
  destruct (N.eqb_spec (cr_status response) 201) as [Hs|Hs]; cbn [negb].
  2: { destruct body; apply holds_unexpected; try done; intros ?; apply Hp; by do 2 eexists. }
  apply holds_bind, holds_done.
  destruct (header_string _ _ _) as [location|e|] eqn:Hloc; [|apply Hes|by apply header_string_no_panic in Hloc].
  apply holds_bind, holds_done.
  destruct (resolve_server_location c location) as [url|e|] eqn:Hurl;
    [|apply Hes|by apply resolve_server_location_no_panic in Hurl].
  apply holds_bind, holds_done. destruct body as [body|].
  - destruct (header_u64 _ _ _) as [n|e|] eqn:Hn; [|apply Hes|by apply header_u64_no_panic in Hn]. cbn.
    destruct (validate_offset_not_beyond_source n length) as [[]|e|] eqn:Hv;
      [|apply Hes|by apply validate_offset_no_panic in Hv]. apply holds_done.
    eapply Hok; [done| |].
    + split; [done|]. split; [by eexists|]. unfold stated_offset. by rewrite Hn.
    + revert Hv. unfold validate_offset_not_beyond_source. destruct (N.ltb_spec length n); [done|lia].
  - apply holds_done. eapply Hok; [done| |lia]. split; [done|]. split; [by eexists|done].
Qed.

(** ** Capabilities *)

(** At most one request: [OPTIONS] to the endpoint. *)
Lemma holds_server_capabilities c Q s :
  (forall r s', quiet s s' -> r <> Panic -> Q r s') ->
  (forall rq, sent_to Method.OPTIONS (cl_endpoint c) rq -> sends rq s (fun answer s' =>
     (panics answer -> Q Panic s') /\ forall r s'', quiet s' s'' -> r <> Panic -> Q r s'')) ->
  holds (server_capabilities c) Q s.
Proof.
  intros Hq Hx. apply holds_bind, holds_count; [done|]. intros w0 s0 Hq0. apply holds_done. cbn [fst].
  destruct (cw_capabilities w0) as [cap|]; [by apply holds_done, Hq|].
  apply holds_bind, holds_bind, holds_request; [intros; apply Hq; [by eapply quiet_trans|done]|].
  intros r s1 Hq1 Hm Hu%request_uri_url Hb.
  assert (sent_to Method.OPTIONS (cl_endpoint c) (with_headers_mut (header_remove "tus-resumable") r)) as Hto
    by by split.
  destruct (quiet_sends _ _ _ _ (quiet_trans _ _ _ Hq0 Hq1) (Hx _ Hto)) as [Hc HK].
  apply holds_bind, holds_send; [done|]. intros answer s2 Hx2.
  destruct (HK _ _ Hx2) as [Hp Hr]. destruct answer as [e|response]; [apply Hr; [apply quiet_refl|done]|].
  destruct (_ && _).
  { apply holds_unexpected; [intros; apply Hr; [apply quiet_refl|done]|]. intros ?. apply Hp. by do 2 eexists. }
  destruct (csv_header _ _); [apply holds_done, Hr; [apply quiet_refl|done]|]. apply holds_bind, holds_done.
  destruct (optional_header_u64 _ _ _) as [m|e|] eqn:Hl;
    [|apply Hr; [apply quiet_refl|done]|by apply optional_header_u64_no_panic in Hl].
  apply holds_done, holds_bind, holds_count; [done|]. intros w4 s4 Hq4. apply holds_done, holds_done. cbn [fst].
  by apply Hr.
Qed.

Lemma holds_terminate_upload_at c url Q s :
  (forall s' e, quiet s s' -> Q (Err e) s') ->
  (forall r, sent_to Method.DELETE url r -> sends r s (fun answer s' =>
     (panics answer -> Q Panic s') /\ (forall e, Q (Err e) s') /\
     (forall response, answer = inr response -> cr_status response = 204 -> Q (Ok tt) s'))) ->
  holds (terminate_upload_at c url) Q s.
Proof.
  intros He Hk. apply holds_plain_call; [by intros; apply He|].
  intros r Hu%request_uri_url Hm Hb. apply (sends_mono _ _ _ _ (Hk r (conj Hm Hu))).
  intros [e|response] s' _ (Hp & Hes & Hok); [apply Hes|].
  destruct (N.eqb_spec (cr_status response) 204) as [Hs|Hs]; cbn [negb]; [|apply holds_unexpected; [done|by intros ?; apply Hp; do 2 eexists]].
  by eapply holds_done, Hok.
Qed.
End logic.
End facts.
