(* ===== verification/ClientLoops.v ===== *)
(** * The loops of the client

    [patch_source] and the resume loop end, for every server; an invariant of their
    rounds is one of the loops. *)

From S2P Require Import Prelude Text Errors Crates Config State Headers ClientError ClientHelpers Client.
From S2P Require Import ClientUpload ClientFacts.
Local Open Scope string_scope.
Local Open Scope N_scope.
Local Open Scope prog_scope.
#[local] Set Default Proof Using "All".

Lemma validate_offset_ok offset len : validate_offset_not_beyond_source offset len = Ok tt <-> offset <= len.
Proof. unfold validate_offset_not_beyond_source. destruct (N.ltb_spec len offset); split; try done; lia. Qed.

(** A validated advance moves on, not beyond the chunk and not beyond the source. *)
Lemma validate_patch_advance_ok previous next chunk_len source_len :
  validate_patch_advance previous next chunk_len source_len = Ok tt ->
  previous < next /\ next <= source_len /\ next <= previous + chunk_len.
Proof.
  unfold validate_patch_advance. intros Hv. apply outcome_bind_ok in Hv as ([] & Ho%validate_offset_ok & Hv).
  destruct (N.leb_spec next previous); [done|].
  destruct (N.ltb_spec (saturating_add previous chunk_len) next); [done|].
  unfold saturating_add in *. lia.
Qed.

Lemma validate_patch_advance_no_panic a b c d : validate_patch_advance a b c d <> Panic.
Proof. apply bind_no_panic; [unfold validate_offset_not_beyond_source|]; pure. Qed.

Lemma validate_remote_ok `{UrlLib} info len :
  validate_remote_for_resume info len = Ok tt -> ui_offset info <= len.
Proof.
  unfold validate_remote_for_resume, validate_remote_offset.
  destruct (ui_length info); [destruct (negb _)|]; [done|..]; apply validate_offset_ok.
Qed.

Lemma validate_remote_no_panic `{UrlLib} info len : validate_remote_for_resume info len <> Panic.
Proof.
  unfold validate_remote_for_resume, validate_remote_offset.
  destruct (ui_length info); [destruct (negb _)|]; [done|..]; unfold validate_offset_not_beyond_source; pure.
Qed.

Section loops.
Context `{UrlLaws} `{HttpClientLib} `{!HttpLaws} `{!Transport} `{ClientSystem, Base64, Digests, HashOrder}.
Local Abbreviation W := ClientWorld.
Local Abbreviation Progress := (N -> N -> CM W unit).
Context {logic : ClientLogic}.
Implicit Types s : lstate.

(** The bytes of one read of the source. *)
Definition reads (source : UploadSource) (offset : N) (chunk : bytes) : Prop :=
  exists n max_len, src_read_chunk source n offset max_len = inr chunk.

Lemma holds_read_chunk source offset max_len Q s :
  (forall r s', quiet s s' ->
     match r with inr bytes => reads source offset bytes | inl _ => True end ->
     Q (match r with inr bytes => Ok bytes | inl e => Err e end) s') ->
  holds (read_chunk source offset max_len) Q s.
Proof.
  intros HQ. apply holds_count; [done|]. intros w s' Hq. apply holds_done. cbn [fst].
  destruct (src_read_chunk _ _ _ _) as [e|bytes] eqn:Hr; [by apply (HQ (inl e))|].
  apply (HQ (inr bytes)); [done|]. by do 2 eexists.
Qed.

Lemma holds_patch_round c url source total progress sent remaining Q s :
  u64 sent ->
  (forall e s', quiet s s' -> Q (Err e) s') ->
  (forall chunk r, reads source sent chunk -> 0 < bytes_len chunk <= remaining ->
     sent_to Method.PATCH url r -> appends chunk sent r -> sends r s (fun answer s' =>
     (panics answer -> Q Panic s') /\ (forall e, Q (Err e) s') /\
     (forall response n, answer = inr response -> cr_status response = 204 ->
        stated_offset (cr_headers response) = Some n -> sent < n <= total -> n <= sent + bytes_len chunk ->
        holds (progress n total) (fun p s'' =>
          match p with Ok _ => Q (Ok n) s'' | Err e => Q (Err e) s'' | Panic => Q Panic s'' end) s'))) ->
  holds (patch_round c url source total progress sent remaining) Q s.
Proof.
  intros Hs He Hk. apply holds_bind, holds_read_chunk. intros [e|chunk] s1 Hq Hr; [by apply He|].
  destruct (N.eqb_spec (bytes_len chunk) 0) as [Hz|Hz]; [by apply holds_done, He|].
  set (chunk_len := N.min remaining (cl_max_chunk_size c)) in *.
  destruct (N.ltb_spec chunk_len (bytes_len chunk)) as [Hl|Hl]; [by apply holds_done, He|].
  apply holds_bind, holds_send_upload_chunk_at; [done| |].
  { intros s' e Hq'. apply He. by eapply quiet_trans. }
  intros r Hto Ha. eapply sends_mono; [eapply quiet_sends; [exact Hq|apply (Hk chunk); [done|lia|done|done]]|].
  intros answer s2 _ (Hp & Hes & Hok).
  split_and!; [done|done|]. intros response n Hres Hst Hn. apply holds_bind, holds_done.
  destruct (validate_patch_advance _ _ _ _) as [[]|e|] eqn:Hv;
    [|apply Hes|by apply validate_patch_advance_no_panic in Hv].
  apply validate_patch_advance_ok in Hv. apply holds_bind.
  eapply holds_mono; [eapply (Hok response n); [done..|lia|lia]|].
  intros [[]|e|] s3; [|done|done]. intros HQ. by apply holds_done.
Qed.

(** An invariant [P sent] of the rounds of [patch_source]. *)
Lemma holds_patch_loop (P : N -> lstate -> Prop) (Q : cresult unit -> lstate -> Prop) c url source total progress :
  (forall s, P total s -> Q (Ok tt) s) ->
  (forall sent s, sent < total -> P sent s ->
     holds (patch_round c url source total progress sent (total - sent)) (fun r s' =>
       match r with
       | Ok n => sent < n <= total /\ P n s'
       | Err e => Q (Err e) s'
       | Panic => Q Panic s'
       end) s) ->
  forall fuel sent s, (N.to_nat (total - sent) <= fuel)%nat -> sent <= total -> P sent s ->
  holds (patch_loop fuel c url source total progress sent (total - sent)) Q s.
Proof.
  intros Hend Hround. induction fuel as [|fuel IH]; intros sent s Hf Hs HP; cbn [patch_loop].
  all: destruct (N.eqb_spec (total - sent) 0) as [Hz|Hz];
    [apply holds_done, Hend; by replace total with sent by lia|].
  - lia.
  - apply holds_bind. eapply holds_mono; [apply Hround; [lia|done]|].
    intros [n|e|] s'; [|done|done]. intros [Hn HP']. apply IH; [lia|lia|done].
Qed.

Lemma holds_patch_source (P : N -> lstate -> Prop) (Q : cresult unit -> lstate -> Prop) c url source total progress offset s :
  (forall s, P total s -> Q (Ok tt) s) ->
  (forall sent s, sent < total -> P sent s ->
     holds (patch_round c url source total progress sent (total - sent)) (fun r s' =>
       match r with
       | Ok n => sent < n <= total /\ P n s'
       | Err e => Q (Err e) s'
       | Panic => Q Panic s'
       end) s) ->
  offset <= total -> P offset s ->
  holds (patch_source c url source offset total progress) Q s.
Proof.
  intros Hend Hround Ho HP. unfold patch_source. destruct (N.ltb_spec total offset); [lia|].
  eapply holds_patch_loop; eauto.
Qed.

(** ** Attempts *)

(** The retry budget that is left: attempts before the next progress, for each offset
    above the greatest one observed. *)
Definition offsets_left (len : N) (last : option N) : N :=
  match last with Some o => len - o | None => len + 1 end.
Definition budget (c : Client) (len attempt_no : N) (last : option N) : N :=
  offsets_left len last * (cl_max_retries c + 1) + (cl_max_retries c - attempt_no) + 1.
Definition in_budget (c : Client) (len attempt_no : N) (last : option N) : Prop :=
  attempt_no <= cl_max_retries c /\ match last with Some o => o <= len | None => True end.

Lemma holds_retry c attempt_no last error Q s :
  (forall s', paused s s' -> Q (Err error) s') ->
  (forall s', paused s s' -> Q (Ok (inr (attempt_no + 1, last))) s') ->
  holds (retry c attempt_no last error) Q s.
Proof.
  intros He Hok.
  assert (forall s', quiet s s' -> holds (do! sleep_before_retry c (ClientError.retry_after error) attempt_no in
    ret (inr (attempt_no + 1, last))) Q s') as Hsleep.
  { intros s' Hq. apply holds_bind, holds_sleep; [intros w; split_and!; [done..|cbn; rewrite length_app; cbn; lia|done]|].
    intros w s2 Hp. apply holds_done, holds_done, Hok. by eapply quiet_paused. }
  apply holds_bind. unfold consult_retry_hook. destruct (cl_retry_hook c) as [hook|];
    [|apply holds_done, Hsleep, quiet_refl].
  apply holds_count; [done|]. intros w s' Hq. apply holds_done. cbn [fst].
  destruct (hook _ _ _); [by apply Hsleep|by apply He, quiet_pauses].
Qed.

(** The attempts and the greatest offset once [offset] is observed. *)
Definition attempt_at (attempt_no : N) (last : option N) (offset : N) : N :=
  match last with Some previous => if previous <? offset then 0 else attempt_no | None => attempt_no end.
Definition last_at (last : option N) (offset : N) : N :=
  match last with Some previous => N.max previous offset | None => offset end.

Lemma budget_decreases c len attempt_no last offset :
  in_budget c len attempt_no last -> offset < len ->
  let attempt_no' := attempt_at attempt_no last offset in
  let last' := Some (last_at last offset) in
  attempt_no' <> cl_max_retries c ->
  in_budget c len (attempt_no' + 1) last' /\
  budget c len (attempt_no' + 1) last' < budget c len attempt_no last.
Proof.
  unfold in_budget, budget, offsets_left, attempt_at, last_at. intros [Ha Hl] Ho.
  destruct last as [p|]; [destruct (N.ltb_spec p offset)|]; intros Hm; (split; [split; lia|]).
  - replace (N.max p offset) with offset by lia.
    assert (len - p = (len - offset) + (offset - p)) as -> by lia. nia.
  - replace (N.max p offset) with p by lia. lia.
  - assert (len + 1 = (len - offset) + (offset + 1)) as -> by lia. nia.
Qed.

(** What a round must establish to be followed by another attempt: the budget is given. *)
Definition next_attempt (c : Client) (len attempt_no : N) (last : option N) (attempt_no' : N)
    (last' : option N) (P : Prop) : Prop :=
  in_budget c len attempt_no' last' -> budget c len attempt_no' last' < budget c len attempt_no last -> P.

Lemma holds_resume_known c url source progress attempt_no last remote (Q : cresult RoundEnd -> lstate -> Prop) s :
  let len := src_len source in
  let attempt_no' := attempt_at attempt_no last (ui_offset remote) in
  let last' := last_at last (ui_offset remote) in
  in_budget c len attempt_no last ->
  (forall e, Q (Err e) s) ->
  (ui_offset remote = len -> Q (Ok (inl remote)) s) ->
  (ui_offset remote < len ->
     holds (patch_source c url source (ui_offset remote) len progress) (fun r s1 =>
       match r with
       | Ok _ => Q (Ok (inl (mkUploadInfo _ url len (ui_length remote) (ui_metadata remote)))) s1
       | Panic => Q Panic s1
       | Err e =>
           Q (Err e) s1 /\
           (attempt_no' = cl_max_retries c ->
              holds (upload_info_at c url) (fun r s2 =>
                match r with
                | Ok remote' => (forall e', Q (Err e') s2) /\
                    (ui_offset remote' = len -> Q (Ok (inl remote')) s2)
                | Err e' => Q (Err e') s2
                | Panic => Q Panic s2
                end) s1) /\
           (forall s2, paused s1 s2 -> Q (Err e) s2 /\
              next_attempt c len attempt_no last (attempt_no' + 1) (Some last')
                (Q (Ok (inr (attempt_no' + 1, Some last'))) s2))
       end) s) ->
  holds (resume_known c url source progress attempt_no last remote) Q s.
Proof.
  intros len a' l' Hb He Hdone Hgo. unfold resume_known. apply holds_bind, holds_done. fold len.
  destruct (validate_remote_for_resume remote len) as [[]|e|] eqn:Hv;
    [|apply He|by apply validate_remote_no_panic in Hv].
  apply validate_remote_ok in Hv.
  destruct (N.eqb_spec (ui_offset remote) len) as [Heq|Hne]; [by apply holds_done, Hdone|].
  fold (attempt_at attempt_no last (ui_offset remote)) a'. fold (last_at last (ui_offset remote)) l'.
  apply holds_bind, holds_attempt. eapply holds_mono; [apply Hgo; lia|].
  intros [[]|e|] s1; [by intros HQ; apply holds_done| |done]. intros (HQ & Hlast & Hagain).
  destruct (negb (ClientError.is_retryable e)); [by apply holds_done|].
  destruct (N.eqb_spec a' (cl_max_retries c)) as [Hm|Hm].
  - apply holds_bind. eapply holds_mono; [by apply Hlast|]. intros [remote'|e'|] s2; [|done|done].
    intros [Hes Hd]. apply holds_bind, holds_done.
    destruct (validate_remote_for_resume remote' len) as [[]|e'|] eqn:Hv';
      [|apply Hes|by apply validate_remote_no_panic in Hv'].
    destruct (N.eqb_spec (ui_offset remote') len) as [Heq|_]; apply holds_done; [by apply Hd|apply Hes].
  - assert (ui_offset remote < len) as Ho by lia.
    destruct (budget_decreases c len attempt_no last (ui_offset remote) Hb Ho Hm) as [Hb' Hlt].
    apply holds_retry; intros s2 Hp; by apply (Hagain s2 Hp).
Qed.

Lemma holds_resume_round c url source progress attempt_no last created (Q : cresult RoundEnd -> lstate -> Prop) s :
  in_budget c (src_len source) attempt_no last ->
  match created with
  | Some remote => holds (resume_known c url source progress attempt_no last remote) Q s
  | None =>
      holds (upload_info_at c url) (fun r s1 =>
        match r with
        | Ok remote => holds (resume_known c url source progress attempt_no last remote) Q s1
        | Panic => Q Panic s1
        | Err e =>
            Q (Err e) s1 /\
            (forall s2, paused s1 s2 -> Q (Err e) s2 /\
               next_attempt c (src_len source) attempt_no last (attempt_no + 1) last
                 (Q (Ok (inr (attempt_no + 1, last))) s2))
        end) s
  end ->
  holds (resume_round c url source progress attempt_no last created) Q s.
Proof.
  intros Hb. destruct created as [remote|]; [done|]. intros Hw. apply holds_bind, holds_attempt.
  eapply holds_mono; [exact Hw|]. intros [remote|e|] s1; [done| |done]. intros [HQ Hagain].
  destruct (negb (ClientError.is_retryable e)); [by apply holds_done|].
  destruct (N.eqb_spec attempt_no (cl_max_retries c)) as [Hm|Hm]; [by apply holds_done|].
  apply holds_retry; intros s2 Hp; apply (Hagain s2 Hp); unfold in_budget, budget in *; destruct Hb;
    [split; [lia|done]|lia].
Qed.

(** An invariant [P] of the rounds of the loop; enough fuel is the budget. *)
Lemma holds_resume_loop (P : N -> option N -> option UploadInfo -> lstate -> Prop)
    (Q : cresult (option UploadInfo) -> lstate -> Prop) c url source progress :
  (forall attempt_no last created s,
     in_budget c (src_len source) attempt_no last -> P attempt_no last created s ->
     holds (resume_round c url source progress attempt_no last created) (fun r s' =>
       match r with
       | Ok (inl info) => Q (Ok (Some info)) s'
       | Ok (inr (attempt_no', last')) =>
           in_budget c (src_len source) attempt_no' last' /\
           budget c (src_len source) attempt_no' last' < budget c (src_len source) attempt_no last /\
           P attempt_no' last' None s'
       | Err e => Q (Err e) s'
       | Panic => Q Panic s'
       end) s) ->
  forall fuel attempt_no last created s,
  (N.to_nat (budget c (src_len source) attempt_no last) <= fuel)%nat ->
  in_budget c (src_len source) attempt_no last -> P attempt_no last created s ->
  holds (resume_loop fuel c url source progress attempt_no last created) Q s.
Proof.
  intros Hround. induction fuel as [|fuel IH]; intros attempt_no last created s Hf Hb HP.
  { unfold budget in Hf. lia. }
  cbn [resume_loop]. apply holds_bind.
  eapply holds_mono; [by apply Hround|].
  intros [[info|[a' l']]|e|] s'; [by intros HQ; apply holds_done| |done|done].
  intros (Hb' & Hlt & HP'). apply IH; [lia|done|done].
Qed.

Lemma initial_budget c len :
  in_budget c len 0 None /\ N.to_nat (budget c len 0 None) = resume_fuel c len.
Proof.
  unfold in_budget, budget, offsets_left, resume_fuel. split; [split; [lia|done]|]. f_equal. nia.
Qed.

(** ** Invariants

    [J] holds between the steps of an upload to [url]; [O n] says what the client
    knows when the server has stated the offset [n]. *)

Record resumable (J : lstate -> Prop) (O : N -> lstate -> Prop) (url : WebUrl) (source : UploadSource)
    (progress : Progress) : Prop := {
  rs_paused s s' : paused s s' -> J s -> J s';
  rs_head r s :
    J s -> sent_to Method.HEAD url r -> sends r s (fun answer s' =>
    J s' /\
    forall response n, answer = inr response -> cr_status response = 200 \/ cr_status response = 204 ->
      stated_offset (cr_headers response) = Some n -> O n s');
  rs_patch sent chunk r s :
    J s -> O sent s -> sent < src_len source -> reads source sent chunk -> 0 < bytes_len chunk ->
    sent_to Method.PATCH url r -> appends chunk sent r -> sends r s (fun answer s' =>
    J s' /\
    forall response n, answer = inr response -> cr_status response = 204 ->
      stated_offset (cr_headers response) = Some n ->
      sent < n <= src_len source -> n <= sent + bytes_len chunk ->
      holds (progress n (src_len source)) (fun p s'' => p = Ok tt /\ J s'' /\ O n s'') s');
}.

(** The only panic: a [Retry-After] that overflows. *)
Definition retry_after_overflows : Prop := exists r t, panics (transport_send r t).1.

Lemma exchanged_panics r answer s s' : exchanged r answer s s' -> panics answer -> retry_after_overflows.
Proof. intros [t <-]%exchanged_answer Hp. by exists r, t. Qed.

Section invariants.
Context (J : lstate -> Prop) (O : N -> lstate -> Prop) (c : Client) (url : WebUrl) (source : UploadSource).
Context (progress : Progress) (Hinv : resumable J O url source progress).
Context (Hlen : u64 (src_len source)).

(** What holds when an operation fails. *)
Definition failing {A} (r : cresult A) (s : lstate) : Prop :=
  J s /\ match r with Panic => retry_after_overflows | _ => True end.

Lemma head_invariant s :
  J s ->
  holds (upload_info_at c url) (fun r s' =>
    failing r s' /\ match r with Ok info => O (ui_offset info) s' /\ ui_url info = url | _ => True end) s.
Proof.
  intros HJ. apply holds_upload_info_at.
  - intros s' e Hq%quiet_pauses. split; [|done]. split; [by eapply rs_paused|done].
  - intros r Hto. apply (sends_mono _ _ _ _ (rs_head _ _ _ _ _ Hinv r s HJ Hto)).
    intros answer s' Hx [HJ' HO]. split_and!.
    + intros Hp. split; [|done]. split; [done|exact (exchanged_panics _ _ _ _ Hx Hp)].
    + done.
    + intros response info Hr Hs Hn Hu. split; [done|]. split; [by eapply HO|done].
Qed.

Lemma patch_invariant offset s :
  J s -> O offset s -> offset < src_len source ->
  holds (patch_source c url source offset (src_len source) progress) (fun r s' =>
    failing r s' /\ match r with Ok _ => O (src_len source) s' | _ => True end) s.
Proof.
  intros HJ HO Ho. eapply (holds_patch_source (fun n s => J s /\ O n s)); [|clear s HJ HO|lia|done].
  { intros s' []. by split. }
  intros sent s Hs [HJ HO]. apply holds_patch_round; [unfold u64 in *; lia| |].
  { intros e s' Hp%quiet_pauses. split; [|done]. split; [by eapply rs_paused|done]. }
  intros chunk r Hr Hc Hto Ha. destruct Hc as [Hc _].
  apply (sends_mono _ _ _ _ (rs_patch _ _ _ _ _ Hinv sent chunk r s HJ HO Hs Hr Hc Hto Ha)).
  intros answer s' Hx [HJ' Hn]. split_and!.
  - intros Hp. split; [|done]. split; [done|exact (exchanged_panics _ _ _ _ Hx Hp)].
  - done.
  - intros response n Hres Hst Hsn Hb Hle. eapply holds_mono; [by eapply Hn|].
    intros p s'' (-> & HJ'' & HO''). split_and!; [lia|lia|done|done].
Qed.

Definition complete (info : UploadInfo) (s : lstate) : Prop :=
  O (src_len source) s /\ ui_offset info = src_len source /\ ui_url info = url.

(** What a round leaves: the upload complete, or a smaller budget. *)
Definition round_left (attempt_no : N) (last : option N) (r : cresult RoundEnd) (s : lstate) : Prop :=
  failing r s /\
  match r with
  | Ok (inl info) => complete info s
  | Ok (inr (attempt_no', last')) =>
      in_budget c (src_len source) attempt_no' last' /\
      budget c (src_len source) attempt_no' last' < budget c (src_len source) attempt_no last
  | _ => True
  end.

Lemma paused_left attempt_no last a' l' e s s' :
  J s -> paused s s' ->
  round_left attempt_no last (Err e) s' /\
  next_attempt c (src_len source) attempt_no last a' l' (round_left attempt_no last (Ok (inr (a', l'))) s').
Proof. intros HJ Hp. pose proof (rs_paused _ _ _ _ _ Hinv _ _ Hp HJ). by split. Qed.

Lemma known_invariant attempt_no last remote s :
  in_budget c (src_len source) attempt_no last -> J s -> O (ui_offset remote) s -> ui_url remote = url ->
  holds (resume_known c url source progress attempt_no last remote) (round_left attempt_no last) s.
Proof.
  intros Hb HJ HO Hu. apply holds_resume_known; [done|done| |].
  - intros Heq. split; [done|]. split; [|done]. by rewrite <- Heq.
  - intros Hlt. eapply holds_mono; [by apply patch_invariant|].
    intros [[]|e|] s1 [[HJ1 Hf] HO1]; [done| |by split]. split; [done|]. split.
    + intros _. eapply holds_mono; [by apply head_invariant|].
      intros [remote'|e'|] s2 [[HJ2 Hf2] HO2]; [|by split|by split]. destruct HO2. split; [done|].
      intros Heq. split; [done|]. split; [|done]. by rewrite <- Heq.
    + intros s2 Hp. by apply (paused_left _ _ _ _ _ s1).
Qed.

Definition created_invariant (created : option UploadInfo) (s : lstate) : Prop :=
  J s /\ match created with Some info => O (ui_offset info) s /\ ui_url info = url | None => True end.

Lemma round_invariant attempt_no last created s :
  in_budget c (src_len source) attempt_no last -> created_invariant created s ->
  holds (resume_round c url source progress attempt_no last created) (round_left attempt_no last) s.
Proof.
  intros Hb [HJ HO]. apply holds_resume_round; [done|].
  destruct created as [remote|]; [by apply known_invariant; destruct HO|].
  eapply holds_mono; [by apply head_invariant|]. intros [remote|e|] s1 [[HJ1 Hf1] HO1]; [|split|done].
  - by apply known_invariant; destruct HO1.
  - done.
  - intros s2 Hp. by apply (paused_left _ _ _ _ _ s1).
Qed.

Lemma holds_resume_invariant created s :
  created_invariant created s ->
  holds (resume_at_with_progress_from c url source progress created) (fun r s' =>
    failing r s' /\ match r with Ok info => complete info s' | _ => True end) s.
Proof.
  intros Hc. destruct (initial_budget c (src_len source)) as [Hb Hf].
  apply holds_bind. eapply holds_mono.
  - apply (holds_resume_loop (fun _ _ => created_invariant)
      (fun r s' => failing r s' /\ match r with
         | Ok (Some info) => complete info s' | Ok None => False | _ => True end)); [|by rewrite Hf|done|done].
    clear s Hc created. intros a l created s Hba Hc. eapply holds_mono; [by apply round_invariant|].
    intros [[info|[a' l']]|e|] s2 [[HJ2 Hf2] HO2]; [done| |done|done].
    destruct HO2. split_and!; [done|done|]. by split.
  - intros [[info|]|e|] s' [Hfl HO']; [|done|done|done]. by apply holds_done.
Qed.
End invariants.
End loops.
