(* ===== verification/ClientCreation.v ===== *)
(** * New uploads of the client

    What reading a source yields, and an invariant of an upload from its creation to
    its end. *)

From S2P Require Import Prelude Text Errors Crates Config State Headers ClientError ClientHelpers Client.
From S2P Require Import ClientUpload ClientFacts ClientLoops.
Local Open Scope string_scope.
Local Open Scope N_scope.
Local Open Scope prog_scope.
#[local] Set Default Proof Using "All".

(** ** Sources *)

(** A source that reads out [v]. *)
Definition reads_out (source : UploadSource) (v : bytes) : Prop :=
  src_len source = bytes_len v /\
  forall n offset max_len chunk, src_read_chunk source n offset max_len = inr chunk ->
    exists k, chunk = take k (drop (N.to_nat offset) v).

Lemma VecSource_reads_out v : reads_out (VecSource v) v.
Proof.
  split; [done|]. intros n offset max_len chunk [= <-]. unfold vec_read_chunk.
  destruct (bytes_len v <? offset); [by exists 0%nat|]. by eexists.
Qed.

(** A file of the length it had when it was opened holds the same bytes. *)
Lemma FileSource_reads_out `{TokioFile} f v :
  fs_len f = bytes_len v ->
  (forall n offset max_len chunk, file_len n = inr (bytes_len v) ->
     file_read n offset max_len = inr chunk -> exists k, chunk = take k (drop (N.to_nat offset) v)) ->
  reads_out (FileSource_source f) v.
Proof.
  intros Hf Hr. split; [done|]. intros n offset max_len chunk. cbn. unfold file_read_chunk.
  destruct (max_len =? 0); [intros [= <-]; by exists 0%nat|].
  destruct (file_len n) as [|len] eqn:Hl; [done|]. destruct (N.eqb_spec len (fs_len f)) as [->|]; [|done]. cbn.
  destruct (file_seek n offset); [done|]. destruct (file_read n offset max_len) eqn:Hn; [done|].
  intros [= <-]. eapply Hr; [|done]. by rewrite <- Hf.
Qed.

Lemma take_own_length {A} k (l : list A) : take (length (take k l)) l = take k l.
Proof.
  rewrite length_take. destruct (Nat.min_spec k (length l)) as [[_ ->]|[Hk ->]]; [done|].
  by rewrite !take_ge by lia.
Qed.

Section creation.
Context `{UrlLaws} `{HttpClientLib} `{!HttpLaws} `{!Transport} `{ClientSystem, Base64, Digests, HashOrder}.
Local Abbreviation W := ClientWorld.
Local Abbreviation Progress := (N -> N -> CM W unit).
Context {logic : ClientLogic}.
Implicit Types s : lstate.

(** The bytes of [source] from [offset] on that were read are those of what it reads
    out. *)
Definition read_from (source : UploadSource) (offset : N) (body : bytes) : Prop :=
  forall v, reads_out source v -> body = take (length body) (drop (N.to_nat offset) v).

Lemma read_from_app source offset body chunk :
  read_from source offset body -> reads source (offset + bytes_len body) chunk ->
  read_from source offset (body ++ chunk)%list.
Proof.
  intros Hb (n & max_len & Hr) v Hv. pose proof (Hb v Hv) as Hbv.
  destruct (proj2 Hv _ _ _ _ Hr) as [k Hk]. rewrite Hbv at 1. rewrite length_app.
  rewrite <- (take_take_drop (drop (N.to_nat offset) v)), drop_drop. f_equal.
  replace (N.to_nat (offset + bytes_len body)) with (N.to_nat offset + length body)%nat in Hk
    by (unfold bytes_len; lia).
  rewrite Hk. symmetry. apply take_own_length.
Qed.

Lemma holds_read_loop source offset capacity Q s0 :
  (forall e s', quiet s0 s' -> Q (Err e) s') ->
  (forall body s', quiet s0 s' -> bytes_len body = capacity -> read_from source offset body ->
     Q (Ok body) s') ->
  forall fuel body s,
  quiet s0 s -> (N.to_nat (capacity - bytes_len body) <= fuel)%nat -> bytes_len body <= capacity ->
  read_from source offset body ->
  holds (read_loop fuel source offset capacity body) Q s.
Proof.
  intros He Hok. induction fuel as [|fuel IH]; intros body s Hq Hf Hc Hb; cbn [read_loop].
  all: destruct (N.leb_spec capacity (bytes_len body)); [apply holds_done, Hok; [done|lia|done]|].
  { lia. }
  apply holds_bind, holds_read_chunk. intros [e|chunk] s' Hq' Hr; [apply He; by eapply quiet_trans|].
  assert (quiet s0 s') as Hq0 by by eapply quiet_trans.
  destruct (N.eqb_spec (bytes_len chunk) 0); [by apply holds_done, He|].
  destruct (N.ltb_spec (capacity - bytes_len body) (bytes_len chunk)); [by apply holds_done, He|].
  apply IH; [done|rewrite bytes_len_app; lia|rewrite bytes_len_app; lia|by apply read_from_app].
Qed.

Lemma holds_read_source_exact source offset len Q s :
  (isize_max < len -> Q Panic s) ->
  (forall e s', quiet s s' -> Q (Err e) s') ->
  (forall body s', quiet s s' -> bytes_len body = len -> read_from source offset body -> Q (Ok body) s') ->
  holds (read_source_exact source offset len) Q s.
Proof.
  intros Hp He Hok. unfold read_source_exact. destruct (N.ltb_spec isize_max len); [by apply holds_done, Hp|].
  eapply holds_read_loop; [done|done|apply quiet_refl|unfold bytes_len; cbn; lia|unfold bytes_len; cbn; lia|done].
Qed.

(** ** From the creation to the end *)

(** What was read for the body of a creation, if there is one. *)
Definition whole_body (source : UploadSource) (body : option bytes) : Prop :=
  match body with
  | Some b => 0 < bytes_len b /\ bytes_len b = src_len source /\ read_from source 0 b
  | None => True
  end.

(** [P] holds before the creation, [J url] and [O url n], of an upload at [url], after it,
    and [F] at the end. *)
Record creatable (c : Client) (source : UploadSource) (created : WebUrl -> CM W unit) (progress : Progress)
    (P F : lstate -> Prop) (J : WebUrl -> lstate -> Prop) (O : WebUrl -> N -> lstate -> Prop) : Prop := {
  cr_before s : P s -> F s;
  cr_after url s : J url s -> F s;
  cr_quiet s s' : quiet s s' -> P s -> P s';
  cr_options r s : P s -> sent_to Method.OPTIONS (cl_endpoint c) r -> sends r s (fun _ s' => P s');
  cr_post body r s :
    P s -> whole_body source body -> sent_to Method.POST (cl_endpoint c) r ->
    creates (src_len source) (default [] body) r ->
    sends r s (fun answer s' =>
      F s' /\
      forall response url offset, answer = inr response -> created_at c body response url offset ->
        offset <= src_len source ->
        holds (created url) (fun p s2 => p = Ok tt /\
          match body with
          | Some _ => holds (progress offset (src_len source)) (fun p s3 =>
              p = Ok tt /\ J url s3 /\ O url offset s3) s2
          | None => J url s2 /\ O url offset s2
          end) s');
  cr_resumable url : resumable (J url) (O url) url source progress;
}.

Section invariant.
Context (c : Client) (source : UploadSource) (created : WebUrl -> CM W unit) (progress : Progress).
Context (P F : lstate -> Prop) (J : WebUrl -> lstate -> Prop) (O : WebUrl -> N -> lstate -> Prop).
Context (Hinv : creatable c source created progress P F J O).
Context (Hlen : u64 (src_len source)).

Definition uploaded (r : cresult UploadInfo) (s : lstate) : Prop :=
  F s /\
  match r with
  | Ok info => J (ui_url info) s /\ O (ui_url info) (src_len source) s /\ ui_offset info = src_len source
  | Err _ => True
  | Panic => retry_after_overflows \/ isize_max < src_len source
  end.

Lemma resumed_uploaded info s :
  J (ui_url info) s -> O (ui_url info) (ui_offset info) s ->
  holds (resume_at_with_progress_from c (ui_url info) source progress (Some info)) uploaded s.
Proof.
  intros HJ HO. pose proof (cr_resumable _ _ _ _ _ _ _ _ Hinv (ui_url info)) as Hr.
  eapply holds_mono; [eapply (holds_resume_invariant _ _ _ _ _ _ Hr Hlen); by split|].
  intros [info'|e|] s' [[HJ' Hf] HO']; (split; [by eapply cr_after|]); [|done|by left].
  destruct HO' as (HO' & Hi & Hu). by rewrite Hu.
Qed.

Lemma created_uploaded metadata partial body s (k : UploadInfo -> CM W UploadInfo) :
  P s -> whole_body source body ->
  (forall info s', J (ui_url info) s' -> O (ui_url info) (ui_offset info) s' -> holds (k info) uploaded s') ->
  holds (let! upload := create_upload_request c (src_len source) body metadata partial in
         do! created (ui_url upload) in
         do! match body with Some _ => progress (ui_offset upload) (src_len source) | None => ret tt end in
         k upload) uploaded s.
Proof.
  intros HP Hb Hk. apply holds_bind, holds_create_upload_request; [done| |].
  { intros s' e Hq. split; [|done]. eapply cr_before, cr_quiet; eauto. }
  intros r Hto Hc. apply (sends_mono _ _ _ _ (cr_post _ _ _ _ _ _ _ _ Hinv body r s HP Hb Hto Hc)).
  intros answer s' Hx [HF Hn]. split_and!.
  - intros Hp. split; [done|]. left. exact (exchanged_panics _ _ _ _ Hx Hp).
  - done.
  - intros response url offset Hr Hcr Ho. apply holds_bind.
    eapply holds_mono; [by apply (Hn response url offset)|]. intros p s2 [-> Hs2].
    apply holds_bind. destruct body as [b|].
    + eapply holds_mono; [exact Hs2|]. intros p s3 (-> & HJ & HO). by apply Hk.
    + destruct Hs2. apply holds_done. by apply Hk.
Qed.

Lemma holds_create_and_upload metadata capabilities partial s :
  P s -> holds (create_and_upload c source metadata capabilities partial created progress) uploaded s.
Proof.
  intros HP. unfold create_and_upload.
  destruct (should_use_creation_with_upload c (src_len source) capabilities) eqn:Hwith.
  - assert (0 < src_len source) as Hpos.
    { unfold should_use_creation_with_upload in Hwith. destruct (N.ltb_spec 0 (src_len source)); [done|by cbn in Hwith]. }
    apply holds_bind, holds_read_source_exact.
    + intros Hmax. split; [by eapply cr_before|by right].
    + intros e s' Hq. split; [|done]. eapply cr_before, cr_quiet; eauto.
    + intros body s' Hq Hb Hread.
      assert (forall info s', J (ui_url info) s' -> O (ui_url info) (ui_offset info) s' ->
        holds (if ui_offset info =? src_len source then ret info
               else resume_at_with_progress_from c (ui_url info) source progress (Some info)) uploaded s') as Hk.
      { intros info s1 HJ HO. destruct (N.eqb_spec (ui_offset info) (src_len source)) as [He|_].
        - apply holds_done. split; [by eapply cr_after|]. by rewrite <- He at 1.
        - by apply resumed_uploaded. }
      replace (create_upload_info _ _)
        with (create_upload_request c (src_len source) (Some body) metadata partial)
        by (rewrite <- Hb; by destruct partial).
      apply (created_uploaded metadata partial (Some body)); [by eapply cr_quiet|split_and!; [lia|done|done]|done].
  - replace (create_upload_info _ _)
      with (create_upload_request c (src_len source) None metadata partial) by by destruct partial.
    apply (created_uploaded metadata partial None); [done|done|]. intros info s'. by apply resumed_uploaded.
Qed.

Lemma holds_with_capabilities s (k : option ServerCapabilities -> CM W UploadInfo) :
  P s -> (forall cap s', P s' -> holds (k cap) uploaded s') ->
  holds (let! capabilities := creation_capabilities c (src_len source) in k capabilities) uploaded s.
Proof.
  intros HP Hk. apply holds_bind.
  eapply (holds_mono _ (fun r s' => P s' /\ (r = Panic -> retry_after_overflows))).
  2: { intros [cap|e|] s' [HP' Hp]; [by apply Hk|split; [by eapply cr_before|done]|].
       split; [by eapply cr_before|]. left. by apply Hp. }
  unfold creation_capabilities. destruct (_ || _); [by apply holds_done|].
  apply holds_bind, holds_attempt.
  eapply (holds_mono _ (fun r s' => P s' /\ (r = Panic -> retry_after_overflows))).
  2: { intros [cap|e|] s' [HP' Hp]; [by apply holds_done|by destruct (is_auth_failure e); apply holds_done|].
       split; [done|]. intros _. by apply Hp. }
  apply holds_server_capabilities.
  - intros r s' Hq Hr. split; [by eapply cr_quiet|done].
  - intros rq Hto. apply (sends_mono _ _ _ _ (cr_options _ _ _ _ _ _ _ _ Hinv rq s HP Hto)).
    intros answer s' Hx HP'. split; [|intros r s'' Hq Hr; split; [by eapply cr_quiet|done]].
    intros Hp. split; [done|]. intros _. exact (exchanged_panics _ _ _ _ Hx Hp).
Qed.
End invariant.
End creation.
