(* ===== verification/ClientSpec.v ===== *)
(** * What the upload client promises

    Against a server that keeps the protocol ([TusServerLaws]) an upload that succeeds
    has delivered the source, and one that fails has left a prefix of it; progress is
    reported in order; no request leaves the origin of the endpoint when restricted to
    it; and uploads end against every server. *)

From stdpp Require Import sorting.
From S2P Require Import Prelude Text Errors Crates Config State Headers ClientError ClientHelpers Client.
From S2P Require Import ClientUpload ClientFacts ClientLoops ClientCreation.
Local Open Scope string_scope.
Local Open Scope N_scope.
Local Open Scope prog_scope.
#[local] Set Default Proof Using "All".

(** ** Termination *)

Section termination.
Context `{UrlLaws} `{HttpClientLib} `{!HttpLaws} `{!Transport} `{ClientSystem, Base64, Digests, HashOrder}.
#[local] Existing Instance sequential.
Local Abbreviation W := ClientWorld.
Local Abbreviation Progress := (N -> N -> CM W unit).

(** A progress reporter, for the rest of the client. *)
Definition passive (progress : Progress) : Prop :=
  forall uploaded total w, wp (progress uploaded total) (fun r w' =>
    r = Ok tt /\ cw_transport w' = cw_transport w /\ cw_sent w' = cw_sent w /\ cw_slept w' = cw_slept w) w.

Lemma report_passive : passive report.
Proof. intros uploaded total w. by apply wp_act. Qed.

Lemma noop_passive : passive NoopProgress.
Proof. intros uploaded total w. by apply wp_done. Qed.

(** A request alone, with nothing else going on. *)
Lemma sends_alone r w (K : ClientError.t + ClientResponse -> W -> Prop) :
  (forall answer w', answered r answer w w' -> K answer w') -> sends r w K.
Proof. by split. Qed.

Definition pauses (w : W) : nat := length (cw_slept w).
Definition requests (w : W) : N := N.of_nat (length (cw_sent w)).

(** The last request of the run was answered with a [Retry-After] that overflows. *)
Definition crashed (w' : W) : Prop :=
  exists r t answer, List.last (map Some (cw_sent w')) None = Some r /\
    transport_send r t = (answer, cw_transport w') /\ panics answer.

(** At most [p] pauses and [n] requests after [w]. *)
Definition within (w : W) (p : nat) (n : N) (w' : W) : Prop :=
  (pauses w' <= pauses w + p)%nat /\ requests w' <= requests w + n.

Definition spent (w : W) (p : nat) (n : N) {A} (r : cresult A) (w' : W) : Prop :=
  within w p n w' /\ (r = Panic -> crashed w').

Lemma within_quiet w w' : quiet (ClientLogic := sequential) w w' -> within w 0 0 w'.
Proof. intros (_ & Hq & _ & Hs & _). unfold within, pauses, requests. rewrite Hq, Hs. lia. Qed.

Lemma within_paused w w' : paused (ClientLogic := sequential) w w' -> within w 1 0 w'.
Proof. intros (_ & Hq & _ & Hs & _). unfold within, pauses, requests. rewrite Hq. lia. Qed.

Lemma within_answered r answer w w' : answered r answer w w' -> within w 0 1 w'.
Proof.
  intros (_ & Hq & _ & Hs & _). unfold within, pauses, requests. rewrite Hq, Hs, length_app. cbn. lia.
Qed.

Lemma answered_crashed r answer w w' : answered r answer w w' -> panics answer -> crashed w'.
Proof.
  intros (Ht & Hq & _) Hp. exists r, (cw_transport w), answer. split_and!; [|done..].
  rewrite Hq, map_app. apply List.last_last.
Qed.

Lemma head_cost c url w : holds (upload_info_at c url) (fun r w' => spent w 0 1 r w') w.
Proof.
  apply holds_upload_info_at.
  - intros w' e Hq%within_quiet. split; [|done]. unfold within in *. lia.
  - intros r _. apply sends_alone. intros answer w' Ha. pose proof (within_answered _ _ _ _ Ha) as Hw.
    split_and!; [|done|done]. intros Hp. split; [done|]. intros _. by eapply answered_crashed.
Qed.

(** Every PATCH of a round moves on, so there are not more of them than bytes. *)
Lemma patch_cost c url source progress offset w :
  passive progress -> u64 (src_len source) -> offset < src_len source ->
  holds (patch_source c url source offset (src_len source) progress) (fun r w' =>
    spent w 0 (src_len source - offset) r w') w.
Proof.
  intros Hp Hu Ho.
  apply (holds_patch_source (logic := sequential) (fun n w' => offset <= n /\ within w 0 (n - offset) w'));
    [intros w' [_ Hw']; by split| |lia|split; [lia|unfold within; lia]].
  intros sent w1 Hs [Hos Hw1]. apply holds_patch_round; [unfold u64 in *; lia| |].
  - intros e w' Hq%within_quiet. split; [|done]. unfold within in *. lia.
  - intros chunk r _ _ _ _. apply sends_alone. intros answer w' Ha.
    pose proof (within_answered _ _ _ _ Ha) as Hw'. split_and!.
    + intros Hpa. split; [unfold within in *; lia|]. intros _. by eapply answered_crashed.
    + intros e. split; [|done]. unfold within in *. lia.
    + intros response n _ _ _ Hb _. eapply holds_mono; [apply Hp|].
      intros p w2 (-> & _ & Hq & Hsl). split; [lia|]. split; [lia|].
      unfold within, pauses, requests in *. rewrite Hq, Hsl. lia.
Qed.

(** What becomes of the retry budget: an attempt more of it is used, unless the server's
    offset exceeds the greatest one observed before, which refills it. *)
Definition budget_after (attempt_no : N) (last : option N) (attempt_no' : N) (last' : option N) : Prop :=
  (attempt_no' = attempt_no + 1 /\ forall seen, last = Some seen -> last' = Some seen) \/
  (attempt_no' = 1 /\ exists seen observed, last = Some seen /\ last' = Some observed /\ seen < observed).

Lemma budget_same a last : budget_after a last (a + 1) last.
Proof. by left. Qed.

Lemma budget_observed a last offset : budget_after a last (attempt_at a last offset + 1) (Some (last_at last offset)).
Proof.
  unfold attempt_at, last_at. destruct last as [p|]; [|by left].
  destruct (N.ltb_spec p offset).
  - right. split; [done|]. exists p, offset. split_and!; [done|f_equal; lia|done].
  - left. split; [done|]. intros q [= <-]. f_equal. lia.
Qed.

Definition round_cost (c : Client) (len attempt_no : N) (last : option N) (w : W) (r : cresult RoundEnd) (w' : W)
    : Prop :=
  spent w 1 (len + 2) r w' /\
  match r with
  | Ok (inr (attempt_no', last')) =>
      budget_after attempt_no last attempt_no' last' /\
      in_budget c len attempt_no' last' /\ budget c len attempt_no' last' < budget c len attempt_no last
  | _ => True
  end.

(** A round pauses once at most, and sends no more requests than there are bytes, and two. *)
Lemma round_spends c url source progress attempt_no last created w :
  passive progress -> u64 (src_len source) -> in_budget c (src_len source) attempt_no last ->
  holds (resume_round c url source progress attempt_no last created)
    (round_cost c (src_len source) attempt_no last w) w.
Proof.
  intros Hp Hu Hb. set (Q := round_cost _ _ _ _ _).
  assert (forall A e w', within w 0 (src_len source + 2) w' -> spent (A:=A) w 1 (src_len source + 2) (Err e) w') as He.
  { intros A e w' Hw'. split; [unfold within in *; lia|done]. }
  assert (forall remote w1, within w 0 1 w1 ->
    holds (resume_known c url source progress attempt_no last remote) Q w1) as Hk.
  { intros remote w1 Hw1. apply holds_resume_known; [done| | |].
    - intros e. split; [apply He|done]. unfold within in *. lia.
    - intros _. split; [|done]. split; [|done]. unfold within in *. lia.
    - intros Hlt. eapply holds_mono; [by apply patch_cost|].
      intros [[]|e|] w2 [Hw2 Hc]; [|split_and!|split; [|done]].
      + split; [|done]. split; [|done]. unfold within in *. lia.
      + split; [apply He|done]. unfold within in *. lia.
      + intros _. eapply holds_mono; [apply head_cost|].
        intros [i|e'|] w3 [Hw3 Hc3]; unfold Q, round_cost, spent.
        * split; intros; (split; [split; [|done]|done]); unfold within in *; lia.
        * split; [split; [|done]|done]. unfold within in *; lia.
        * split; [split; [|by intros _; apply Hc3]|done]. unfold within in *; lia.
      + intros w3 Hw3%within_paused. split; [split; [split; [|done]|done]; unfold within in *; lia|].
        intros Hib Hlt'. split; [split; [|done]; unfold within in *; lia|].
        split; [apply budget_observed|by split].
      + split; [|by intros _; apply Hc]. unfold within in *. lia. }
  apply holds_resume_round; [done|].
  destruct created as [remote|]; [apply Hk; unfold within; lia|].
  eapply holds_mono; [apply head_cost|]. intros [remote|e|] w1 [Hw1 Hc]; [by apply Hk| |].
  - split; [split; [apply He|done]; unfold within in *; lia|].
    intros w2 Hw2%within_paused. split; [split; [split; [|done]|done]; unfold within in *; lia|].
    intros Hib Hlt. split; [split; [|done]; unfold within in *; lia|]. split; [apply budget_same|by split].
  - split; [|done]. split; [|by intros _; apply Hc]. unfold within in *. lia.
Qed.

(** C13: resuming an upload ends, whatever the server, the header provider and the retry
    hook do: the loop is done within (source length + 2) * (max_retries + 1) rounds,
    with at most as many pauses and, each round sending no more PATCH requests than
    there are bytes, at most (source length + 2) times as many requests; a panic is the
    answer to the last request sent.  A round that is followed by another uses up an
    attempt, unless the server's offset exceeds every offset seen before. *)
Theorem resume_ends c url source progress created w :
  passive progress -> u64 (src_len source) ->
  wp (resume_loop (resume_fuel c (src_len source)) c url source progress 0 None created) (fun r w' =>
    r <> Ok None /\ (r = Panic -> crashed w') /\
    (pauses w' <= pauses w + resume_fuel c (src_len source))%nat /\
    requests w' <= requests w + N.of_nat (resume_fuel c (src_len source)) * (src_len source + 2)) w /\
  forall attempt_no last created w1 attempt_no' last' w2,
    in_budget c (src_len source) attempt_no last ->
    run (resume_round c url source progress attempt_no last created) w1 = (Ok (inr (attempt_no', last')), w2) ->
    budget_after attempt_no last attempt_no' last' /\ attempt_no' <= cl_max_retries c.
Proof.
  intros Hp Hu. split.
  2: { intros a l cr w1 a' l' w2 Hb Hrun.
       destruct (wp_run _ _ _ _ _ (round_spends c url source progress a l cr w1 Hp Hu Hb) Hrun) as (_ & Ha & Hb' & _).
       split; [exact Ha|apply Hb']. }
  destruct (initial_budget c (src_len source)) as [Hb Hf]. set (len := src_len source) in *.
  rewrite <- Hf, N2Nat.id. set (all := budget c len 0 None) in *.
  apply (holds_resume_loop (logic := sequential) (fun a l _ w' =>
    budget c len a l <= all /\
    within w (N.to_nat (all - budget c len a l)) ((all - budget c len a l) * (len + 2)) w'));
    [|fold len; lia|done|cbv beta; split; [lia|unfold within; nia]].
  intros a l cr w1 Hba [Hle Hw1]. assert (1 <= budget c len a l) as Hpos by (unfold budget; lia).
  eapply holds_mono; [by apply round_spends|]. fold len.
  assert (forall b w2, b < budget c len a l -> within w1 1 (len + 2) w2 ->
    within w (N.to_nat (all - b)) ((all - b) * (len + 2)) w2) as Hnext.
  { intros b w2 Hlt Hw2. unfold within in *. nia. }
  assert (forall w2, within w1 1 (len + 2) w2 -> (pauses w2 <= pauses w + N.to_nat all)%nat /\
    requests w2 <= requests w + all * (len + 2)) as Hend.
  { intros w2 Hw2. specialize (Hnext 0 w2 ltac:(lia) Hw2). unfold within in Hnext.
    by rewrite N.sub_0_r in Hnext. }
  intros [[info|[a' l']]|e|] w2 [[Hw2 Hc] Hd]; [split_and!; [done|done|by apply Hend..]| |
    split_and!; [done|done|by apply Hend..]|split_and!; [done|by intros _; apply Hc|by apply Hend..]].
  destruct Hd as (_ & Hib & Hlt). split_and!; [done|done|lia|]. by apply Hnext.
Qed.
End termination.

(** ** Origins *)

Section origins.
Context `{UrlLaws} `{HttpClientLib} `{!HttpLaws} `{!Transport} `{ClientSystem, Base64, Digests, HashOrder}.
#[local] Existing Instance sequential.
Local Abbreviation W := ClientWorld.

(** The request goes to the endpoint's scheme, host and port. *)
Definition on_origin (c : Client) (r : TransportRequest) : Prop :=
  exists url, tr_uri r = weburl_as_str url /\ same_origin url (cl_endpoint c) = true.

(** All requests since [before] do. *)
Definition stays (c : Client) (before : list TransportRequest) (w : W) : Prop :=
  exists l, cw_sent w = (before ++ l)%list /\ Forall (on_origin c) l.

Lemma stays_quiet c before w w' : cw_sent w' = cw_sent w -> stays c before w -> stays c before w'.
Proof. unfold stays. by intros ->. Qed.

Lemma stays_exchanged c before url r answer w w' :
  tr_uri r = weburl_as_str url -> same_origin url (cl_endpoint c) = true ->
  answered r answer w w' -> stays c before w -> stays c before w'.
Proof.
  intros Hu Ho (_ & Hs & _) (l & Hl & Hf). exists (l ++ [r])%list. rewrite Hs, Hl, <- app_assoc.
  split; [done|]. apply Forall_app. split; [done|]. constructor; [|done]. by exists url.
Qed.

Lemma resumable_stays c before url source progress :
  passive progress ->
  resumable (fun w => stays c before w /\ same_origin url (cl_endpoint c) = true) (fun _ _ => True)
    url source progress.
Proof.
  intros Hp. split.
  - intros w w' (_ & Hs & _) [HJ Ho]. split; [by eapply stays_quiet|done].
  - intros r w [HJ Ho] [_ Hu]. apply sends_alone. intros answer w' Hx.
    split; [|done]. split; [by eapply stays_exchanged|done].
  - intros sent chunk r w [HJ Ho] _ _ _ _ [_ Hu] _. apply sends_alone. intros answer w' Hx.
    assert (stays c before w') as HJ' by by eapply stays_exchanged. split; [done|].
    intros response n _ _ _ _ _. eapply holds_mono; [apply Hp|]. intros p w2 (-> & _ & Hs & _).
    split_and!; [done| |done|done]. by apply (stays_quiet _ _ w').
Qed.

Lemma creatable_stays c before source progress :
  cl_restrict_to_endpoint_origin c = true -> same_origin (cl_endpoint c) (cl_endpoint c) = true ->
  passive progress ->
  creatable c source (fun _ => ret tt) progress (stays c before) (stays c before)
    (fun url w => stays c before w /\ same_origin url (cl_endpoint c) = true) (fun _ _ _ => True).
Proof.
  intros Hr Ho Hp. split; [done|by intros url w []| | | |].
  - intros w w' (_ & Hs & _). by apply stays_quiet.
  - intros r w HJ [_ Hu]. apply sends_alone. intros answer w' Hx. by eapply stays_exchanged.
  - intros body r w HJ _ [_ Hu] _. apply sends_alone. intros answer w' Hx.
    assert (stays c before w') as HJ' by by eapply stays_exchanged. split; [done|].
    intros response url offset _ (_ & (location & _ & Hurl) & _) _.
    apply resolve_server_location_ok in Hurl as [_ Hurl]. apply holds_done. split; [done|].
    destruct body; [|by split; [split; [|apply Hurl]|]]. eapply holds_mono; [apply Hp|].
    intros p w2 (-> & _ & Hs & _). split; [done|]. split; [|done]. split; [|by apply Hurl].
    by apply (stays_quiet _ _ w').
  - intros url. by apply resumable_stays.
Qed.

(** C35: with the restriction to the endpoint's origin, every request of an upload goes
    to the endpoint's origin, whatever locations the server names. *)
Theorem restriction_keeps_origin c source metadata progress w :
  cl_restrict_to_endpoint_origin c = true -> same_origin (cl_endpoint c) (cl_endpoint c) = true ->
  passive progress -> u64 (src_len source) ->
  wp (upload_from_with_progress c source metadata progress) (fun _ w' => stays c (cw_sent w) w') w.
Proof.
  intros Hr Ho Hp Hu. pose proof (creatable_stays c (cw_sent w) source progress Hr Ho Hp) as Hinv.
  eapply wp_mono; [apply (holds_with_capabilities (logic := sequential) _ _ _ _ _ _ _ _ Hinv Hu)|by intros r w' []].
  - exists []. by rewrite app_nil_r.
  - intros cap w' HJ. by apply (holds_create_and_upload _ _ _ _ _ _ _ _ Hinv Hu).
Qed.
End origins.

(** ** What a tus server promises a client

    [object t uri]: the bytes the server has of the upload at [uri].  The server may
    take any part of a chunk, answer or not, and lose an upload altogether; it does
    not change bytes it has, and the offsets it states are true. *)

Class TusServer `{Transport} := {
  object : TransportState -> string -> option bytes;
}.

Class TusServerLaws `{UrlLib} `{TusServer} := {
  server_keeps r t answer t' uri b :
    transport_send r t = (answer, t') -> object t uri = Some b ->
    object t' uri = None \/ object t' uri = Some b \/
    (sent_to_uri Method.PATCH uri r /\ stated_offset (tr_headers r) = Some (bytes_len b) /\
     exists k, object t' uri = Some (b ++ take k (TransportBody.bytes_of (tr_body r)))%list);
  server_gone r t answer t' uri :
    transport_send r t = (answer, t') -> tr_method r <> Method.POST ->
    object t uri = None -> object t' uri = None;
  server_head r t response t' n :
    transport_send r t = (inr response, t') -> tr_method r = Method.HEAD ->
    cr_status response = 200 \/ cr_status response = 204 ->
    stated_offset (cr_headers response) = Some n ->
    exists b, object t (tr_uri r) = Some b /\ object t' (tr_uri r) = Some b /\ bytes_len b = n;
  server_patch r t response t' n :
    transport_send r t = (inr response, t') -> tr_method r = Method.PATCH ->
    cr_status response = 204 -> stated_offset (cr_headers response) = Some n ->
    exists b b', object t (tr_uri r) = Some b /\ object t' (tr_uri r) = Some b' /\ bytes_len b' = n;
  (** a creation: the Location, resolved against the URL posted to, has the beginning
      of the body that the response states, if it states one *)
  server_create endpoint r t response t' length location url :
    transport_send r t = (inr response, t') -> tr_method r = Method.POST ->
    tr_uri r = weburl_as_str endpoint -> stated_length (tr_headers r) = Some length ->
    cr_status response = 201 ->
    header_string (cr_headers response) "location" "Location" = Ok location ->
    resolve_upload_location endpoint location = Ok url ->
    exists b, object t' (weburl_as_str url) = Some b /\
      b `prefix_of` TransportBody.bytes_of (tr_body r) /\
      (TransportBody.bytes_of (tr_body r) <> [] ->
         forall n, stated_offset (cr_headers response) = Some n -> bytes_len b = n);
}.

(** Taking a chunk that begins where a prefix ends prolongs the prefix. *)
Lemma prefix_grows (v b : bytes) k j :
  b `prefix_of` v -> (b ++ take k (take j (drop (N.to_nat (bytes_len b)) v)))%list `prefix_of` v.
Proof.
  intros [s ->]. unfold bytes_len. rewrite Nat2N.id, drop_app_length, take_take.
  apply prefix_app, prefix_take.
Qed.

Lemma prefix_full (b v : bytes) : b `prefix_of` v -> bytes_len b = bytes_len v -> b = v.
Proof.
  intros [s ->]. unfold bytes_len. rewrite length_app. intros Hl.
  destruct s; [by rewrite app_nil_r|cbn in Hl; lia].
Qed.

Section delivery.
Context `{UrlLaws} `{HttpClientLib} `{!HttpLaws} `{!Transport} `{ClientSystem, Base64, Digests, HashOrder}.
Context `{!TusServer} `{!TusServerLaws}.
#[local] Existing Instance sequential.
Local Abbreviation W := ClientWorld.

(** The reports of an upload of [total] bytes: ascending, and up to [bound]. *)
Definition reported (total bound : N) (l : list (N * N)) : Prop :=
  StronglySorted (fun a b => a.1 <= b.1) l /\ Forall (fun r => r.1 <= bound /\ r.2 = total) l.

Lemma reported_more total bound bound' l : bound <= bound' -> reported total bound l -> reported total bound' l.
Proof.
  intros Hb [Hs Hf]. split; [done|]. eapply Forall_impl; [exact Hf|]. cbn. intros r []. split; [lia|done].
Qed.

Lemma reported_snoc total bound l : reported total bound l -> reported total bound (l ++ [(bound, total)]).
Proof.
  intros [Hs Hf]. split.
  - induction Hs as [|x l Hs IH Hx]; [by repeat constructor|]. apply Forall_cons in Hf as [[Hb _] Hf].
    cbn. constructor; [by apply IH|]. apply Forall_app. split; [done|]. by constructor.
  - apply Forall_app. split; [done|]. by repeat constructor.
Qed.

(** An upload of [v] under way at [uri]: the server has a prefix, or nothing; the
    reports since [before] do not exceed it. *)
Definition under_way (v : bytes) (uri : string) (before : list (N * N)) (w : W) : Prop :=
  let bound := match object (cw_transport w) uri with Some b => bytes_len b | None => bytes_len v end in
  match object (cw_transport w) uri with Some b => b `prefix_of` v | None => True end /\
  exists l, cw_progress w = (before ++ l)%list /\ reported (bytes_len v) bound l.

(** What a truthful server has when it states the offset [n]. *)
Definition has_bytes (uri : string) (n : N) (w : W) : Prop :=
  exists b, object (cw_transport w) uri = Some b /\ bytes_len b = n.

Lemma under_way_exchange v uri before r answer w w' :
  under_way v uri before w -> tr_method r <> Method.POST ->
  (sent_to_uri Method.PATCH uri r ->
     exists sent j, appends (take j (drop (N.to_nat sent) v)) sent r) ->
  answered r answer w w' ->
  under_way v uri before w'.
Proof.
  intros [Hp (l & Hl & Hr)] Hm Ha (Hs & _ & Hpr & _). unfold under_way. rewrite Hpr.
  destruct (object (cw_transport w) uri) as [b|] eqn:Ho.
  - assert (bytes_len b <= bytes_len v) as Hle.
    { destruct Hp as [s ->]. rewrite bytes_len_app. lia. }
    destruct (server_keeps _ _ _ _ _ _ Hs Ho) as [->|[->|(Hto & Hst & k & ->)]].
    + split; [done|]. exists l. split; [done|]. by eapply reported_more.
    + split; [done|]. by exists l.
    + destruct (Ha Hto) as (sent & j & -> & Hso). rewrite Hso in Hst. injection Hst as ->.
      split; [by apply prefix_grows|]. exists l. split; [done|].
      eapply reported_more; [|exact Hr]. rewrite bytes_len_app. lia.
  - rewrite (server_gone _ _ _ _ _ Hs Hm Ho). split; [done|]. by exists l.
Qed.

(** A report of what the server has. *)
Lemma under_way_report v uri before n w :
  under_way v uri before w -> has_bytes uri n w ->
  wp (report n (bytes_len v)) (fun p w' =>
    p = Ok tt /\ under_way v uri before w' /\ has_bytes uri n w') w.
Proof.
  intros [Hp (l & Hl & Hr)] (b & Hb & Hn). apply wp_act. split; [done|].
  split; [|by exists b]. unfold under_way. cbn. rewrite Hb in *. split; [done|].
  exists (l ++ [(n, bytes_len v)])%list. rewrite Hl, <- app_assoc. split; [done|].
  subst n. by apply reported_snoc.
Qed.

Lemma resumable_delivery v url source before :
  reads_out source v ->
  resumable (under_way v (weburl_as_str url) before) (has_bytes (weburl_as_str url)) url source report.
Proof.
  intros Hv. destruct Hv as [Hlen Hv]. split.
  - intros w w' (Ht & _ & Hp & _). unfold under_way. by rewrite Ht, Hp.
  - intros r w HJ [Hm Hu]. apply sends_alone. intros answer w' Hx. split.
    + eapply under_way_exchange; [done|by rewrite Hm| |done]. intros [Hm' _]. congruence.
    + intros response n -> Hst Hn. destruct Hx as (Hs & _).
      destruct (server_head _ _ _ _ _ Hs Hm Hst Hn) as (b & _ & Hb & Hbn). exists b. by rewrite <- Hu.
  - intros sent chunk r w HJ _ Hlt (i & m & Hr) Hc [Hm Hu] Ha. apply sends_alone. intros answer w' Hx.
    assert (under_way v (weburl_as_str url) before w') as HJ'.
    { eapply under_way_exchange; [done|by rewrite Hm| |done]. intros _.
      apply Hv in Hr as [j ->]. by exists sent, j. }
    split; [done|]. intros response n -> Hst Hn _ _. destruct Hx as (Hs & _).
    destruct (server_patch _ _ _ _ _ Hs Hm Hst Hn) as (_ & b & _ & Hb & Hbn). rewrite Hlen.
    apply under_way_report; [done|]. exists b. by rewrite <- Hu.
Qed.

(** C21: an upload that was resumed successfully is complete: the server has exactly the
    bytes of the source.  If resuming fails, or is interrupted, what the server has is
    still a prefix of the source, so that it can be resumed; and the progress reports
    ascend to what the server has. *)
Theorem resume_delivers c url source v created w :
  reads_out source v -> u64 (bytes_len v) ->
  match object (cw_transport w) (weburl_as_str url) with Some b => b `prefix_of` v | None => True end ->
  match created with
  | Some info => ui_url info = url /\ has_bytes (weburl_as_str url) (ui_offset info) w
  | None => True
  end ->
  wp (resume_at_with_progress_from c url source report created) (fun r w' =>
    under_way v (weburl_as_str url) (cw_progress w) w' /\
    match r with
    | Ok info => object (cw_transport w') (weburl_as_str url) = Some v /\
        ui_offset info = bytes_len v /\ ui_url info = url
    | Err _ => True
    | Panic => retry_after_overflows
    end) w.
Proof.
  intros Hv Hu Hp Hcr. pose proof Hv as [Hlen _].
  eapply wp_mono; [eapply (holds_resume_invariant (logic := sequential)); [by apply resumable_delivery|by rewrite Hlen|]|].
  - split; [|destruct created as [info|]; [|done]; by destruct Hcr].
    split; [exact Hp|]. exists []. rewrite app_nil_r. repeat constructor.
  - intros r w' [[HJ Hf] HO]. split; [done|]. destruct r as [info|e|]; [|done|done].
    destruct HO as ((b & Hb & Hbn) & Hi & Hiu). rewrite Hlen in *.
    split_and!; [|done|done]. destruct HJ as [Hpre _]. rewrite Hb in *. f_equal. by apply prefix_full.
Qed.

(** ** New uploads *)

(** A creation leaves a prefix of the body sent with it, as long as it states. *)
Lemma creation_has_bytes c len body r response url offset w w' :
  sent_to Method.POST (cl_endpoint c) r -> creates len (default [] body) r ->
  exchanged r (inr response) w w' -> created_at c body response url offset -> body <> Some [] ->
  exists b, object (cw_transport w') (weburl_as_str url) = Some b /\
    b `prefix_of` default [] body /\ bytes_len b = offset.
Proof.
  intros [Hm Hu] [Hl Hb] (Hs & _) (Hst & (location & Hloc & Hurl) & Ho) Hne.
  apply resolve_server_location_ok in Hurl as [Hurl _].
  destruct (server_create _ _ _ _ _ _ _ _ Hs Hm Hu Hl Hst Hloc Hurl) as (b & Hob & Hp & Hn).
  rewrite Hb in *. exists b. split_and!; [done|done|]. destruct body as [body|]; cbn in *.
  - apply Hn; [|done]. by intros ->.
  - subst offset. apply prefix_nil_inv in Hp as ->. done.
Qed.

(** What an upload of [v] that ended with [r] in [w'] left. *)
Definition left_by_upload (v : bytes) (before : list (N * N)) (r : cresult UploadInfo) (w' : W) : Prop :=
  match r with
  | Ok info =>
      object (cw_transport w') (weburl_as_str (ui_url info)) = Some v /\ ui_offset info = bytes_len v /\
      under_way v (weburl_as_str (ui_url info)) before w'
  | Err _ => True
  | Panic => retry_after_overflows
  end.

Lemma creatable_delivery c source v before :
  reads_out source v ->
  creatable c source (fun _ => ret tt) report (fun w => cw_progress w = before) (fun _ => True)
    (fun url => under_way v (weburl_as_str url) before) (fun url => has_bytes (weburl_as_str url)).
Proof.
  intros Hv. pose proof Hv as [Hlen _]. split; [done|done| | | |].
  - by intros w w' (_ & _ & -> & _).
  - intros r w Hb _. apply sends_alone. by intros answer w' (_ & _ & -> & _).
  - intros body r w Hb Hbody Hto Hc. apply sends_alone. intros answer w' Hx. split; [done|].
    intros response url offset -> Hcr _.
    assert (default [] body `prefix_of` v /\ body <> Some []) as [Hp Hne].
    { destruct body as [b|]; [|split; [apply prefix_nil|done]]. destruct Hbody as (Hpos & Hbl & Hrd).
      specialize (Hrd v Hv). cbn [N.to_nat drop default] in *. split; [rewrite Hrd; apply prefix_take|]. intros [= ->]. by cbn in Hpos. }
    destruct (creation_has_bytes _ _ _ _ _ _ _ _ _ Hto Hc Hx Hcr Hne) as (b & Hob & Hbp & Hbn).
    destruct Hx as (_ & _ & Hpr & _). apply holds_done. split; [done|].
    assert (under_way v (weburl_as_str url) before w') as HJ.
    { split; [rewrite Hob; by etrans|]. exists []. rewrite app_nil_r, Hpr. split; [done|]. repeat constructor. }
    assert (has_bytes (weburl_as_str url) offset w') as HO by by exists b.
    destruct body; [|done]. rewrite Hlen. by apply under_way_report.
  - intros url. by apply resumable_delivery.
Qed.

Lemma uploaded_whole c source v metadata w :
  reads_out source v -> bytes_len v <= isize_max ->
  wp (upload_from_with_progress c source metadata report) (left_by_upload v (cw_progress w)) w.
Proof.
  intros Hv Hmax. pose proof Hv as [Hlen _].
  assert (u64 (src_len source)) as Hu by (rewrite Hlen; unfold u64, u64_max, isize_max in *; lia).
  pose proof (creatable_delivery c source v (cw_progress w) Hv) as Hinv.
  eapply wp_mono; [apply (holds_with_capabilities (logic := sequential) _ _ _ _ _ _ _ _ Hinv Hu); [done|]|].
  - intros cap w' HJ. by apply (holds_create_and_upload _ _ _ _ _ _ _ _ Hinv Hu).
  - intros [info|e|] w' [_ HO]; [|done|destruct HO; [done|lia]].
    destruct HO as (HJ & (b & Hb & Hbn) & Hi). rewrite Hlen in *. split_and!; [|done|done].
    destruct HJ as [Hpre _]. rewrite Hb in *. f_equal. by apply prefix_full.
Qed.

(** C3: a successful [upload_from] has created an upload that holds exactly the bytes of
    the source, whether they went with the creation or in chunks, however often the
    connection failed; the progress reported on the way ascends to the length of the
    source. *)
Theorem upload_from_delivers c source v metadata w :
  reads_out source v -> bytes_len v <= isize_max ->
  wp (upload_from_with_progress c source metadata report) (left_by_upload v (cw_progress w)) w.
Proof. apply uploaded_whole. Qed.
End delivery.
