(* ===== verification/Reqwest.v ===== *)
(** * The reqwest transport ([tus-uploader/src/transport/reqwest.rs])

    How a request of the client becomes one of [reqwest], plain or with middleware, and
    how its response and its errors come back.  Targets other than wasm. *)

From S2P Require Import Prelude Text Errors Crates Config State Headers Hooks Backends Lifecycle Intake Streaming.
From S2P Require Import ClientError ClientHelpers Client.
Local Open Scope string_scope.
Local Open Scope N_scope.

(** ** Interfaces of [reqwest] and [reqwest_middleware] *)

Record ReqwestError := {
  re_text : string;
  re_is_builder : bool;
  re_is_redirect : bool;
}.

Module MiddlewareError.
Inductive t := Reqwest (e : ReqwestError) | Middleware (source : string).
End MiddlewareError.

(** A request as the builders hold it; the body as the frames it is sent in. *)
Record WireRequest `{HttpLib} := mkWireRequest {
  wq_method : Method.t;
  wq_uri : string;
  wq_headers : HeaderMap;
  wq_body : BodyStream;
}.

(** A response: its head, and what polling its body for chunks yields. *)
Record WireResponse `{HttpLib} := {
  wr_status : N;
  wr_headers : HeaderMap;
  wr_chunks : list (ReqwestError + bytes);
}.

(** What is on the other side of the clients. *)
Class ReqwestLib `{HttpLib} := {
  Net : Type;
  reqwest_execute : WireRequest -> Net -> (ReqwestError + WireResponse) * Net;
  middleware_execute : WireRequest -> Net -> (MiddlewareError.t + WireResponse) * Net;
}.

(** A copy of a header map, made by appending what iterating it yields. *)
Class HttpAppendLaws `{HttpClientLib} := {
  header_append_eq n v h :
    header_get (header_append n v h) n = Some (default v (header_get h n));
  header_append_ne n m v h :
    n <> m -> header_get (header_append n v h) m = header_get h m;
  header_iter_get h n : header_get h n = snd <$> find (fun nv => (nv.1 =? n)%string) (header_iter h);
}.

Section transport.
Context `{HttpClientLib} `{!ReqwestLib}.
Local Abbreviation mk := (mkWireRequest _).

(** ** Errors *)

Definition reqwest_error (error : ReqwestError) : ClientError.t :=
  let retryable := negb (re_is_builder error || re_is_redirect error) in
  ClientError.Transport (re_text error) retryable.

Definition reqwest_middleware_error (error : MiddlewareError.t) : ClientError.t :=
  match error with
  | MiddlewareError.Reqwest error => reqwest_error error
  | MiddlewareError.Middleware error => ClientError.transport error
  end.

(** ** Requests *)

(** [trait ReqwestRequestBuilder]: the builders differ in how they execute. *)
Record ReqwestRequestBuilder := {
  execute : WireRequest -> Net -> (ClientError.t + WireResponse) * Net;
}.

Definition map_err {E F A} (f : E -> F) (r : E + A) : F + A :=
  match r with inl e => inl (f e) | inr a => inr a end.

Definition plain_builder : ReqwestRequestBuilder :=
  {| execute q net := let '(r, net) := reqwest_execute q net in (map_err reqwest_error r, net) |}.
Definition middleware_builder : ReqwestRequestBuilder :=
  {| execute q net := let '(r, net) := middleware_execute q net in (map_err reqwest_middleware_error r, net) |}.

(** [RequestBuilder::header] appends. *)
Definition builder_with_header (name : string) (value : HeaderValue) (q : WireRequest) : WireRequest :=
  mk (wq_method q) (wq_uri q) (header_append name value (wq_headers q)) (wq_body q).
Definition builder_with_body (body : BodyStream) (q : WireRequest) : WireRequest :=
  mk (wq_method q) (wq_uri q) (wq_headers q) body.

(** [Full::new]: no frame when there are no bytes. *)
Definition full_body (body : bytes) : BodyStream := match body with [] => [] | _ => [inr (Data body)] end.

(** ** Responses *)

Definition MAX_RESPONSE_BODY_BYTES : N := 1024 * 1024.

Fixpoint read_response_capped (chunks : list (ReqwestError + bytes)) (body : bytes) : ClientError.t + bytes :=
  match chunks with
  | [] => inr body
  | inl e :: _ => inl (reqwest_error e)
  | inr chunk :: chunks =>
      if MAX_RESPONSE_BODY_BYTES <? saturating_add (bytes_len body) (bytes_len chunk)
      then inl (ClientError.transport_permanent
             ("response body exceeds " ++ u64_to_string MAX_RESPONSE_BODY_BYTES ++ " byte limit"))
      else read_response_capped chunks (body ++ chunk)%list
  end.

(** The status is one: [http::Response::builder] takes it. *)
Definition finish_response (response : WireResponse) : ClientError.t + ClientResponse :=
  match read_response_capped (wr_chunks response) [] with
  | inl e => inl e
  | inr body => inr {| cr_status := wr_status response; cr_headers := wr_headers response; cr_body := body |}
  end.

(** The head and the body of the request, or why it cannot be sent. *)
Definition assemble_request (q : WireRequest) (headers : HeaderMap) (body : TransportBody.t)
    : ClientError.t + WireRequest :=
  let q := foldl (fun q nv => builder_with_header nv.1 nv.2 q) q (header_iter headers) in
  match body with
  | TransportBody.Empty => inr q
  | TransportBody.Bytes body =>
      inr (builder_with_body (full_body body)
             (builder_with_header "content-length"
                (header_value_from_static (u64_to_string (bytes_len body))) q))
  | TransportBody.BytesWithTrailer body trailer_name trailer_value =>
      match header_value_from_str trailer_value with
      | inl _ => inl (ClientError.transport_permanent ("invalid trailer value for " ++ trailer_name))
      | inr v =>
          inr (builder_with_body
                 (full_body body ++ [inr (Trailers (header_insert trailer_name v header_map_new))])%list q)
      end
  end.

Definition send_request (builder : ReqwestRequestBuilder) (q : WireRequest) (headers : HeaderMap)
    (body : TransportBody.t) (net : Net) : (ClientError.t + ClientResponse) * Net :=
  match assemble_request q headers body with
  | inl e => (inl e, net)
  | inr q =>
      let '(response, net) := execute builder q net in
      (match response with inl e => inl e | inr response => finish_response response end, net)
  end.

Definition reqwest_send (builder : ReqwestRequestBuilder) (request : TransportRequest) (net : Net)
    : (ClientError.t + ClientResponse) * Net :=
  let q := mk (tr_method request) (tr_uri request) header_map_new [] in
  send_request builder q (tr_headers request) (tr_body request) net.

Definition ReqwestTransport : Transport :=
  {| TransportState := Net; transport_send := reqwest_send plain_builder |}.
Definition ReqwestMiddlewareTransport : Transport :=
  {| TransportState := Net; transport_send := reqwest_send middleware_builder |}.
End transport.

(** ** What arrives *)

Lemma frames_data_app `{HttpLib} (a b : BodyStream) : frames_data (a ++ b)%list = (frames_data a ++ frames_data b)%list.
Proof.
  induction a as [|[e|[d|t]] a IH]; cbn; [done|exact IH| |exact IH]. by rewrite IH, app_assoc.
Qed.

Section facts.
Context `{HttpClientLib} `{!HttpAppendLaws} `{!ReqwestLib}.
#[local] Set Default Proof Using "All".

(** The sent header map has the value that was set. *)
Lemma appended_get l (q : WireRequest) n :
  header_get (wq_headers (foldl (fun q nv => builder_with_header nv.1 nv.2 q) q l)) n =
  match header_get (wq_headers q) n with
  | Some v => Some v
  | None => snd <$> find (fun nv => (nv.1 =? n)%string) l
  end.
Proof.
  revert q. induction l as [|[k v] l IH]; intros q; cbn [foldl fst snd find]; [by destruct (header_get _ n)|].
  rewrite IH. cbn [wq_headers builder_with_header].
  destruct (String.eqb_spec k n) as [->|Hne]; [|by rewrite header_append_ne].
  rewrite header_append_eq. by destruct (header_get (wq_headers q) n).
Qed.

Lemma appended_same l (q : WireRequest) :
  wq_method (foldl (fun q nv => builder_with_header nv.1 nv.2 q) q l) = wq_method q /\
  wq_uri (foldl (fun q nv => builder_with_header nv.1 nv.2 q) q l) = wq_uri q /\
  wq_body (foldl (fun q nv => builder_with_header nv.1 nv.2 q) q l) = wq_body q.
Proof. revert q. induction l as [|[k v] l IH]; intros q; [done|]. cbn [foldl]. by rewrite !(proj1 (IH _)), !(proj1 (proj2 (IH _))), !(proj2 (proj2 (IH _))). Qed.

Lemma full_body_data b : frames_data (full_body b) = b.
Proof. destruct b as [|x b]; [done|]. cbn. by rewrite app_nil_r. Qed.

(** What is sent has the request's method, URI and bytes, and its headers, but for the
    length of the body. *)
Lemma assembled q headers body q' :
  (forall n, header_get (wq_headers q) n = None) -> wq_body q = [] ->
  assemble_request q headers body = inr q' ->
  wq_method q' = wq_method q /\ wq_uri q' = wq_uri q /\
  frames_data (wq_body q') = TransportBody.bytes_of body /\
  forall n, n <> "content-length" -> header_get (wq_headers q') n = header_get headers n.
Proof.
  intros Hq Hbody. unfold assemble_request.
  assert (forall n, header_get (wq_headers (foldl (fun q nv => builder_with_header nv.1 nv.2 q) q
    (header_iter headers))) n = header_get headers n) as Hget.
  { intros n. by rewrite appended_get, Hq, header_iter_get. }
  destruct (appended_same (header_iter headers) q) as (Hm & Hu & Hb).
  destruct body as [|b|b tn tv]; cbn [TransportBody.bytes_of].
  - intros [= <-]. rewrite Hm, Hu, Hb, Hbody. by split_and!.
  - intros [= <-]. cbn [builder_with_body builder_with_header wq_method wq_uri wq_headers wq_body].
    rewrite full_body_data. split_and!; [done..|]. intros n Hn. by rewrite header_append_ne.
  - destruct (header_value_from_str tv); [done|]. intros [= <-].
    cbn [builder_with_body wq_method wq_uri wq_headers wq_body].
    rewrite frames_data_app, full_body_data, app_nil_r. by split_and!.
Qed.

Lemma saturating_within a b n : n < u64_max -> saturating_add a b <= n -> a + b <= n.
Proof. unfold saturating_add. lia. Qed.

(** A response that is read has at most [MAX_RESPONSE_BODY_BYTES], and all of them. *)
Lemma read_body_ok chunks body b :
  bytes_len body <= MAX_RESPONSE_BODY_BYTES -> read_response_capped chunks body = inr b ->
  bytes_len b <= MAX_RESPONSE_BODY_BYTES /\
  exists l, chunks = map inr l /\ b = (body ++ concat l)%list.
Proof.
  revert body. induction chunks as [|[e|c] chunks IH]; intros body Hl; cbn [read_response_capped].
  - intros [= <-]. split; [done|]. exists []. by rewrite app_nil_r.
  - done.
  - destruct (N.ltb_spec MAX_RESPONSE_BODY_BYTES (saturating_add (bytes_len body) (bytes_len c))) as [|Hc]; [done|].
    intros (Hb & l & -> & ->)%IH.
    + split; [done|]. exists (c :: l). split; [done|]. cbn. by rewrite app_assoc.
    + rewrite bytes_len_app. by apply saturating_within.
Qed.
End facts.
