(* ===== verification/RouterStore.v ===== *)
(** * The router as a store of uploads

    The router of [Axum.v] over the handlers, as a client's requests see it: HEAD tells
    the size of an upload, PATCH appends at the offset the request states, POST creates
    under a fresh id and names its place, and nothing else changes an upload. *)

From S2P Require Import Prelude Text JoinSet Errors Crates Config State Headers Hooks Backends Lifecycle.
From S2P Require Import Intake Receive FinalUpload Access Response Protocol Streaming Contracts.
From S2P Require Import Safety Effects HeadSpec HeaderSpec CreationSpec Invariant Axum AxumSpec ServerStore.
From S2P Require Import ClientError ClientHelpers Client ClientUpload ClientFacts ClientLoops ClientCreation ClientSpec.
Local Open Scope string_scope.
Local Open Scope N_scope.
Local Open Scope prog_scope.

(** ** Paths and URLs *)

Definition segment_char (c : ascii) : bool := alphanumeric c || Ascii.eqb c "-" || Ascii.eqb c "_".

(** An absolute path without dots, and not of another host. *)
Definition root_path (p : string) : bool :=
  starts_with "/" p && negb (starts_with "//" p)
  && str_all (fun c => segment_char c || Ascii.eqb c "/") p.

Definition plain_segment (id : string) : bool :=
  negb (is_empty id) && str_all segment_char id.

(** The URLs of the server at [origin]: joining one with an absolute path. *)
Class ServerUrls `{UrlLib} (origin : string) := {
  on_server : WebUrl -> Prop;
  on_server_text u p : weburl_as_str u = origin ++ p -> root_path p = true -> on_server u;
  set_path_on_server u p : on_server u -> on_server (weburl_set_path p u);
  join_on_server u p v :
    on_server u -> root_path p = true -> weburl_join u p = inr v -> weburl_as_str v = origin ++ p;
}.

(** What may have happened between two requests: time passed, and the generators of
    names, the server's and those of the storage backend, went on. *)
Class Renewal (S E : Type) `{StorageLaws S} := {
  renew_env : gset string -> gset string -> E -> E;
  renew_storage : S -> S;
  renew_stored s : stored (renew_storage s) = stored s;
}.

Lemma segment_plain c : segment_char c = true -> plain_char c = true /\ unreserved c = true.
Proof. destruct c as [[] [] [] [] [] [] [] []]; by vm_compute. Qed.

Lemma root_path_plain p : root_path p = true -> str_all plain_char p = true.
Proof.
  unfold root_path. intros [_ Hp]%andb_prop. revert Hp. apply str_all_impl. intros c.
  destruct c as [[] [] [] [] [] [] [] []]; by vm_compute.
Qed.

Lemma plain_segment_unreserved id : plain_segment id = true -> str_all unreserved id = true.
Proof.
  unfold plain_segment. intros [_ Hc]%andb_prop. revert Hc. apply str_all_impl.
  intros c Hc. by apply segment_plain.
Qed.

Lemma starts_with_app p s t : starts_with p s = true -> starts_with p (s ++ t) = true.
Proof.
  unfold starts_with. revert s. induction p as [|a p IH]; intros [|b s]; cbn; try done.
  destruct (Ascii.eqb a b); [apply IH|done].
Qed.

Lemma starts_with_cons a p b s : starts_with (String a p) (String b s) = Ascii.eqb a b && starts_with p s.
Proof. unfold starts_with. cbn [str_strip_prefix]. by destruct (Ascii.eqb a b). Qed.

Lemma root_path_item base id :
  root_path base = true -> ends_with_char "/" base = false -> plain_segment id = true ->
  root_path (base ++ "/" ++ id) = true.
Proof.
  unfold root_path, plain_segment. intros [[Hs Hd]%andb_prop Hc]%andb_prop He [_ Hid]%andb_prop.
  rewrite (starts_with_app _ _ _ Hs), !str_all_app, Hc. cbn [str_all].
  assert (starts_with "//" (base ++ "/" ++ id) = false) as ->.
  { clear Hc Hid. destruct base as [|a [|b base]]; [done| |]; cbn [String.append] in *;
      rewrite !starts_with_cons in *; destruct (Ascii.eqb_spec "/" a) as [<-|]; try done.
    cbn [andb] in *. by destruct (Ascii.eqb "/" b). }
  cbn. revert Hid. apply str_all_impl. by intros c ->.
Qed.

Lemma contains_char_all (p : ascii -> bool) s : str_all p s = true ->
  forall c, p c = false -> contains_char c s = false.
Proof.
  intros Hp c Hc. unfold contains_char. by rewrite (str_all_without p c s Hc Hp).
Qed.

Lemma strip_suffix_none c s : ends_with_char c s = false -> strip_suffix_char c s = None.
Proof.
  unfold ends_with_char. generalize false at 1 as last.
  induction s as [|d s IH]; intros last Hl; [done|]. cbn [strip_suffix_char].
  rewrite (IH (Ascii.eqb d c) Hl). destruct s as [|d' s]; [|done].
  change (Ascii.eqb d c = false) in Hl. by rewrite Hl.
Qed.

Section server.
Context {S St L H E : Type}.
Context `{StorageLaws S, StateStoreLaws St, LockerLaws L, HookLaws H, !Env E, !StorageReader S}.
Context `{HttpLaws, !AxumLib, !AxumLaws, Base64, Digests, PercentLaws, Chrono, HashOrder}.
Context `{!PlainHooks H}.
Context (config : Config) (m : N) (simple : simple_config config m).
Context (root : root_path (base_path config) = true) (no_slash : ends_with_char "/" (base_path config) = false).
(** Places are named by their path alone. *)
Context (relative : base_url config = None /\ respect_forwarded_headers config = false).
Local Abbreviation W := (World S St L H E).
#[local] Set Default Proof Using "All".

(** ** Routes *)

Definition server_router : Router :=
  {| rt_config := config;
     rt_paths := {| rp_base := base_path config; rp_upload := base_path config ++ "/{upload_id}" |};
     rt_download := false; rt_cors := None |}.

(** It is the router that the code builds. *)
Lemma server_router_built :
  is_some (split_once "//" (base_path config)) = false ->
  create_router config RouterOptions_new = Ok server_router.
Proof.
  intros Hd. unfold create_router, TusRouter_build, route_paths. rewrite Hd.
  pose proof root as Hroot. unfold root_path in Hroot. apply andb_prop in Hroot as [[Hs _]%andb_prop Hc].
  rewrite Hs, !(contains_char_all _ _ (root_path_plain _ root)) by done. cbn [negb orb].
  assert (strip_suffix_char "/" (base_path config) = None) as Hsuf by (by apply strip_suffix_none).
  rewrite Hsuf. assert ((base_path config =? "/")%string = false) as Hne.
  { apply String.eqb_neq. intros Heq. by rewrite Heq in no_slash. }
  destruct (1 <? str_len (base_path config)); cbn [default]; by rewrite Hne.
Qed.

Local Abbreviation serve_in := (serve (S:=S) (St:=St) (L:=L) (H:=H) (E:=E) server_router).
Local Abbreviation held := (held_upload (S:=S) (St:=St) (L:=L) (H:=H) (E:=E)).

Definition item_path (id : string) : string := base_path config ++ "/" ++ id.

(** Answers without an offset or a location where those would count. *)
Definition silent (r : AxumResponse) : Prop :=
  ax_status r = 200 \/ ax_status r = 201 \/ ax_status r = 204 ->
  header_get (ax_headers r) "upload-offset" = None /\ header_get (ax_headers r) "location" = None.

Lemma rejection_silent e : silent (TusRejection_into_response (TusRejection_from e)).
Proof.
  unfold TusRejection_from, map_transport_body_error.
  assert (forall e b, silent (TusRejection_into_response {| rj_inner := e; rj_body_override := b |})) as Hs.
  { intros e' b. unfold TusRejection_into_response. cbn [rj_inner rj_body_override].
    destruct (build_headers_some _ header_map_new (error_headers_ok e')) as (h & Hb & _). rewrite Hb.
    intros Hst. cbn [ax_status ax_headers] in *. revert Hb.
    destruct e'; cbn in Hst |- *; try (exfalso; naive_solver (lia || done)).
    rewrite header_name_lower, header_from_static by done. intros [= <-].
    rewrite !header_get_insert_ne, !header_get_new by done. done. }
  destruct e; apply Hs.
Qed.

(** A carried request: its path is plain and its method is what it says. *)
Record carried (q : AxumRequest) : Prop := {
  ca_plain : str_all plain_char (aq_path q) = true;
  ca_no_override : header_get (aq_headers q) "x-http-method-override" = None;
  ca_sized : bytes_len (frames_data (aq_body q)) <= u64_max;
}.

Lemma route_item path c :
  str_all plain_char path = true ->
  path_match (base_path config ++ "/{upload_id}") path = Some (Some c) ->
  path = item_path c /\ TusUploadId_from_capture c = UploadId_from_str c.
Proof.
  intros Hp. rewrite path_match_item by (by apply root_path_plain).
  destruct (str_strip_prefix _ path) as [seg|] eqn:Hseg; [|done].
  destruct (_ || _); [done|]. intros [= <-]. apply str_strip_prefix_some in Hseg as ->.
  unfold item_path. rewrite string_app_assoc. split; [done|]. unfold TusUploadId_from_capture.
  rewrite str_all_app in Hp. apply andb_prop in Hp as [_ Hp]. by rewrite decode_param_plain.
Qed.

Lemma wp_respond (prog : M W AxumResponse) Q w :
  wp prog (fun r w' =>
    match r with
    | Ok a => Q (Ok a) w'
    | Err e => Q (Ok (TusRejection_into_response (TusRejection_from e))) w'
    | Panic => Q Panic w'
    end) w -> wp (respond prog) Q w.
Proof.
  intros Hp. unfold respond. apply wp_bind, wp_attempt. wp_use Hp r w' Hr.
  destruct r; [by apply wp_done..|done].
Qed.

(** ** What a client reads off an answer *)

Lemma stated_get headers :
  stated_offset headers = get_str headers "upload-offset" ≫= parse_u64.
Proof using Type.
  unfold stated_offset, header_u64, optional_header_u64, get_str.
  destruct (header_get headers "upload-offset") as [v|]; [|done]. cbn.
  destruct (header_to_str v) as [e|t]; [done|]. cbn. by destruct (parse_u64 t).
Qed.

Lemma tells_stated n resp : tells n resp -> stated_offset (rs_headers resp) = Some n.
Proof.
  unfold tells, parse_u64_header. rewrite stated_get. destruct (get_str _ _); [|done]. cbn.
  destruct (parse_u64 _); [by intros [= <-]|done].
Qed.

Lemma request_fields hm h :
  Headers_from_headers hm = Ok h ->
  parse_u64_header hm "upload-offset" = Ok (h_upload_offset h) /\
  parse_u64_header hm "upload-length" = Ok (h_upload_length h).
Proof.
  unfold Headers_from_headers. destruct (validate_tus_resumable hm) as [[]|e|]; [|done..]. cbn [outcome_bind].
  destruct (parse_u64_header hm "upload-offset") as [o|e|]; [|done..]. cbn [outcome_bind].
  destruct (parse_u64_header hm "upload-length") as [l|e|]; [|done..]. cbn [outcome_bind].
  repeat (match goal with |- context [outcome_bind ?x] => destruct x as [?|?|]; [|done..] end; cbn [outcome_bind]).
  destruct (parse_upload_checksum hm); (destruct (parse_upload_concat hm); [|done..]); cbn [outcome_bind];
    by intros [= <-].
Qed.

Lemma parsed_get hm name n :
  parse_u64_header hm name = Ok (Some n) -> get_str hm name ≫= parse_u64 = Some n.
Proof.
  unfold parse_u64_header. destruct (get_str hm name) as [x|]; [|done]. cbn.
  destruct (parse_u64 x); [by intros [= ->]|done].
Qed.

Lemma request_offset hm h n :
  Headers_from_headers hm = Ok h -> h_upload_offset h = Some n -> stated_offset hm = Some n.
Proof. intros [Ho _]%request_fields Hn. rewrite Hn in Ho. rewrite stated_get. by apply parsed_get. Qed.

Lemma request_length hm h n :
  Headers_from_headers hm = Ok h -> h_upload_length h = Some n -> stated_length hm = Some n.
Proof.
  intros [_ Hl]%request_fields Hn. rewrite Hn in Hl. apply parsed_get in Hl. revert Hl.
  unfold stated_length, header_u64, optional_header_u64, get_str.
  destruct (header_get hm "upload-length") as [x|]; [|done]. cbn. destruct (header_to_str x); [done|]. cbn.
  destruct (parse_u64 _); [by intros [= ->]|done].
Qed.

(** ** What the router does to the uploads *)

Definition unchanged (w w' : W) : Prop := forall id, held w' id = held w id.

Lemma unchanged_refl w : unchanged w w.
Proof. by intros id. Qed.

(** A request that leaves the server ready, with an answer and effects as in [Q]. *)
Definition served (prog : M W AxumResponse) (Q : W -> outcome Error.t AxumResponse -> W -> Prop) (w : W) : Prop :=
  wp prog (fun r w' => ready m w' /\ Q w r w') w.

Lemma metadata_no_panic v : parse_upload_metadata_value v <> Panic.
Proof.
  unfold parse_upload_metadata_value. generalize (∅ : UploadMetadata).
  induction (split_char "," v) as [|p l IH]; intros md; [done|]. cbn [parse_metadata_pairs].
  apply bind_no_panic; [unfold parse_metadata_pair; pure|intros ?; apply IH].
Qed.
#[local] Hint Resolve metadata_no_panic : no_panic.

Lemma headers_no_panic hm : TusHeaders_from_header_map hm <> Panic.
Proof.
  unfold TusHeaders_from_header_map, Headers_from_headers, validate_tus_resumable, parse_u64_header,
    parse_defer_length, parse_upload_metadata, parse_upload_concat, parse_upload_concat_value. pure.
Qed.

Lemma id_no_panic id : UploadId_from_str id <> Panic.
Proof.
  unfold UploadId_from_str. destruct (is_empty id); [done|]. destruct (_ <? _); [done|].
  apply bind_no_panic; [|done]. induction (chars id) as [|c l IH]; cbn [check_id_chars]; [done|].
  destruct (_ || _); [done|]. by destruct (is_control c).
Qed.

Lemma id_same id id' : UploadId_from_str id = Ok id' -> id' = id.
Proof. intros Hi. by apply upload_id_accepted in Hi as [-> _]. Qed.

(** The shape of a handler: extractors, then the operation. *)
Lemma wp_extract {A} (r : result A) (k : A -> M W AxumResponse) Q w :
  ready m w -> r <> Panic -> (forall e, Q w (Err e) w) ->
  (forall a, r = Ok a -> served (k a) Q w) -> served (bind (of_outcome r) k) Q w.
Proof.
  intros Hw Hp He Hk. apply wp_bind, wp_done. destruct r as [a|e|]; [by apply Hk|by split|done].
Qed.

Lemma served_respond (prog : M W AxumResponse) Q w :
  served prog (fun w r w' =>
    match r with
    | Ok a => Q w (Ok a) w'
    | Err e => Q w (Ok (TusRejection_into_response (TusRejection_from e))) w'
    | Panic => Q w Panic w'
    end) w -> served (respond prog) Q w.
Proof.
  intros Hp. apply wp_respond. wp_use Hp r w' Hr. by destruct r as [a|e|], Hr.
Qed.

(** An answer to HEAD: whatever has the status of success tells the size of the upload. *)
Definition answers_head (q : AxumRequest) (w : W) (r : outcome Error.t AxumResponse) (w' : W) : Prop :=
  unchanged w w' /\
  forall resp n, r = Ok resp -> ax_status resp = 200 \/ ax_status resp = 204 ->
    stated_offset (ax_headers resp) = Some n ->
    exists id l b, aq_path q = item_path id /\ held w id = Some (l, b) /\ bytes_len b = n.

Lemma stated_none hm : header_get hm "upload-offset" = None -> stated_offset hm = None.
Proof. intros Hh. rewrite stated_get. unfold get_str. by rewrite Hh. Qed.

Lemma silent_stated resp : silent resp ->
  ax_status resp = 200 \/ ax_status resp = 201 \/ ax_status resp = 204 -> stated_offset (ax_headers resp) = None.
Proof. intros Hs Hst. by apply stated_none, Hs. Qed.

Lemma head_silent q w w' resp : silent resp -> unchanged w w' -> answers_head q w (Ok resp) w'.
Proof.
  intros Hs Hu. split; [done|]. intros resp' n [= <-] Hst. rewrite silent_stated; [done|done|tauto].
Qed.

Lemma served_head q c w :
  aq_path q = item_path c -> TusUploadId_from_capture c = UploadId_from_str c -> ready m w ->
  served (respond (handle_head config c q)) (answers_head q) w.
Proof.
  intros Hpath Hc Hw. apply served_respond. unfold handle_head. rewrite Hc.
  apply wp_extract; [done|apply headers_no_panic|intros e; by apply head_silent; [apply rejection_silent|]|].
  intros h _. apply wp_extract; [done|apply id_no_panic|intros e; by apply head_silent; [apply rejection_silent|]|].
  intros id ->%id_same. apply wp_bind, wp_intro. intros r w' Hrun.
  destruct (head_store config m simple c w r w' Hw Hrun) as (Hp & Hw' & Hu & Hok).
  destruct r as [resp|e|]; [|split; [done|by apply head_silent; [apply rejection_silent|]]|done].
  apply wp_done. split; [done|]. split; [done|]. intros a n [= <-] _ Hn.
  destruct (Hok resp eq_refl) as (_ & l & b & Hheld & Ht). apply tells_stated in Ht.
  exists c, l, b. split_and!; [done|done|]. cbn [ax_headers TusResponse_into_response] in Hn. congruence.
Qed.

(** An answer to PATCH: the upload grew by the body, at the offset the request states, or
    nothing changed; success tells the new size. *)
Record answers_patch (q : AxumRequest) (w : W) (r : outcome Error.t AxumResponse) (w' : W) : Prop := {
  ap_other id : aq_path q <> item_path id -> held w' id = held w id;
  ap_grew id : aq_path q = item_path id ->
    held w' id = held w id \/
    exists l b, held w id = Some (l, b) /\ stated_offset (aq_headers q) = Some (bytes_len b) /\
      held w' id = Some (l, (b ++ body_content (TusBody_from_request q))%list);
  ap_tells resp n : r = Ok resp -> ax_status resp = 204 -> stated_offset (ax_headers resp) = Some n ->
    exists id l b b', aq_path q = item_path id /\ held w id = Some (l, b) /\ held w' id = Some (l, b') /\
      bytes_len b' = n;
}.

Lemma patch_silent q w w' resp : silent resp -> unchanged w w' -> answers_patch q w (Ok resp) w'.
Proof.
  intros Hs Hu. split; [by intros|by left|]. intros resp' n [= <-] Hst. rewrite silent_stated; [done|done|tauto].
Qed.

Lemma item_path_inj id id' : item_path id = item_path id' -> id = id'.
Proof using Type.
  unfold item_path. intros Hi.
  pose proof (str_strip_prefix_app (base_path config ++ "/") id) as H1'.
  pose proof (str_strip_prefix_app (base_path config ++ "/") id') as H2'.
  rewrite string_app_assoc in *. rewrite Hi in H1'. rewrite H1' in H2'. by injection H2'.
Qed.

Lemma body_bytes q : body_content (TusBody_from_request q) = [] \/
  body_content (TusBody_from_request q) = frames_data (aq_body q).
Proof using Type. unfold TusBody_from_request. destruct (negb _); [by left|by right]. Qed.

Lemma body_sized q : carried q -> bytes_len (body_content (TusBody_from_request q)) <= u64_max.
Proof. intros Hq. destruct (body_bytes q) as [-> | ->]; [done|apply (ca_sized _ Hq)]. Qed.

Lemma served_patch q c w :
  carried q -> aq_path q = item_path c -> TusUploadId_from_capture c = UploadId_from_str c -> ready m w ->
  served (respond (handle_patch config c q)) (answers_patch q) w.
Proof.
  intros Hq Hpath Hc Hw. apply served_respond. unfold handle_patch. rewrite Hc.
  apply wp_extract; [done|apply headers_no_panic|intros e; by apply patch_silent; [apply rejection_silent|]|].
  intros h Hh. apply wp_extract; [done|apply id_no_panic|intros e; by apply patch_silent; [apply rejection_silent|]|].
  intros id ->%id_same. unfold patch_extracted. apply wp_bind, wp_intro. intros r w' Hrun.
  destruct (patch_store config m simple h c _ w r w' Hw Hrun (body_sized q Hq))
    as (Hp & Hw' & Ht & Hg & Hok).
  assert (forall id, aq_path q <> item_path id -> held w' id = held w id) as Hother.
  { intros id Hne. apply Ht. intros ->. done. }
  assert (forall id, aq_path q = item_path id -> held w' id = held w id \/
    exists l b, held w id = Some (l, b) /\ stated_offset (aq_headers q) = Some (bytes_len b) /\
      held w' id = Some (l, (b ++ body_content (TusBody_from_request q))%list)) as Hgrew.
  { intros id Hid. assert (id = c) as -> by (apply item_path_inj; by rewrite <- Hid, Hpath).
    destruct Hg as [Hg|(l & b & Hb & Ho & Hb')]; [by left|right]. exists l, b. split_and!; [done| |done].
    by eapply request_offset. }
  destruct r as [resp|e|]; [| |done].
  2: { split; [done|]. split; [done|done|]. intros a n [= <-] Hst.
       rewrite silent_stated; [done|apply rejection_silent|tauto]. }
  apply wp_done. split; [done|].
  split; [done|done|]. intros a n [= <-] _ Hn. cbn [ax_headers TusResponse_into_response] in Hn.
  destruct (Hok resp eq_refl) as ((l & b & Hb & Ho & Hb') & _ & l' & b' & Hb2 & Hmax & Hhdr).
  exists c, l, b, b'. rewrite Hb2 in Hb'. injection Hb' as -> Hbb. split_and!; [done|done|done|].
  unfold header_of in Hhdr. rewrite stated_get, Hhdr in Hn.
  change (parse_u64 (u64_to_string (bytes_len b')) = Some n) in Hn.
  rewrite parse_u64_to_string in Hn by done. by injection Hn.
Qed.

(** An answer to POST: the uploads are kept; a creation that is answered names a place
    that has nothing, or the whole body. *)
Record answers_post (q : AxumRequest) (w : W) (r : outcome Error.t AxumResponse) (w' : W) : Prop := {
  ao_kept id x : held w id = Some x -> held w' id = Some x;
  ao_created resp v : r = Ok resp -> ax_status resp = 201 ->
    get_str (ax_headers resp) "location" = Some v ->
    aq_path q = base_path config /\ v = item_path (drawn w) /\
    exists l b, stated_length (aq_headers q) = Some l /\ held w' (drawn w) = Some (l, b) /\ b `prefix_of` frames_data (aq_body q) /\
      forall n, stated_offset (ax_headers resp) = Some n -> bytes_len b = n;
}.

Lemma silent_location resp : silent resp -> ax_status resp = 201 -> get_str (ax_headers resp) "location" = None.
Proof. intros Hs Hst. unfold get_str. destruct Hs as [_ ->]; [tauto|done]. Qed.

Lemma post_silent q w w' resp :
  silent resp -> (forall id x, held w id = Some x -> held w' id = Some x) -> answers_post q w (Ok resp) w'.
Proof.
  intros Hs Hk. split; [done|]. intros resp' v [= <-] Hst. by rewrite silent_location.
Qed.

Lemma place_of (w : W) headers :
  plain_segment (drawn w) = true ->
  upload_url config (drawn w) (Headers_base_url headers config) = item_path (drawn w).
Proof.
  intros Hd. destruct relative as [Hb Hf]. unfold upload_url, Headers_base_url. rewrite Hb, Hf.
  apply plain_segment_unreserved in Hd. rewrite encode_plain by done. by destruct (h_host_header headers).
Qed.

Lemma served_post q (w : W) :
  carried q -> aq_path q = base_path config -> ready m w -> names_fresh w ->
  plain_segment (drawn w) = true ->
  served (respond (handle_post config q)) (answers_post q) w.
Proof.
  intros Hq Hpath Hw Hfresh Hplain. apply served_respond. unfold handle_post.
  apply wp_extract; [done|apply headers_no_panic|intros e; by apply post_silent; [apply rejection_silent|]|].
  intros h Hh. apply wp_bind, wp_intro. intros r w' Hrun.
  destruct (post_store config m simple h _ w r w' Hw Hfresh Hrun (body_sized q Hq)) as (Hw' & Hk & Hok).
  destruct r as [resp|e|]; [|by split; [|apply post_silent; [apply rejection_silent|]]|by split; [|split]].
  apply wp_done. split; [done|]. split; [done|]. intros a v [= <-] _ Hv.
  destruct (Hok resp eq_refl) as (_ & Hloc & l & b & Hl & Hb & Hcontent).
  split; [done|]. split; [by rewrite (Hloc v Hv), place_of|]. exists l, b.
  split; [by apply (request_length _ h)|]. split; [done|].
  cbn [ax_headers TusResponse_into_response].
  destruct Hcontent as [[-> Hnone]|[-> Ht]].
  - split; [apply prefix_nil|]. intros n. unfold header_of in Hnone. by rewrite stated_get, Hnone.
  - split; [destruct (body_bytes q) as [-> | ->]; [apply prefix_nil|done]|].
    intros n Hn. apply tells_stated in Ht. congruence.
Qed.

(** The answers to all requests. *)
Record answers (q : AxumRequest) (w : W) (r : outcome Error.t AxumResponse) (w' : W) : Prop := {
  an_head : aq_method q = "HEAD" -> answers_head q w r w';
  an_patch : aq_method q = "PATCH" -> answers_patch q w r w';
  an_post : aq_method q = "POST" -> answers_post q w r w';
  an_other : aq_method q <> "PATCH" -> aq_method q <> "POST" -> unchanged w w';
}.

Lemma answers_silent q w w' resp : silent resp -> unchanged w w' -> answers q w (Ok resp) w'.
Proof.
  intros Hs Hu. split; intros _; [by apply head_silent|by apply patch_silent| |done].
  apply post_silent; [done|]. intros id x. by rewrite (Hu id).
Qed.

Lemma served_still q resp w : silent resp -> ready m w -> served (ret resp) (answers q) w.
Proof. intros Hs Hw. apply wp_done. split; [done|]. by apply answers_silent. Qed.

Lemma silent_insert name v resp :
  name <> "upload-offset" -> name <> "location" -> silent resp -> silent (response_insert name v resp).
Proof.
  intros Ho Hl Hs Hst. cbn [response_insert ax_headers]. rewrite !header_get_insert_ne by done. by apply Hs.
Qed.

Lemma silent_status resp : ax_status resp = 404 \/ ax_status resp = 405 -> silent resp.
Proof. intros Hst Hst'. lia. Qed.

Lemma served_delete q c w :
  ready m w -> aq_method q = "DELETE" -> served (respond (handle_delete config c q)) (answers q) w.
Proof.
  intros Hw Hm. apply served_respond.
  assert (forall e, answers q w (Ok (TusRejection_into_response (TusRejection_from e))) w) as He
    by (intros e; by apply answers_silent; [apply rejection_silent|]).
  unfold handle_delete.
  apply wp_extract; [done|apply headers_no_panic|done|]. intros h _. apply wp_extract; [done| |done|].
  { unfold TusUploadId_from_capture. destruct (decode_param c); [done|apply id_no_panic]. }
  intros id _. unfold delete_extracted. apply wp_bind. unfold wp. rewrite (delete_store config m simple h id w).
  by split.
Qed.

Lemma served_override q c w :
  carried q -> ready m w -> served (respond (handle_post_with_override config c q)) (answers q) w.
Proof.
  intros Hq Hw. apply served_respond. unfold handle_post_with_override.
  apply wp_extract; [done| |intros e; by apply answers_silent; [apply rejection_silent|]|].
  { unfold TusUploadId_from_capture. destruct (decode_param c); [done|apply id_no_panic]. }
  intros id _. cbv zeta. unfold get_str. rewrite (ca_no_override q Hq). cbn [fmap option_fmap option_map].
  apply wp_done. split; [done|]. apply answers_silent; [|done].
  apply silent_insert; [done|done|apply rejection_silent].
Qed.

Lemma served_mono (prog : M W AxumResponse) Q Q' (w : W) :
  served prog Q w -> (forall r w', Q w r w' -> Q' w r w') -> served prog Q' w.
Proof. intros Hp HQ. unfold served. wp_use Hp r w' Hr. destruct Hr as [? ?]. split; auto. Qed.

(** The names that are drawn next are not in use, and the id needs no encoding. *)
Definition names_free (w : W) : bool :=
  bool_decide (recs w !! drawn w = None) && plain_segment (drawn w)
  && match run (storage_create (drawn w)) (w_storage w) with
     | (Ok h, _) => bool_decide (handle_key h ∉ keys_of w)
     | _ => true
     end.

Lemma names_free_fresh (w : W) : names_free w = true -> names_fresh w /\ plain_segment (drawn w) = true.
Proof using Type.
  unfold names_free. intros [[Hn%bool_decide_eq_true Hp]%andb_prop Hk]%andb_prop.
  split; [|done]. split; [done|]. intros h [s' Hs']. rewrite Hs' in Hk. by apply bool_decide_eq_true in Hk.
Qed.

(** The server, from request to answer. *)
Lemma served_request q (w : W) :
  carried q -> ready m w -> names_fresh w -> plain_segment (drawn w) = true ->
  served (serve_in q) (answers q) w.
Proof.
  intros Hq Hw Hfresh Hplain. unfold serve, server_router, route. cbn [rt_cors rt_paths rp_base rp_upload].
  rewrite path_match_static by (by apply root_path_plain).
  destruct (String.eqb_spec (aq_path q) (base_path config)) as [Hpath|Hpath].
  - unfold serve_base. cbn [rt_config].
    destruct (String.eqb_spec (aq_method q) "OPTIONS") as [Hm|Hm].
    { apply wp_done. split; [done|]. split; rewrite Hm; [done..|]. by intros. }
    destruct (String.eqb_spec (aq_method q) "POST") as [Hp|Hp].
    + eapply served_mono; [by apply served_post|]. intros r w' Ha. by split; rewrite Hp.
    + apply served_still; [by apply silent_status; right|done].
  - destruct (path_match (base_path config ++ "/{upload_id}") (aq_path q)) as [[c|]|] eqn:Hc.
    2-3: by apply served_still; [apply silent_status; left|].
    apply route_item in Hc as [Hpc Hcap]; [|apply (ca_plain q Hq)]. unfold serve_upload. cbn [rt_config].
    destruct (String.eqb_spec (aq_method q) "OPTIONS") as [Hm|Hm].
    { apply wp_done. split; [done|]. split; rewrite Hm; [done..|]. by intros. }
    destruct (String.eqb_spec (aq_method q) "HEAD") as [Hh|Hh].
    { eapply served_mono; [by apply served_head|]. intros r w' Ha. split; rewrite Hh; [done..|]. intros _ _. apply Ha. }
    destruct (String.eqb_spec (aq_method q) "PATCH") as [Hp|Hp].
    { eapply served_mono; [by apply served_patch|]. intros r w' Ha. by split; rewrite Hp. }
    destruct (String.eqb_spec (aq_method q) "DELETE") as [Hd|Hd]; [by apply served_delete|].
    destruct (String.eqb_spec (aq_method q) "POST") as [Ho|Ho]; [by apply served_override|].
    apply served_still; [by apply silent_status; right|done].
Qed.
End server.
