(* ===== verification/EndToEnd.v ===== *)
(** * A client and a server

    The upload client of [Client.v], over the reqwest transport of [Reqwest.v], over a
    network that loses requests and answers and cuts bodies short and to pieces, over the
    router of [Axum.v], over the handlers of [Protocol.v] and any backends that keep
    their contracts.  The server keeps what the client's theorems ask of one
    ([TusServerLaws]), so an upload that succeeds has left the source in storage. *)

From S2P Require Import Prelude Text JoinSet Errors Crates Config State Headers Hooks Backends Lifecycle.
From S2P Require Import Intake Receive FinalUpload Access Response Protocol Streaming Contracts.
From S2P Require Import Safety Effects HeadSpec DownloadSpec HeaderSpec CreationSpec Invariant Axum AxumSpec ServerStore RouterStore.
From S2P Require Import ClientError ClientHelpers Client ClientUpload ClientFacts ClientLoops ClientCreation ClientSpec Reqwest.
Local Open Scope string_scope.
Local Open Scope N_scope.
Local Open Scope prog_scope.

(** ** The wire *)

(** What happens to a request: its body arrives in chunks of these sizes and it is
    answered, or the answer is lost; it is lost; the connection breaks after [n] bytes
    of the body. *)
Inductive Fate :=
| Delivered (sizes : list nat)
| Unanswered (sizes : list nat)
| Dropped
| CutShort (sizes : list nat) (n : nat).

Fixpoint split_at (sizes : list nat) (b : bytes) : list bytes :=
  match sizes with
  | [] => match b with [] => [] | _ => [b] end
  | n :: sizes => take n b :: split_at sizes (drop n b)
  end.

Lemma concat_split_at sizes b : concat (split_at sizes b) = b.
Proof.
  revert b. induction sizes as [|n sizes IH]; intros b; cbn [split_at concat].
  - destruct b; [done|]. cbn. by rewrite app_nil_r.
  - by rewrite IH, take_drop.
Qed.

Definition method_text (method : Method.t) : string :=
  match method with
  | Method.OPTIONS => "OPTIONS" | Method.POST => "POST" | Method.HEAD => "HEAD"
  | Method.PATCH => "PATCH" | Method.DELETE => "DELETE"
  end.

Section wire.
Context `{HttpLib}.

Definition data_frames (chunks : list bytes) : BodyStream := map (fun c => inr (Data c)) chunks.

Definition trailer_frames (body : BodyStream) : BodyStream :=
  List.filter (fun f => match f with inr (Trailers _) => true | _ => false end) body.

(** The frames that the server sees of a body. *)
Definition whole_frames (sizes : list nat) (body : BodyStream) : BodyStream :=
  (data_frames (split_at sizes (frames_data body)) ++ trailer_frames body)%list.
Definition cut_frames (sizes : list nat) (n : nat) (body : BodyStream) : BodyStream :=
  (data_frames (split_at sizes (take n (frames_data body))) ++ [inl "connection reset"])%list.

Lemma data_frames_data chunks : frames_data (data_frames chunks) = concat chunks.
Proof. unfold data_frames. induction chunks as [|c chunks IH]; [done|]. cbn. by rewrite IH. Qed.

Lemma trailer_frames_data body : frames_data (trailer_frames body) = [].
Proof. induction body as [|[e|[d|t]] body IH]; cbn; exact IH || done. Qed.

Lemma whole_frames_data sizes body : frames_data (whole_frames sizes body) = frames_data body.
Proof.
  unfold whole_frames. rewrite frames_data_app, data_frames_data, concat_split_at, trailer_frames_data.
  apply app_nil_r.
Qed.

Lemma cut_frames_data sizes n body : frames_data (cut_frames sizes n body) = take n (frames_data body).
Proof.
  unfold cut_frames. rewrite frames_data_app, data_frames_data, concat_split_at. apply app_nil_r.
Qed.

(** The headers as they arrive: with the host, and the framing of a body without length. *)
Definition wire_headers (host : HeaderValue) (q : WireRequest) : HeaderMap :=
  let h := header_insert "host" host (wq_headers q) in
  match header_get h "content-length", wq_body q with
  | None, _ :: _ => header_insert "transfer-encoding" (header_value_from_static "chunked") h
  | _, _ => h
  end.

Definition axum_request (host : HeaderValue) (path : string) (q : WireRequest) (body : BodyStream) : AxumRequest :=
  {| aq_method := method_text (wq_method q); aq_path := path; aq_headers := wire_headers host q;
     aq_body := body; aq_end_stream := match body with [] => true | _ => false end |}.

Definition wire_response (a : AxumResponse) : WireResponse :=
  {| wr_status := ax_status a; wr_headers := ax_headers a;
     wr_chunks := match ax_body a with
                  | FullBody b => [inr b]
                  | StreamBody items => map (fun i => match si_chunk i with
                      | inl e => inl {| re_text := e; re_is_builder := false; re_is_redirect := false |}
                      | inr c => inr c
                      end) items
                  end |}.

(** The requests this network carries: with a path that needs no decoding, without method
    override. *)
Definition carries (q : AxumRequest) : bool :=
  root_path (aq_path q)
  && match header_get (aq_headers q) "x-http-method-override" with None => true | Some _ => false end
  && (bytes_len (frames_data (aq_body q)) <=? u64_max).

Lemma carries_carried q : carries q = true -> carried q.
Proof.
  unfold carries. intros [[Hp Ho]%andb_prop Hs]%andb_prop. split.
  - by apply root_path_plain.
  - by destruct (header_get _ _).
  - by apply N.leb_le.
Qed.
End wire.

Lemma wire_headers_get `{HttpLaws} host q n :
  n <> "host" -> n <> "transfer-encoding" ->
  header_get (wire_headers host q) n = header_get (wq_headers q) n.
Proof.
  intros Hh Ht. unfold wire_headers. cbv zeta.
  destruct (header_get (header_insert "host" host (wq_headers q)) "content-length"), (wq_body q);
    by rewrite ?header_get_insert_ne.
Qed.

(** ** The network *)

Definition lost : ReqwestError := {| re_text := "connection reset"; re_is_builder := false; re_is_redirect := false |}.

Section network.
Context {S St L H E : Type}.
Context `{StorageLaws S, StateStoreLaws St, LockerLaws L, HookLaws H, !Env E, !StorageReader S}.
Context `{HttpLaws, !AxumLib, !AxumLaws, Base64, Digests, PercentLaws, Chrono, HashOrder}.
Context `{!PlainHooks H} `{!Renewal S E}.
Context (config : Config) (m : N) (simple : simple_config config m).
Context (root : root_path (base_path config) = true) (no_slash : ends_with_char "/" (base_path config) = false).
Context (relative : base_url config = None /\ respect_forwarded_headers config = false).
Context (origin : string) (host : HeaderValue).
Local Abbreviation W := (World S St L H E).
#[local] Set Default Proof Using "All".

Local Abbreviation serve_in := (serve (S:=S) (St:=St) (L:=L) (H:=H) (E:=E) (server_router config)).
Local Abbreviation held := (held_upload (S:=S) (St:=St) (L:=L) (H:=H) (E:=E)).

(** The server between two requests: time passed, the generators of names went on. *)
Definition renewed (w : W) : W :=
  set_storage (renew_storage (E:=E) (w_storage w))
    (set_env (renew_env (S:=S) (dom (recs w)) (keys_of w) (w_env w)) w).

Lemma renewed_ready w : ready m w -> ready m (renewed w).
Proof. done. Qed.

Lemma renewed_held w id : held (renewed w) id = held w id.
Proof. apply held_same. split; [|done]. unfold bytes_of, renewed. cbn. apply renew_stored. Qed.

(** This network carries a request to the server when the names that the server would
    draw for a new upload are not in use. *)
Definition arrives_at (q : AxumRequest) (w : W) : bool := carries q && names_free (renewed w).

(** The server is ready for every request. *)
Record Network := mkNetwork {
  nw_world : W;
  nw_ready : ready m nw_world;
  nw_fates : list Fate;
}.

Lemma served_run q (w : W) :
  arrives_at q w = true -> ready m w ->
  let x := run (serve_in q) (renewed w) in
  ready m x.2 /\ answers config q (renewed w) x.1 x.2.
Proof.
  intros [Hq [Hf Hp]%names_free_fresh]%andb_prop Hw.
  pose proof (served_request config m simple root no_slash relative q (renewed w)
    (carries_carried q Hq) (renewed_ready w Hw) Hf Hp) as Hs.
  unfold served, wp in Hs. cbv zeta. by destruct (run _ _).
Qed.

(** The server's answer to a request that arrives as [q]; [Panic] stands for none: the
    task that serves a connection ends when it panics. *)
Definition answer_of (q : AxumRequest) (t : Network) : outcome Error.t AxumResponse * Network :=
  match Bool.bool_dec (arrives_at q (nw_world t)) true with
  | left Hq =>
      let x := run (serve_in q) (renewed (nw_world t)) in
      (x.1, mkNetwork x.2 (proj1 (served_run q _ Hq (nw_ready t))) (nw_fates t))
  | right _ => (Panic, t)
  end.

Definition on_network (q : WireRequest) (t : Network) : (ReqwestError + WireResponse) * Network :=
  let t' := mkNetwork (nw_world t) (nw_ready t) (tail (nw_fates t)) in
  match str_strip_prefix origin (wq_uri q) with
  | None => (inl lost, t')
  | Some path =>
      let arrives body := answer_of (axum_request host path q body) t' in
      match List.hd (Delivered []) (nw_fates t) with
      | Delivered sizes =>
          let '(r, t') := arrives (whole_frames sizes (wq_body q)) in
          (match r with Ok a => inr (wire_response a) | _ => inl lost end, t')
      | Unanswered sizes => (inl lost, (arrives (whole_frames sizes (wq_body q))).2)
      | CutShort sizes n => (inl lost, (arrives (cut_frames sizes n (wq_body q))).2)
      | Dropped => (inl lost, t')
      end
  end.

#[local] Instance network : ReqwestLib := {|
  Net := Network;
  reqwest_execute := on_network;
  middleware_execute q t :=
    let '(r, t) := on_network q t in (map_err MiddlewareError.Reqwest r, t);
|}.

Context `{!HttpClientLib} `{!HttpAppendLaws}.
#[local] Instance over_reqwest : Transport := ReqwestTransport.

(** What one request did: nothing, or the server's step on what arrived of it. *)
Definition arrived (r : TransportRequest) (answer : ClientError.t + ClientResponse) (t t' : Network) : Prop :=
  exists q x n,
    plain_segment (drawn (renewed (nw_world t))) = true /\ tr_uri r = origin ++ aq_path q /\ aq_method q = method_text (tr_method r) /\
    (forall name, ~ In name ["content-length"; "host"; "transfer-encoding"] ->
       header_get (aq_headers q) name = header_get (tr_headers r) name) /\
    frames_data (aq_body q) = take n (TransportBody.bytes_of (tr_body r)) /\
    answers config q (renewed (nw_world t)) x (nw_world t') /\
    (forall rs, answer = inr rs ->
       frames_data (aq_body q) = TransportBody.bytes_of (tr_body r) /\
       exists a, x = Ok a /\ cr_status rs = ax_status a /\ cr_headers rs = ax_headers a).

Lemma answer_answers q t x t' :
  answer_of q t = (x, t') ->
  (nw_world t' = nw_world t /\ x = Panic) \/
  (plain_segment (drawn (renewed (nw_world t))) = true /\ answers config q (renewed (nw_world t)) x (nw_world t')).
Proof.
  unfold answer_of. destruct (Bool.bool_dec (arrives_at q (nw_world t)) true) as [Hq|]; intros [= <- <-]; [right|by left].
  pose proof Hq as [_ [_ Hp]%names_free_fresh]%andb_prop. split; [done|]. apply served_run; [done|apply nw_ready].
Qed.

Lemma finished w rs : finish_response w = inr rs -> cr_status rs = wr_status w /\ cr_headers rs = wr_headers w.
Proof. unfold finish_response. destruct (read_response_capped _ _); [done|]. by intros [= <-]. Qed.

Lemma send_arrived r t answer t' :
  transport_send r t = (answer, t') ->
  (nw_world t' = nw_world t /\ forall rs, answer <> inr rs) \/ arrived r answer t t'.
Proof.
  cbn [transport_send over_reqwest ReqwestTransport]. unfold reqwest_send, send_request. cbv zeta.
  destruct (assemble_request _ _ _) as [e|q] eqn:Ha; [intros [= <- <-]; by left|].
  apply assembled in Ha as (Hm & Hu & Hb & Hh); [|intros n; apply header_get_new|done].
  cbn [wq_method wq_uri] in Hm, Hu. cbn [execute plain_builder reqwest_execute network]. unfold on_network.
  rewrite Hu. destruct (str_strip_prefix origin (tr_uri r)) as [path|] eqn:Hp; [|intros [= <- <-]; by left].
  apply str_strip_prefix_some in Hp. cbv zeta. set (t1 := mkNetwork _ _ _).
  assert (forall body x t2 ans n, answer_of (axum_request host path q body) t1 = (x, t2) ->
    frames_data body = take n (TransportBody.bytes_of (tr_body r)) ->
    (forall rs, ans = inr rs -> frames_data body = TransportBody.bytes_of (tr_body r) /\
       exists a, x = Ok a /\ cr_status rs = ax_status a /\ cr_headers rs = ax_headers a) ->
    (nw_world t2 = nw_world t /\ forall rs, ans <> inr rs) \/ arrived r ans t t2) as Hstep.
  { intros body x t2 ans n Hans Hbody Hok. apply answer_answers in Hans as [[Hw ->]|[Hc Hans]].
    - left. split; [done|]. intros rs Hrs. by destruct (Hok rs Hrs) as (_ & a & ? & _).
    - right. exists (axum_request host path q body), x, n.
      split_and!; [done|done|by cbn; rewrite Hm| |done|done|done].
      intros name Hn. cbn [aq_headers axum_request].
      rewrite wire_headers_get by (intros ->; apply Hn; cbn; tauto).
      apply Hh. intros ->. apply Hn. cbn; tauto. }
  destruct (List.hd (Delivered []) (nw_fates t)) as [sizes|sizes| |sizes n].
  - destruct (answer_of _ t1) as [x t2] eqn:Hans. intros [= <- <-].
    eapply (Hstep _ _ _ _ (length (TransportBody.bytes_of (tr_body r))) Hans); rewrite whole_frames_data, Hb;
      [by rewrite firstn_all|]. destruct x as [a|e|]; cbn [map_err]; try done. intros rs Hrs.
    apply finished in Hrs. split; [done|]. by exists a.
  - destruct (answer_of _ t1) as [x t2] eqn:Hans. intros [= <- <-].
    eapply (Hstep _ _ _ _ (length (TransportBody.bytes_of (tr_body r))) Hans); [|done].
    by rewrite whole_frames_data, Hb, firstn_all.
  - intros [= <- <-]. by left.
  - destruct (answer_of _ t1) as [x t2] eqn:Hans. intros [= <- <-].
    eapply (Hstep _ _ _ _ n Hans); [|done]. by rewrite cut_frames_data, Hb.
Qed.

(** ** The server as the client sees it *)

Definition item_uri (id : string) : string := origin ++ item_path config id.

(** The bytes of the upload at a URL of the server. *)
Definition object_at (t : Network) (uri : string) : option bytes :=
  match str_strip_prefix (origin ++ base_path config ++ "/") uri with
  | Some id => snd <$> held (nw_world t) id
  | None => None
  end.

#[local] Instance server : TusServer := {| object := object_at |}.

Lemma object_item t id : object_at t (item_uri id) = snd <$> held (nw_world t) id.
Proof.
  unfold object_at, item_uri, item_path.
  assert (origin ++ base_path config ++ "/" ++ id = (origin ++ base_path config ++ "/") ++ id) as ->
    by (by rewrite !string_app_assoc).
  by rewrite str_strip_prefix_app.
Qed.

Lemma object_inv t uri b : object_at t uri = Some b ->
  exists id l, uri = item_uri id /\ held (nw_world t) id = Some (l, b).
Proof.
  unfold object_at. destruct (str_strip_prefix _ uri) as [id|] eqn:Hp; [|done].
  apply str_strip_prefix_some in Hp as ->. destruct (held (nw_world t) id) as [[l b']|] eqn:Hh; [|done].
  intros [= <-]. exists id, l. split; [|done]. unfold item_uri, item_path. by rewrite !string_app_assoc.
Qed.

Lemma origin_inj a b : origin ++ a = origin ++ b -> a = b.
Proof.
  intros Hi. pose proof (str_strip_prefix_app origin a) as H1'. rewrite Hi, str_strip_prefix_app in H1'.
  by injection H1'.
Qed.

Lemma item_uri_inj id id' : item_uri id = item_uri id' -> id = id'.
Proof. intros Hi%origin_inj. by eapply item_path_inj. Qed.

Lemma stated_carried hm hm' :
  header_get hm "upload-offset" = header_get hm' "upload-offset" -> stated_offset hm = stated_offset hm'.
Proof. intros Hh. rewrite !stated_get. unfold get_str. by rewrite Hh. Qed.

Lemma keeps_object r t answer t' uri b :
  transport_send r t = (answer, t') -> object_at t uri = Some b ->
  object_at t' uri = None \/ object_at t' uri = Some b \/
  (sent_to_uri Method.PATCH uri r /\ stated_offset (tr_headers r) = Some (bytes_len b) /\
   exists k, object_at t' uri = Some (b ++ take k (TransportBody.bytes_of (tr_body r))))%list.
Proof.
  intros Hs (id & l & -> & Hheld)%object_inv. rewrite !object_item.
  apply send_arrived in Hs as [[Hw _]|(q & x & n & _ & Hu & Hm & Hh & Hb & Ha & _)].
  { right. left. by rewrite Hw, Hheld. }
  rewrite <- renewed_held in Hheld. destruct (tr_method r) eqn:Hr.
  1, 3, 5: right; left; rewrite (an_other _ _ _ _ _ Ha) by (by rewrite Hm); by rewrite Hheld.
  - right. left. by rewrite (ao_kept _ _ _ _ _ (an_post _ _ _ _ _ Ha Hm) id _ Hheld).
  - pose proof (an_patch _ _ _ _ _ Ha Hm) as Hp.
    destruct (decide (aq_path q = item_path config id)) as [Hi|Hne].
    2: { right. left. by rewrite (ap_other _ _ _ _ _ Hp id Hne), Hheld. }
    destruct (ap_grew _ _ _ _ _ Hp id Hi) as [->|(l' & b' & Hheld' & Ho & ->)]; [right; left; by rewrite Hheld|].
    rewrite Hheld in Hheld'. injection Hheld' as <- <-. right. right. split_and!.
    + split; [done|]. by rewrite Hu, Hi.
    + rewrite <- Ho. symmetry. apply stated_carried, Hh. cbn. intuition congruence.
    + destruct (body_bytes q) as [-> | ->]; [by exists 0%nat|]. exists n. by rewrite Hb.
Qed.

Lemma keeps_gone r t answer t' uri :
  transport_send r t = (answer, t') -> tr_method r <> Method.POST ->
  object_at t uri = None -> object_at t' uri = None.
Proof.
  intros Hs Hr. unfold object_at. destruct (str_strip_prefix _ uri) as [id|]; [|done].
  intros Hn. apply fmap_None in Hn.
  apply send_arrived in Hs as [[Hw _]|(q & x & n & _ & Hu & Hm & Hh & Hb & Ha & _)]; [by rewrite Hw, Hn|].
  rewrite <- renewed_held in Hn. destruct (tr_method r); try done.
  1, 2, 4: rewrite (an_other _ _ _ _ _ Ha) by (by rewrite Hm); by rewrite Hn.
  pose proof (an_patch _ _ _ _ _ Ha Hm) as Hp.
  destruct (decide (aq_path q = item_path config id)) as [Hi|Hne].
  - destruct (ap_grew _ _ _ _ _ Hp id Hi) as [->|(l' & b' & Hheld' & _)]; [by rewrite Hn|congruence].
  - by rewrite (ap_other _ _ _ _ _ Hp id Hne), Hn.
Qed.

Context `{UrlLaws} `{!ServerUrls origin}.

Lemma head_told r t rs t' n :
  transport_send r t = (inr rs, t') -> tr_method r = Method.HEAD ->
  cr_status rs = 200 \/ cr_status rs = 204 -> stated_offset (cr_headers rs) = Some n ->
  exists b, object_at t (tr_uri r) = Some b /\ object_at t' (tr_uri r) = Some b /\ bytes_len b = n.
Proof.
  intros Hs Hr Hst Hn.
  apply send_arrived in Hs as [[_ Hno]|(q & x & k & _ & Hu & Hm & _ & _ & Ha & Hok)]; [by destruct (Hno rs)|].
  destruct (Hok rs eq_refl) as (_ & a & -> & Hsa & Hha). rewrite Hr in Hm.
  destruct (an_head _ _ _ _ _ Ha Hm) as [Hun Htold]. rewrite Hsa in Hst. rewrite Hha in Hn.
  destruct (Htold a n eq_refl Hst Hn) as (id & l & b & Hp & Hheld & Hlen).
  exists b. rewrite Hu, Hp. fold (item_uri id). rewrite !object_item, (Hun id), <- (renewed_held (nw_world t)), Hheld.
  by split_and!.
Qed.

Lemma patch_told r t rs t' n :
  transport_send r t = (inr rs, t') -> tr_method r = Method.PATCH ->
  cr_status rs = 204 -> stated_offset (cr_headers rs) = Some n ->
  exists b b', object_at t (tr_uri r) = Some b /\ object_at t' (tr_uri r) = Some b' /\ bytes_len b' = n.
Proof.
  intros Hs Hr Hst Hn.
  apply send_arrived in Hs as [[_ Hno]|(q & x & k & _ & Hu & Hm & _ & _ & Ha & Hok)]; [by destruct (Hno rs)|].
  destruct (Hok rs eq_refl) as (_ & a & -> & Hsa & Hha). rewrite Hr in Hm.
  rewrite Hsa in Hst. rewrite Hha in Hn.
  destruct (ap_tells _ _ _ _ _ (an_patch _ _ _ _ _ Ha Hm) a n eq_refl Hst Hn) as (id & l & b & b' & Hp & Hheld & Hheld' & Hlen).
  exists b, b'. rewrite Hu, Hp. fold (item_uri id).
  rewrite !object_item, <- (renewed_held (nw_world t)), Hheld, Hheld'. by split_and!.
Qed.

Lemma header_string_get hm name label v : header_string hm name label = Ok v -> get_str hm name = Some v.
Proof.
  unfold header_string, get_str. destruct (header_get hm name) as [x|]; [|done]. cbn.
  destruct (header_to_str x); [done|]. intros Hv. f_equal. by injection Hv.
Qed.

(** Where the client looks for an upload that was created. *)
Lemma place_resolved endpoint id url :
  weburl_as_str endpoint = origin ++ base_path config -> plain_segment id = true ->
  resolve_upload_location endpoint (item_path config id) = Ok url -> weburl_as_str url = item_uri id.
Proof.
  intros He Hid. unfold resolve_upload_location, resolve_upload_url. cbv zeta.
  assert (on_server endpoint) as Hon by by apply (on_server_text endpoint (base_path config)).
  pose proof (root_path_item _ _ root no_slash Hid) as Hitem.
  assert (forall base, on_server base ->
    match weburl_join base (item_path config id) with
    | inr u => Ok u
    | inl e => Err (ClientError.Url e)
    end = Ok url -> weburl_as_str url = item_uri id) as Hj.
  { intros base Hb. destruct (weburl_join base _) as [e|u] eqn:Hu; [done|]. intros Hok.
    assert (u = url) as <- by by injection Hok. by apply (join_on_server base). }
  destruct (ends_with_char "/" (weburl_path endpoint)); apply Hj; [done|by apply set_path_on_server].
Qed.

Lemma create_told endpoint r t rs t' len location url :
  transport_send r t = (inr rs, t') -> tr_method r = Method.POST ->
  tr_uri r = weburl_as_str endpoint -> stated_length (tr_headers r) = Some len -> cr_status rs = 201 ->
  header_string (cr_headers rs) "location" "Location" = Ok location ->
  resolve_upload_location endpoint location = Ok url ->
  exists b, object_at t' (weburl_as_str url) = Some b /\
    b `prefix_of` TransportBody.bytes_of (tr_body r) /\
    (TransportBody.bytes_of (tr_body r) <> [] ->
       forall n, stated_offset (cr_headers rs) = Some n -> bytes_len b = n).
Proof.
  intros Hs Hr He _ Hst Hloc%header_string_get Hurl.
  apply send_arrived in Hs as [[_ Hno]|(q & x & k & Hplain & Hu & Hm & _ & _ & Ha & Hok)]; [by destruct (Hno rs)|].
  destruct (Hok rs eq_refl) as (Hb & a & -> & Hsa & Hha). rewrite Hr in Hm. rewrite Hsa in Hst. rewrite Hha in *.
  destruct (ao_created _ _ _ _ _ (an_post _ _ _ _ _ Ha Hm) a location eq_refl Hst Hloc)
    as (Hp & -> & l & b & _ & Hheld & Hpre & Hn).
  rewrite Hp in Hu.
  rewrite (place_resolved endpoint _ url ltac:(congruence) Hplain Hurl).
  exists b. rewrite object_item, Hheld, <- Hb. split_and!; [done|done|]. intros _. exact Hn.
Qed.

Lemma server_laws : TusServerLaws.
Proof.
  split; [exact keeps_object|exact keeps_gone|exact head_told|exact patch_told|exact create_told].
Qed.

(** ** The length of an upload *)

#[local] Existing Instance sequential.
#[local] Existing Instance server_laws.
Context `{!ClientSystem} `{!StorageReaderLaws S}.
Local Abbreviation world w := (nw_world (cw_transport w)).

(** What is at the URL has the length [len]. *)
Definition declared (len : N) (url : WebUrl) (w : ClientWorld) : Prop :=
  forall id l b, weburl_as_str url = item_uri id -> held (world w) id = Some (l, b) -> l = len.

Lemma declared_exchange len url r answer (w w' : ClientWorld) :
  declared len url w -> tr_method r = Method.HEAD \/ tr_method r = Method.PATCH ->
  answered r answer w w' -> declared len url w'.
Proof.
  intros Hd Hr (Hs & _) id l b Hu Hheld.
  apply send_arrived in Hs as [[Hw _]|(q & x & n & _ & _ & Hm & _ & _ & Ha & _)].
  { apply (Hd id l b Hu). by rewrite <- Hw. }
  destruct Hr as [Hr|Hr]; rewrite Hr in Hm.
  - rewrite (an_other _ _ _ _ _ Ha) in Hheld by (by rewrite Hm).
    rewrite renewed_held in Hheld. by apply (Hd id l b Hu).
  - pose proof (an_patch _ _ _ _ _ Ha Hm) as Hp.
    destruct (decide (aq_path q = item_path config id)) as [Hi|Hne].
    + destruct (ap_grew _ _ _ _ _ Hp id Hi) as [Heq|(l' & b' & Hheld' & _ & Hheld2)].
      * rewrite Heq, renewed_held in Hheld. by apply (Hd id l b Hu).
      * rewrite Hheld2 in Hheld. injection Hheld as <- <-. rewrite renewed_held in Hheld'. by apply (Hd id l' b' Hu).
    + rewrite (ap_other _ _ _ _ _ Hp id Hne), renewed_held in Hheld. by apply (Hd id l b Hu).
Qed.

Lemma declared_created len url r answer (w w' : ClientWorld) endpoint location rs :
  answered r answer w w' -> answer = inr rs -> tr_method r = Method.POST ->
  tr_uri r = weburl_as_str endpoint -> stated_length (tr_headers r) = Some len -> cr_status rs = 201 ->
  header_string (cr_headers rs) "location" "Location" = Ok location ->
  resolve_upload_location endpoint location = Ok url -> declared len url w'.
Proof.
  intros (Hs & _) -> Hr He Hl Hst Hloc%header_string_get Hurl id l b Hu Hheld.
  apply send_arrived in Hs as [[_ Hno]|(q & x & k & Hplain & Hq & Hm & Hh & _ & Ha & Hok)]; [by destruct (Hno rs)|].
  destruct (Hok rs eq_refl) as (Hb & a & -> & Hsa & Hha). rewrite Hr in Hm. rewrite Hsa in Hst. rewrite Hha in *.
  destruct (ao_created _ _ _ _ _ (an_post _ _ _ _ _ Ha Hm) a location eq_refl Hst Hloc)
    as (Hp & -> & l' & b' & Hl' & Hheld' & _).
  rewrite Hp in Hq.
  rewrite (place_resolved endpoint _ url ltac:(congruence) Hplain Hurl) in Hu. apply item_uri_inj in Hu as <-.
  rewrite Hheld in Hheld'. injection Hheld' as <- <-.
  assert (stated_length (aq_headers q) = stated_length (tr_headers r)) as Heq.
  { unfold stated_length, header_u64, optional_header_u64. rewrite Hh by (cbn; intuition congruence). done. }
  congruence.
Qed.

Lemma resumable_declared len url source :
  resumable (declared len url) (fun _ _ => True) url source report.
Proof.
  split.
  - intros w w' (Ht & _) Hd id l b. unfold declared in Hd. rewrite Ht. apply Hd.
  - intros r w Hd [Hm Hu]. apply sends_alone. intros answer w' Hx. split; [|done].
    by eapply declared_exchange; [|left|].
  - intros sent chunk r w Hd _ _ _ _ [Hm Hu] _. apply sends_alone. intros answer w' Hx.
    assert (declared len url w') as Hd' by by eapply declared_exchange; [|right|]. split; [done|].
    intros response n _ _ _ _ _. eapply holds_mono; [apply report_passive|]. intros p w2 (-> & Ht & _).
    split_and!; [done| |done]. intros id l b. rewrite Ht. apply Hd'.
Qed.

Lemma creatable_declared c source :
  creatable c source (fun _ => ret tt) report (fun _ => True) (fun _ => True)
    (declared (src_len source)) (fun _ _ _ => True).
Proof.
  split; [done..| | |intros url; apply resumable_declared].
  - intros r w _ _. by apply sends_alone.
  - intros body r w _ _ [Hm Hu] [Hl _]. apply sends_alone. intros answer w' Hx. split; [done|].
    intros response url offset -> (Hst & (location & Hloc & Hurl) & _) _.
    apply resolve_server_location_ok in Hurl as [Hurl _].
    pose proof (declared_created _ url _ _ _ _ _ _ _ Hx eq_refl Hm Hu Hl Hst Hloc Hurl) as Hd.
    apply holds_done. split; [done|]. destruct body; [|done]. eapply holds_mono; [apply report_passive|].
    intros p w2 (-> & Ht & _). split_and!; [done| |done]. intros id' l' b'. rewrite Ht. apply Hd.
Qed.

Lemma upload_declares c source metadata (w : ClientWorld) :
  u64 (src_len source) ->
  wp (upload_from_with_progress c source metadata report) (fun r w' =>
    forall info, r = Ok info -> declared (src_len source) (ui_url info) w') w.
Proof.
  intros Hu. pose proof (creatable_declared c source) as Hinv.
  eapply wp_mono; [apply (holds_with_capabilities (logic := sequential) _ _ _ _ _ _ _ _ Hinv Hu); [done|]|].
  - intros cap w1 _. by apply (holds_create_and_upload _ _ _ _ _ _ _ _ Hinv Hu).
  - intros r w' [_ HO] info ->. apply HO.
Qed.

(** C2: an upload that ends in success, over a network that loses requests and answers and
    breaks bodies, has left in storage, under a complete record, exactly the bytes of the
    source: what a download of it then serves, if it serves, is the source.  The server has
    a size limit and no concatenation, deferred length or termination, names uploads
    by relative locations, has backends and hooks that keep their contracts and hooks
    that set neither Upload-Offset nor Location; between any two requests time passes and
    its generators of names go on, in any way that does not draw a name that is in use. *)
Theorem upload_reaches_storage c source v metadata (w w' : ClientWorld) info :
  reads_out source v -> bytes_len v <= isize_max ->
  run (upload_from_with_progress c source metadata report) w = (Ok info, w') ->
  exists id s,
    weburl_as_str (ui_url info) = item_uri id /\
    recs (world w') !! id = Some s /\ UploadState.length s = Some (bytes_len v) /\
    stored_bytes s (world w') = v /\
    forall resp w2, run (download config id None) (world w') = (Ok resp, w2) ->
      dr_status resp = 200 /\ stream_data (dr_body resp) = Some v.
Proof.
  intros Hv Hmax Hrun. pose proof Hv as [Hlen _].
  assert (u64 (src_len source)) as Hu by (rewrite Hlen; unfold u64, u64_max, isize_max in *; lia).
  pose proof (wp_run _ _ _ _ _ (uploaded_whole c source v metadata w Hv Hmax) Hrun) as (Ho & _).
  pose proof (wp_run _ _ _ _ _ (upload_declares c source metadata w Hu) Hrun info eq_refl) as Hd.
  apply object_inv in Ho as (id & l & Hurl & Hheld). rewrite <- (Hd id l v Hurl Hheld) in Hlen. subst l.
  destruct (held_record _ _ _ Hheld) as [s Hs].
  pose proof (proj1 (proj2 (nw_ready (cw_transport w')))) as Hw.
  destruct (held_regular m _ id s Hw Hs) as (l & h & Hl & _ & _ & Hid & Hfin & Hh & _ & Hheld').
  rewrite Hheld in Hheld'. injection Hheld' as <- Hb.
  assert (stored_bytes s (world w') = v) as Hst by (unfold stored_bytes; by rewrite Hh).
  exists id, s. split_and!; [done|done|done|done|]. intros resp w2 Hdl.
  pose proof (wp_run _ _ _ _ _ (download_spec config id None s _ Hs Hfin) Hdl) as (_ & Hserves & _).
  rewrite Hst in Hserves. destruct Hserves as (_ & Hok & Hdata & _). by split.
Qed.
End network.
