(* ===== verification/ClientParallelFacts.v ===== *)
(** * Parts of a parallel upload

    What the tasks of a parallel upload own of the server: the upload that each of them
    created.  Other tasks' requests leave it alone, so what is proved of an upload on
    its own holds of every part, under every schedule. *)

From stdpp Require Import sorting.
From S2P Require Import Prelude Text Interleaving Ownership JoinSet Errors Crates Config State Headers.
From S2P Require Import ClientError ClientHelpers Client ClientUpload ClientParallel.
From S2P Require Import ClientFacts ClientLoops ClientCreation ClientSpec.
Local Open Scope string_scope.
Local Open Scope N_scope.
Local Open Scope prog_scope.
#[local] Set Default Proof Using "All".

(** ** What a server that is shared promises

    [used t uri]: the name was given to an upload, which may be gone.  Names are not
    given twice.  A final upload is the concatenation of its parts, named by their
    URLs, as they were when it was created. *)

Class TusServerNames `{TusServer} := {
  used : TransportState -> string -> Prop;
}.

Definition no_space (s : string) : bool := str_all (fun c => negb (Ascii.eqb c " ")) s.

(** The text of a URL of HTTP, as the url crate writes it. *)
Definition http_url (s : string) : bool := starts_with "http://" s || starts_with "https://" s.

Class TusServerNamesLaws `{UrlLib} `{TusServerNames} := {
  used_object t uri b : object t uri = Some b -> used t uri;
  used_stays r t answer t' uri : transport_send r t = (answer, t') -> used t uri -> used t' uri;
  used_gone r t answer t' uri :
    transport_send r t = (answer, t') -> used t uri -> object t uri = None -> object t' uri = None;
  used_fresh endpoint r t response t' location url :
    transport_send r t = (inr response, t') -> tr_method r = Method.POST ->
    tr_uri r = weburl_as_str endpoint -> cr_status response = 201 ->
    header_string (cr_headers response) "location" "Location" = Ok location ->
    resolve_upload_location endpoint location = Ok url -> ~ used t (weburl_as_str url);
  used_http endpoint r t response t' location url :
    transport_send r t = (inr response, t') -> tr_method r = Method.POST ->
    tr_uri r = weburl_as_str endpoint -> cr_status response = 201 ->
    header_string (cr_headers response) "location" "Location" = Ok location ->
    resolve_upload_location endpoint location = Ok url -> http_url (weburl_as_str url) = true;
  server_concat endpoint r t response t' urls location url :
    transport_send r t = (inr response, t') -> tr_method r = Method.POST ->
    tr_uri r = weburl_as_str endpoint ->
    get_str (tr_headers r) "upload-concat" = Some ("final;" ++ str_join " " urls) ->
    urls <> [] -> Forall (fun u => no_space u = true) urls ->
    cr_status response = 201 ->
    header_string (cr_headers response) "location" "Location" = Ok location ->
    resolve_upload_location endpoint location = Ok url ->
    exists bs, Forall2 (fun u b => object t u = Some b) urls bs /\
      object t' (weburl_as_str url) = Some (concat bs);
}.

(** URLs are absolute, and the text of a URL of HTTP has no spaces: the url crate
    encodes them in the path, query and fragment of a URL of a special scheme, and
    refuses them in its host (the opaque path of another scheme may keep some). *)
Class AbsoluteUrls `{UrlLib} := {
  weburl_join_absolute base u : weburl_join base (weburl_as_str u) = inr u;
  weburl_no_space u : http_url (weburl_as_str u) = true -> no_space (weburl_as_str u) = true;
}.

(** ** Parts *)

Definition part (v : bytes) (part_size : N) (i : nat) : bytes :=
  take (N.to_nat part_size) (drop (i * N.to_nat part_size) v).

Lemma parts_concat v part_size n :
  concat (map (part v part_size) (seq 0 n)) = take (n * N.to_nat part_size) v.
Proof.
  induction n as [|n IH]; [done|]. rewrite seq_S, map_app, concat_app, IH. cbn [map concat plus].
  rewrite app_nil_r. unfold part. rewrite take_take_drop. f_equal. lia.
Qed.

Lemma parts_whole (v : bytes) (part_size : N) :
  1 <= part_size ->
  concat (map (part v part_size) (seq 0 (N.to_nat (div_ceil (bytes_len v) part_size)))) = v.
Proof.
  intros Hp. rewrite parts_concat, take_ge; [done|]. unfold div_ceil, bytes_len.
  pose proof (N.div_mod (N.of_nat (length v)) part_size ltac:(lia)) as Hd.
  pose proof (N.mod_lt (N.of_nat (length v)) part_size ltac:(lia)) as Hm.
  destruct (N.eqb_spec (N.of_nat (length v) mod part_size) 0); nia.
Qed.

(** The parts before the last are not empty. *)
Lemma part_begins (v : bytes) (part_size : N) (i : nat) :
  1 <= part_size -> (i < N.to_nat (div_ceil (bytes_len v) part_size))%nat ->
  N.of_nat i * part_size < bytes_len v.
Proof.
  intros Hp Hi. unfold div_ceil in Hi.
  pose proof (N.div_mod (bytes_len v) part_size ltac:(lia)) as Hd.
  pose proof (N.mod_lt (bytes_len v) part_size ltac:(lia)) as Hm.
  revert Hi Hd Hm. generalize (bytes_len v / part_size) (bytes_len v mod part_size). intros q r Hi Hd Hm.
  destruct (N.eqb_spec r 0).
  - assert (N.of_nat i + 1 <= q) by lia. nia.
  - assert (N.of_nat i <= q) by lia. nia.
Qed.

Fixpoint sum_last (cells : list PartCell) : N :=
  match cells with [] => 0 | c :: cells => pc_last c + sum_last cells end.

Lemma sum_last_insert cells i c c' :
  cells !! i = Some c -> sum_last (<[i := c']> cells) + pc_last c = sum_last cells + pc_last c'.
Proof.
  revert i. induction cells as [|d cells IH]; intros [|i] Hi; simplify_eq/=; [lia|].
  specialize (IH i Hi). lia.
Qed.

Lemma sum_last_snoc cells c : sum_last (cells ++ [c]) = sum_last cells + pc_last c.
Proof. induction cells as [|d cells IH]; cbn; lia. Qed.

Lemma sum_last_fresh n : sum_last (repeat (mkPartCell 0 None) n) = 0.
Proof. induction n as [|n IH]; cbn; lia. Qed.

(** Cells that are not ahead of their parts. *)
Lemma sum_last_parts (v : bytes) (part_size : N) cells :
  (forall i c, cells !! i = Some c -> pc_last c <= bytes_len (part v part_size i)) ->
  sum_last cells <= bytes_len v.
Proof.
  intros Hc. enough (sum_last cells <= bytes_len (concat (map (part v part_size) (seq 0 (length cells))))) as Hl.
  { rewrite parts_concat in Hl. unfold bytes_len in *. rewrite length_take in Hl. lia. }
  induction cells as [|c cells IH] using rev_ind; [done|].
  rewrite length_app, Nat.add_1_r, seq_S, map_app, concat_app, bytes_len_app, sum_last_snoc.
  cbn [map concat plus]. rewrite app_nil_r. apply N.add_le_mono.
  - apply IH. intros i d Hd. apply Hc. by apply lookup_app_l_Some.
  - by apply Hc, list_lookup_middle.
Qed.

(** ** Who owns what *)

(** A program that uploads [x]: it has created nothing yet, neither it nor, of the whole
    [x], those it spawns; or it created the upload at [uri], which has [known] bytes. *)
Inductive Label := Nothing (x : bytes) | Whole (x : bytes) | Claim (uri : string) (x : bytes) (known : option N).

Definition disjoint_labels (a b : Label) : Prop :=
  match a, b with Claim u _ _, Claim u' _ _ => u <> u' | _, _ => True end.

Lemma disjoint_labels_sym a b : disjoint_labels a b -> disjoint_labels b a.
Proof. destruct a, b; cbn; congruence. Qed.

Section owned.
Context `{UrlLaws} `{HttpClientLib} `{!HttpLaws} `{!Transport} `{ClientSystem, Base64, Digests, HashOrder}.
Context `{!TusServer} `{!TusServerLaws} `{!TusServerNames} `{!TusServerNamesLaws}.
Local Abbreviation W := ClientWorld.
Local Abbreviation Progress := (N -> N -> CM W unit).
Context (c : Client) (v : bytes) (part_size : N) (count : nat) (before : list (N * N)).

(** Unless it is gone, the upload has a prefix of [x], as long as is known. *)
Definition own (l : Label) (w : W) : Prop :=
  match l with
  | Nothing _ | Whole _ => True
  | Claim uri x known =>
      (used (cw_transport w) uri /\ http_url uri = true) /\
      match object (cw_transport w) uri with
      | Some b => b `prefix_of` x /\ match known with Some n => bytes_len b = n | None => True end
      | None => True
      end
  end.

(** The counters, and what was reported since [before]. *)
Record counting (w : W) : Prop := {
  ct_length : length (ps_parts (cw_parallel w)) = count;
  ct_last i cell : ps_parts (cw_parallel w) !! i = Some cell -> pc_last cell <= bytes_len (part v part_size i);
  ct_sum : ps_uploaded (cw_parallel w) = sum_last (ps_parts (cw_parallel w));
  ct_reported : ps_reported (cw_parallel w) <= bytes_len v;
  ct_reports : exists l, cw_progress w = (before ++ l)%list /\ StronglySorted N.lt l.*1 /\
    Forall (fun r => r.1 <= ps_reported (cw_parallel w) /\ r.2 = bytes_len v) l;
}.

(** What a part leaves when its task is done. *)
Definition part_left (i : nat) (r : cresult PartOutcome) (l : Label) : Prop :=
  match r with
  | Ok o =>
      po_index o = i /\
      match po_result o with
      | inr url => l = Claim url (part v part_size i) (Some (bytes_len (part v part_size i))) /\
          exists u, url = weburl_as_str u
      | inl _ => True
      end
  | _ => True
  end.

Local Abbreviation joined_t := (list (nat * option PartOutcome)).
Local Abbreviation own_step := (owned_step counting own disjoint_labels).
Local Abbreviation known_of := (established own disjoint_labels part_left).

(** The counters, the reports and the server are the same. *)
Definition untouched (w w' : W) : Prop :=
  cw_transport w' = cw_transport w /\ cw_progress w' = cw_progress w /\ cw_parallel w' = cw_parallel w.

Lemma own_transport l w w' : cw_transport w' = cw_transport w -> own l w -> own l w'.
Proof. intros Ht. unfold own. by rewrite Ht. Qed.

Lemma counting_same w w' :
  cw_progress w' = cw_progress w -> cw_parallel w' = cw_parallel w -> counting w -> counting w'.
Proof. intros Hp Hs [C1 C2 C3 C4 C5]. by split; rewrite ?Hp, ?Hs. Qed.

Lemma keeps_step l w w' : cw_transport w' = cw_transport w -> counting w' -> own l w -> own_step l w l w'.
Proof.
  intros Ht Hc Ho. split_and!; [done|by eapply own_transport|]. intros o Hoo Hd.
  split; [by eapply own_transport|done].
Qed.

Lemma untouched_step l w w' : untouched w w' -> counting w -> own l w -> own_step l w l w'.
Proof. intros (Ht & Hp & Hs) Hc Ho. apply keeps_step; [done| |done]. by eapply counting_same. Qed.

(** A request that changes no upload of others. *)
Lemma exchange_step r answer w w' l l' :
  answered r answer w w' -> counting w -> own l w -> own l' w' ->
  (tr_method r = Method.PATCH -> exists x k, l = Claim (tr_uri r) x k) ->
  (forall uri x k, l' = Claim uri x k -> (exists x k, l = Claim uri x k) \/ ~ used (cw_transport w) uri) ->
  own_step l w l' w'.
Proof.
  intros (Hs & _ & Hp & _ & Hpar) Hc Ho Ho' Hpatch Hnew. split_and!; [by eapply counting_same|done|].
  intros o Hoo Hd. destruct o as [x|x|uri x k]; [split; [done|by destruct l']..|]. destruct Hoo as [[Hu Hh] Hob]. split.
  - split; [split; [by eapply used_stays|done]|]. destruct (object (cw_transport w) uri) as [b|] eqn:Hb.
    + destruct (server_keeps _ _ _ _ _ _ Hs Hb) as [->|[->|([Hm <-] & _)]]; [done|done|].
      destruct (Hpatch Hm) as (x' & k' & ->). by cbn in Hd.
    + by rewrite (used_gone _ _ _ _ _ Hs Hu Hb).
  - destruct l' as [| |uri' x' k']; [done..|]. destruct (Hnew _ _ _ eq_refl) as [(x2 & k2 & ->)|Hn]; [done|].
    cbn. intros ->. by apply Hn.
Qed.

(** ** The logic *)

(** Where the answer to a POST says the new upload is. *)
Definition location_of (response : ClientResponse) : option WebUrl :=
  if cr_status response =? 201 then
    match header_string (cr_headers response) "location" "Location" with
    | Ok location =>
        match resolve_upload_location (cl_endpoint c) location with Ok url => Some url | _ => None end
    | _ => None
    end
  else None.

Lemma location_of_some response url :
  location_of response = Some url <->
  cr_status response = 201 /\ exists location,
    header_string (cr_headers response) "location" "Location" = Ok location /\
    resolve_upload_location (cl_endpoint c) location = Ok url.
Proof using Type.
  unfold location_of. split.
  - destruct (N.eqb_spec (cr_status response) 201) as [Hst|]; [|done].
    destruct (header_string _ _ _) as [location| |]; [|done..].
    destruct (resolve_upload_location _ _) as [u| |] eqn:Hr; [|done..]. intros [= ->]. eauto.
  - intros (-> & location & -> & ->). done.
Qed.

(** What the answer to a request tells. *)
Definition next_label (r : TransportRequest) (answer : ClientError.t + ClientResponse) (l : Label) : Label :=
  match l, tr_method r, answer with
  | Claim uri x _, Method.PATCH, inr response =>
      Claim uri x (if cr_status response =? 204 then stated_offset (cr_headers response) else None)
  | Claim uri x _, Method.PATCH, inl _ => Claim uri x None
  | Claim uri x k, Method.HEAD, inr response =>
      if String.eqb (tr_uri r) uri && ((cr_status response =? 200) || (cr_status response =? 204))
      then match stated_offset (cr_headers response) with Some n => Claim uri x (Some n) | None => l end
      else l
  | Nothing x, Method.POST, inr response =>
      match location_of response with
      | Some url =>
          Claim (weburl_as_str url) x
            match TransportBody.bytes_of (tr_body r) with
            | [] => Some 0
            | _ => stated_offset (cr_headers response)
            end
      | None => l
      end
  | Whole x, Method.POST, inr response =>
      match location_of response with
      | Some url => Claim (weburl_as_str url) x (Some (bytes_len x))
      | None => l
      end
  | _, _, _ => l
  end.

Section logic.
Context (joined : joined_t).

#[refine] Instance shared : ClientLogic := {|
  lstate := Label;
  holds A m Q l := acts counting own disjoint_labels part_left m l joined Q;
  quiet := eq;
  paused := eq;
  can_send r l := forall answer w w', counting w -> own l w -> known_of l joined w ->
    answered r answer w w' -> own_step l w (next_label r answer l) w';
  exchanged r answer l l' := l' = next_label r answer l /\
    exists w w', own l w /\ answered r answer w w' /\ own l' w';
|}.
Proof.
  - done.
  - intros A m Q Q' l. apply acts_mono.
  - intros A B m k Q l. apply acts_bind.
  - intros A m Q l. apply acts_attempt.
  - intros A B f k Q l Hf HQ w Hi Ho He. exists l. split; [|by apply HQ].
    destruct (Hf w) as (? & _ & ? & _ & ?). by apply untouched_step.
  - intros A B f k Q l Hf HQ w Hi Ho He. exists l. split; [|by apply HQ].
    destruct (Hf w) as (? & _ & ? & _ & ?). by apply untouched_step.
  - intros r Q l Hc HQ w Hi Ho He. destruct (transport_send r (cw_transport w)) as [answer t] eqn:Hs. cbn.
    match goal with |- exists l', owned_step _ _ _ _ _ l' ?w' /\ _ => assert (answered r answer w w') as Hx by done end.
    pose proof (Hc _ _ _ Hi Ho He Hx) as Hstep. eexists. split; [exact Hstep|]. apply HQ. split; [done|].
    do 2 eexists. split_and!; [exact Ho|exact Hx|]. exact (proj1 (proj2 Hstep)).
  - done.
  - by intros l1 l2 l3 -> ->.
  - done.
  - by intros l1 l2 l3 -> ->.
  - by intros r l l' <-.
  - by intros r answer l1 l2 l3 <-.
  - intros r answer l l' (_ & w & w' & _ & (Hs & _) & _). exists (cw_transport w). by rewrite Hs.
Defined.
End logic.

(** ** Requests *)

(** A request that is not a PATCH changes what is owned at most by losing it. *)
Lemma own_after r answer w w' l :
  answered r answer w w' -> tr_method r <> Method.PATCH -> own l w -> own l w'.
Proof.
  intros (Hs & _) Hm. destruct l as [x|x|uri x k]; [done..|]. intros [[Hu Hh] Hob]. split; [split; [by eapply used_stays|done]|].
  destruct (object (cw_transport w) uri) as [b|] eqn:Hb.
  - destruct (server_keeps _ _ _ _ _ _ Hs Hb) as [->|[->|([? _] & _)]]; done.
  - by rewrite (used_gone _ _ _ _ _ Hs Hu Hb).
Qed.

Lemma can_send_plain joined r l :
  tr_method r = Method.OPTIONS \/ tr_method r = Method.DELETE ->
  can_send (ClientLogic := shared joined) r l /\ forall answer, next_label r answer l = l.
Proof.
  intros Hm. assert (forall answer, next_label r answer l = l) as Hn.
  { intros answer. unfold next_label. by destruct l, Hm as [->| ->], answer. }
  split; [|done]. intros answer w w' Hi Ho _ Hx. rewrite Hn.
  assert (tr_method r <> Method.PATCH) as Hp by (by destruct Hm as [->| ->]).
  eapply exchange_step; [exact Hx|done|exact Ho|by eapply own_after|by intros ?|].
  intros uri x k ->. left. eauto.
Qed.

Lemma can_send_head joined r uri x k :
  sent_to_uri Method.HEAD uri r -> can_send (ClientLogic := shared joined) r (Claim uri x k).
Proof.
  intros [Hm Hu] answer w w' Hi Ho _ Hx.
  assert (own (Claim uri x k) w') as Ho' by (eapply own_after; [exact Hx|by rewrite Hm|done]).
  eapply exchange_step; [exact Hx|done|exact Ho| |by rewrite Hm|].
  2: { intros uri' x' k' Hl. left. exists x, k. revert Hl. unfold next_label. rewrite Hm.
       destruct answer as [e|response]; [congruence|]. destruct (_ && _); [|congruence].
       destruct (stated_offset _); congruence. }
  unfold next_label. rewrite Hm. destruct answer as [e|response]; [done|]. rewrite Hu, String.eqb_refl. cbn [andb].
  destruct (_ || _) eqn:Hst; [|done].
  destruct (stated_offset (cr_headers response)) as [n|] eqn:Hn; [|done].
  assert (cr_status response = 200 \/ cr_status response = 204) as Hst'.
  { apply orb_prop in Hst as [Hst|Hst]; apply N.eqb_eq in Hst; auto. }
  destruct Hx as (Hs & _). destruct (server_head _ _ _ _ _ Hs Hm Hst' Hn) as (b & _ & Hb & Hbn).
  rewrite Hu in Hb. destruct Ho' as [Hused Hob]. split; [done|]. rewrite Hb in *. by destruct Hob.
Qed.

Lemma can_send_patch joined r uri x k sent j :
  sent_to_uri Method.PATCH uri r -> appends (take j (drop (N.to_nat sent) x)) sent r ->
  can_send (ClientLogic := shared joined) r (Claim uri x k).
Proof.
  intros [Hm Hu] [Hbody Hso] answer w w' Hi Ho _ Hx.
  assert (own (Claim uri x None) w') as Ho'.
  { destruct Hx as (Hs & _), Ho as [[Hused Hh] Hob]. split; [split; [by eapply used_stays|done]|].
    destruct (object (cw_transport w) uri) as [b|] eqn:Hb; [|by rewrite (used_gone _ _ _ _ _ Hs Hused Hb)].
    destruct Hob as [Hpre _].
    destruct (server_keeps _ _ _ _ _ _ Hs Hb) as [->|[->|(_ & Hst & k' & ->)]]; [done|done|].
    split; [|done]. rewrite Hbody. rewrite Hso in Hst. injection Hst as ->. by apply prefix_grows. }
  eapply exchange_step; [exact Hx|done|exact Ho| |intros _; rewrite Hu; eauto|].
  2: { intros uri' x' k' Hl. left. exists x, k. revert Hl. unfold next_label. rewrite Hm. destruct answer; congruence. }
  unfold next_label. rewrite Hm. destruct answer as [e|response]; [done|].
  destruct (N.eqb_spec (cr_status response) 204) as [Hst|]; [|done].
  destruct (stated_offset (cr_headers response)) as [n|] eqn:Hn; [|done].
  destruct Hx as (Hs & _). destruct (server_patch _ _ _ _ _ Hs Hm Hst Hn) as (_ & b & _ & Hb & Hbn).
  rewrite Hu in Hb. destruct Ho' as [Hused Hob]. split; [done|]. rewrite Hb in *. by destruct Hob.
Qed.

(** A creation: the new name is this task's. *)
Lemma can_send_create joined r x len body :
  sent_to Method.POST (cl_endpoint c) r -> creates len body r -> body `prefix_of` x ->
  can_send (ClientLogic := shared joined) r (Nothing x).
Proof.
  intros [Hm Hu] [Hlen Hbody] Hpre answer w w' Hi Ho _ Hx. unfold next_label. rewrite Hm.
  assert (own_step (Nothing x) w (Nothing x) w') as Hnothing.
  { eapply exchange_step; [exact Hx|done|exact Ho|done|by rewrite Hm|done]. }
  destruct answer as [e|response]; [done|].
  destruct (location_of response) as [url|] eqn:Hl; [|done].
  apply location_of_some in Hl as (Hst & location & Hloc & Hurl).
  pose proof Hx as (Hs & _).
  destruct (server_create _ _ _ _ _ _ _ _ Hs Hm Hu Hlen Hst Hloc Hurl) as (b & Hb & Hbp & Hbn).
  pose proof (used_fresh _ _ _ _ _ _ _ Hs Hm Hu Hst Hloc Hurl) as Hfresh.
  pose proof (used_http _ _ _ _ _ _ _ Hs Hm Hu Hst Hloc Hurl) as Hhttp.
  eapply exchange_step; [exact Hx|done|exact Ho| |by rewrite Hm|].
  - split; [split; [by eapply used_object|done]|]. rewrite Hb, Hbody in *. split; [by etrans|].
    destruct body as [|y body]; [by apply prefix_nil_inv in Hbp as ->|].
    destruct (stated_offset (cr_headers response)) as [n|]; [|done]. by apply Hbn.
  - intros uri x' k' [= <- _ _]. by right.
Qed.

(** ** A part *)

Lemma sorted_snoc (l : list N) x : StronglySorted N.lt l -> Forall (fun y => y < x) l -> StronglySorted N.lt (l ++ [x]).
Proof.
  induction 1 as [|y l Hs IH Hy]; cbn; [by repeat constructor|]. intros [Hyx Hl]%Forall_cons.
  constructor; [by apply IH|]. apply Forall_app. split; [done|]. by constructor.
Qed.

Lemma counting_add w i uploaded sum :
  (i < count)%nat -> uploaded <= bytes_len (part v part_size i) -> counting w ->
  pc_last (part_cell i w) < uploaded ->
  sum = ps_uploaded (cw_parallel w) + (uploaded - pc_last (part_cell i w)) ->
  sum <= bytes_len v /\
  forall cell w', pc_last cell = uploaded -> cw_progress w' = cw_progress w ->
    cw_parallel w' = mkParallelState sum (ps_reported (cw_parallel w)) (<[i := cell]> (ps_parts (cw_parallel w))) ->
    counting w'.
Proof.
  intros Hi Hup [Clen Clast Csum Crep Creps] Hlt Hsum.
  destruct (lookup_lt_is_Some_2 (ps_parts (cw_parallel w)) i) as [cell0 Hcell]; [by rewrite Clen|].
  assert (part_cell i w = cell0) as Heq by (unfold part_cell; by rewrite Hcell).
  rewrite Heq in *.
  assert (forall cell, pc_last cell = uploaded -> sum = sum_last (<[i := cell]> (ps_parts (cw_parallel w))) /\
    forall j d, <[i := cell]> (ps_parts (cw_parallel w)) !! j = Some d -> pc_last d <= bytes_len (part v part_size j))
    as Hnew.
  { intros cell Hlast. split.
    - pose proof (sum_last_insert _ _ _ cell Hcell). rewrite Csum in Hsum. lia.
    - intros j d. rewrite list_lookup_insert. case_decide as Hj; [|apply Clast].
      destruct Hj as [<- _]. intros [= <-]. by rewrite Hlast. }
  split.
  - destruct (Hnew (mkPartCell uploaded None) eq_refl) as [-> Hle]. by apply (sum_last_parts _ part_size).
  - intros cell w' Hlast Hp Hs. destruct (Hnew cell Hlast) as [Hs1 Hle].
    split; rewrite ?Hs, ?Hp; cbn; [by rewrite length_insert|done|done|done|done].
Qed.

Lemma holds_PartProgress joined shared_progress i uploaded total l Q :
  (i < count)%nat -> uploaded <= bytes_len (part v part_size i) -> bytes_len v <= u64_max ->
  Q (Ok tt) l ->
  holds (ClientLogic := shared joined) (PartProgress shared_progress i (bytes_len v) uploaded total) Q l.
Proof.
  intros Hi Hup Hu HQ. unfold PartProgress. destruct shared_progress; [|exact HQ]. cbn [negb].
  apply (holds_bind (ClientLogic := shared joined)). intros w Hc Ho _. cbn.
  destruct (N.ltb_spec (pc_last (part_cell i w)) uploaded) as [Hlt|_]; [|exists l; split; [by apply untouched_step|exact HQ]].
  destruct (counting_add w i uploaded _ Hi Hup Hc Hlt eq_refl) as [Hsum Hw'].
  set (sum := ps_uploaded (cw_parallel w) + _) in *.
  destruct (N.ltb_spec u64_max sum); [lia|]. exists l. split.
  - apply keeps_step; [done| |done]. eapply Hw'; [|done|cbn; rewrite N.mod_small by (unfold u64_max in *; lia); reflexivity].
    done.
  - cbn. intros w2 Hc2 Ho2 _. cbn. exists l.
    destruct (N.ltb_spec (ps_reported (cw_parallel w2)) sum) as [Hr|_]; (split; [|exact HQ]);
      [|by apply untouched_step].
    apply keeps_step; [done| |done]. destruct Hc2 as [Clen Clast Csum Crep (rs & Hrs & Hsort & Hall)].
    split; cbn; [done..|]. exists (rs ++ [(sum, bytes_len v)])%list. rewrite Hrs, <- app_assoc. split; [done|].
    rewrite fmap_app. split.
    + apply sorted_snoc; [done|]. apply Forall_fmap. eapply Forall_impl; [exact Hall|]. cbn. intros r []. lia.
    + apply Forall_app. split; [|by repeat constructor]. eapply Forall_impl; [exact Hall|]. cbn. intros r [].
      split; [lia|done].
Qed.

(** An action on the cell of a part that leaves its [last] alone. *)
Lemma holds_set_created_url joined i url l Q :
  Q (Ok tt) l -> holds (ClientLogic := shared joined) (set_created_url i url) Q l.
Proof.
  intros HQ w Hc Ho _. exists l. split; [|exact HQ]. apply keeps_step; [done| |done].
  destruct Hc as [Clen Clast Csum Crep Creps]. cbn. unfold set_part, part_cell.
  destruct (ps_parts (cw_parallel w) !! i) as [cell|] eqn:Hcell.
  - split; cbn; [by rewrite length_insert| | |done|done].
    + intros j d. rewrite list_lookup_insert. case_decide as Hj; [|apply Clast].
      destruct Hj as [<- _]. intros [= <-]. cbn. by apply Clast.
    + pose proof (sum_last_insert _ _ _ (mkPartCell (pc_last cell) (Some (weburl_as_str url))) Hcell) as Hsum.
      cbn in Hsum. rewrite Csum. lia.
  - rewrite list_insert_ge by (by apply lookup_ge_None). by split.
Qed.

Definition claims (url : WebUrl) (x : bytes) (l : Label) : Prop := exists k, l = Claim (weburl_as_str url) x k.
Definition claims_at (url : WebUrl) (x : bytes) (n : N) (l : Label) : Prop :=
  l = Claim (weburl_as_str url) x (Some n).

Section a_part.
Context (Hu64 : bytes_len v <= u64_max) (shared_progress : bool) (i : nat) (Hi : (i < count)%nat).
Local Abbreviation x := (part v part_size i).
Local Abbreviation progress := (PartProgress shared_progress i (bytes_len v)).

Lemma resumable_part url :
  resumable (logic := shared []) (claims url x) (claims_at url x) url (VecSource x) progress.
Proof.
  split.
  - by intros l l' ->.
  - intros r l [k ->] [Hm Hu]. split; [by apply can_send_head|].
    intros answer l' (-> & w & w' & _ & _ & Ho'). unfold next_label. rewrite Hm.
    destruct answer as [e|response]; [split; [by exists k|done]|]. rewrite Hu, String.eqb_refl. cbn [andb].
    destruct ((cr_status response =? 200) || _) eqn:Hst.
    + destruct (stated_offset (cr_headers response)) as [n|] eqn:Hn; (split; [by eexists|]);
        intros ? n' [= <-] _ Hn'; [|congruence]. rewrite Hn in Hn'. by injection Hn' as <-.
    + split; [by exists k|]. intros ? n [= <-] Hs Hn. apply orb_false_iff in Hst as [Ha Hb].
      apply N.eqb_neq in Ha, Hb. by destruct Hs.
  - intros sent chunk r l [k ->] _ Hlt (n & m & Hr) Hc [Hm Hu] Ha.
    destruct (proj2 (VecSource_reads_out x) _ _ _ _ Hr) as [j ->].
    split; [by eapply can_send_patch|].
    intros answer l' (-> & w & w' & _ & _ & Ho'). unfold next_label. rewrite Hm.
    destruct answer as [e|response]; [split; [by eexists|done]|]. split; [by eexists|].
    intros ? n' [= <-] Hst Hn Hsn _. rewrite Hst, Hn. cbn [N.eqb Pos.eqb].
    apply holds_PartProgress; [done|cbn in Hsn; lia|done|]. split_and!; [done|by eexists|done].
Qed.

Lemma creatable_part :
  creatable (logic := shared []) c (VecSource x) (set_created_url i) progress
    (fun l => l = Nothing x) (fun _ => True) (fun url => claims url x) (fun url => claims_at url x).
Proof.
  split; [done|done| | | |].
  - by intros l l' ->.
  - intros r l -> [Hm _]. destruct (can_send_plain [] r (Nothing x)) as [Hc Hn]; [by left|].
    split; [done|]. intros answer l' [-> _]. by rewrite Hn.
  - intros body r l -> Hbody Hto Hcr.
    assert (default [] body `prefix_of` x /\ body <> Some []) as [Hp Hne].
    { destruct body as [b|]; [|split; [apply prefix_nil|done]]. destruct Hbody as (Hpos & Hbl & Hrd).
      specialize (Hrd x (VecSource_reads_out x)). cbn [N.to_nat drop default] in *.
      split; [rewrite Hrd; apply prefix_take|]. intros [= ->]. by cbn in Hpos. }
    split; [by eapply can_send_create|]. intros answer l' (-> & w & w' & _ & _ & Ho').
    split; [done|]. intros response url offset -> (Hst & (location & Hloc & Hurl) & Hoff) Hle.
    apply (resolve_server_location_ok (logic := shared [])) in Hurl as [Hurl _].
    assert (next_label r (inr response) (Nothing x) = Claim (weburl_as_str url) x (Some offset)) as ->.
    { destruct Hto as [Hm _], Hcr as [Hlen Hb]. unfold next_label. rewrite Hm, Hb.
      replace (location_of response) with (Some url) by (symmetry; apply location_of_some; eauto).
      destruct body as [[|y body]|]; cbn; [done|by rewrite Hoff|by rewrite Hoff]. }
    apply holds_set_created_url. split; [done|]. destruct body; [|by split; [eexists|]].
    apply holds_PartProgress; [done|done|done|]. split_and!; [done|by eexists|done].
  - intros url. apply resumable_part.
Qed.

(** A task does what is asked of it. *)
Lemma part_task capabilities :
  bytes_len x <= isize_max ->
  owns counting own disjoint_labels (fun w : W => w) whole (Nothing x)
    (upload_parallel_part c i x capabilities shared_progress (bytes_len v)) (part_left i).
Proof.
  intros Hmax. apply (acts_task _ _ _ part_left).
  assert (u64 (src_len (VecSource x))) as Hu by (cbn; unfold u64, u64_max, isize_max in *; lia).
  unfold upload_parallel_part.
  apply (holds_bind (ClientLogic := shared [])), (holds_attempt (ClientLogic := shared [])).
  eapply (holds_mono (ClientLogic := shared [])).
  { by apply (holds_create_and_upload (logic := shared []) _ _ _ _ _ _ _ _ creatable_part Hu). }
  intros r l' [_ Hr].
  assert (forall result, match result with inr info => claims_at (ui_url info) x (bytes_len x) l' | inl _ => True end ->
    holds (ClientLogic := shared []) (let! created_url := get_created_url i in
      ret (mkPartOutcome i created_url
             match result with inr upload => inr (weburl_as_str (ui_url upload)) | inl e => inl e end))
      (part_left i) l') as Hget.
  { intros result Hres w Hc Ho _. exists l'. split; [by apply untouched_step|]. cbn. split; [done|].
    destruct result as [e|info]; [done|]. split; [exact Hres|by eexists]. }
  destruct r as [info|e|]; [|by apply (Hget (inl e))|done]. apply (Hget (inr info)). by destruct Hr as (_ & Hr & _).
Qed.
End a_part.
End owned.
