(* ===== verification/ClientParallelSpec.v ===== *)
(** * What parallel uploads promise

    Under every schedule of the parts: an upload that succeeds has made the source of
    them on the server, no more parts than allowed are under way, the progress reported
    ascends, and the upload ends. *)

From stdpp Require Import sorting relations.
From S2P Require Import Prelude Text Interleaving Ownership JoinSet Errors Crates Config State Headers.
From S2P Require Import ClientError ClientHelpers Client ClientUpload ClientParallel.
From S2P Require Import ClientFacts ClientLoops ClientCreation ClientSpec ClientParallelFacts.
Local Open Scope string_scope.
Local Open Scope N_scope.
Local Open Scope prog_scope.
#[local] Set Default Proof Using "All".

(** As many as there are numbers below [n]. *)
Lemma below_length (l : list nat) n : NoDup l -> Forall (fun i => i < n)%nat l -> (length l <= n)%nat.
Proof.
  intros Hl Hb. rewrite <- (length_seq n 0). apply submseteq_length, NoDup_submseteq; [done|].
  intros i Hi. rewrite Forall_forall in Hb. apply elem_of_seq. specialize (Hb i Hi). lia.
Qed.

Lemma below_all (l : list nat) n i : NoDup l -> Forall (fun i => i < n)%nat l -> length l = n -> (i < n)%nat -> i ∈ l.
Proof.
  intros Hl Hb Hn Hi. destruct (decide (i ∈ l)) as [|Hni]; [done|].
  assert (length (i :: l) <= n)%nat; [|cbn in *; lia].
  apply below_length; [by constructor|by constructor].
Qed.

Section requests.
Context `{UrlLaws} `{HttpClientLib} `{!HttpLaws} `{!Transport} `{ClientSystem, Base64, Digests, HashOrder}.
Context `{!AbsoluteUrls}.
Local Abbreviation W := ClientWorld.

Lemma resolve_absolute endpoint u : resolve_upload_location endpoint (weburl_as_str u) = Ok u.
Proof. unfold resolve_upload_location, resolve_upload_url. by rewrite weburl_join_absolute. Qed.

Definition url_texts (urls : list string) : Prop := Forall (fun url => exists u, url = weburl_as_str u) urls.

Lemma resolve_part_urls_absolute c urls : url_texts urls -> resolve_part_urls c urls = Ok urls.
Proof.
  induction 1 as [|url urls [u ->] _ IH]; [done|]. cbn [resolve_part_urls]. rewrite resolve_absolute. cbn.
  by rewrite IH.
Qed.

Lemma http_no_space urls :
  Forall (fun url => (exists u, url = weburl_as_str u) /\ http_url url = true) urls ->
  Forall (fun u => no_space u = true) urls.
Proof. intros Hu. eapply Forall_impl; [exact Hu|]. intros url [[u ->] Hh]. by apply weburl_no_space. Qed.

Lemma get_str_insert_ne name v headers m :
  name <> m -> get_str (header_insert name v headers) m = get_str headers m.
Proof. intros Hne. unfold get_str. by rewrite header_get_insert_ne. Qed.

Lemma get_str_insert_eq name v headers text :
  header_value_from_str text = inr v -> get_str (header_insert name v headers) name = Some text.
Proof. intros Hv. unfold get_str. by rewrite header_get_insert_eq, (header_from_to_str _ _ Hv). Qed.

(** A request for the concatenation of [urls]. *)
Definition concatenates (urls : list string) (r : TransportRequest) : Prop :=
  get_str (tr_headers r) "upload-concat" = Some ("final;" ++ str_join " " urls).

Context {logic : ClientLogic}.

Lemma decorates_concat urls metadata :
  decorates (fun r => of_outcome (concat_request urls metadata r))
    (fun r r' => tr_method r' = tr_method r /\ tr_uri r' = tr_uri r /\ concatenates urls r').
Proof.
  apply decorates_pure.
  - intros r. apply bind_no_panic; [apply insert_request_header_no_panic|intros ?].
    apply bind_no_panic; [apply encode_metadata_no_panic|intros m]. destruct (is_empty m); [done|].
    apply insert_request_header_no_panic.
  - intros r r' Hr. apply outcome_bind_ok in Hr as (r1 & Hr1 & Hr).
    apply outcome_bind_ok in Hr as (m & _ & Hr).
    destruct (insert_request_header_ok "upload-concat" _ _ _ ltac:(discriminate) eq_refl Hr1) as (v1 & Hv1 & ->).
    destruct (is_empty m).
    + injection Hr as <-. split_and!; [done|done|]. by apply get_str_insert_eq.
    + destruct (insert_request_header_ok "upload-metadata" _ _ _ ltac:(discriminate) eq_refl Hr) as (v2 & Hv2 & ->).
      split_and!; [done|done|]. unfold concatenates. cbn. rewrite get_str_insert_ne by done.
      by apply get_str_insert_eq.
Qed.

Lemma holds_concatenate_uploads c urls metadata Q s :
  url_texts urls ->
  (forall e s', Q (Err e) s') ->
  (forall r, sent_to Method.POST (cl_endpoint c) r -> concatenates urls r -> sends r s (fun answer s' =>
     (panics answer -> Q Panic s') /\
     (forall response url, answer = inr response -> location_of c response = Some url ->
        holds (upload_info_at c url) Q s'))) ->
  holds (concatenate_uploads c urls metadata) Q s.
Proof.
  intros Hu He Hk. unfold concatenate_uploads. apply holds_bind, holds_done.
  rewrite resolve_part_urls_absolute by done.
  eapply holds_call; [by apply decorates_concat|by intros|].
  intros r0 r Hur%(request_uri_url (logic := logic)) Hm Hb (Hm' & Hu' & Hc).
  assert (sent_to Method.POST (cl_endpoint c) r) as Hto by (split; congruence).
  apply (sends_mono _ _ _ _ (Hk r Hto Hc)). intros [e|response] s' _ (Hp & Hok); [apply He|].
  destruct (N.eqb_spec (cr_status response) 201) as [Hs|Hs]; cbn [negb];
    [|apply holds_unexpected; [done|by intros ?; apply Hp; do 2 eexists]].
  apply holds_bind, holds_done.
  destruct (header_string _ _ _) as [location|e|] eqn:Hloc;
    [|apply He|by apply (header_string_no_panic (logic := logic)) in Hloc].
  apply holds_bind, holds_done.
  destruct (resolve_server_location c location) as [url|e|] eqn:Hurl;
    [|apply He|by apply (resolve_server_location_no_panic (logic := logic)) in Hurl].
  apply (resolve_server_location_ok (logic := logic)) in Hurl as [Hurl _].
  apply (Hok response); [done|]. apply location_of_some. eauto.
Qed.
End requests.

Lemma vec_set_ok {A} i (a : A) l : (i < length l)%nat -> vec_set i a l = Ok (<[i := a]> l).
Proof. intros Hi. unfold vec_set. by destruct (Nat.ltb_spec i (length l)); [|lia]. Qed.

Lemma record_created_ok o created_urls n :
  (po_index o < n)%nat -> length created_urls = n ->
  record_created o created_urls =
    Ok match po_created_url o with Some u => <[po_index o := Some u]> created_urls | None => created_urls end.
Proof. intros Hi Hl. unfold record_created. destruct (po_created_url o); [|done]. by rewrite vec_set_ok by lia. Qed.

(** ** The program that spawns the parts *)

Section coordinator.
Context `{UrlLaws} `{HttpClientLib} `{!HttpLaws} `{!Transport} `{ClientSystem, Base64, Digests, HashOrder}.
Context `{!TusServer} `{!TusServerLaws} `{!TusServerNames} `{!TusServerNamesLaws} `{!AbsoluteUrls}.
Local Abbreviation W := ClientWorld.
Context (join_error : string) (p : Plan) (v : bytes) (before : list (N * N)).
Local Abbreviation count := (pn_part_count p).
Local Abbreviation part_size := (pn_part_size p).
Local Abbreviation cap := (pn_max_concurrency p).
Local Abbreviation c := (pn_client p).
Local Abbreviation joined_t := (list (nat * option PartOutcome)).
Context (Hv : reads_out (pn_source p) v) (Hmax : bytes_len v <= isize_max) (Hsize : 1 <= part_size).
Context (Hcount : count = N.to_nat (div_ceil (bytes_len v) part_size)) (Hcap : (1 <= cap)%nat).
Local Abbreviation left := (part_left v part_size).
Local Abbreviation follow := (follows (counting v part_size count before) own disjoint_labels left cap).
Local Abbreviation concurrently := (shared c v part_size count before).

Lemma part_u64 i : bytes_len (part v part_size i) <= isize_max.
Proof. unfold part, bytes_len in *. rewrite length_take, length_drop. lia. Qed.

(** A part that was read is the part of [v]. *)
Lemma read_part i body :
  bytes_len body = N.min (bytes_len v - N.of_nat i * part_size) part_size ->
  read_from (pn_source p) (N.of_nat i * part_size) body -> body = part v part_size i.
Proof.
  intros Hl Hr. specialize (Hr v Hv). unfold part.
  replace (N.to_nat (N.of_nat i * part_size)) with (i * N.to_nat part_size)%nat in Hr by lia.
  rewrite Hr. destruct (N.min_spec (bytes_len v - N.of_nat i * part_size) part_size) as [[Hlt Hm]|[Hle Hm]];
    rewrite Hm in Hl; unfold bytes_len in *.
  - rewrite !take_ge; [done|rewrite length_drop; lia|rewrite length_drop; lia].
  - f_equal. lia.
Qed.

(** A part is started. *)
Lemma follow_start_part i joined (Q : cresult (ClientError.t + unit) -> Label -> nat -> joined_t -> Prop) :
  (i < count)%nat -> (i - length joined < cap)%nat ->
  (forall e, Q (Ok (inl e)) (Whole v) i joined) -> Q (Ok (inr tt)) (Whole v) (S i) joined ->
  follow (start_part p i) (Whole v) i joined Q.
Proof.
  intros Hi Hfree He Hok. apply follows_bind, follows_alone.
  apply (holds_attempt (ClientLogic := concurrently joined)). unfold read_parallel_part.
  destruct Hv as [Hlen _]. rewrite Hlen.
  assert (N.of_nat i * part_size < bytes_len v) as Hb by (apply part_begins; [done|by rewrite <- Hcount]).
  apply (holds_read_source_exact (logic := concurrently joined)); [intros; lia|intros e s' <-; apply He|].
  intros body l <- Hbl Hread. rewrite (read_part i body Hbl Hread).
  cbn [JoinSet.follows pbind spawn]. split; [done|]. exists (Whole v), (Nothing (part v part_size i)). split_and!; [|apply part_task|].
  - split_and!; [done|by intros x|done].
  - unfold u64_max, isize_max in *. lia.
  - done.
  - apply part_u64.
  - exact Hok.
Qed.

Lemma follow_fill_loop (Q : cresult (nat * option ClientError.t) -> Label -> nat -> joined_t -> Prop) :
  (forall i failure, (i <= count)%nat -> (i <= cap)%nat -> (failure = None -> i = count \/ i = cap) ->
     Q (Ok (i, failure)) (Whole v) i []) ->
  forall fuel i, (count - i <= fuel)%nat -> (i <= count)%nat -> (i <= cap)%nat ->
  follow (fill_loop fuel p i) (Whole v) i [] Q.
Proof.
  intros HQ. induction fuel as [|fuel IH]; intros i Hf Hi Hc; cbn [fill_loop].
  all: destruct (Nat.ltb_spec i count) as [Hlt|Hge]; cbn [negb]; [|apply HQ; [done|done|intros _; lia]].
  { lia. }
  apply follows_bind. unfold set_len. cbn [JoinSet.follows length]. rewrite Nat.sub_0_r. destruct (Nat.ltb_spec i cap) as [Hlc|Hgc]; cbn [negb];
    [|apply HQ; [done|done|intros _; lia]].
  apply follows_bind, follow_start_part; [done|cbn; lia|intros e; cbn [JoinSet.follows]; by apply HQ|]. apply IH; lia.
Qed.

(** What the second loop knows after [n] parts were started and those of [joined] joined. *)
Record under_control (n : nat) (joined : joined_t) (part_urls created_urls : list (option string)) : Prop := {
  uc_parts : length part_urls = count;
  uc_created : length created_urls = count;
  uc_started : (n <= count)%nat;
  uc_nodup : NoDup joined.*1;
  uc_below : Forall (fun i => i < n)%nat joined.*1;
  uc_urls i r : (i, r) ∈ joined -> exists o url, r = Some o /\ po_result o = inr url /\ po_index o = i /\
    part_urls !! i = Some (Some url) /\ exists u, url = weburl_as_str u;
}.

Lemma under_control_length n joined part_urls created_urls :
  under_control n joined part_urls created_urls -> (length joined <= n)%nat.
Proof. intros Hc. rewrite <- (length_fmap fst). apply below_length; [apply Hc|apply Hc]. Qed.

Lemma under_control_join n joined part_urls created_urls i o url :
  under_control n joined part_urls created_urls -> (i < n)%nat -> i ∉ joined.*1 ->
  po_index o = i -> po_result o = inr url -> (exists u, url = weburl_as_str u) ->
  under_control n ((i, Some o) :: joined) (<[i := Some url]> part_urls)
    (match po_created_url o with Some u => <[i := Some u]> created_urls | None => created_urls end) /\
  (length joined < n)%nat.
Proof.
  intros Huc Hi Hni Hidx Hres Hurl. pose proof Huc as [U1 U2 U3 U4 U5 U6].
  assert (under_control n ((i, Some o) :: joined) (<[i := Some url]> part_urls)
    (match po_created_url o with Some u => <[i := Some u]> created_urls | None => created_urls end)) as Hnew.
  { split; cbn; [by rewrite length_insert|by destruct (po_created_url o); rewrite ?length_insert|done|by constructor|by constructor|].
    intros j r [[= -> ->]|Hj]%elem_of_cons.
    - exists o, url. split_and!; [done..| |done]. apply list_lookup_insert_eq. lia.
    - destruct (U6 j r Hj) as (o' & url' & -> & Hr & Hx & Hl & Hu'). exists o', url'. split_and!; [done..| |done].
      rewrite list_lookup_insert_ne; [done|]. intros ->. apply Hni. by apply (list_elem_of_fmap_2 fst) in Hj. }
  split; [done|]. apply under_control_length in Hnew. cbn in Hnew. lia.
Qed.

(** What is left to clean up after a failure. *)
Record failed (n : nat) (joined : joined_t) (created_urls : list (option string)) : Prop := {
  fl_created : length created_urls = count;
  fl_started : (n <= count)%nat;
  fl_nodup : NoDup joined.*1;
  fl_below : Forall (fun i => i < n)%nat joined.*1;
}.

Lemma follow_join_loop (Q : cresult (list (option string) * list (option string) * option ClientError.t) ->
    Label -> nat -> joined_t -> Prop) :
  (forall n joined part_urls created_urls, under_control n joined part_urls created_urls ->
     length joined = n -> n = count -> Q (Ok (part_urls, created_urls, None)) (Whole v) n joined) ->
  (forall e n joined part_urls created_urls, failed n joined created_urls ->
     Q (Ok (part_urls, created_urls, Some e)) (Whole v) n joined) ->
  forall fuel n joined part_urls created_urls,
  under_control n joined part_urls created_urls ->
  (count - length joined <= fuel)%nat -> (n - length joined <= cap)%nat -> (n < count -> length joined < n)%nat ->
  follow (join_loop join_error fuel p part_urls created_urls n) (Whole v) n joined Q.
Proof.
  intros Hdone Hfail. induction fuel as [|fuel IH]; intros n joined part_urls created_urls Huc Hf Hc Hmore;
    pose proof (under_control_length _ _ _ _ Huc) as Hle; pose proof Huc as [U1 U2 U3 U4 U5 U6];
    cbn [join_loop]; apply follows_bind; unfold join_next; cbn [JoinSet.follows]; (split;
    [intros Hn; apply Hdone; [done|done|destruct (decide (n < count)%nat); lia]|]).
  all: intros i [o|] Hi Hni Hleft; cbn [JoinSet.follows];
    [|apply Hfail; split; [done|done|by constructor|by constructor]].
  all: destruct (Hleft o eq_refl) as (l & Hidx & Hres); clear Hleft; apply follows_bind;
    rewrite (record_created_ok o created_urls count) by lia; cbn [JoinSet.follows].
  all: assert (forall e, Q (Ok (part_urls, match po_created_url o with
      Some u => <[po_index o := Some u]> created_urls | None => created_urls end, Some e)) (Whole v) n ((i, Some o) :: joined)) as He.
  1,3: intros e; apply Hfail; split; [by destruct (po_created_url o); rewrite ?length_insert|done|by constructor|by constructor].
  all: destruct (po_result o) as [e|url] eqn:Hpo; [apply He|]; destruct Hres as [_ Hurl].
  all: destruct (under_control_join n joined part_urls created_urls i o url Huc Hi Hni Hidx Hpo Hurl) as [Hnew Hlt].
  all: apply follows_bind; rewrite vec_set_ok by lia; cbn [JoinSet.follows].
  { lia. }
  rewrite Hidx in *. destruct (Nat.ltb_spec n count) as [Hn|Hn].
  - apply follows_bind, follow_start_part; [done|cbn; lia| |].
    + intros e. cbn [JoinSet.follows]. apply Hfail. split; [apply Hnew|done|by constructor|by constructor].
    + apply IH; [|cbn; lia|cbn; lia|cbn; lia]. destruct Hnew as [N1 N2 N3 N4 N5 N6].
      split; [done|done|lia|done| |done]. eapply Forall_impl; [exact N5|]. cbn. lia.
  - apply IH; [done|cbn; lia|cbn; lia|lia].
Qed.

Lemma follow_drain_loop (Q : cresult (list (option string)) -> Label -> nat -> joined_t -> Prop) :
  (forall n joined created_urls, Q (Ok created_urls) (Whole v) n joined) ->
  forall fuel n joined created_urls,
  failed n joined created_urls -> (n - length joined <= fuel)%nat ->
  follow (drain_loop fuel created_urls) (Whole v) n joined Q.
Proof.
  intros HQ. induction fuel as [|fuel IH]; intros n joined created_urls [F1 F2 F3 F4] Hf; cbn [drain_loop];
    apply follows_bind; unfold join_next; cbn [JoinSet.follows]; (split; [intros _; apply HQ|]); intros i r Hi Hni Hleft.
  all: assert (length joined < n)%nat as Hlt.
  1,3: assert (length ((i, r) :: joined).*1 <= n)%nat as Hl by (apply below_length; by constructor);
    cbn in Hl; rewrite length_fmap in Hl; lia.
  { lia. }
  apply follows_bind.
  assert (forall created_urls', length created_urls' = count ->
    follow (drain_loop fuel created_urls') (Whole v) n ((i, r) :: joined) Q) as Hnext.
  { intros created_urls' Hl. apply IH; [|cbn; lia]. split; [done|done|by constructor|by constructor]. }
  destruct r as [o|]; [|by apply Hnext].
  destruct (Hleft o eq_refl) as (l & Hidx & _). rewrite (record_created_ok o created_urls count) by lia.
  apply Hnext. by destruct (po_created_url o); rewrite ?length_insert.
Qed.

Lemma holds_cleanup joined urls (Q : cresult unit -> Label -> Prop) :
  Q (Ok tt) (Whole v) -> (retry_after_overflows -> Q Panic (Whole v)) ->
  holds (ClientLogic := concurrently joined) (cleanup_partial_uploads c urls) Q (Whole v).
Proof.
  intros HQ Hp. induction urls as [|[url|] urls IH]; cbn [cleanup_partial_uploads]; [exact HQ| |exact IH].
  destruct (weburl_parse url) as [e|u]; [exact IH|].
  apply (holds_bind (ClientLogic := concurrently joined)), (holds_attempt (ClientLogic := concurrently joined)).
  apply (holds_terminate_upload_at (logic := concurrently joined)); [by intros s' e <-|].
  intros r [Hm _]. destruct (can_send_plain c v part_size count before joined r (Whole v)) as [Hc Hn]; [by right|].
  split; [done|]. intros answer l' Hx. pose proof Hx as [-> _]. rewrite Hn in *. split_and!; [|done|done].
  intros Hpa. apply Hp. exact (exchanged_panics _ _ _ _ Hx Hpa).
Qed.

(** ** The concatenation *)

Context (Hpos : 0 < bytes_len v).

Lemma collect_urls_all urls : collect_urls (map Some urls) = Ok urls.
Proof using Type. induction urls as [|url urls IH]; cbn; [done|]. by rewrite IH. Qed.

(** All parts are there. *)
Definition parts_at (joined : joined_t) (urls : list string) : Prop :=
  length urls = count /\
  forall i url, urls !! i = Some url -> (exists u, url = weburl_as_str u) /\
    exists o, (i, Some o) ∈ joined /\ po_result o = inr url.

Lemma all_joined joined part_urls created_urls :
  under_control count joined part_urls created_urls -> length joined = count ->
  exists urls, part_urls = map Some urls /\ parts_at joined urls.
Proof.
  intros [U1 U2 U3 U4 U5 U6] Hl.
  assert (forall i, (i < count)%nat -> exists o url, (i, Some o) ∈ joined /\ po_result o = inr url /\
    part_urls !! i = Some (Some url) /\ exists u, url = weburl_as_str u) as Hall.
  { intros i Hi. assert (i ∈ joined.*1) as ([j r] & -> & Hj)%list_elem_of_fmap.
    { apply (below_all _ count); [done|done|by rewrite length_fmap|done]. }
    destruct (U6 j r Hj) as (o & url & -> & Hr & _ & Hp & Hu). by exists o, url. }
  assert (exists urls, part_urls = map Some urls) as [urls ->].
  { assert (Forall (fun x => exists url, x = Some url) part_urls) as Hf.
    { apply Forall_lookup. intros i x Hx. destruct (Hall i) as (o & url & _ & _ & Hp & _).
      - rewrite <- U1. by eapply lookup_lt_Some.
      - exists url. congruence. }
    clear -Hf. induction Hf as [|x xs [url ->] _ [urls ->]]; [by exists []|by exists (url :: urls)]. }
  exists urls. split; [done|]. rewrite length_map in U1. split; [done|]. intros i url Hi.
  destruct (Hall i) as (o & url' & Hj & Hr & Hp & Hu); [rewrite <- U1; by eapply lookup_lt_Some|].
  rewrite list_lookup_fmap, Hi in Hp. injection Hp as <-. eauto.
Qed.

(** What is at the URLs of the parts are the parts. *)
Lemma parts_are_parts joined urls w bs :
  parts_at joined urls -> established own disjoint_labels left (Whole v) joined w ->
  Forall2 (fun u b => object (cw_transport w) u = Some b) urls bs -> concat bs = v.
Proof.
  intros [Hl Hparts] Hest Hbs. rewrite <- (parts_whole v part_size Hsize), <- Hcount. f_equal.
  apply list_eq. intros i. destruct (decide (i < count)%nat) as [Hi|Hi].
  - rewrite list_lookup_fmap, (lookup_seq_lt 0 count i Hi). cbn.
    destruct (lookup_lt_is_Some_2 urls i) as [url Hurl]; [by rewrite Hl|].
    destruct (Forall2_lookup_l _ _ _ _ _ Hbs Hurl) as (b & Hb & Hob). rewrite Hb. f_equal.
    destruct (Hparts i url Hurl) as (_ & o & Hj & Hr).
    destruct (Hest i o Hj) as (l & [_ Hleft] & Ho & _). rewrite Hr in Hleft. destruct Hleft as [-> _].
    destruct Ho as [_ Ho]. rewrite Hob in Ho. destruct Ho as [Hpre Hlen]. by apply prefix_full.
  - rewrite !lookup_ge_None_2; [done|rewrite length_map, length_seq; lia|].
    apply Forall2_length in Hbs. lia.
Qed.

Lemma parts_nonempty : N.to_nat (div_ceil (bytes_len v) part_size) <> 0%nat.
Proof.
  unfold div_ceil. pose proof (N.div_mod (bytes_len v) part_size ltac:(lia)) as Hd. revert Hd.
  generalize (bytes_len v / part_size) (bytes_len v mod part_size). intros q r Hd.
  destruct (N.eqb_spec r 0) as [Hz|Hz]; [|lia]. intros Hq. assert (q = 0) as -> by lia. lia.
Qed.

Lemma can_send_concat joined urls r :
  parts_at joined urls -> sent_to Method.POST (cl_endpoint c) r -> concatenates urls r ->
  can_send (ClientLogic := concurrently joined) r (Whole v).
Proof.
  intros Hparts [Hm Hu] Hcat answer w w' Hi Ho Hest Hx. unfold next_label. rewrite Hm.
  assert (owned_step (counting v part_size count before) own disjoint_labels (Whole v) w (Whole v) w') as Hnothing.
  { eapply (exchange_step c v part_size count before); [exact Hx|done|exact Ho|done|by rewrite Hm|done]. }
  destruct answer as [e|response]; [done|].
  destruct (location_of c response) as [url|] eqn:Hl; [|done].
  apply location_of_some in Hl as (Hst & location & Hloc & Hurl). pose proof Hx as (Hs & _).
  assert (Forall (fun url => (exists u, url = weburl_as_str u) /\ http_url url = true) urls) as Htexts.
  { apply Forall_lookup. intros i url' Hi'. destruct (proj2 Hparts i url' Hi') as (Htext & o & Hj & Hr).
    split; [done|]. destruct (Hest i o Hj) as (l & [_ Hleft] & Hol & _). rewrite Hr in Hleft.
    destruct Hleft as [-> _]. apply Hol. }
  assert (urls <> []) as Hne.
  { intros ->. apply parts_nonempty. rewrite <- Hcount. by symmetry; apply Hparts. }
  destruct (server_concat _ _ _ _ _ _ _ _ Hs Hm Hu Hcat Hne (http_no_space _ Htexts) Hst Hloc Hurl)
    as (bs & Hbs & Hob).
  pose proof (used_fresh _ _ _ _ _ _ _ Hs Hm Hu Hst Hloc Hurl) as Hfresh.
  pose proof (used_http _ _ _ _ _ _ _ Hs Hm Hu Hst Hloc Hurl) as Hhttp.
  rewrite (parts_are_parts joined urls w bs) in Hob by done.
  eapply (exchange_step c v part_size count before); [exact Hx|done|exact Ho| |by rewrite Hm|].
  - split; [split; [by eapply used_object|done]|]. by rewrite Hob.
  - intros uri x' k' [= <- _ _]. by right.
Qed.

(** What is left of an upload that ended with [r]. *)
Definition ended (r : cresult UploadInfo) (l : Label) : Prop :=
  match r with
  | Ok info => l = Claim (weburl_as_str (ui_url info)) v (Some (bytes_len v)) /\ ui_offset info = bytes_len v
  | Err _ => True
  | Panic => retry_after_overflows
  end.

(** The final upload is looked up. *)
Lemma holds_final_info joined url :
  holds (ClientLogic := concurrently joined) (upload_info_at c url) ended
    (Claim (weburl_as_str url) v (Some (bytes_len v))).
Proof.
  apply (holds_upload_info_at (logic := concurrently joined)); [by intros s' e <-|].
  intros r Hto. split; [by apply can_send_head|]. intros answer l' Hx.
  split_and!; [intros Hp; exact (exchanged_panics _ _ _ _ Hx Hp)|done|].
  intros response info -> Hst Hn Hurl. destruct Hx as (-> & w & w' & [_ Ho] & (Hs & _) & _).
  destruct Hto as [Hm Hu]. destruct (server_head _ _ _ _ _ Hs Hm Hst Hn) as (b & Hb & _ & Hbn).
  rewrite <- Hu, Hb in Ho. destruct Ho as [_ Hlen].
  assert (ui_offset info = bytes_len v) as Hoff by congruence. split; [|done].
  unfold next_label. rewrite Hm, Hu, String.eqb_refl, Hn, Hurl, Hoff. cbn [andb].
  by destruct Hst as [-> | ->].
Qed.

Lemma holds_concatenation joined urls metadata :
  parts_at joined urls ->
  holds (ClientLogic := concurrently joined) (concatenate_uploads c urls metadata) ended (Whole v).
Proof.
  intros Hparts. apply (holds_concatenate_uploads (logic := concurrently joined)); [|done|].
  { apply Forall_lookup. intros i url Hi. by apply (proj2 Hparts i). }
  intros r Hto Hcat. split; [by eapply can_send_concat|]. intros answer l' Hx.
  split; [intros Hp; exact (exchanged_panics _ _ _ _ Hx Hp)|].
  intros response url -> Hl. destruct Hx as [-> _]. destruct Hto as [Hm _].
  unfold next_label. rewrite Hm, Hl. apply holds_final_info.
Qed.

Lemma follow_finish_parts metadata :
  follow (finish_parts join_error p metadata) (Whole v) 0 [] (fun r l _ _ => ended r l).
Proof.
  unfold finish_parts, upload_parts. apply follows_bind, follows_bind, follow_fill_loop; [|lia|lia|lia].
  assert (forall e n joined created_urls, failed n joined created_urls ->
    follow (let! _ := abort_all in
            let! created_urls := drain_loop count created_urls in
            let! _ := alone (cleanup_partial_uploads c created_urls) in PDone (Err e))%par
      (Whole v) n joined (fun r l _ _ => ended r l)) as Hfail.
  { intros e n joined created_urls Hf. pose proof Hf as [_ F2 _ _]. apply follows_bind. cbn [abort_all JoinSet.follows].
    apply follows_bind. apply follow_drain_loop; [|done|lia].
    intros n' joined' created'. apply follows_bind, follows_alone. by apply holds_cleanup. }
  assert (length (no_urls count) = count) as Hlen by apply repeat_length.
  assert (forall i, (i <= count)%nat -> failed i [] (no_urls count)) as Hnone.
  { intros i Hi. split; [done|done|constructor|constructor]. }
  intros i failure Hi Hic Hfull. destruct failure as [e|]; [by apply Hfail, Hnone|].
  apply follow_join_loop.
  - intros n joined part_urls created_urls Huc Hn ->.
    destruct (all_joined _ _ _ Huc Hn) as (urls & -> & Hparts).
    apply follows_bind. rewrite collect_urls_all. cbn [JoinSet.follows].
    apply follows_alone. by apply holds_concatenation.
  - intros e n joined part_urls created_urls Hf. by apply Hfail.
  - split; [done|done|done|constructor|constructor|]. intros j r Hj. by apply not_elem_of_nil in Hj.
  - cbn. lia.
  - cbn. lia.
  - cbn. destruct (Hfull eq_refl); lia.
Qed.
End coordinator.

(** ** Parallel uploads *)

Section theorems.
Context `{UrlLaws} `{HttpClientLib} `{!HttpLaws} `{!Transport} `{ClientSystem, Base64, Digests, HashOrder}.
Context `{!TusServer} `{!TusServerLaws} `{!TusServerNames} `{!TusServerNamesLaws} `{!AbsoluteUrls}.
Local Abbreviation W := ClientWorld.
Context (join_error : string) (c : Client) (source : UploadSource) (v : bytes) (metadata : UploadMetadata).
Context (options : ParallelUpload).

Local Abbreviation pool := (Pool ClientError.t W PartOutcome UploadInfo).

(** The upload before its first step. *)
Definition parallel_pool (w : W) : pool :=
  mkPool (upload_parallel join_error c source metadata options) [] false w.

Local Abbreviation count := (N.to_nat (div_ceil (bytes_len v) (pu_part_size options))).
Local Abbreviation cap := (Nat.max (Nat.min (N.to_nat (pu_max_concurrency options)) count) 1).

Context (Hv : reads_out source v) (Hpos : 0 < bytes_len v) (Hmax : bytes_len v <= isize_max).
Context (Hwf : ParallelUpload_wf options).

(** After the first step the pool follows the logic. *)
Lemma follow_upload_parallel w :
  exists m, upload_parallel join_error c source metadata options =
      PAct (fun w => (tt, set_parallel (mkParallelState 0 0 (repeat (mkPartCell 0 None) count)) w)) (fun _ => m) /\
    follows (counting v (pu_part_size options) count (cw_progress w)) own disjoint_labels
      (part_left v (pu_part_size options)) cap m (Whole v) 0 [] (fun r l _ _ => ended v r l).
Proof.
  destruct Hwf as [Hsize _]. pose proof Hv as [Hlen _]. eexists. split.
  { unfold upload_parallel. rewrite Hlen. cbn [alone fresh_parallel act pbind]. reflexivity. }
  rewrite (proj2 (N.eqb_neq (bytes_len v) 0)) by lia.
  assert (forall capabilities, follows (counting v (pu_part_size options) count (cw_progress w)) own disjoint_labels
    (part_left v (pu_part_size options)) cap
    (if negb (sc_has_extension capabilities "concatenation")
     then PDone (Err (ClientError.UnsupportedExtension "concatenation"))
     else finish_parts join_error (upload_plan c source options capabilities) metadata)
    (Whole v) 0 [] (fun r l _ _ => ended v r l)) as Hfinish.
  { intros capabilities. destruct (negb _); [done|].
    pose proof (follow_finish_parts join_error (upload_plan c source options capabilities) v (cw_progress w)) as Hf.
    assert (pn_part_count (upload_plan c source options capabilities) = count) as Hc by (cbn; by rewrite Hlen).
    assert (pn_max_concurrency (upload_plan c source options capabilities) = cap) as Hm by (cbn; by rewrite Hlen).
    rewrite Hc, Hm in Hf. apply Hf; [done|done|done|done|lia|done]. }
  apply follows_bind, follows_alone.
  apply (holds_server_capabilities (logic := shared c v (pu_part_size options) count (cw_progress w) [])).
  - intros r l <- Hr. by destruct r as [capabilities|e|].
  - intros rq [Hm _].
    destruct (can_send_plain c v (pu_part_size options) count (cw_progress w) [] rq (Whole v)) as [Hc Hn]; [by left|].
    split; [exact Hc|]. intros answer l' Hx. pose proof Hx as [-> _]. rewrite Hn.
    split; [intros Hp; exact (exchanged_panics _ _ _ _ Hx Hp)|].
    intros r l'' <- Hr. by destruct r as [capabilities|e|].
Qed.

Lemma counting_fresh w :
  counting v (pu_part_size options) count (cw_progress w)
    (set_parallel (mkParallelState 0 0 (repeat (mkPartCell 0 None) count)) w).
Proof.
  split; cbn.
  - apply repeat_length.
  - intros i cell Hi. apply list_elem_of_lookup_2, list_elem_of_In, repeat_spec in Hi as ->. cbn. lia.
  - by rewrite sum_last_fresh.
  - lia.
  - exists []. rewrite app_nil_r. repeat constructor.
Qed.

(** Every pool that is reached, but for the first. *)
Lemma reached_follows w p :
  rtc par_step (parallel_pool w) p ->
  p = parallel_pool w \/
  exists l ls joined, pool_follows (counting v (pu_part_size options) count (cw_progress w)) own disjoint_labels
    (part_left v (pu_part_size options)) cap (fun r l _ _ => ended v r l) p l ls joined.
Proof.
  intros Hr. destruct (follow_upload_parallel w) as (m & Hm & Hf).
  inversion Hr as [|? p1 ? Hs Hrest]; subst; [by left|right]. unfold parallel_pool in Hs. rewrite Hm in Hs.
  assert (p1 = mkPool m [] false (set_parallel (mkParallelState 0 0 (repeat (mkPartCell 0 None) count)) w)) as ->.
  { inversion Hs as [? ? ? ? ? ? Ha| | | | | | |? ? ? ? ? ? ? ? Hi]; subst; [|done]. cbn in Ha. by injection Ha as <- <-. }
  eapply pool_follows_steps; [exact disjoint_labels_sym|exact Hrest|].
  exists (Whole v), [], []. apply pool_follows_start; [apply counting_fresh|done|exact Hf].
Qed.
End theorems.

Section claims.
Context `{UrlLaws} `{HttpClientLib} `{!HttpLaws} `{!Transport} `{ClientSystem, Base64, Digests, HashOrder}.
Context `{!TusServer} `{!TusServerLaws} `{!TusServerNames} `{!TusServerNamesLaws} `{!AbsoluteUrls}.
Local Abbreviation W := ClientWorld.

(** C4: against a server that keeps the protocol ([TusServerLaws], [TusServerNamesLaws]), with
    URLs as the url crate has them ([AbsoluteUrls]): when a parallel upload is done and successful, the upload it reports is as long as
    the source, and the server has exactly the bytes of the source there, unless it has
    removed the upload since; whatever the order in which the parts and the requests
    were served, and however often they failed and were resumed. *)
Theorem parallel_delivers join_error c source v metadata options w p :
  reads_out source v -> 0 < bytes_len v -> bytes_len v <= isize_max -> ParallelUpload_wf options ->
  rtc par_step (parallel_pool join_error c source metadata options w) p ->
  forall info, pl_main p = PDone (Ok info) ->
  ui_offset info = bytes_len v /\
  match object (cw_transport (pl_world p)) (weburl_as_str (ui_url info)) with
  | Some b => b = v
  | None => True
  end.
Proof.
  intros Hv Hpos Hmax Hwf Hr info Hd.
  destruct (reached_follows join_error c source v metadata options Hv Hpos Hmax Hwf w p Hr)
    as [->|(l & ls & joined & Hp)].
  { unfold parallel_pool, upload_parallel in Hd. done. }
  pose proof (pf_follows _ _ _ _ _ _ _ _ _ _ Hp) as Hf. rewrite Hd in Hf. destruct Hf as [-> Hoff]. split; [done|].
  destruct (pf_main _ _ _ _ _ _ _ _ _ _ Hp) as [_ Ho]. destruct (object _ _) as [b|]; [|done].
  destruct Ho. by apply prefix_full.
Qed.

(** C22: against such a server, while a parallel upload runs, no more parts are under way than allowed, and what
    its reporter sees ascends strictly, up to the length of the source. *)
Theorem parallel_bounded join_error c source v metadata options w p :
  reads_out source v -> 0 < bytes_len v -> bytes_len v <= isize_max -> ParallelUpload_wf options ->
  rtc par_step (parallel_pool join_error c source metadata options w) p ->
  N.of_nat (live_tasks (pl_tasks p)) <= pu_max_concurrency options /\
  exists l, cw_progress (pl_world p) = (cw_progress w ++ l)%list /\ StronglySorted N.lt l.*1 /\
    Forall (fun r => r.1 <= bytes_len v /\ r.2 = bytes_len v) l.
Proof.
  intros Hv Hpos Hmax Hwf Hr.
  destruct (reached_follows join_error c source v metadata options Hv Hpos Hmax Hwf w p Hr)
    as [->|(l & ls & joined & Hp)].
  - split; [unfold live_tasks; cbn; lia|]. exists []. rewrite app_nil_r. repeat constructor.
  - split; [pose proof (pf_cap _ _ _ _ _ _ _ _ _ _ Hp); destruct Hwf; lia|].
    destruct (pf_inv _ _ _ _ _ _ _ _ _ _ Hp) as [_ _ _ Hrep (rs & Hrs & Hs & Hall)].
    exists rs. split_and!; [done|done|]. eapply Forall_impl; [exact Hall|]. cbn. intros r []. split; [lia|done].
Qed.

(** against a server that keeps the protocol, the pool of a parallel upload ends under
    every schedule: a run that cannot go on has returned, and the loops of the uploading
    task have as many rounds as they need.  (That no run goes on for ever holds of every
    pool of these program trees; a part that runs out of its own rounds counts as a task
    that panicked.) *)
Theorem parallel_ends join_error c source v metadata options w p :
  reads_out source v -> 0 < bytes_len v -> bytes_len v <= isize_max -> ParallelUpload_wf options ->
  rtc par_step (parallel_pool join_error c source metadata options w) p ->
  Acc next_pool p /\
  ((forall p', ~ par_step p p') -> exists r, pl_main p = PDone r /\ (r = Panic -> retry_after_overflows)).
Proof.
  intros Hv Hpos Hmax Hwf Hr. split; [apply par_terminates|]. intros Hstuck.
  destruct (par_progress p) as [[r Hd]|[p' Hs]]; [|by apply Hstuck in Hs]. exists r. split; [done|]. intros ->.
  destruct (reached_follows join_error c source v metadata options Hv Hpos Hmax Hwf w p Hr)
    as [->|(l & ls & joined & Hp)].
  { unfold parallel_pool, upload_parallel in Hd. done. }
  pose proof (pf_follows _ _ _ _ _ _ _ _ _ _ Hp) as Hf. by rewrite Hd in Hf.
Qed.
End claims.
