(* ===== verification/RemoteServer.v ===== *)
(** * A server for the upload client, concretely

    URLs as texts, a network that loses requests and answers, and a server behind it
    that keeps the protocol as the client sees it: uploads, creations whose names are
    never given twice, and final uploads that are concatenations. *)

From S2P Require Import Prelude Text Interleaving JoinSet Errors Crates Config State Headers Concrete.
From S2P Require Import ClientError ClientHelpers Client ClientUpload ClientParallel ClientFacts ClientLoops ClientCreation.
From S2P Require Import ClientSpec ClientParallelFacts.
Local Open Scope string_scope.
Local Open Scope N_scope.
Local Open Scope prog_scope.

(** ** Instances *)

Definition origin_of (u : string) : string :=
  match str_strip_prefix "http://" u with
  | Some rest => take_until (fun c => Ascii.eqb c "/") rest
  | None => u
  end.

Definition is_url (s : string) : bool := starts_with "http://" s && no_space s.

Definition Url : Type := { s : string | is_url s = true }.

Definition url_of (s : string) : option Url :=
  match Bool.bool_dec (is_url s) true with
  | left H => Some (exist _ s H)
  | right _ => None
  end.

#[export] Instance concrete_urls : UrlLib := {|
  WebUrl := Url;
  weburl_parse s := match url_of s with Some u => inr u | None => inl "relative URL without a base" end;
  weburl_as_str u := `u;
  weburl_path u := `u;
  weburl_set_path p u := default u (url_of p);
  weburl_join base reference :=
    match url_of reference with
    | Some u => inr u
    | None => match url_of (`base ++ reference) with Some u => inr u | None => inl "invalid URL" end
    end;
  same_origin a b := String.eqb (origin_of (`a)) (origin_of (`b));
  origin_serialization u := "http://" ++ origin_of (`u);
  uri_parse _ := inr tt;
|}.

Lemma url_of_text (u : Url) : url_of (`u) = Some u.
Proof.
  destruct u as [s H]. unfold url_of. cbn. destruct (Bool.bool_dec _ _) as [H'|]; [|done].
  do 2 f_equal. apply Eqdep_dec.UIP_dec, Bool.bool_dec.
Qed.

Lemma url_of_some s u : url_of s = Some u -> `u = s.
Proof. unfold url_of. destruct (Bool.bool_dec _ _); [|done]. by intros [= <-]. Qed.

Lemma url_of_is_url s : is_url s = true -> exists u, url_of s = Some u /\ `u = s.
Proof. intros H. exists (exist _ s H). split; [|done]. apply (url_of_text (exist _ s H)). Qed.

#[export] Instance concrete_url_laws : UrlLaws.
Proof. split. intros u. cbn. by rewrite url_of_text. Qed.

#[export] Instance concrete_absolute_urls : AbsoluteUrls.
Proof.
  split; cbn.
  - intros base u. by rewrite url_of_text.
  - intros [s H] _. cbn. by apply andb_prop in H as [_ H].
Qed.

Lemma strip_prefix_app p s t rest :
  str_strip_prefix p s = Some rest -> str_strip_prefix p (s ++ t) = Some (rest ++ t).
Proof.
  revert s. induction p as [|a p IH]; intros [|b s]; cbn; [by intros [= <-]..|done|].
  destruct (Ascii.eqb a b); [apply IH|done].
Qed.

Lemma is_url_slash (u : Url) : is_url (`u ++ "/") = true.
Proof.
  destruct u as [s H]. cbn. unfold is_url, starts_with, no_space in *. apply andb_prop in H as [H1 H2].
  destruct (str_strip_prefix "http://" s) as [rest|] eqn:Hs; [|done].
  rewrite (strip_prefix_app _ _ _ _ Hs). cbn [andb]. clear H1 Hs.
  induction s as [|c s IH]; [done|]. cbn in *. apply andb_prop in H2 as [-> H2]. by apply IH.
Qed.

#[export] Instance concrete_http_client : HttpClientLib := {|
  header_iter h := map_to_list h;
  header_append n v h := <[n := v]> h;
  header_remove n h := delete n h;
  header_lossy v := v;
  bytes_lossy b := string_of_list_byte b;
|}.

(** The greatest number is drawn, in the year 1970. *)
#[export] Instance concrete_system : ClientSystem := {|
  unix_now := Some 1000;
  random_upto _ max := max;
|}.

#[export] Instance concrete_system_laws : ClientSystemLaws.
Proof. split. intros n max. done. Qed.

(** ** A server *)

(** What happens to a message: it gets through; it is lost; it arrives, perhaps cut
    short, and the answer is lost. *)
Inductive Fate := Through | Lost | Cut (n : nat).

(** [rm_used]: the URLs of uploads that were removed. *)
Record Remote := mkRemote {
  rm_objects : gmap string (N * bytes);
  rm_used : gset string;
  rm_created : nat;
  rm_fates : list Fate;
}.

Definition response (status : N) (headers : list (string * string)) : ClientResponse :=
  {| cr_status := status; cr_headers := (list_to_map headers : gmap string string); cr_body := [] |}.

Definition MAX_OBJECT : N := 1000.

Definition offset_headers (b : bytes) (length : N) : list (string * string) :=
  [("upload-offset", u64_to_string (bytes_len b)); ("upload-length", u64_to_string length)].

Definition created_url (endpoint : string) (n : nat) : string :=
  (if ends_with_char "/" endpoint then endpoint else endpoint ++ "/") ++ "u" ++ u64_to_string (N.of_nat n).

(** The bytes of the uploads at [urls], if all are there. *)
Fixpoint objects_at (t : Remote) (urls : list string) : option (list bytes) :=
  match urls with
  | [] => Some []
  | u :: urls =>
      match rm_objects t !! u, objects_at t urls with
      | Some (_, b), Some bs => Some (b :: bs)
      | _, _ => None
      end
  end.

(** The length and the bytes of an upload that is created: a final upload has its parts'. *)
Definition creation (r : TransportRequest) (body : bytes) (t : Remote) : option (N * bytes) :=
  match get_str (tr_headers r) "upload-concat" ≫= str_strip_prefix "final;", stated_length (tr_headers r) with
  | Some parts, None =>
      match objects_at t (split_char " " parts) with
      | Some bs => Some (bytes_len (concat bs), concat bs)
      | None => None
      end
  | None, Some length => Some (length, body)
  | _, _ => None
  end.

(** The server's side of a request with the body [body]. *)
Definition process (r : TransportRequest) (body : bytes) (t : Remote) : ClientResponse * Remote :=
  match tr_method r with
  | Method.OPTIONS =>
      (response 204 [("tus-version", "1.0.0"); ("tus-extension", "creation,creation-with-upload,concatenation")], t)
  | Method.HEAD =>
      match rm_objects t !! tr_uri r with
      | Some (length, b) =>
          if MAX_OBJECT <? bytes_len b then (response 500 [], t)
          else (response 200 (offset_headers b length), t)
      | None => (response 404 [], t)
      end
  | Method.PATCH =>
      match rm_objects t !! tr_uri r, stated_offset (tr_headers r) with
      | Some (length, b), Some offset =>
          if negb (offset =? bytes_len b) then (response 409 [], t)
          else if MAX_OBJECT <? bytes_len (b ++ body) then (response 413 [], t)
          else (response 204 (offset_headers (b ++ body) length),
                mkRemote (<[tr_uri r := (length, (b ++ body)%list)]> (rm_objects t)) (rm_used t)
                  (rm_created t) (rm_fates t))
      | _, _ => (response 404 [], t)
      end
  | Method.POST =>
      let url := created_url (tr_uri r) (rm_created t) in
      match creation r body t, rm_objects t !! url with
      | Some (length, b), None =>
          if bool_decide (url ∈ rm_used t) then (response 500 [], t)
          else if MAX_OBJECT <? bytes_len b then (response 413 [], t)
          else (response 201 (("location", "u" ++ u64_to_string (N.of_nat (rm_created t)))
                                :: offset_headers b length),
                mkRemote (<[url := (length, b)]> (rm_objects t)) (rm_used t) (S (rm_created t)) (rm_fates t))
      | _, _ => (response 400 [], t)
      end
  | Method.DELETE =>
      (response 204 [], mkRemote (delete (tr_uri r) (rm_objects t)) ({[tr_uri r]} ∪ rm_used t)
         (rm_created t) (rm_fates t))
  end.

Definition lost : ClientError.t := ClientError.transport "connection reset".

#[export] Instance remote_transport : Transport := {|
  TransportState := Remote;
  transport_send r t :=
    let t' := mkRemote (rm_objects t) (rm_used t) (rm_created t) (tail (rm_fates t)) in
    match rm_fates t with
    | Lost :: _ => (inl lost, t')
    | Cut n :: _ => (inl lost, (process r (take n (TransportBody.bytes_of (tr_body r))) t').2)
    | _ => let '(answer, t'') := process r (TransportBody.bytes_of (tr_body r)) t' in (inr answer, t'')
    end;
|}.

#[export] Instance remote_server : TusServer :=
  {| object t uri := snd <$> rm_objects t !! uri |}.

#[export] Instance remote_names : TusServerNames :=
  {| used t uri := uri ∈ rm_used t \/ is_Some (rm_objects t !! uri) |}.

(** A creation adds one upload, with a new name. *)
Inductive process_post (r : TransportRequest) (body : bytes) (t : Remote) : ClientResponse * Remote -> Prop :=
| post_refused status : status <> 201 -> process_post r body t (response status [], t)
| post_created length b :
    creation r body t = Some (length, b) -> ~ used t (created_url (tr_uri r) (rm_created t)) ->
    bytes_len b <= MAX_OBJECT ->
    process_post r body t
      (response 201 (("location", "u" ++ u64_to_string (N.of_nat (rm_created t))) :: offset_headers b length),
       mkRemote (<[created_url (tr_uri r) (rm_created t) := (length, b)]> (rm_objects t)) (rm_used t)
         (S (rm_created t)) (rm_fates t)).

Lemma process_posts r body t : tr_method r = Method.POST -> process_post r body t (process r body t).
Proof.
  intros Hm. unfold process. rewrite Hm. cbv zeta.
  destruct (creation r body t) as [[length b]|] eqn:Hc; [|by apply post_refused].
  destruct (rm_objects t !! _) eqn:Ho; [by apply post_refused|].
  case_bool_decide as Hu; [by apply post_refused|].
  destruct (N.ltb_spec MAX_OBJECT (bytes_len b)); [by apply post_refused|].
  apply post_created; [done| |done]. intros [Hu'|[x Hx]]; [done|congruence].
Qed.

Lemma process_keeps r body t uri b :
  object t uri = Some b ->
  let t' := (process r body t).2 in
  object t' uri = None \/ object t' uri = Some b \/
  (sent_to_uri Method.PATCH uri r /\ stated_offset (tr_headers r) = Some (bytes_len b) /\
   object t' uri = Some (b ++ body)%list).
Proof.
  cbn [object remote_server]. intros Hb. destruct (rm_objects t !! uri) as [[len b0]|] eqn:Ho; [|done].
  cbn in Hb. injection Hb as <-. destruct (tr_method r) eqn:Hm; [..|].
  2: { right. left. destruct (process_posts r body t Hm) as [status _|length b Hc Hu Hmax]; cbn; [by rewrite Ho|].
       rewrite lookup_insert_ne, Ho; [done|]. intros Heq. apply Hu. right. rewrite Heq, Ho. by eexists. }
  all: unfold process; rewrite Hm; cbv zeta.
  - right. left. cbn. by rewrite Ho.
  - right. left. destruct (rm_objects t !! tr_uri r) as [[l b]|]; [destruct (_ <? _)|]; cbn; by rewrite Ho.
  - destruct (rm_objects t !! tr_uri r) as [[l b]|] eqn:Hr; [|right; left; cbn; by rewrite Ho].
    destruct (stated_offset _) as [n|] eqn:Hst; [|right; left; cbn; by rewrite Ho].
    destruct (N.eqb_spec n (bytes_len b)) as [->|]; cbn [negb]; [|right; left; cbn; by rewrite Ho].
    destruct (_ <? _); [right; left; cbn; by rewrite Ho|].
    destruct (decide (tr_uri r = uri)) as [<-|Hne]; cbn.
    + right. right. rewrite Ho in Hr. injection Hr as -> ->. rewrite lookup_insert_eq.
      split_and!; [by split|done|done].
    + right. left. rewrite lookup_insert_ne, Ho by done. done.
  - destruct (decide (tr_uri r = uri)) as [<-|Hne]; cbn.
    + left. by rewrite lookup_delete_eq.
    + right. left. by rewrite lookup_delete_ne, Ho.
Qed.

(** An upload that is not there can only be created, under a new name. *)
Lemma process_gone r body t uri :
  (tr_method r = Method.POST -> used t uri) -> object t uri = None -> object (process r body t).2 uri = None.
Proof.
  cbn [object remote_server]. intros Hp Hn. apply fmap_None in Hn. destruct (tr_method r) eqn:Hm.
  2: { specialize (Hp eq_refl). destruct (process_posts r body t Hm) as [status _|length b Hc Hu Hmax]; cbn;
         [by rewrite Hn|]. rewrite lookup_insert_ne, Hn; [done|]. intros Heq. apply Hu. by rewrite Heq. }
  all: clear Hp; unfold process; rewrite Hm; cbv zeta.
  - cbn. by rewrite Hn.
  - destruct (rm_objects t !! tr_uri r) as [[l b]|]; [destruct (_ <? _)|]; cbn; by rewrite Hn.
  - destruct (rm_objects t !! tr_uri r) as [[l b]|] eqn:Hr; [|cbn; by rewrite Hn].
    destruct (stated_offset _); [|cbn; by rewrite Hn]. destruct (negb _); [cbn; by rewrite Hn|].
    destruct (_ <? _); cbn; [by rewrite Hn|]. rewrite lookup_insert_ne, Hn; [done|].
    intros <-. congruence.
  - cbn. destruct (decide (tr_uri r = uri)) as [<-|]; [by rewrite lookup_delete_eq|].
    by rewrite lookup_delete_ne, Hn.
Qed.

Lemma process_used r body t uri : used t uri -> used (process r body t).2 uri.
Proof.
  cbn [used remote_names]. intros Hu. destruct (tr_method r) eqn:Hm.
  2: { destruct (process_posts r body t Hm); cbn; [done|]. destruct Hu as [Hu|[x Hx]]; [by left|right].
       rewrite lookup_insert_is_Some'. right. by eexists. }
  all: unfold process; rewrite Hm; cbv zeta.
  - done.
  - destruct (rm_objects t !! tr_uri r) as [[l b]|]; [destruct (_ <? _)|]; done.
  - destruct (rm_objects t !! tr_uri r) as [[l b]|] eqn:Hr; [|done].
    destruct (stated_offset _); [|done]. destruct (negb _); [done|]. destruct (_ <? _); [done|]. cbn.
    destruct Hu as [Hu|Hu]; [by left|right]. rewrite lookup_insert_is_Some'. by right.
  - cbn. destruct (decide (tr_uri r = uri)) as [<-|]; [left; set_solver|].
    rewrite lookup_delete_ne by done. destruct Hu; [left; set_solver|by right].
Qed.

(** An exchange: the answer is lost or not, and what arrived, if anything, was processed. *)
Lemma send_processed r t answer t' :
  transport_send r t = (answer, t') ->
  let t0 := mkRemote (rm_objects t) (rm_used t) (rm_created t) (tail (rm_fates t)) in
  (answer = inl lost /\ t' = t0) \/
  exists n, let body := take n (TransportBody.bytes_of (tr_body r)) in
    t' = (process r body t0).2 /\
    (answer = inl lost \/
     (answer = inr (process r body t0).1 /\ body = TransportBody.bytes_of (tr_body r))).
Proof.
  cbn [transport_send remote_transport]. cbv zeta. set (t0 := mkRemote _ _ _ (tail _)).
  set (b := TransportBody.bytes_of (tr_body r)). intros Hs.
  assert ((let '(a, t2) := process r b t0 in (inr a, t2)) = (answer, t') ->
    exists n, t' = (process r (take n b) t0).2 /\
      (answer = inl lost \/ (answer = inr (process r (take n b) t0).1 /\ take n b = b))) as Hp.
  { destruct (process r b t0) as [a t2] eqn:He. intros [= <- <-]. exists (length b). rewrite firstn_all, He. auto. }
  destruct (rm_fates t) as [|[| |n] fates].
  - right. by apply Hp.
  - right. by apply Hp.
  - left. by injection Hs as <- <-.
  - right. exists n. injection Hs as <- <-. auto.
Qed.

(** An answer comes from the whole request. *)
Lemma send_answered r t response t' :
  transport_send r t = (inr response, t') ->
  exists t0, rm_objects t0 = rm_objects t /\ rm_used t0 = rm_used t /\ rm_created t0 = rm_created t /\
    process r (TransportBody.bytes_of (tr_body r)) t0 = (response, t').
Proof.
  intros [[Ha _]|(n & -> & [Ha|[Ha Hn]])]%send_processed; [done..|].
  exists (mkRemote (rm_objects t) (rm_used t) (rm_created t) (tail (rm_fates t))). split_and!; [done..|].
  rewrite Hn in *. destruct (process _ _ _) as [a t2]. cbn in *. by injection Ha as <-.
Qed.

Lemma Ok_inj {E A} (a b : A) : (Ok a : outcome E A) = Ok b -> a = b.
Proof. by intros [= ->]. Qed.

Lemma Err_Ok {E A} (e : E) (a : A) : Err e = Ok a -> False.
Proof. done. Qed.

Lemma stated_by b length rest n :
  bytes_len b <= MAX_OBJECT ->
  stated_offset (list_to_map (offset_headers b length ++ rest) : gmap string string) = Some n ->
  n = bytes_len b.
Proof.
  intros Hb. unfold stated_offset, header_u64, optional_header_u64, offset_headers, MAX_OBJECT in *.
  cbn [app header_get concrete_http]. rewrite list_to_map_cons, lookup_insert_eq. cbn [header_to_str concrete_http].
  rewrite parse_u64_to_string by (unfold u64_max; lia). cbn. by intros [= <-].
Qed.

(** What follows from the answer to a creation. *)
Lemma send_created endpoint r t rs t' location url :
  transport_send r t = (inr rs, t') -> tr_method r = Method.POST -> tr_uri r = weburl_as_str endpoint ->
  cr_status rs = 201 ->
  header_string (cr_headers rs) "location" "Location" = Ok location ->
  resolve_upload_location endpoint location = Ok url ->
  exists length b t0, rm_objects t0 = rm_objects t /\
    creation r (TransportBody.bytes_of (tr_body r)) t0 = Some (length, b) /\
    bytes_len b <= MAX_OBJECT /\ ~ used t (weburl_as_str url) /\ object t' (weburl_as_str url) = Some b /\
    cr_headers rs =
      (list_to_map (("location", location) :: offset_headers b length) : gmap string string).
Proof.
  intros (t0 & Ho & Hus & Hc & Hp)%send_answered Hm Hu Hst Hloc Hurl.
  pose proof (process_posts r (TransportBody.bytes_of (tr_body r)) t0 Hm) as Hpp. rewrite Hp in Hpp.
  inversion Hpp as [status Hne|length b Hcr Hnu Hmax]; subst; [done|].
  exists length, b, t0. rewrite Hu, Hc in Hnu. cbn [cr_headers response] in *.
  unfold header_string in Hloc. cbn [header_get concrete_http] in Hloc.
  rewrite list_to_map_cons, lookup_insert_eq in Hloc.
  cbn [header_to_str concrete_http] in Hloc. apply Ok_inj in Hloc. subst location.
  assert (weburl_as_str url = created_url (weburl_as_str endpoint) (rm_created t)) as Hurl'.
  { unfold created_url. rewrite Hc in Hurl. revert Hurl. generalize (u64_to_string (N.of_nat (rm_created t))). intros digits.
    unfold resolve_upload_location, resolve_upload_url.
    cbn [weburl_join weburl_path weburl_set_path weburl_as_str concrete_urls].
    destruct (url_of_is_url _ (is_url_slash endpoint)) as (u & Hu1 & Hu2). rewrite Hu1. cbn [default].
    assert (url_of (String "u" digits) = None) as Hrel.
    { unfold url_of. destruct (Bool.bool_dec _ _) as [H|]; [|done]. discriminate H. }
    destruct (ends_with_char "/" (`endpoint)); rewrite Hrel.
    - lazymatch goal with |- context [url_of ?x] => destruct (url_of x) eqn:He end; [|by intros ?%Err_Ok].
      intros <-%Ok_inj. by apply url_of_some.
    - unfold id. rewrite Hu2.
      lazymatch goal with |- context [url_of ?x] => destruct (url_of x) eqn:He end; [|by intros ?%Err_Ok].
      intros <-%Ok_inj. by apply url_of_some. }
  rewrite Hurl'. split_and!; [done|done|done| | |done].
  - cbn [used remote_names] in *. by rewrite <- Ho, <- Hus.
  - cbn [object remote_server rm_objects]. by rewrite Hu, Hc, lookup_insert_eq.
Qed.

#[export] Instance remote_server_laws : TusServerLaws.
Proof.
  split.
  - intros r t answer t' uri b [[-> ->]|(n & -> & _)]%send_processed Ho; [right; by left|].
    destruct (process_keeps r (take n (TransportBody.bytes_of (tr_body r)))
      (mkRemote (rm_objects t) (rm_used t) (rm_created t) (tail (rm_fates t))) uri b Ho) as [?|[?|(H1 & H2 & H3)]];
      [auto..|]. right. right. split_and!; [done|done|]. by exists n.
  - intros r t answer t' uri [[-> ->]|(n & -> & _)]%send_processed Hm Ho; [done|]. by apply process_gone.
  - intros r t rs t' n (t0 & Ho & _ & _ & Hp)%send_answered Hm Hst Hn. unfold process in Hp. rewrite Hm, Ho in Hp.
    cbn [object remote_server]. rewrite <- Ho in *.
    destruct (rm_objects t0 !! tr_uri r) as [[l b]|] eqn:Hb; [|injection Hp as <- <-; cbn in Hst; by destruct Hst].
    destruct (N.ltb_spec MAX_OBJECT (bytes_len b)); injection Hp as <- <-; [cbn in Hst; by destruct Hst|].
    exists b. rewrite Hb. split_and!; [done|done|]. symmetry. by eapply (stated_by b l []).
  - intros r t rs t' n (t0 & Ho & _ & _ & Hp)%send_answered Hm Hst Hn. unfold process in Hp. rewrite Hm, Ho in Hp.
    cbn [object remote_server]. rewrite <- Ho in *.
    destruct (rm_objects t0 !! tr_uri r) as [[l b]|] eqn:Hb; [|by injection Hp as <- <-].
    destruct (stated_offset (tr_headers r)) as [o|]; [|by injection Hp as <- <-].
    destruct (negb _); [by injection Hp as <- <-|].
    destruct (N.ltb_spec MAX_OBJECT (bytes_len (b ++ TransportBody.bytes_of (tr_body r))));
      injection Hp as <- <-; [done|].
    exists b, (b ++ TransportBody.bytes_of (tr_body r))%list. cbn. rewrite lookup_insert_eq.
    split_and!; [done|done|]. symmetry. by eapply (stated_by _ l []).
  - intros endpoint r t rs t' len location url Hs Hm Hu Hl Hst Hloc Hurl.
    destruct (send_created _ _ _ _ _ _ _ Hs Hm Hu Hst Hloc Hurl) as (l & b & t0 & _ & Hc & Hmax & _ & Ho & Hh).
    unfold creation in Hc. rewrite Hl in Hc. destruct (get_str _ _ ≫= _); [done|]. injection Hc as <- <-.
    exists (TransportBody.bytes_of (tr_body r)). split_and!; [done|done|]. intros _ n Hn.
    symmetry. apply (stated_by _ len []); [done|]. rewrite <- Hn, Hh, app_nil_r, list_to_map_cons. symmetry.
    unfold stated_offset, header_u64, optional_header_u64. cbn [header_get concrete_http].
    by rewrite lookup_insert_ne.
Qed.

Lemma objects_at_all t urls bs :
  objects_at t urls = Some bs -> Forall2 (fun u b => object t u = Some b) urls bs.
Proof.
  revert bs. induction urls as [|u urls IH]; intros bs; cbn [objects_at]; [by intros [= <-]|].
  destruct (rm_objects t !! u) as [[len b]|] eqn:Hu; [|done].
  destruct (objects_at t urls) as [bs'|]; [|done]. intros [= <-]. constructor; [|by apply IH].
  cbn [object remote_server]. by rewrite Hu.
Qed.

Lemma final_parts parts : Some ("final;" ++ parts) ≫= str_strip_prefix "final;" = Some parts.
Proof. done. Qed.

#[export] Instance remote_names_laws : TusServerNamesLaws.
Proof.
  split.
  - intros t uri b Ho. right. cbn [object remote_server] in Ho. by destruct (rm_objects t !! uri).
  - intros r t answer t' uri [[-> ->]|(n & -> & _)]%send_processed Hu; [done|]. by apply process_used.
  - intros r t answer t' uri [[-> ->]|(n & -> & _)]%send_processed Hu Ho; [done|]. by apply process_gone.
  - intros endpoint r t rs t' location url Hs Hm Hu Hst Hloc Hurl.
    by destruct (send_created _ _ _ _ _ _ _ Hs Hm Hu Hst Hloc Hurl) as (l & b & t0 & _ & _ & _ & Hnu & _).
  - intros endpoint r t rs t' location [s Hs] _ _ _ _ _ _. unfold http_url. cbn.
    by apply andb_prop in Hs as [-> _].
  - intros endpoint r t rs t' urls location url Hs Hm Hu Hg Hne Hsp Hst Hloc Hurl.
    destruct (send_created _ _ _ _ _ _ _ Hs Hm Hu Hst Hloc Hurl) as (l & b & t0 & Ht0 & Hc & _ & _ & Ho & _).
    unfold creation in Hc. rewrite Hg, final_parts in Hc. destruct (stated_length _); [done|]. rewrite split_join in Hc by done.
    destruct (objects_at t0 urls) as [bs|] eqn:Hbs; [|done]. injection Hc as <- <-. exists bs. split; [|done].
    apply objects_at_all in Hbs. eapply Forall2_impl; [exact Hbs|]. intros u b Hb.
    cbn [object remote_server] in *. by rewrite <- Ht0.
Qed.
