(* ===== verification/Dioxus.v ===== *)
(** * The Dioxus bindings: browser values, configuration, state, retry rule, options cache

    ([dioxus-tus/src/{config,state,retry,options_cache}.rs]).  The crate runs in a
    browser, where [usize] has 32 bits.  JavaScript numbers are IEEE doubles, here the
    Standard Library's [spec_float] at 53 bits of precision; a [web_sys::File] is its
    attributes and its bytes; [js_sys::Date::now()] is an argument. *)

From stdpp Require Import gmap.
From Stdlib Require Import SpecFloat.
From S2P Require Import Prelude Text Crates ClientError Headers ClientHelpers Client.
Local Open Scope string_scope.
Local Open Scope N_scope.

(** ** Doubles *)

Abbreviation f64 := spec_float.

#[global] Instance f64_eq_dec : EqDecision f64.
Proof. solve_decision. Defined.

Definition f64_sub : f64 -> f64 -> f64 := SFsub 53 1024.
Definition f64_add : f64 -> f64 -> f64 := SFadd 53 1024.
Definition f64_mul : f64 -> f64 -> f64 := SFmul 53 1024.
Definition f64_div : f64 -> f64 -> f64 := SFdiv 53 1024.

(** [n as f64] *)
Definition f64_of_Z (n : Z) : f64 := binary_normalize 53 1024 n 0 false.
Definition f64_of_N (n : N) : f64 := f64_of_Z (Z.of_N n).

Definition is_finite (x : f64) : bool :=
  match x with S754_zero _ | S754_finite _ _ _ => true | _ => false end.

(** [f64::max]: a NaN loses. *)
Definition f64_max (x y : f64) : f64 :=
  match x, y with
  | S754_nan, _ => y
  | _, S754_nan => x
  | _, _ => if SFltb x y then y else x
  end.

(** [x as i64]: towards zero, saturating, 0 for a NaN. *)
Definition f64_as_i64 (x : f64) : Z :=
  let clamp z := Z.max (-2 ^ 63) (Z.min (2 ^ 63 - 1) z) in
  match x with
  | S754_zero _ | S754_nan => 0
  | S754_infinity s => if s then -2 ^ 63 else 2 ^ 63 - 1
  | S754_finite s m e =>
      let magnitude := Z.shiftl (Zpos m) e in
      clamp (if s then - magnitude else magnitude)
  end%Z.

(** ** Files of the browser

    [size] is the number of bytes: a browser holds no file of 2^53 bytes, so that the
    detour over a double keeps it. *)
Record WebFile := mkWebFile {
  file_name : string;
  file_type : string;
  file_content : bytes;
  file_last_modified : f64;
}.

#[global] Instance WebFile_eq_dec : EqDecision WebFile.
Proof. solve_decision. Defined.

Definition blob_size (f : WebFile) : N := bytes_len (file_content f).

(** ** Configuration *)

Record TusConfig := mkTusConfig {
  tc_endpoint : string;
  tc_bearer_token : option string;
  tc_chunk_size : N;
  tc_max_retries : N;
  tc_retry_delay_ms : N;
  tc_creation_with_upload_threshold : N;
}.

Definition TusConfig_new (endpoint : string) : TusConfig :=
  mkTusConfig endpoint None (1024 * 1024) 3 200 (256 * 1024).

Definition config_with_bearer_token (token : string) (c : TusConfig) : TusConfig :=
  mkTusConfig (tc_endpoint c) (Some token) (tc_chunk_size c) (tc_max_retries c)
    (tc_retry_delay_ms c) (tc_creation_with_upload_threshold c).
Definition config_with_chunk_size (size : N) (c : TusConfig) : TusConfig :=
  mkTusConfig (tc_endpoint c) (tc_bearer_token c) (N.max size 1) (tc_max_retries c)
    (tc_retry_delay_ms c) (tc_creation_with_upload_threshold c).
Definition config_with_max_retries (n : N) (c : TusConfig) : TusConfig :=
  mkTusConfig (tc_endpoint c) (tc_bearer_token c) (tc_chunk_size c) n
    (tc_retry_delay_ms c) (tc_creation_with_upload_threshold c).
Definition config_with_retry_delay_ms (ms : N) (c : TusConfig) : TusConfig :=
  mkTusConfig (tc_endpoint c) (tc_bearer_token c) (tc_chunk_size c) (tc_max_retries c)
    ms (tc_creation_with_upload_threshold c).
Definition with_creation_with_upload_threshold (size : N) (c : TusConfig) : TusConfig :=
  mkTusConfig (tc_endpoint c) (tc_bearer_token c) (tc_chunk_size c) (tc_max_retries c)
    (tc_retry_delay_ms c) size.

Definition use_creation_with_upload (c : TusConfig) (file_size : N) : bool :=
  (0 <? file_size) && (file_size <=? tc_creation_with_upload_threshold c).

Record TusStartOptions := mkTusStartOptions {
  bearer_token_override : option string;
  extra_headers : list (string * string);
  extra_metadata : gmap string string;
  filename_override : option string;
  content_type_override : option string;
  existing_url : option string;
}.

#[global] Instance TusStartOptions_eq_dec : EqDecision TusStartOptions.
Proof. solve_decision. Defined.

Definition default_options : TusStartOptions := mkTusStartOptions None [] ∅ None None None.

Definition with_bearer_token (token : string) (o : TusStartOptions) : TusStartOptions :=
  mkTusStartOptions (Some token) (extra_headers o) (extra_metadata o) (filename_override o)
    (content_type_override o) (existing_url o).
Definition options_with_header (name value : string) (o : TusStartOptions) : TusStartOptions :=
  mkTusStartOptions (bearer_token_override o) (extra_headers o ++ [(name, value)])%list
    (extra_metadata o) (filename_override o) (content_type_override o) (existing_url o).
Definition with_metadata (key value : string) (o : TusStartOptions) : TusStartOptions :=
  mkTusStartOptions (bearer_token_override o) (extra_headers o) (<[key := value]> (extra_metadata o))
    (filename_override o) (content_type_override o) (existing_url o).
Definition with_filename (name : string) (o : TusStartOptions) : TusStartOptions :=
  mkTusStartOptions (bearer_token_override o) (extra_headers o) (extra_metadata o) (Some name)
    (content_type_override o) (existing_url o).
Definition with_content_type (content_type : string) (o : TusStartOptions) : TusStartOptions :=
  mkTusStartOptions (bearer_token_override o) (extra_headers o) (extra_metadata o)
    (filename_override o) (Some content_type) (existing_url o).
(** [options.existing_url = url] *)
Definition set_existing_url (url : option string) (o : TusStartOptions) : TusStartOptions :=
  mkTusStartOptions (bearer_token_override o) (extra_headers o) (extra_metadata o)
    (filename_override o) (content_type_override o) url.
Definition with_existing_url (url : string) (o : TusStartOptions) : TusStartOptions :=
  set_existing_url (Some url) o.

Definition has_request_specific_headers (o : TusStartOptions) : bool :=
  match bearer_token_override o with
  | Some _ => true
  | None => match extra_headers o with [] => false | _ => true end
  end.

Definition build_metadata `{HashOrder} (o : TusStartOptions) (name type : string) : gmap string string :=
  let m := <["filename" := default name (filename_override o)]> ∅ in
  let m := <["filetype" := default type (content_type_override o)]> m in
  foldl (fun m kv => <[kv.1 := kv.2]> m) m (hash_iter (extra_metadata o)).

(** ** State of an upload *)

Module UploadStatus.
Inductive t := Idle | Uploading | Paused | Complete | Error.

#[global] Instance eq_dec : EqDecision t.
Proof. solve_decision. Defined.
End UploadStatus.

Module TusError.
Inductive t :=
| Transport (message : string)
| Server (status : N) (body : string)
| MissingHeader (header : string)
| InvalidHeader (header value : string)
| Cors
| BlobRead (message : string)
| InvalidUrl (message : string)
| ServerMissingExtension (extension : string)
| FileTooLarge (file_size max_size : N).

#[global] Instance eq_dec : EqDecision t.
Proof. solve_decision. Defined.
End TusError.

(** [haystack.contains(needle)] *)
Fixpoint str_contains (needle haystack : string) : bool :=
  starts_with needle haystack ||
  match haystack with EmptyString => false | String _ rest => str_contains needle rest end.

(** [s.ends_with(suffix)] *)
Fixpoint str_ends_with (suffix s : string) : bool :=
  String.eqb suffix s ||
  match s with EmptyString => false | String _ rest => str_ends_with suffix rest end.

Definition is_sensitive_header_name (name : string) : bool :=
  let lower := to_lowercase (trim name) in
  existsb (String.eqb lower)
    ["authorization"; "proxy-authorization"; "cookie"; "set-cookie"; "x-api-key"; "api-key"]
  || str_ends_with "-api-key" lower
  || str_contains "token" lower
  || str_contains "secret" lower.

(** [impl From<tus_uploader::Error> for TusError] *)
Definition tus_error_from (e : ClientError.t) : TusError.t :=
  match e with
  | ClientError.MissingHeader header => TusError.MissingHeader header
  | ClientError.InvalidHeader header value => TusError.InvalidHeader header value
  | ClientError.InvalidRequestHeader name value =>
      let display_value := if is_sensitive_header_name name then "<redacted>" else value in
      TusError.Transport ("invalid request header `" ++ name ++ "`: " ++ display_value)
  | ClientError.OffsetBeyondSource offset source_len =>
      TusError.Transport ("server offset " ++ u64_to_string offset ++
        " exceeds local file size " ++ u64_to_string source_len)
  | ClientError.LengthMismatch remote local =>
      TusError.Transport ("server length " ++ u64_to_string remote ++
        " does not match local file size " ++ u64_to_string local)
  | ClientError.OffsetDesync expected actual =>
      TusError.Transport ("server acknowledged offset " ++ u64_to_string actual ++
        ", expected " ++ u64_to_string expected)
  | ClientError.Source source => TusError.Transport ("upload source failed: " ++ source)
  | ClientError.UnexpectedResponse _ status body _ => TusError.Server status body
  | ClientError.UnsupportedExtension extension => TusError.ServerMissingExtension extension
  | ClientError.CrossOriginLocation endpoint location =>
      TusError.Transport ("server upload location `" ++ location ++
        "` is not on endpoint origin `" ++ endpoint ++ "`")
  | ClientError.Internal message => TusError.Transport ("internal client error: " ++ message)
  | ClientError.Url e => TusError.InvalidUrl e
  | ClientError.Io e => TusError.Transport ("io: " ++ e)
  | ClientError.Transport s _ =>
      if str_contains "Failed to fetch" s || str_contains "NetworkError" s || str_contains "Load failed" s
      then TusError.Cors else TusError.Transport s
  | ClientError.HeaderProvider _ _ => TusError.Transport (ClientError.to_string e)
  end.

Record TusUploadState := mkTusUploadState {
  us_status : UploadStatus.t;
  us_bytes_uploaded : N;
  us_bytes_total : option N;
  us_upload_url : option string;
  us_error : option TusError.t;
}.

#[global] Instance TusUploadState_eq_dec : EqDecision TusUploadState.
Proof. solve_decision. Defined.

Definition default_upload_state : TusUploadState := mkTusUploadState UploadStatus.Idle 0 None None None.

Definition us_is_idle (s : TusUploadState) : bool := bool_decide (us_status s = UploadStatus.Idle).
Definition us_is_uploading (s : TusUploadState) : bool := bool_decide (us_status s = UploadStatus.Uploading).
Definition us_is_paused (s : TusUploadState) : bool := bool_decide (us_status s = UploadStatus.Paused).
Definition us_is_complete (s : TusUploadState) : bool := bool_decide (us_status s = UploadStatus.Complete).
Definition us_is_error (s : TusUploadState) : bool := bool_decide (us_status s = UploadStatus.Error).

Definition progress_fraction (s : TusUploadState) : option f64 :=
  match us_bytes_total s with
  | None => None
  | Some total =>
      let total := f64_of_N total in
      if SFeqb total (S754_zero false) then Some (f64_of_N 1)
      else Some (f64_div (f64_of_N (us_bytes_uploaded s)) total)
  end.

(** ** Retry rule *)

Definition chunk_retryable_status (status : N) : bool :=
  (500 <=? status) || (status =? 408) || (status =? 409) || (status =? 429).

Definition is_retryable_error (e : ClientError.t) : bool :=
  match e with
  | ClientError.UnexpectedResponse _ status _ _ => chunk_retryable_status status
  | ClientError.Transport _ retryable => retryable
  | _ => false
  end.

(** ** Cache of server capabilities

    The waiters of a fetch are the ids of the callers whose oneshot channels they are. *)
Module OptionsCache.
Definition TTL_MS : f64 := f64_of_N 60000.

Record Entry := mkEntry {
  info : ServerCapabilities;
  inserted_at_ms : f64;
}.

Record CacheState := mkCacheState {
  cached : gmap string Entry;
  in_flight : gmap string (list N);
}.

Inductive Lookup := Hit (info : ServerCapabilities) | Wait | Fetch.

(** [age.is_finite() && (0.0..TTL_MS).contains(&age)] *)
Definition is_fresh (now : f64) (e : Entry) : bool :=
  let age_ms := f64_sub now (inserted_at_ms e) in
  is_finite age_ms && SFleb (f64_of_N 0) age_ms && SFltb age_ms TTL_MS.

Definition fresh_entry (endpoint : string) (now : f64) (s : CacheState) : option ServerCapabilities :=
  match cached s !! endpoint with
  | Some entry => if is_fresh now entry then Some (info entry) else None
  | None => None
  end.

Definition lookup_or_register (endpoint : string) (now : f64) (caller : N) (s : CacheState)
    : Lookup * CacheState :=
  match fresh_entry endpoint now s with
  | Some info => (Hit info, s)
  | None =>
      match in_flight s !! endpoint with
      | Some waiters =>
          (Wait, mkCacheState (cached s) (<[endpoint := waiters ++ [caller]]> (in_flight s))%list)
      | None => (Fetch, mkCacheState (cached s) (<[endpoint := []]> (in_flight s)))
      end
  end.

(** The waiters that get the result, in order, and the state afterwards. *)
Definition finalize_fetch (endpoint : string) (result : TusError.t + ServerCapabilities)
    (inserted_at_ms : f64) (s : CacheState) : list N * CacheState :=
  let cached' :=
    match result with
    | inr info => <[endpoint := mkEntry info inserted_at_ms]> (cached s)
    | inl _ => cached s
    end in
  (default [] (in_flight s !! endpoint), mkCacheState cached' (delete endpoint (in_flight s))).

Definition invalidate (endpoint : string) (s : CacheState) : CacheState :=
  mkCacheState (delete endpoint (cached s)) (in_flight s).

Definition peek_fresh (endpoint : string) (now : f64) (s : CacheState) : option ServerCapabilities :=
  fresh_entry endpoint now s.
End OptionsCache.
