(* ===== verification/Persistence.v ===== *)
(** * Entries of resumable uploads in [localStorage] ([dioxus-tus/src/persistence.rs])

    The page has a [localStorage] or none; it is a map from keys to texts.  Its methods
    [getItem] and [removeItem] do not fail, [setItem] fails when the browser's quota is
    exceeded ([quota]), and the order of its keys is the browser's ([HashOrder]).  The
    JSON form of an entry is derived code of serde ([EntryJson]). *)

From stdpp Require Import gmap.
From Stdlib Require Import SpecFloat.
From S2P Require Import Prelude Text Crates Dioxus.
Local Open Scope string_scope.
Local Open Scope N_scope.

(** ** Entries and their keys *)

Record ResumableEntry := mkResumableEntry {
  re_match_key : string;
  re_endpoint : string;
  re_filename : string;
  re_file_size : N;
  re_last_modified : f64;
  re_upload_url : string;
  re_bytes_uploaded : N;
  re_stored_at_ms : f64;
}.

#[global] Instance ResumableEntry_eq_dec : EqDecision ResumableEntry.
Proof. solve_decision. Defined.

Definition STORAGE_KEY_PREFIX : string := "dioxus-tus:v1:".
#[global] Arguments STORAGE_KEY_PREFIX : simpl never.
Definition STORAGE_TTL_MS : f64 := f64_of_N (24 * 60 * 60 * 1000).

Definition FNV_OFFSET : N := 0xcbf29ce484222325.
Definition FNV_PRIME : N := 0x00000100000001b3.

Definition wrapping_mul (a b : N) : N := (a * b) mod 2 ^ 64.

Fixpoint update_hash (hash : N) (l : list N) : N :=
  match l with
  | [] => hash
  | byte :: l => update_hash (wrapping_mul (N.lxor hash byte) FNV_PRIME) l
  end.

(** The [width] low bytes of [n], the lowest first. *)
Fixpoint to_le_bytes (width : nat) (n : N) : list N :=
  match width with
  | O => []
  | Datatypes.S width => n mod 256 :: to_le_bytes width (n / 256)
  end.

(** The length is a [usize]: four bytes on [wasm32]. *)
Definition feed_component (hash : N) (l : list N) : N :=
  update_hash (update_hash hash (to_le_bytes 4 (N.of_nat (length l)))) l.

Definition rotate_left_5 (n : N) : N :=
  N.lor (N.shiftl n 5 mod 2 ^ 64) (N.shiftr n 59).

Definition as_bytes (s : string) : list N := map byte_of (list_ascii_of_string s).

Definition hex_nibble (d : N) : ascii := ascii_of_N (if d <? 10 then 48 + d else 87 + d).

(** [format!("{n:016x}")], for 16 digits *)
Fixpoint hex_digits (digits : nat) (n : N) (acc : string) : string :=
  match digits with
  | O => acc
  | Datatypes.S digits => hex_digits digits (n / 16) (String (hex_nibble (n mod 16)) acc)
  end.

Definition last_modified_ms (last_modified : f64) : Z :=
  if is_finite last_modified then f64_as_i64 last_modified else 0%Z.

(** One component of the key, fed to both hashes. *)
Definition feed_both (h : N * N) (l : list N) : N * N :=
  (feed_component h.1 l, feed_component (rotate_left_5 h.2) l).

Definition match_key (endpoint filename : string) (file_size : N) (last_modified : f64) : string :=
  let lm_ms := Z.to_N (last_modified_ms last_modified mod 2 ^ 64) in
  let h := (FNV_OFFSET, N.lxor FNV_OFFSET 0x9e3779b97f4a7c15) in
  let h := feed_both h (as_bytes endpoint) in
  let h := feed_both h (as_bytes filename) in
  let h := feed_both h (to_le_bytes 8 file_size) in
  let h := feed_both h (to_le_bytes 8 lm_ms) in
  "v2-" ++ hex_digits 16 h.1 (hex_digits 16 h.2 "").

Definition match_key_of (endpoint : string) (f : WebFile) : string :=
  match_key endpoint (file_name f) (blob_size f) (file_last_modified f).

Definition storage_key (match_key : string) : string := STORAGE_KEY_PREFIX ++ match_key.

(** ** Origins *)

(** [s.rsplit_once(c)] *)
Fixpoint rsplit_once (c : ascii) (s : string) : option (string * string) :=
  match s with
  | EmptyString => None
  | String d rest =>
      match rsplit_once c rest with
      | Some (a, b) => Some (String d a, b)
      | None => if Ascii.eqb d c then Some ("", rest) else None
      end
  end.

Definition parse_u16 (s : string) : option N :=
  match parse_u64 s with
  | Some n => if n <=? 65535 then Some n else None
  | None => None
  end.

Definition ends_authority (c : ascii) : bool :=
  Ascii.eqb c "/" || Ascii.eqb c "?" || Ascii.eqb c "#".

Definition default_port (scheme : string) : option N :=
  if String.eqb scheme "http" || String.eqb scheme "ws" then Some 80
  else if String.eqb scheme "https" || String.eqb scheme "wss" then Some 443
  else None.

(** The host in lower case, and the port if everything after the last colon is one. *)
Definition split_port (host_port : string) : string * option N :=
  match rsplit_once ":" host_port with
  | Some (host, after) =>
      match parse_u16 after with
      | Some p => (to_lowercase host, Some p)
      | None => (to_lowercase host_port, None)
      end
  | None => (to_lowercase host_port, None)
  end.

Definition parse_origin (s : string) : option (string * string * N) :=
  match split_once "://" s with
  | None => None
  | Some (scheme, rest) =>
      let scheme := to_lowercase scheme in
      let authority := take_until ends_authority rest in
      let host_port := match rsplit_once "@" authority with Some (_, host) => host | None => authority end in
      if is_empty host_port then None
      else
        let '(host, explicit_port) := split_port host_port in
        match (match explicit_port with Some p => Some p | None => default_port scheme end) with
        | Some port => Some (scheme, host, port)
        | None => None
        end
  end.

Definition origin_matches (endpoint upload_url : string) : bool :=
  match parse_origin endpoint, parse_origin upload_url with
  | Some a, Some b => bool_decide (a = b)
  | _, _ => false
  end.

(** ** Texts for the log *)

Definition redact_upload_url_for_log (upload_url : string) : string :=
  match parse_origin upload_url with
  | Some (scheme, host, port) =>
      scheme ++ "://" ++ host ++ ":" ++ u64_to_string port ++ "/<upload-url-redacted>"
  | None => "<invalid-upload-url-redacted>"
  end.

Definition ends_path (c : ascii) : bool := Ascii.eqb c "?" || Ascii.eqb c "#".

Definition redact_endpoint_for_log (endpoint : string) : string :=
  match parse_origin endpoint with
  | None => "<invalid-endpoint-redacted>"
  | Some (scheme, host, port) =>
      let path :=
        match split_once "://" endpoint with
        | Some (_, rest) =>
            match find_from "/" rest with
            | Some path => take_until ends_path path
            | None => ""
            end
        | None => ""
        end in
      scheme ++ "://" ++ host ++ ":" ++ u64_to_string port ++ path
  end.

(** ** Which entries are used *)

(** [age_ms.is_finite() && (0.0..=STORAGE_TTL_MS).contains(&age_ms)] *)
Definition within_ttl (now : f64) (e : ResumableEntry) : bool :=
  let age_ms := f64_sub now (re_stored_at_ms e) in
  is_finite age_ms && (SFleb (f64_of_N 0) age_ms && SFleb age_ms STORAGE_TTL_MS).

Definition entry_is_resumable_for_file_at (endpoint : string) (entry : ResumableEntry)
    (filename : string) (file_size : N) (last_modified now : f64) : bool :=
  within_ttl now entry
  && String.eqb (re_endpoint entry) endpoint
  && origin_matches endpoint (re_upload_url entry)
  && String.eqb (re_match_key entry) (match_key endpoint filename file_size last_modified).

Definition entry_is_resumable_for_file (endpoint : string) (entry : ResumableEntry) (f : WebFile)
    (now : f64) : bool :=
  entry_is_resumable_for_file_at endpoint entry (file_name f) (blob_size f) (file_last_modified f) now.

(** ** [localStorage] *)

Abbreviation LocalStorage := (gmap string string).
Abbreviation Page := (option LocalStorage).

Class EntryJson := {
  entry_to_json : ResumableEntry -> string + string;
  entry_from_json : string -> option ResumableEntry;
}.

(** The times a browser reports are whole milliseconds; serde_json prints and reads
    those exactly. *)
Definition whole_ms (x : f64) : Prop := exists z, (Z.abs z <= 2 ^ 53)%Z /\ x = f64_of_Z z.

Class EntryJsonLaws `{EntryJson} := {
  entry_json_roundtrip e text :
    whole_ms (re_last_modified e) -> whole_ms (re_stored_at_ms e) ->
    entry_to_json e = inr text -> entry_from_json text = Some e;
}.

(** Whether the browser takes the item: the storage without it, the key and the value. *)
Class Quota := { quota_allows : LocalStorage -> string -> string -> bool }.

Section local_storage.
Context `{EntryJson, Quota, HashOrder}.

Definition set_item (storage : LocalStorage) (key value : string) : option LocalStorage :=
  if quota_allows (delete key storage) key value then Some (<[key := value]> storage) else None.

(** The keys of the namespace, in the order the browser enumerates them. *)
Definition namespace_keys (storage : LocalStorage) : list string :=
  List.filter (starts_with STORAGE_KEY_PREFIX) (map fst (hash_iter storage)).

Fixpoint scan_keys (endpoint : string) (now : f64) (keys : list string) (storage : LocalStorage)
    : list ResumableEntry * LocalStorage :=
  match keys with
  | [] => ([], storage)
  | key :: keys =>
      match storage !! key with
      | None => scan_keys endpoint now keys storage
      | Some value =>
          match entry_from_json value with
          | None => scan_keys endpoint now keys (delete key storage)
          | Some entry =>
              match str_strip_prefix STORAGE_KEY_PREFIX key with
              | None => scan_keys endpoint now keys storage
              | Some stored_match_key =>
                  if negb (String.eqb (re_match_key entry) stored_match_key)
                  then scan_keys endpoint now keys storage
                  else if negb (within_ttl now entry)
                  then scan_keys endpoint now keys (delete key storage)
                  else if negb (String.eqb (re_endpoint entry) endpoint)
                  then scan_keys endpoint now keys storage
                  else if negb (origin_matches endpoint (re_upload_url entry))
                  then scan_keys endpoint now keys storage
                  else
                    let '(out, storage) := scan_keys endpoint now keys storage in
                    (entry :: out, storage)
              end
          end
      end
  end.

Definition scan (endpoint : string) (now : f64) (page : Page) : list ResumableEntry * Page :=
  match page with
  | None => ([], None)
  | Some storage =>
      let '(out, storage) := scan_keys endpoint now (namespace_keys storage) storage in
      (out, Some storage)
  end.

Definition get (endpoint match_key : string) (now : f64) (page : Page) : option ResumableEntry :=
  match page with
  | None => None
  | Some storage =>
      match storage !! storage_key match_key with
      | None => None
      | Some raw =>
          match entry_from_json raw with
          | None => None
          | Some entry =>
              if negb (String.eqb (re_match_key entry) match_key) then None
              else if negb (within_ttl now entry) then None
              else if negb (String.eqb (re_endpoint entry) endpoint) then None
              else if negb (origin_matches endpoint (re_upload_url entry)) then None
              else Some entry
          end
      end
  end.

Fixpoint evict_keys (now : f64) (keys : list string) (storage : LocalStorage) : LocalStorage :=
  match keys with
  | [] => storage
  | key :: keys =>
      match storage !! key with
      | None => evict_keys now keys storage
      | Some value =>
          let drop :=
            match entry_from_json value with
            | Some entry => negb (within_ttl now entry)
            | None => true
            end in
          evict_keys now keys (if drop then delete key storage else storage)
      end
  end.

Definition evict_stale_entries (now : f64) (storage : LocalStorage) : LocalStorage :=
  evict_keys now (namespace_keys storage) storage.

Definition put (entry : ResumableEntry) (now : f64) (page : Page) : outcome TusError.t unit * Page :=
  match page with
  | None => (Err (TusError.Transport "localStorage unavailable"), None)
  | Some storage =>
      match entry_to_json entry with
      | inl e => (Err (TusError.Transport ("serialize entry: " ++ e)), Some storage)
      | inr json =>
          let key := storage_key (re_match_key entry) in
          match set_item storage key json with
          | Some storage => (Ok tt, Some storage)
          | None =>
              let storage := evict_stale_entries now storage in
              match set_item storage key json with
              | Some storage => (Ok tt, Some storage)
              | None =>
                  (Err (TusError.Transport "localStorage write failed after eviction (likely quota)"),
                   Some storage)
              end
          end
      end
  end.

(** The [remove] of the module. *)
Definition remove_entry (match_key : string) (page : Page) : Page :=
  match page with
  | None => None
  | Some storage => Some (delete (storage_key match_key) storage)
  end.
End local_storage.
