(* ===== verification/PersistenceSpec.v ===== *)
(** * What is read back from [localStorage] ([persistence.rs])

    [valid_at] is the contract of a resumable entry; [get] and [scan] give out nothing
    else, whatever other pages have written, and the deletions of [scan] and [put]
    never take an entry that [get] would have given out. *)

From stdpp Require Import gmap.
From Stdlib Require Import SpecFloat.
From S2P Require Import Prelude Text Crates Dioxus Persistence.
Local Open Scope string_scope.
Local Open Scope N_scope.

(** An entry that may be offered for [endpoint] at [now]. *)
Definition valid_at (endpoint : string) (now : f64) (e : ResumableEntry) : Prop :=
  within_ttl now e = true /\ re_endpoint e = endpoint /\
  origin_matches endpoint (re_upload_url e) = true.

#[global] Instance valid_at_dec endpoint now e : Decision (valid_at endpoint now e).
Proof. unfold valid_at. apply _. Defined.

Lemma origin_matches_iff a b :
  origin_matches a b = true <-> exists o, parse_origin a = Some o /\ parse_origin b = Some o.
Proof.
  unfold origin_matches. destruct (parse_origin a) as [x|], (parse_origin b) as [y|];
    rewrite ?bool_decide_eq_true; split; naive_solver.
Qed.

Lemma entry_is_resumable_iff endpoint e f now :
  entry_is_resumable_for_file endpoint e f now = true <->
  valid_at endpoint now e /\ re_match_key e = match_key_of endpoint f.
Proof.
  unfold entry_is_resumable_for_file, entry_is_resumable_for_file_at, valid_at, match_key_of.
  rewrite !andb_true_iff, !String.eqb_eq. naive_solver.
Qed.

(** ** Origins of URLs *)

Definition free_of (p : ascii -> bool) (s : string) : Prop := str_all (fun c => negb (p c)) s = true.

Lemma free_of_app p a b : free_of p (a ++ b) <-> free_of p a /\ free_of p b.
Proof. unfold free_of. rewrite str_all_app. apply andb_true_iff. Qed.

Lemma free_of_impl (p q : ascii -> bool) s :
  (forall c, q c = true -> p c = true) -> free_of p s -> free_of q s.
Proof.
  intros Hpq. apply str_all_impl. intros c Hc. destruct (q c) eqn:Hq; [|done].
  by rewrite (Hpq c Hq) in Hc.
Qed.

Lemma split_once_scheme scheme rest :
  free_of (Ascii.eqb ":") scheme -> split_once "://" (scheme ++ "://" ++ rest) = Some (scheme, rest).
Proof.
  induction scheme as [|c scheme IH]; intros Hf; [done|].
  apply andb_true_iff in Hf as [Hc Hf]. specialize (IH Hf). apply negb_true_iff in Hc.
  change (String c scheme ++ "://" ++ rest) with (String c (scheme ++ "://" ++ rest)).
  unfold split_once; fold split_once.
  assert (str_strip_prefix "://" (String c (scheme ++ "://" ++ rest)) = None) as ->.
  { unfold str_strip_prefix. by rewrite Hc. }
  by rewrite IH.
Qed.

(** What follows the authority. *)
Definition is_tail (p : ascii -> bool) (rest : string) : Prop :=
  match rest with EmptyString => True | String c _ => p c = true end.

Lemma take_until_tail p a rest : free_of p a -> is_tail p rest -> take_until p (a ++ rest) = a.
Proof.
  intros Hf Ht. induction a as [|c a IH].
  - destruct rest as [|c rest]; [done|]. cbn in *. by rewrite Ht.
  - apply andb_true_iff in Hf as [Hc Hf]. apply negb_true_iff in Hc.
    change (String c a ++ rest) with (String c (a ++ rest)). cbn [take_until]. rewrite Hc. by rewrite IH.
Qed.

Lemma rsplit_once_none c s : free_of (fun d => Ascii.eqb d c) s -> rsplit_once c s = None.
Proof.
  induction s as [|d s IH]; intros Hf; [done|]. apply andb_true_iff in Hf as [Hd Hf].
  cbn [rsplit_once]. rewrite IH by done. apply negb_true_iff in Hd. by rewrite Hd.
Qed.

Lemma rsplit_once_last c a b :
  free_of (fun d => Ascii.eqb d c) b -> rsplit_once c (a ++ String c b) = Some (a, b).
Proof.
  intros Hf. induction a as [|d a IH].
  - change ("" ++ String c b) with (String c b). cbn [rsplit_once].
    rewrite rsplit_once_none by done. by rewrite Ascii.eqb_refl.
  - change (String d a ++ String c b) with (String d (a ++ String c b)). cbn [rsplit_once]. by rewrite IH.
Qed.

Definition authority_char (c : ascii) : bool := ends_authority c || Ascii.eqb c "@" || Ascii.eqb c ":".

(** [user@host:port] *)
Definition print_authority (user : option string) (host : string) (port : option N) : string :=
  match user with Some user => user ++ "@" | None => "" end ++
  host ++ match port with Some port => ":" ++ u64_to_string port | None => "" end.

Lemma digits_free p n : (forall c, in_range 48 57 (byte_of c) = true -> p c = false) ->
  free_of p (u64_to_string n).
Proof.
  intros Hp. apply u64_to_string_all. intros d Hd. by rewrite (Hp _ (digit_in_range d Hd)).
Qed.

Lemma not_digit_char c d : in_range 48 57 (byte_of d) = false ->
  in_range 48 57 (byte_of c) = true -> Ascii.eqb c d = false.
Proof. intros Hd Hc. destruct (Ascii.eqb_spec c d); congruence. Qed.

Lemma split_port_printed host port :
  free_of authority_char host -> (forall p, port = Some p -> p <= 65535) ->
  split_port (host ++ match port with Some port => ":" ++ u64_to_string port | None => "" end)
  = (to_lowercase host, port).
Proof.
  intros Hh Hp. unfold split_port. destruct port as [p|].
  - change (":" ++ u64_to_string p) with (String ":" (u64_to_string p)).
    rewrite rsplit_once_last.
    + unfold parse_u16. specialize (Hp p eq_refl). rewrite parse_u64_to_string.
      * apply N.leb_le in Hp. by rewrite Hp.
      * unfold u64_max. lia.
    + apply digits_free. intros c. by apply not_digit_char.
  - rewrite app_empty_r, rsplit_once_none; [done|].
    eapply free_of_impl; [|exact Hh]. intros c Hc. unfold authority_char. cbn beta in Hc.
    by rewrite Hc, orb_true_r.
Qed.

(** The origin of [scheme://user@host:port/...] is the scheme and the host in lower case and the
    port, the scheme's when none is written, whatever the user information, and whatever
    path, query or fragment follows. *)
Theorem parse_origin_of_url scheme user host port rest :
  free_of (Ascii.eqb ":") scheme -> free_of authority_char host -> host <> "" ->
  (forall u, user = Some u -> free_of ends_authority u) ->
  (forall p, port = Some p -> p <= 65535) -> is_tail ends_authority rest ->
  parse_origin (scheme ++ "://" ++ print_authority user host port ++ rest) =
    match (match port with Some p => Some p | None => default_port (to_lowercase scheme) end) with
    | Some p => Some (to_lowercase scheme, to_lowercase host, p)
    | None => None
    end.
Proof.
  intros Hs Hh Hne Hu Hp Ht. unfold parse_origin. rewrite split_once_scheme by done.
  set (tail := match port with Some port => ":" ++ u64_to_string port | None => "" end).
  assert (free_of ends_authority (print_authority user host port)) as Hf.
  { unfold print_authority. rewrite !free_of_app. repeat split.
    - destruct user as [u|]; [|done]. apply free_of_app. split; [by apply Hu|done].
    - eapply free_of_impl; [|exact Hh]. intros c Hc. unfold authority_char. by rewrite Hc.
    - destruct port as [p|]; [|done]. apply (free_of_app _ ":"). split; [done|].
      apply digits_free. unfold ends_authority. intros c Hc.
      rewrite !not_digit_char; done. }
  rewrite take_until_tail by done.
  assert (free_of (fun d => Ascii.eqb d "@") (host ++ tail)) as Hat.
  { apply free_of_app. split.
    - eapply free_of_impl; [|exact Hh]. intros c Hc. unfold authority_char. cbn beta in Hc.
      by rewrite Hc, orb_true_r.
    - subst tail. destruct port as [p|]; [|done]. apply (free_of_app _ ":"). split; [done|].
      apply digits_free. intros c. by apply not_digit_char. }
  assert (match rsplit_once "@" (print_authority user host port) with
          | Some (_, host) => host | None => print_authority user host port end = host ++ tail) as ->.
  { unfold print_authority. fold tail. destruct user as [u|].
    - rewrite string_app_assoc. change ("@" ++ host ++ tail) with (String "@" (host ++ tail)).
      by rewrite rsplit_once_last.
    - by rewrite rsplit_once_none. }
  destruct host as [|c host]; [done|]. cbn [is_empty String.append].
  change (String c (host ++ tail)) with (String c host ++ tail).
  subst tail. rewrite split_port_printed by done. done.
Qed.

(** ** The registry *)

Section registry.
Context `{EntryJson, Quota, HashOrder}.

(** The entry under a match key, and whether it is one to keep: [scan] and the eviction
    drop texts that are no entry and entries past their time. *)
Definition stored (storage : LocalStorage) (key : string) : option ResumableEntry :=
  storage !! key ≫= entry_from_json.

Definition keeps (now : f64) (storage storage' : LocalStorage) : Prop :=
  storage' ⊆ storage /\
  forall key e, stored storage key = Some e -> within_ttl now e = true ->
    storage' !! key = storage !! key.

#[local] Instance keeps_refl now : Reflexive (keeps now).
Proof. by split. Qed.

#[local] Instance keeps_trans now : Transitive (keeps now).
Proof.
  intros s1 s2 s3 [Hs Hk] [Hs' Hk']. split; [by etrans|].
  intros key e He Hf. rewrite <- (Hk _ _ He Hf). apply (Hk' _ e); [|done].
  unfold stored in *. by rewrite (Hk _ _ He Hf).
Qed.

Lemma get_stored endpoint mk now storage e :
  get endpoint mk now (Some storage) = Some e <->
  stored storage (storage_key mk) = Some e /\ re_match_key e = mk /\ valid_at endpoint now e.
Proof.
  unfold get, stored, valid_at.
  destruct (storage !! storage_key mk) as [raw|]; cbn; [|split; intros; naive_solver].
  destruct (entry_from_json raw) as [x|]; [|split; intros; naive_solver].
  assert (forall b (P : Prop), (b = true <-> P) ->
    ((if negb b then None else Some x) = Some e <-> x = e /\ P)) as Hif.
  { intros [] P HP; cbn; split; try done; intros; naive_solver. }
  destruct (String.eqb_spec (re_match_key x) mk) as [|Hn]; cbn;
    [|split; [done|by intros (Hx & ? & _); injection Hx as ->]].
  destruct (within_ttl now x) eqn:Hf; cbn;
    [|split; [done|by intros (Hx & ? & ? & _); injection Hx as ->; congruence]].
  destruct (String.eqb_spec (re_endpoint x) endpoint) as [|Hn]; cbn;
    [|split; [done|by intros (Hx & ? & ? & ? & _); injection Hx as ->]].
  rewrite (Hif _ _ (iff_refl _)). split.
  - by intros [-> ?].
  - intros (Hx & ? & ? & ? & ?). injection Hx as ->. done.
Qed.

Lemma keeps_get now storage storage' endpoint mk :
  keeps now storage storage' ->
  get endpoint mk now (Some storage') = get endpoint mk now (Some storage).
Proof.
  intros [Hs Hk]. apply option_eq. intros e. rewrite !get_stored. unfold stored. split.
  - intros (He & ? & ?). split; [|done].
    destruct (storage' !! storage_key mk) as [raw|] eqn:Hr; [|discriminate He].
    by rewrite (lookup_weaken _ _ _ _ Hr Hs).
  - intros (He & ? & Hv). split; [|done]. rewrite (Hk _ e); [done|done|apply Hv].
Qed.

Lemma keeps_delete_key now storage key :
  (forall e, stored storage key = Some e -> within_ttl now e = false) ->
  keeps now storage (delete key storage).
Proof.
  intros Hd. split; [apply delete_subseteq|]. intros k e He Hf.
  destruct (decide (k = key)) as [->|]; [by rewrite (Hd _ He) in Hf|].
  by rewrite lookup_delete_ne.
Qed.

Lemma omap_same {A B} (f g : A -> option B) (l : list A) :
  (forall x, f x = g x) -> omap f l = omap g l.
Proof. intros Hfg. induction l as [|x l IH]; [done|]. cbn. by rewrite Hfg, IH. Qed.

Lemma namespace_key storage key :
  key ∈ namespace_keys storage <-> is_Some (storage !! key) /\ exists mk, key = storage_key mk.
Proof.
  unfold namespace_keys. rewrite list_elem_of_In, filter_In, <- list_elem_of_In.
  rewrite list_elem_of_fmap. unfold starts_with, storage_key. split.
  - intros [(kv & -> & Hin) Hp]. rewrite hash_iter_perm in Hin. destruct kv as [k v].
    apply elem_of_map_to_list in Hin. split; [by eexists|]. cbn [fst] in *.
    destruct (str_strip_prefix STORAGE_KEY_PREFIX k) as [mk|] eqn:Hs; [|done].
    exists mk. by apply str_strip_prefix_some in Hs.
  - intros [[v Hv] [mk ->]]. split; [|by rewrite str_strip_prefix_app].
    exists (STORAGE_KEY_PREFIX ++ mk, v). split; [done|].
    rewrite hash_iter_perm. by apply elem_of_map_to_list.
Qed.

Lemma namespace_keys_nodup storage : NoDup (namespace_keys storage).
Proof.
  unfold namespace_keys. apply NoDup_ListNoDup, List.NoDup_filter, NoDup_ListNoDup.
  rewrite hash_iter_perm. apply NoDup_fst_map_to_list.
Qed.

Lemma scan_keys_keeps endpoint now keys storage :
  keeps now storage (scan_keys endpoint now keys storage).2.
Proof.
  revert storage. induction keys as [|key keys IH]; intros storage; cbn; [apply keeps_refl|].
  destruct (storage !! key) as [value|] eqn:Hv; [|apply IH].
  destruct (entry_from_json value) as [entry|] eqn:He.
  2: { etrans; [|apply IH]. apply keeps_delete_key. unfold stored. rewrite Hv. cbn. by rewrite He. }
  destruct (str_strip_prefix STORAGE_KEY_PREFIX key); [|apply IH].
  destruct (negb (String.eqb _ _)); [apply IH|].
  destruct (within_ttl now entry) eqn:Hf; cbn.
  2: { etrans; [|apply IH]. apply keeps_delete_key. unfold stored. rewrite Hv. cbn. rewrite He.
       naive_solver. }
  destruct (negb (String.eqb _ _)); [apply IH|].
  destruct (negb (origin_matches _ _)); [apply IH|].
  specialize (IH storage). by destruct (scan_keys endpoint now keys storage).
Qed.

Lemma evict_keys_keeps now keys storage : keeps now storage (evict_keys now keys storage).
Proof.
  revert storage. induction keys as [|key keys IH]; intros storage; cbn; [apply keeps_refl|].
  destruct (storage !! key) as [value|] eqn:Hv; [|apply IH].
  etrans; [|apply IH].
  destruct (entry_from_json value) as [entry|] eqn:He.
  - destruct (within_ttl now entry) eqn:Hf; cbn; [apply keeps_refl|].
    apply keeps_delete_key. unfold stored. rewrite Hv. cbn. rewrite He. naive_solver.
  - apply keeps_delete_key. unfold stored. rewrite Hv. cbn. by rewrite He.
Qed.

Lemma scan_keys_skip endpoint now key mk keys storage :
  key = storage_key mk -> key ∉ keys ->
  exists storage', keeps now storage storage' /\
  (scan_keys endpoint now (key :: keys) storage).1 =
    match get endpoint mk now (Some storage) with
    | Some e => e :: (scan_keys endpoint now keys storage').1
    | None => (scan_keys endpoint now keys storage').1
    end.
Proof.
  intros -> Hni. cbn [scan_keys].
  unfold get. destruct (storage !! storage_key mk) as [value|] eqn:Hv; [|by exists storage].
  destruct (entry_from_json value) as [entry|] eqn:He.
  2: { eexists. split; [|done]. apply keeps_delete_key. unfold stored. rewrite Hv. cbn. by rewrite He. }
  unfold storage_key at 1. rewrite str_strip_prefix_app.
  destruct (negb (String.eqb (re_match_key entry) mk)); [exists storage; split; [apply keeps_refl|done]|].
  destruct (within_ttl now entry) eqn:Hf; cbn [negb].
  2: { eexists. split; [|done]. apply keeps_delete_key. unfold stored. rewrite Hv. cbn. rewrite He.
       naive_solver. }
  destruct (negb (String.eqb _ _)); [exists storage; split; [apply keeps_refl|done]|].
  destruct (negb (origin_matches _ _)); [exists storage; split; [apply keeps_refl|done]|].
  exists storage. split; [apply keeps_refl|]. by destruct (scan_keys endpoint now keys storage).
Qed.

(** What the keys still to be visited give. *)
Lemma scan_keys_gets endpoint now keys storage :
  NoDup keys -> (forall key, key ∈ keys -> exists mk, key = storage_key mk) ->
  exists mks, keys = map storage_key mks /\
    (scan_keys endpoint now keys storage).1 =
      omap (fun mk => get endpoint mk now (Some storage)) mks.
Proof.
  intros Hnd. revert storage. induction Hnd as [|key keys Hni Hnd IH]; intros storage Hk.
  - by exists [].
  - destruct (Hk key) as [mk Hmk]; [by left|].
    destruct (scan_keys_skip endpoint now key mk keys storage Hmk Hni) as (storage' & Hkeep & Heq).
    destruct (IH storage') as (mks & Hks & Hrest). { intros k Hin. apply Hk. by right. }
    exists (mk :: mks). split; [by rewrite Hmk, Hks|].
    rewrite Heq, Hrest.
    rewrite (omap_same (fun mk => get endpoint mk now (Some storage'))
               (fun mk => get endpoint mk now (Some storage))); [done|].
    intros x. by apply keeps_get.
Qed.

Lemma storage_key_inj a b : storage_key a = storage_key b -> a = b.
Proof.
  unfold storage_key. intros Heq.
  pose proof (str_strip_prefix_app STORAGE_KEY_PREFIX a) as Ha. rewrite Heq, str_strip_prefix_app in Ha.
  by injection Ha.
Qed.

Lemma scan_gets endpoint now storage :
  exists mks, namespace_keys storage = map storage_key mks /\ NoDup mks /\
    (scan endpoint now (Some storage)).1 = omap (fun mk => get endpoint mk now (Some storage)) mks.
Proof.
  pose proof (namespace_keys_nodup storage) as Hnd.
  destruct (scan_keys_gets endpoint now (namespace_keys storage) storage Hnd) as (mks & Hks & Heq).
  { intros key Hin. apply namespace_key in Hin. apply Hin. }
  exists mks. repeat split; [done| |].
  - rewrite Hks in Hnd. by apply NoDup_fmap_1 in Hnd.
  - rewrite <- Heq. unfold scan. by destruct (scan_keys endpoint now (namespace_keys storage) storage).
Qed.

Lemma get_match_key endpoint mk now page e :
  get endpoint mk now page = Some e -> re_match_key e = mk /\ valid_at endpoint now e.
Proof. destruct page as [storage|]; [|done]. intros Hg%get_stored. apply Hg. Qed.

Lemma get_keys_nodup endpoint now page mks :
  NoDup mks -> NoDup (map re_match_key (omap (fun mk => get endpoint mk now page) mks)).
Proof.
  induction 1 as [|mk mks Hni Hnd IH]; [constructor|].
  assert (forall mk', mk' ∈ map re_match_key (omap (fun mk => get endpoint mk now page) mks) -> mk' ∈ mks)
    as Hin.
  { intros mk' (e & -> & He)%list_elem_of_fmap.
    apply list_elem_of_omap in He as (x & Hx & Hg). by apply get_match_key in Hg as [-> _]. }
  change (omap (fun mk => get endpoint mk now page) (mk :: mks))
    with (match get endpoint mk now page with
          | Some e => e :: omap (fun mk => get endpoint mk now page) mks
          | None => omap (fun mk => get endpoint mk now page) mks
          end).
  destruct (get endpoint mk now page) as [e|] eqn:Hg; [|done].
  cbn [map]. constructor; [|done]. apply get_match_key in Hg as [-> _]. by intros ?%Hin.
Qed.

(** C32: Whatever the page's [localStorage] holds: [scan] lists exactly the entries that
    [get] would give out under their own match key, each match key once; each of them
    was stored for this endpoint, is between 0 and 24 hours old and leads to the
    endpoint's origin; and what [scan] deletes on its way never changes what [get]
    gives out, for any endpoint and any match key. *)
Theorem scan_is_get endpoint now page :
  let '(entries, page') := scan endpoint now page in
  (forall e, e ∈ entries <-> get endpoint (re_match_key e) now page = Some e) /\
  Forall (valid_at endpoint now) entries /\
  NoDup (map re_match_key entries) /\
  (forall endpoint' mk, get endpoint' mk now page' = get endpoint' mk now page).
Proof.
  destruct page as [storage|]; [|cbn; repeat split; [by intros ?%elem_of_nil|done|constructor|constructor]].
  destruct (scan_gets endpoint now storage) as (mks & Hks & Hnd & Heq).
  destruct (scan endpoint now (Some storage)) as [entries page'] eqn:Hscan. cbn [fst] in Heq. subst entries.
  assert (forall e, e ∈ omap (fun mk => get endpoint mk now (Some storage)) mks <->
    get endpoint (re_match_key e) now (Some storage) = Some e) as Hin.
  { intros e. rewrite list_elem_of_omap. split.
    - intros (mk & _ & Hg). pose proof (get_match_key _ _ _ _ _ Hg) as [<- _]. done.
    - intros Hg. exists (re_match_key e). split; [|done].
      apply get_stored in Hg as (Hs & _ & _). unfold stored in Hs.
      destruct (storage !! storage_key (re_match_key e)) as [raw|] eqn:Hr; [|discriminate Hs].
      assert (storage_key (re_match_key e) ∈ map storage_key mks) as Hk.
      { rewrite <- Hks. apply namespace_key. split; [by eexists|by eexists]. }
      apply list_elem_of_fmap in Hk as (mk & Hmk & Hk). apply storage_key_inj in Hmk. by subst. }
  repeat split; [apply Hin|apply Hin| |by apply get_keys_nodup|].
  - apply Forall_forall. intros e He%Hin. by apply get_match_key in He as [_ ?].
  - intros endpoint' mk. unfold scan in Hscan.
    pose proof (scan_keys_keeps endpoint now (namespace_keys storage) storage) as Hkeep.
    destruct (scan_keys endpoint now (namespace_keys storage) storage) as [out storage'].
    injection Hscan as _ <-. by apply keeps_get.
Qed.

Lemma set_item_some storage key value storage' :
  set_item storage key value = Some storage' -> storage' = <[key := value]> storage.
Proof. unfold set_item. destruct (quota_allows _ _ _); by intros [= <-]. Qed.

Lemma get_insert_ne endpoint mk now storage mk' value :
  mk <> mk' -> get endpoint mk now (Some (<[storage_key mk' := value]> storage)) =
    get endpoint mk now (Some storage).
Proof.
  intros Hne. unfold get. rewrite lookup_insert_ne; [done|]. intros Heq. apply Hne.
  symmetry. by apply storage_key_inj.
Qed.

Lemma get_insert `{!EntryJsonLaws} endpoint now storage e text :
  entry_to_json e = inr text -> whole_ms (re_last_modified e) -> whole_ms (re_stored_at_ms e) ->
  get endpoint (re_match_key e) now (Some (<[storage_key (re_match_key e) := text]> storage)) =
    if decide (valid_at endpoint now e) then Some e else None.
Proof.
  intros Ht Hl Hs. pose proof (entry_json_roundtrip e text Hl Hs Ht) as Hr.
  assert (stored (<[storage_key (re_match_key e) := text]> storage) (storage_key (re_match_key e)) = Some e)
    as Hst.
  { unfold stored. rewrite lookup_insert_eq. exact Hr. }
  apply option_eq. intros x. rewrite get_stored, Hst. case_decide; split; naive_solver.
Qed.

(** C33: A successful [put] makes its entry the one that [get] gives out under its match
    key for as long as it is valid, whether or not the quota made room first; the
    entries under other match keys that [get] gave out are still given out.  A failed
    [put] changes nothing that [get] gives out. *)
Theorem put_then_get `{!EntryJsonLaws} e now page :
  whole_ms (re_last_modified e) -> whole_ms (re_stored_at_ms e) ->
  let '(r, page') := put e now page in
  match r with
  | Ok _ =>
      (forall endpoint later, get endpoint (re_match_key e) later page' =
         if decide (valid_at endpoint later e) then Some e else None) /\
      (forall endpoint mk, mk <> re_match_key e -> get endpoint mk now page' = get endpoint mk now page)
  | Err _ => forall endpoint mk, get endpoint mk now page' = get endpoint mk now page
  | Panic => False
  end.
Proof.
  intros Hl Hs. unfold put. destruct page as [storage|]; [|done].
  destruct (entry_to_json e) as [m|text] eqn:Ht; [done|].
  pose proof (evict_keys_keeps now (namespace_keys storage) storage) as Hk.
  change (evict_keys _ _ _) with (evict_stale_entries now storage) in Hk.
  destruct (set_item storage _ text) as [storage'|] eqn:Hset.
  - apply set_item_some in Hset as ->. split; intros; [by apply get_insert|by apply get_insert_ne].
  - destruct (set_item (evict_stale_entries now storage) _ text) as [storage'|] eqn:Hset'.
    + apply set_item_some in Hset' as ->. split; intros; [by apply get_insert|].
      rewrite get_insert_ne by done. by apply keeps_get.
    + intros. by apply keeps_get.
Qed.

(** Removing an entry takes that one away and no other. *)
Lemma get_remove endpoint mk mk' now page :
  get endpoint mk now (remove_entry mk' page) =
    if decide (mk = mk') then None else get endpoint mk now page.
Proof.
  destruct page as [storage|]; [|by case_decide]. cbn. unfold get. case_decide as Hd.
  - subst. by rewrite lookup_delete_eq.
  - rewrite lookup_delete_ne; [done|]. intros Heq. apply Hd. symmetry. by apply storage_key_inj.
Qed.
End registry.
