(* ===== verification/UploadEngine.v ===== *)
(** * The upload engine ([dioxus-tus/src/hook.rs], [blob.rs])

    The task that runs a worker's uploads.  Between two of its steps lies a moment: the
    commands that arrive, the time, what other tasks of the page do, and the luck of the
    pending operation.  The moments to come are a script; when it is over the component
    is unmounted and the channel of commands is closed.

    A [future] is what the engine races against its commands: it awaits operations, and
    can be dropped while one is pending ([race]), in which case the server may or may not
    have received the pending request. *)

From stdpp Require Import gmap.
From Stdlib Require Import SpecFloat.
From S2P Require Import Prelude Text Errors Crates Config State Headers ClientError ClientHelpers Client.
From S2P Require Import Dioxus Persistence.
Local Open Scope string_scope.
Local Open Scope N_scope.
Local Open Scope prog_scope.

(** ** The handle

    A worker is what a [TusUploadHandle] shares with the task that runs its uploads: the
    state signal and the unbounded channel of commands, whose receiver the task keeps for
    as long as the component is mounted.  The methods of the handle write both. *)

Module UploadCommand.
Inductive t :=
| Start (file : WebFile) (options : TusStartOptions)
| Pause
| Resume
| Abort.

#[global] Instance eq_dec : EqDecision t.
Proof. solve_decision. Defined.
End UploadCommand.

Record Worker := mkWorker {
  wk_state : TusUploadState;
  wk_channel : list UploadCommand.t;
}.

Definition new_worker : Worker := mkWorker default_upload_state [].

Definition send_command (cmd : UploadCommand.t) (w : Worker) : Worker :=
  mkWorker (wk_state w) (wk_channel w ++ [cmd]).

(** [start]: the state is stamped before the command is sent. *)
Definition worker_start (file : WebFile) (options : TusStartOptions) (w : Worker) : Worker :=
  send_command (UploadCommand.Start file options)
    (mkWorker (mkTusUploadState UploadStatus.Uploading 0 None None None) (wk_channel w)).

Definition worker_start_with_url (file : WebFile) (url : string) (options : TusStartOptions)
    (w : Worker) : Worker :=
  worker_start file (set_existing_url (Some url) options) w.

Definition worker_pause : Worker -> Worker := send_command UploadCommand.Pause.
Definition worker_resume : Worker -> Worker := send_command UploadCommand.Resume.
Definition worker_abort : Worker -> Worker := send_command UploadCommand.Abort.

Section persisted.
Context `{EntryJson, Quota, HashOrder}.

Definition worker_resume_persisted (endpoint : string) (now : f64) (page : Page) (file : WebFile)
    (options : TusStartOptions) (w : Worker) : bool * Worker :=
  match get endpoint (match_key_of endpoint file) now page with
  | Some entry => (true, worker_start_with_url file (re_upload_url entry) options w)
  | None => (false, w)
  end.

Definition worker_resume_entry (endpoint : string) (now : f64) (entry : ResumableEntry) (file : WebFile)
    (options : TusStartOptions) (w : Worker) : bool * Worker :=
  if negb (String.eqb (match_key_of endpoint file) (re_match_key entry))
     || negb (entry_is_resumable_for_file endpoint entry file now)
  then (false, w)
  else (true, worker_start_with_url file (re_upload_url entry) options w).
End persisted.

(** ** Moments *)

Record Moment := mkMoment {
  (** the calls of the handle, in order *)
  mo_calls : list UploadCommand.t;
  mo_now : f64;
  (** [js_sys::Math::random()] *)
  mo_random : f64;
  (** the error of a pending read of the file *)
  mo_read_error : option string;
  (** whether a pending request reaches the server although its future is dropped *)
  mo_delivered : bool;
  (** whether a pending timer fires before the commands are seen *)
  mo_timer_first : bool;
  (** the result of the fetch of another worker that this one waits for *)
  mo_waited : TusError.t + ServerCapabilities;
  (** what other tasks do to the page and to the cache *)
  mo_page : Page -> Page;
  mo_cache : OptionsCache.CacheState -> OptionsCache.CacheState;
}.

Record EngineWorld `{Transport} := mkEngineWorld {
  ew_client : ClientWorld;
  ew_worker : Worker;
  ew_page : Page;
  ew_cache : OptionsCache.CacheState;
  (** the armed [DropGuard] of [get_or_fetch] *)
  ew_fetching : bool;
  ew_now : f64;
  (** the retry delays so far, in milliseconds *)
  ew_delays : list N;
  ew_script : list Moment;
}.

Definition handle_call (cmd : UploadCommand.t) (w : Worker) : Worker :=
  match cmd with
  | UploadCommand.Start file options => worker_start file options w
  | UploadCommand.Pause => worker_pause w
  | UploadCommand.Resume => worker_resume w
  | UploadCommand.Abort => worker_abort w
  end.

Section engine.
Context `{UrlLib} `{HttpClientLib} `{!Transport} `{ClientSystem, Base64, Digests, HashOrder, EntryJson, Quota}.
Local Abbreviation W := EngineWorld.
Local Abbreviation mkE := (mkEngineWorld _ _).
Local Abbreviation EM := (prog TusError.t EngineWorld).

Definition set_client (c : ClientWorld) (w : W) : W :=
  mkE c (ew_worker w) (ew_page w) (ew_cache w) (ew_fetching w) (ew_now w) (ew_delays w) (ew_script w).
Definition set_worker (k : Worker) (w : W) : W :=
  mkE (ew_client w) k (ew_page w) (ew_cache w) (ew_fetching w) (ew_now w) (ew_delays w) (ew_script w).
Definition set_page (p : Page) (w : W) : W :=
  mkE (ew_client w) (ew_worker w) p (ew_cache w) (ew_fetching w) (ew_now w) (ew_delays w) (ew_script w).
Definition set_cache (c : OptionsCache.CacheState) (fetching : bool) (w : W) : W :=
  mkE (ew_client w) (ew_worker w) (ew_page w) c fetching (ew_now w) (ew_delays w) (ew_script w).

Definition apply_moment (m : Moment) (rest : list Moment) (w : W) : W :=
  mkE (ew_client w) (foldl (fun k cmd => handle_call cmd k) (ew_worker w) (mo_calls m))
    (mo_page m (ew_page w)) (mo_cache m (ew_cache w)) (ew_fetching w) (mo_now m) (ew_delays w) rest.

(** The moment after the script: nothing happens any more. *)
Definition last_moment (w : W) : Moment :=
  mkMoment [] (ew_now w) (S754_zero false) None true false
    (inl (TusError.Transport "options cache: in-flight fetch was dropped")) id id.

Definition next_moment (w : W) : Moment * W :=
  match ew_script w with
  | m :: rest => (m, apply_moment m rest w)
  | [] => (last_moment w, w)
  end.

Definition set_channel (l : list UploadCommand.t) (w : W) : W :=
  set_worker (mkWorker (wk_state (ew_worker w)) l) w.

(** What the receiver of the commands finds without waiting. *)
Inductive Polled := Command (cmd : UploadCommand.t) | Closed | Nothing.

(** [rx.try_next()] *)
Definition poll_command (w : W) : Polled * W :=
  match wk_channel (ew_worker w), ew_script w with
  | cmd :: rest, _ => (Command cmd, set_channel rest w)
  | [], [] => (Closed, w)
  | [], _ => (Nothing, w)
  end.

(** [rx.next().await] *)
Fixpoint wait_command (script : list Moment) (w : W) : option UploadCommand.t * W :=
  match wk_channel (ew_worker w) with
  | cmd :: rest => (Some cmd, set_channel rest w)
  | [] =>
      match script with
      | [] => (None, w)
      | m :: rest => wait_command rest (apply_moment m rest w)
      end
  end.

Definition next_command : EM (option UploadCommand.t) := act (fun w => wait_command (ew_script w) w).

(** ** Futures *)

Inductive future (A : Type) : Type :=
| Ready (r : outcome TusError.t A)
| Sync {B : Type} (f : W -> B * W) (k : B -> future A)
| Await {B : Type} (f : Moment -> W -> B * W) (k : B -> future A).
Arguments Ready {A} r.
Arguments Sync {A B} f k.
Arguments Await {A B} f k.

Fixpoint fbind {A B} (m : future A) (k : A -> future B) : future B :=
  match m with
  | Ready (Ok a) => k a
  | Ready (Err e) => Ready (Err e)
  | Ready Panic => Ready Panic
  | Sync f c => Sync f (fun b => fbind (c b) k)
  | Await f c => Await f (fun b => fbind (c b) k)
  end.

Definition sync {A} (f : W -> A * W) : future A := Sync f (fun a => Ready (Ok a)).

(** A request of the client; its error is a value. *)
Fixpoint client_call {A} (m : CM ClientWorld A) : future (ClientError.t + A) :=
  match m with
  | Done (Ok a) => Ready (Ok (inr a))
  | Done (Err e) => Ready (Ok (inl e))
  | Done Panic => Ready Panic
  | Act f k =>
      Await (fun _ w => let '(b, c) := f (ew_client w) in (b, set_client c w)) (fun b => client_call (k b))
  end.

(** [result.map_err(TusError::from)?] *)
Definition mapped {A} (r : ClientError.t + A) : outcome TusError.t A :=
  match r with inr a => Ok a | inl e => Err (tus_error_from e) end.

Definition from_client {A} (r : cresult A) : outcome TusError.t A :=
  match r with Ok a => Ok a | Err e => Err (tus_error_from e) | Panic => Panic end.

(** [future.await]: no command is looked at. *)
Fixpoint await {A} (m : future A) : EM A :=
  match m with
  | Ready r => Done r
  | Sync f k => Act f (fun b => await (k b))
  | Await f k => Act (fun w => let '(mo, w) := next_moment w in f mo w) (fun b => await (k b))
  end.

(** ** Races *)

(** Why a future was dropped. *)
Inductive Interrupt := Aborted | Paused | Restart (file : WebFile) (options : TusStartOptions).

(** What a race makes of a command: an interrupt, or a flag to go on with. *)
Definition Policy : Type := bool -> UploadCommand.t -> Interrupt + bool.

Definition pre_loop_policy : Policy := fun paused cmd =>
  match cmd with
  | UploadCommand.Abort => inl Aborted
  | UploadCommand.Start file options => inl (Restart file options)
  | UploadCommand.Pause => inr true
  | UploadCommand.Resume => inr false
  end.

Definition recovery_policy : Policy := fun paused cmd =>
  match cmd with
  | UploadCommand.Abort => inl Aborted
  | UploadCommand.Start file options => inl (Restart file options)
  | UploadCommand.Pause => inl Paused
  | UploadCommand.Resume => inr paused
  end.

(** The commands in the channel, until one interrupts. *)
Fixpoint read_commands (policy : Policy) (paused : bool) (l : list UploadCommand.t)
    : option Interrupt * bool * list UploadCommand.t :=
  match l with
  | [] => (None, paused, [])
  | cmd :: l =>
      match policy paused cmd with
      | inl i => (Some i, paused, l)
      | inr paused => read_commands policy paused l
      end
  end.

(** The channel as a race sees it while its future is pending. *)
Definition look (policy : Policy) (closed : option Interrupt) (paused : bool) (w : W)
    : (option Interrupt * bool) * W :=
  let '(i, paused, rest) := read_commands policy paused (wk_channel (ew_worker w)) in
  let i := match i, ew_script w with None, [] => closed | _, _ => i end in
  ((i, paused), set_channel rest w).

(** Dropping a future runs the guard of [get_or_fetch]. *)
Definition drop_future (endpoint : string) (w : W) : W :=
  if ew_fetching w
  then set_cache (OptionsCache.finalize_fetch endpoint
         (inl (TusError.Transport "options cache: in-flight fetch was dropped")) (S754_zero false)
         (ew_cache w)).2 false w
  else w.

(** The future is polled first; while it is pending the commands are read. *)
Fixpoint race {A} (endpoint : string) (policy : Policy) (closed : option Interrupt) (paused : bool)
    (m : future A) : EM ((Interrupt + (TusError.t + A)) * bool) :=
  match m with
  | Ready (Ok a) => ret (inr (inr a), paused)
  | Ready (Err e) => ret (inr (inl e), paused)
  | Ready Panic => panic
  | Sync f k => Act f (fun b => race endpoint policy closed paused (k b))
  | Await f k =>
      Act (fun w =>
        let '(mo, w) := next_moment w in
        let '((i, paused), w) := look policy closed paused w in
        match i with
        | Some i =>
            let w := if mo_delivered mo then (f mo w).2 else w in
            (inl (i, paused), drop_future endpoint w)
        | None => let '(b, w) := f mo w in (inr (b, paused), w)
        end)
      (fun r =>
        match r with
        | inl (i, paused) => ret (inl i, paused)
        | inr (b, paused) => race endpoint policy closed paused (k b)
        end)
  end.

Definition race_pre_loop_request {A} (c : TusConfig) (m : future A) (paused : bool) :=
  race (tc_endpoint c) pre_loop_policy None paused m.

Definition race_recovery_request {A} (c : TusConfig) (m : future A) :=
  race (tc_endpoint c) recovery_policy (Some Aborted) false m.

(** The delay and its bound; the draw is in [0, 1). *)
Definition jittered_retry_delay_ms (c : TusConfig) (attempt : N) (random : f64) : N * N :=
  let shift := N.min attempt 8 in
  let base_delay := N.min (N.min (tc_retry_delay_ms c * 2 ^ shift) u64_max) 4294967295 in
  (Z.to_N (f64_as_i64 (f64_mul random (f64_of_N base_delay))) mod 2 ^ 32, base_delay).

Definition log_delay (delay : N) (w : W) : W :=
  mkE (ew_client w) (ew_worker w) (ew_page w) (ew_cache w) (ew_fetching w) (ew_now w)
    (ew_delays w ++ [delay])%list (ew_script w).

(** [select!] of the jittered timer and the next command *)
Definition wait_retry_backoff (c : TusConfig) (attempt : N) : EM (option Interrupt) :=
  act (fun w =>
    let '(mo, w) := next_moment w in
    let w := log_delay (jittered_retry_delay_ms c attempt (mo_random mo)).1 w in
    if mo_timer_first mo then (None, w)
    else
      match poll_command w with
      | (Command UploadCommand.Abort, w) | (Closed, w) => (Some Aborted, w)
      | (Command (UploadCommand.Start file options), w) => (Some (Restart file options), w)
      | (Command UploadCommand.Pause, w) => (Some Paused, w)
      | (Command UploadCommand.Resume, w) | (Nothing, w) => (None, w)
      end).

(** ** Effects of the engine *)

Definition update_state (f : TusUploadState -> TusUploadState) : EM unit :=
  act (fun w => (tt, set_worker (mkWorker (f (wk_state (ew_worker w))) (wk_channel (ew_worker w))) w)).

Definition update_page (f : Page -> Page) : EM unit := act (fun w => (tt, set_page (f (ew_page w)) w)).

Definition with_status (s : UploadStatus.t) (u : TusUploadState) : TusUploadState :=
  mkTusUploadState s (us_bytes_uploaded u) (us_bytes_total u) (us_upload_url u) (us_error u).

(** Back to [Idle], at the end of an upload that was interrupted. *)
Definition reset_state (u : TusUploadState) : TusUploadState :=
  mkTusUploadState UploadStatus.Idle 0 None None (us_error u).

(** [Blob::slice(start, end).array_buffer()], which may fail *)
Definition blob_slice_to_bytes (f : WebFile) (start stop : N) : future bytes :=
  Await (fun mo w => (mo_read_error mo, w))
    (fun e => Ready match e with
                    | Some e => Err (TusError.BlobRead e)
                    | None => Ok (take (N.to_nat (stop - start)) (drop (N.to_nat start) (file_content f)))
                    end).

Definition validate_server_offset (offset file_size : N) : outcome TusError.t unit :=
  if file_size <? offset
  then Err (TusError.Transport ("server offset " ++ u64_to_string offset ++
         " exceeds local file size " ++ u64_to_string file_size))
  else Ok tt.

Definition validate_resume_info (info : UploadInfo) (file_size : N) : outcome TusError.t unit :=
  check? match ui_length info with
         | Some remote =>
             if negb (remote =? file_size)
             then Err (TusError.Transport ("server length " ++ u64_to_string remote ++
                    " does not match local file size " ++ u64_to_string file_size))
             else Ok tt
         | None => Ok tt
         end in
  validate_server_offset (ui_offset info) file_size.

Definition validate_patch_offset (previous next file_size : N) : outcome TusError.t unit :=
  check? validate_server_offset next file_size in
  if next <=? previous
  then Err (TusError.Transport ("server offset " ++ u64_to_string next ++
         " did not advance beyond previous offset " ++ u64_to_string previous))
  else Ok tt.

(** ** Capabilities *)

(** [get_or_fetch]; this caller has the id 0 among the waiters. *)
Definition get_or_fetch (endpoint : string) (c : Client) : future (TusError.t + ServerCapabilities) :=
  Sync (fun w =>
    let '(lookup, cache) := OptionsCache.lookup_or_register endpoint (ew_now w) 0 (ew_cache w) in
    let fetching := match lookup with OptionsCache.Fetch => true | _ => false end in
    ((lookup, ew_now w), set_cache cache fetching w))
  (fun '(lookup, now) =>
    match lookup with
    | OptionsCache.Hit info => Ready (Ok (inr info))
    | OptionsCache.Wait => Await (fun mo w => (mo_waited mo, w)) (fun r => Ready (Ok r))
    | OptionsCache.Fetch =>
        fbind (client_call (server_capabilities c)) (fun r =>
        let result := match r with inr info => inr info | inl e => inl (tus_error_from e) end in
        Sync (fun w => (tt, set_cache (OptionsCache.finalize_fetch endpoint result now (ew_cache w)).2 false w))
          (fun _ => Ready (Ok result)))
    end).

(** ** Before the chunk loop *)

(** The client of an upload and the headers of its requests. *)
Fixpoint append_extra_headers (l : list (string * string)) (h : HeaderMap) : outcome TusError.t HeaderMap :=
  match l with
  | [] => Ok h
  | (name, value) :: l =>
      match header_name_try_from name with
      | None => Err (TusError.Transport ("invalid header name `" ++ name ++ "`"))
      | Some header_name =>
          match header_value_from_str value with
          | inl _ => Err (TusError.Transport ("invalid value for header `" ++ name ++ "`"))
          | inr header_value => append_extra_headers l (header_append header_name header_value h)
          end
      end
  end.

Definition upload_headers (c : TusConfig) (options : TusStartOptions) : outcome TusError.t HeaderMap :=
  let token := match bearer_token_override options with Some t => Some t | None => tc_bearer_token c end in
  let? h :=
    match token with
    | Some token =>
        match header_value_from_str ("Bearer " ++ token) with
        | inl _ => Err (TusError.Transport "invalid bearer token")
        | inr value => Ok (header_insert "authorization" value header_map_new)
        end
    | None => Ok header_map_new
    end in
  append_extra_headers (extra_headers options) h.

Definition upload_client (c : TusConfig) (options : TusStartOptions) : outcome TusError.t Client :=
  let? endpoint_url := match weburl_parse (tc_endpoint c) with
                       | inr url => Ok url
                       | inl e => Err (TusError.InvalidUrl e)
                       end in
  let? headers := upload_headers c options in
  let client :=
    with_retry_delay (tc_retry_delay_ms c * 1000000)
      (with_max_retries (tc_max_retries c) (with_transport endpoint_url)) in
  Ok (match header_iter headers with [] => client | _ => with_headers headers client end).

(** [head_fut] *)
Definition head_future (client : Client) (existing mk : string) (file_size : N) : future (string * N) :=
  fbind (Ready (from_client (upload_at client existing))) (fun resource =>
  fbind (client_call (upload_info_at client resource)) (fun r =>
  match r with
  | inr info =>
      Ready (check? validate_resume_info info file_size in
             Ok (weburl_as_str (ui_url info), ui_offset info))
  | inl (ClientError.UnexpectedResponse _ status body _ as e) =>
      if (status =? 400) || (status =? 410) || (status =? 404)
      then Sync (fun w => (tt, set_page (remove_entry mk (ew_page w)) w))
             (fun _ => Ready (Err (TusError.Server status body)))
      else Ready (Err (tus_error_from e))
  | inl e => Ready (Err (tus_error_from e))
  end)).

(** [HashMap<String, String>] into [UploadMetadata] *)
Definition metadata_from (m : gmap string string) : UploadMetadata := fmap list_byte_of_string m.

(** Without a body: the offset is 0. *)
Definition plain_create (client : Client) (file_size : N) (metadata : UploadMetadata)
    : future (string * N) :=
  fbind (client_call (create_upload client (NewUpload_new file_size metadata))) (fun r =>
  Ready (let? created := mapped r in Ok (weburl_as_str (ui_url created.2), 0))).

(** [server_capabilities()] of the client, or the cache in front of it *)
Definition probe_capabilities (c : TusConfig) (options : TusStartOptions) (client : Client)
    : future (TusError.t + ServerCapabilities) :=
  if has_request_specific_headers options || bool_decide (is_Some (tc_bearer_token c))
  then fbind (client_call (server_capabilities client)) (fun r =>
       Ready (Ok (match r with inr info => inr info | inl e => inl (tus_error_from e) end)))
  else get_or_fetch (tc_endpoint c) client.

Definition exceeds_max_size (capabilities : ServerCapabilities) (file_size : N) : option N :=
  match sc_max_size capabilities with
  | Some max => if max <? file_size then Some max else None
  | None => None
  end.

Definition capability_mismatch (e : ClientError.t) : bool :=
  match e with
  | ClientError.UnexpectedResponse _ status _ _ =>
      (status =? 405) || (status =? 412) || (status =? 415) || (status =? 501)
  | _ => false
  end.

(** [cwu_fut] *)
Definition create_with_upload_future (c : TusConfig) (options : TusStartOptions) (client : Client)
    (file : WebFile) (metadata : UploadMetadata) : future (string * N) :=
  let file_size := blob_size file in
  fbind (probe_capabilities c options client) (fun opts_result =>
  match opts_result with
  | inl _ => plain_create client file_size metadata
  | inr opts =>
      match exceeds_max_size opts file_size with
      | Some max => Ready (Err (TusError.FileTooLarge file_size max))
      | None =>
          if sc_has_extension opts "creation-with-upload"
          then
            fbind (blob_slice_to_bytes file 0 file_size) (fun body =>
            fbind (client_call (create_upload client (NewUpload_with_body body metadata))) (fun r =>
            match r with
            | inr created => Ready (Ok (weburl_as_str (ui_url created.2), ui_offset created.2))
            | inl e =>
                if capability_mismatch e
                then Sync (fun w => (tt, set_cache (OptionsCache.invalidate (tc_endpoint c) (ew_cache w))
                                          (ew_fetching w) w))
                       (fun _ => plain_create client file_size metadata)
                else Ready (Err (tus_error_from e))
            end))
          else plain_create client file_size metadata
      end
  end).

(** [create_fut] *)
Definition create_future (c : TusConfig) (options : TusStartOptions) (client : Client)
    (file : WebFile) (metadata : UploadMetadata) : future (string * N) :=
  let file_size := blob_size file in
  Sync (fun w => (OptionsCache.peek_fresh (tc_endpoint c) (ew_now w) (ew_cache w), w)) (fun cached =>
  let too_large :=
    if bool_decide (is_Some (tc_bearer_token c)) || has_request_specific_headers options then None
    else match cached with Some opts => exceeds_max_size opts file_size | None => None end in
  match too_large with
  | Some max => Ready (Err (TusError.FileTooLarge file_size max))
  | None => plain_create client file_size metadata
  end).

Definition pre_loop_future (c : TusConfig) (client : Client) (file : WebFile) (options : TusStartOptions)
    (url : option string) (mk : string) : future (string * N) :=
  let metadata := metadata_from (build_metadata options (file_name file) (file_type file)) in
  match url with
  | Some existing => head_future client existing mk (blob_size file)
  | None =>
      if use_creation_with_upload c (blob_size file)
      then create_with_upload_future c options client file metadata
      else create_future c options client file metadata
  end.

(** ** The chunk loop *)

Inductive RunOutcome :=
| RunDone
| RunAborted
| RunRestart (file : WebFile) (options : TusStartOptions).

(** What every interrupted upload ends with. *)
Definition end_upload (mk : string) (r : RunOutcome) : EM RunOutcome :=
  do! update_page (remove_entry mk) in
  do! update_state reset_state in
  ret r.

(** How the attempts at a chunk end: the server has come to an offset, the upload is
    paused, or over. *)
Inductive ChunkEnd := Advanced (offset : N) | Suspended | Over (r : RunOutcome).

(** An interrupt while a chunk is tried. *)
Definition interrupted (mk : string) (i : Interrupt) : EM ChunkEnd :=
  match i with
  | Aborted => let! r := end_upload mk RunAborted in ret (Over r)
  | Restart file options => let! r := end_upload mk (RunRestart file options) in ret (Over r)
  | Paused => do! update_state (with_status UploadStatus.Paused) in ret Suspended
  end.

(** ['recover_head]: the server's view of the upload and the number of attempts so far, or
    how the chunk ended; at most [n] more attempts. *)
Fixpoint recover_head (n : nat) (c : TusConfig) (client : Client) (url : WebUrl) (mk : string) (attempt : N)
    : EM (ChunkEnd + UploadInfo * N) :=
  let! r := race_recovery_request c (client_call (upload_info_at client url)) in
  match r.1 with
  | inr (inr (inr remote)) => ret (inr (remote, attempt))
  | inr (inr (inl e)) =>
      if negb (is_retryable_error e) || (tc_max_retries c <=? attempt) then throw (tus_error_from e)
      else
        let! i := wait_retry_backoff c attempt in
        match i, n with
        | Some i, _ => let! r := interrupted mk i in ret (inl r)
        | None, Datatypes.S n => recover_head n c client url mk (attempt + 1)
        | None, O => throw (tus_error_from e)
        end
  | inr (inl e) => throw e
  | inl i => let! r := interrupted mk i in ret (inl r)
  end.

(** ['retry]: at most [n] more attempts. *)
Fixpoint retry_chunk (n : nat) (c : TusConfig) (client : Client) (url : WebUrl) (mk : string) (file : WebFile)
    (offset stop attempt : N) (current_chunk : bytes) : EM ChunkEnd :=
  let chunk_for_attempt := current_chunk in
  let current_chunk := if attempt =? 0 then [] else current_chunk in
  let! r := await (client_call (upload_chunk_at client url chunk_for_attempt offset)) in
  match r with
  | inr o =>
      do! of_outcome (validate_patch_offset offset o (blob_size file)) in
      ret (Advanced o)
  | inl e =>
      if tc_max_retries c <=? attempt then throw (tus_error_from e)
      else if negb (is_retryable_error e) then throw (tus_error_from e)
      else
        let! recovered := recover_head (N.to_nat (tc_max_retries c)) c client url mk attempt in
        match recovered with
        | inl ended => ret ended
        | inr (remote, attempt) =>
            do! of_outcome (validate_resume_info remote (blob_size file)) in
            if ui_offset remote <? offset
            then throw (TusError.Transport ("server offset " ++ u64_to_string (ui_offset remote) ++
                   " is below local retry offset " ++ u64_to_string offset))
            else if offset <? ui_offset remote then ret (Advanced (ui_offset remote))
            else
              let! current_chunk :=
                match current_chunk with
                | [] => await (blob_slice_to_bytes file offset stop)
                | _ => ret current_chunk
                end in
              let! i := wait_retry_backoff c attempt in
              match i, n with
              | Some i, _ => interrupted mk i
              | None, Datatypes.S n => retry_chunk n c client url mk file offset stop (attempt + 1) current_chunk
              | None, O => throw (tus_error_from e)
              end
        end
  end.

Definition persist_entry (mk endpoint : string) (file : WebFile) (url : string) (bytes_uploaded : N)
    (stored_at_ms : f64) : EM unit :=
  act (fun w =>
    (tt, set_page (put (mkResumableEntry mk endpoint (file_name file) (blob_size file)
                          (file_last_modified file) url bytes_uploaded stored_at_ms)
                     (ew_now w) (ew_page w)).2 w)).

Definition date_now : EM f64 := act (fun w => (ew_now w, w)).

(** What the loop carries from chunk to chunk. *)
Record LoopState := mkLoopState {
  ls_offset : N;
  ls_paused : bool;
  ls_persisted_offset : N;
  ls_persisted_at_ms : f64;
}.

Definition at_offset (offset : N) (s : LoopState) : LoopState :=
  mkLoopState offset (ls_paused s) (ls_persisted_offset s) (ls_persisted_at_ms s).
Definition pausing (paused : bool) (s : LoopState) : LoopState :=
  mkLoopState (ls_offset s) paused (ls_persisted_offset s) (ls_persisted_at_ms s).

(** The offset is written to [localStorage] every two seconds, every twentieth of the
    file, and at its end. *)
Definition persist_progress (mk endpoint : string) (file : WebFile) (url : string) (started_at_ms : f64)
    (s : LoopState) : EM LoopState :=
  let! now_ms := date_now in
  let offset := ls_offset s in
  let bytes_delta := offset - ls_persisted_offset s in
  let progress_threshold := N.max (blob_size file / 20) 1 in
  if SFltb (f64_of_N 2000) (f64_sub now_ms (ls_persisted_at_ms s))
     || (progress_threshold <=? bytes_delta) || (offset =? blob_size file)
  then
    do! persist_entry mk endpoint file url offset started_at_ms in
    ret (mkLoopState offset (ls_paused s) offset now_ms)
  else ret s.

(** The end of an upload: it is over, or the loop goes on. *)
Definition LoopTurn : Type := RunOutcome + LoopState.

(** The command at the head of the channel, if there is one. *)
Definition turn_command (mk : string) (s : LoopState) : EM LoopTurn :=
  let! polled := act poll_command in
  match polled with
  | Command UploadCommand.Pause =>
      do! update_state (with_status UploadStatus.Paused) in ret (inr (pausing true s))
  | Command UploadCommand.Resume =>
      do! update_state (with_status UploadStatus.Uploading) in ret (inr (pausing false s))
  | Command UploadCommand.Abort | Closed => let! r := end_upload mk RunAborted in ret (inl r)
  | Command (UploadCommand.Start file options) =>
      let! r := end_upload mk (RunRestart file options) in ret (inl r)
  | Nothing => ret (inr s)
  end.

Definition turn_paused (mk : string) (s : LoopState) : EM LoopTurn :=
  let! cmd := next_command in
  match cmd with
  | Some UploadCommand.Resume =>
      do! update_state (with_status UploadStatus.Uploading) in ret (inr (pausing false s))
  | Some UploadCommand.Abort | None => let! r := end_upload mk RunAborted in ret (inl r)
  | Some (UploadCommand.Start file options) =>
      let! r := end_upload mk (RunRestart file options) in ret (inl r)
  | Some UploadCommand.Pause => ret (inr s)
  end.

Definition turn_chunk (c : TusConfig) (client : Client) (url : WebUrl) (mk : string) (file : WebFile)
    (url_text : string) (started_at_ms : f64) (s : LoopState) : EM LoopTurn :=
  let offset := ls_offset s in
  let stop := N.min (offset + N.max (tc_chunk_size c) 1) (blob_size file) in
  let! chunk := await (blob_slice_to_bytes file offset stop) in
  let! ended := retry_chunk (N.to_nat (tc_max_retries c)) c client url mk file offset stop 0 chunk in
  match ended with
  | Suspended => ret (inr (pausing true s))
  | Over r => ret (inl r)
  | Advanced offset =>
      do! update_state (fun u => mkTusUploadState (us_status u) offset (us_bytes_total u) (us_upload_url u)
                                   (us_error u)) in
      let! s := persist_progress mk (tc_endpoint c) file url_text started_at_ms (at_offset offset s) in
      ret (inr s)
  end.

(** One turn of ['chunk_loop]. *)
Definition chunk_turn (c : TusConfig) (client : Client) (url : WebUrl) (mk : string) (file : WebFile)
    (url_text : string) (started_at_ms : f64) (s : LoopState) : EM LoopTurn :=
  let! t := turn_command mk s in
  match t with
  | inl r => ret (inl r)
  | inr s =>
      if ls_paused s then turn_paused mk s
      else turn_chunk c client url mk file url_text started_at_ms s
  end.

(** ['chunk_loop] and what follows it; [None] when the fuel is used up. *)
Fixpoint chunk_loop (fuel : nat) (c : TusConfig) (client : Client) (url : WebUrl) (mk : string)
    (file : WebFile) (url_text : string) (started_at_ms : f64) (s : LoopState) : EM (option RunOutcome) :=
  if ls_offset s <? blob_size file
  then
    match fuel with
    | O => ret None
    | Datatypes.S fuel =>
        let! t := chunk_turn c client url mk file url_text started_at_ms s in
        match t with
        | inl r => ret (Some r)
        | inr s => chunk_loop fuel c client url mk file url_text started_at_ms s
        end
    end
  else
    do! update_page (remove_entry mk) in
    do! update_state (fun u => mkTusUploadState UploadStatus.Complete (blob_size file) (us_bytes_total u)
                                 (us_upload_url u) (us_error u)) in
    ret (Some RunDone).

(** The commands and the moments to come. *)
Fixpoint script_events (script : list Moment) : nat :=
  match script with
  | [] => 0
  | m :: script => Datatypes.S (length (mo_calls m) + script_events script)
  end.

Definition pending_events (w : W) : nat :=
  (length (wk_channel (ew_worker w)) + script_events (ew_script w))%nat.

(** Every turn of the loop reads a command or lets a moment pass, until the script is over
    and the channel empty. *)
Definition loop_fuel (w : W) : nat := Datatypes.S (pending_events w).

(** ** An upload *)

(** An interrupt before the loop. *)
Definition pre_loop_interrupted (was_resuming : bool) (mk : string) (i : Interrupt) : EM RunOutcome :=
  do! (if was_resuming then update_page (remove_entry mk) else ret tt) in
  do! update_state reset_state in
  ret match i with Restart file options => RunRestart file options | _ => RunAborted end.

(** The client of an upload starts without capabilities. *)
Definition fresh_client : EM unit :=
  act (fun w =>
    let k := ew_client w in
    (tt, set_client (mkClientWorld _ _ (cw_transport k) None (cw_sent k) (cw_progress k) (cw_slept k)
                       (cw_provided k) (cw_consulted k) (cw_draws k) (cw_reads k) (cw_parallel k)) w)).

(** The time an upload counts as stored from. *)
Definition upload_started_at (c : TusConfig) (mk : string) : EM f64 :=
  act (fun w =>
    (match get (tc_endpoint c) mk (ew_now w) (ew_page w) with
     | Some entry => re_stored_at_ms entry
     | None => ew_now w
     end, w)).

(** From the URL and the offset on. *)
Definition run_from (c : TusConfig) (client : Client) (file : WebFile) (mk url : string) (offset : N)
    (paused : bool) : EM (option RunOutcome) :=
  do! of_outcome (validate_server_offset offset (blob_size file)) in
  let! upload := of_outcome (from_client (upload_at client url)) in
  do! update_state (fun _ =>
        mkTusUploadState (if paused then UploadStatus.Paused else UploadStatus.Uploading) offset
          (Some (blob_size file)) (Some url) None) in
  let! persisted_at := date_now in
  let! started_at := upload_started_at c mk in
  do! persist_entry mk (tc_endpoint c) file url offset started_at in
  let! fuel := act (fun w => (loop_fuel w, w)) in
  chunk_loop fuel c client upload mk file url started_at (mkLoopState offset paused offset persisted_at).

Definition run_upload (c : TusConfig) (file : WebFile) (options : TusStartOptions) (url : option string)
    : EM (option RunOutcome) :=
  let! client := of_outcome (upload_client c options) in
  do! fresh_client in
  let mk := match_key_of (tc_endpoint c) file in
  let! r := race_pre_loop_request c (pre_loop_future c client file options url mk) false in
  match r with
  | (inl i, _) =>
      let! r := pre_loop_interrupted (bool_decide (is_Some url)) mk i in
      ret (Some r)
  | (inr (inl e), _) => throw e
  | (inr (inr (url, offset)), paused) => run_from c client file mk url offset paused
  end.

(** ** The command loop *)

(** The uploads of one [Start] and of those that replace it; [None] when the fuel is used up. *)
Fixpoint run_starts (fuel : nat) (c : TusConfig) (file : WebFile) (options : TusStartOptions)
    : EM (option unit) :=
  let! result := attempt (run_upload c file options (existing_url options)) in
  match result with
  | inr None => ret None
  | inr (Some RunDone) | inr (Some RunAborted) => ret (Some tt)
  | inr (Some (RunRestart file options)) =>
      match fuel with
      | O => ret None
      | Datatypes.S fuel => run_starts fuel c file options
      end
  | inl e =>
      do! update_state (fun u => mkTusUploadState UploadStatus.Error (us_bytes_uploaded u) (us_bytes_total u)
                                   (us_upload_url u) (Some e)) in
      ret (Some tt)
  end.

(** [run_command_loop]; [None] when the fuel is used up. *)
Fixpoint run_command_loop (fuel : nat) (c : TusConfig) : EM (option unit) :=
  let! cmd := next_command in
  match cmd, fuel with
  | None, _ => ret (Some tt)
  | Some _, O => ret None
  | Some UploadCommand.Abort, Datatypes.S fuel =>
      do! update_state (fun _ => default_upload_state) in
      run_command_loop fuel c
  | Some UploadCommand.Pause, Datatypes.S fuel =>
      do! update_state (fun u => if us_is_uploading u then with_status UploadStatus.Paused u else u) in
      run_command_loop fuel c
  | Some UploadCommand.Resume, Datatypes.S fuel =>
      do! update_state (fun u => if us_is_paused u then with_status UploadStatus.Uploading u else u) in
      run_command_loop fuel c
  | Some (UploadCommand.Start file options), Datatypes.S fuel' =>
      let! r := run_starts fuel c file options in
      match r with
      | None => ret None
      | Some _ => run_command_loop fuel' c
      end
  end.

(** The task of a mounted component. *)
Definition use_tus_upload (c : TusConfig) : EM (option unit) :=
  let! fuel := act (fun w => (loop_fuel w, w)) in
  run_command_loop fuel c.
End engine.

Arguments Ready {H0 H2 A} r.
Arguments Sync {H0 H2 A B} f k.
Arguments Await {H0 H2 A B} f k.
