(* ===== verification/UploadEngineFacts.v ===== *)
(** * Reasoning about the upload engine

    [guarded I] is an instance of [ClientLogic]: what holds of a client's program and,
    besides, an invariant after every one of its steps, so that it may be dropped
    anywhere.  [fwp] carries it over to the futures of the engine, whatever happens in
    their moments; [wp_await] and [wp_race] give what awaiting and racing them does. *)

From stdpp Require Import gmap.
From Stdlib Require Import SpecFloat.
From S2P Require Import Prelude Text Errors Crates Config State Headers ClientError ClientHelpers Client.
From S2P Require Import ClientFacts Dioxus Persistence UploadEngine.
Local Open Scope string_scope.
Local Open Scope N_scope.
Local Open Scope prog_scope.

Section facts.
Context `{UrlLaws} `{HttpClientLib} `{!HttpLaws} `{!Transport} `{ClientSystem, Base64, Digests, HashOrder,
  EntryJson, Quota}.
Local Abbreviation C := ClientWorld.
Local Abbreviation W := EngineWorld.
Local Abbreviation EM := (prog TusError.t EngineWorld).

(** ** Client programs that may be dropped *)

Section guarded.
Context (I : C -> Prop).

Fixpoint gwp {A} (m : CM C A) (Q : cresult A -> C -> Prop) (c : C) : Prop :=
  match m with
  | Done r => Q r c
  | Act f k => I (f c).2 /\ gwp (k (f c).1) Q (f c).2
  end.

Lemma gwp_mono {A} (m : CM C A) (Q Q' : cresult A -> C -> Prop) c :
  gwp m Q c -> (forall r c', Q r c' -> Q' r c') -> gwp m Q' c.
Proof.
  intros Hm HQ. revert c Hm. induction m as [r|B f k IH]; intros c; cbn; [apply HQ|].
  intros [? ?]. split; [done|]. by apply IH.
Qed.

Lemma gwp_invariant {A} (m : CM C A) Q c : I c -> gwp m Q c -> gwp m (fun r c' => I c' /\ Q r c') c.
Proof.
  revert c. induction m as [r|B f k IH]; intros c; cbn; [done|]. intros _ [? ?]. split; [done|]. by apply IH.
Qed.

Lemma gwp_bind {A B} (m : CM C A) (k : A -> CM C B) Q c :
  gwp m (fun r c' => match r with Ok a => gwp (k a) Q c' | Err e => Q (Err e) c' | Panic => Q Panic c' end) c ->
  gwp (bind m k) Q c.
Proof.
  revert c. induction m as [[a|e|]|D f d IH]; intros c; cbn; try done. intros [? ?]. split; [done|]. by apply IH.
Qed.

Lemma gwp_attempt {A} (m : CM C A) (Q : cresult (ClientError.t + A) -> C -> Prop) c :
  gwp m (fun r c' => match r with Ok a => Q (Ok (inr a)) c' | Err e => Q (Ok (inl e)) c' | Panic => Q Panic c' end) c ->
  gwp (attempt m) Q c.
Proof.
  revert c. induction m as [[a|e|]|D f d IH]; intros c; cbn; try done. intros [? ?]. split; [done|]. by apply IH.
Qed.

(** Counters and pauses do not matter to the invariant. *)
Class Quiet : Prop := {
  quiet_counted c c' : counted c c' -> I c -> I c';
  quiet_slept c c' : slept c c' -> I c -> I c';
}.

#[refine] Instance guarded `{!Quiet} : ClientLogic := {|
  lstate := C;
  holds A m Q c := I c -> gwp m (fun r c' => I c' -> Q r c') c;
  quiet := counted;
  paused := slept;
  can_send r _ := forall answer c c', I c -> answered r answer c c' -> I c';
  exchanged := answered;
|}.
Proof.
  - cbn. auto.
  - intros A m Q Q' c Hm HQ HI. eapply gwp_mono; [apply (Hm HI)|]. cbn. auto.
  - intros A B m k Q c Hm HI. apply gwp_bind. eapply gwp_mono; [apply (gwp_invariant _ _ _ HI (Hm HI))|].
    cbn. intros [a|e|] c' [HI' Hq]; auto.
  - intros A m Q c Hm HI. apply gwp_attempt. eapply gwp_mono; [apply (Hm HI)|]. cbn. intros [a|e|] c'; auto.
  - intros A B f k Q c Hf HQ HI. cbn. assert (I (f c).2) by by eapply quiet_counted. split; [done|].
    by apply (HQ c).
  - intros A B f k Q c Hf HQ HI. cbn. assert (I (f c).2) by by eapply quiet_slept. split; [done|].
    by apply (HQ c).
  - intros r Q c Hc HQ HI. unfold send. cbn.
    destruct (transport_send r (cw_transport c)) as [answer t] eqn:Hs. cbn.
    assert (forall c', c' = mkClientWorld _ _ t (cw_capabilities c) (cw_sent c ++ [r])%list (cw_progress c)
      (cw_slept c) (cw_provided c) (cw_consulted c) (cw_draws c) (cw_reads c) (cw_parallel c) ->
      answered r answer c c') as Ha.
    { intros c' ->. unfold answered. cbn. done. }
    split; [eapply Hc; [done|by apply Ha]|]. intros _. by apply HQ, Ha.
  - done.
  - unfold counted. intuition congruence.
  - intros w w' (Q1 & Q2 & Q3 & Q4 & Q5). unfold slept. rewrite Q1, Q2, Q3, Q4, Q5. split_and!; auto.
  - intros w1 w2 w3 (Q1 & Q2 & Q3 & Q4 & Q5). unfold slept. by rewrite Q1, Q2, Q3, Q4, Q5.
  - done.
  - intros r answer w1 w2 w3 (Q1 & Q2 & Q3 & Q4 & Q5). unfold answered. by rewrite Q1, Q2, Q3, Q4, Q5.
  - intros r answer w w' (Hs & _). exists (cw_transport w). by rewrite Hs.
Defined.

(** ** Futures *)

(** What holds of the client when the future is done, for every course of events; the
    invariant holds whenever it may be dropped. *)
Fixpoint fwp {A} (m : future A) (Q : outcome TusError.t A -> C -> Prop) (c : C) : Prop :=
  match m with
  | Ready r => Q r c
  | Sync f k => (forall w, ew_client (f w).2 = ew_client w) /\ forall b, fwp (k b) Q c
  | Await f k => forall mo w, ew_client w = c ->
      I (ew_client (f mo w).2) /\ fwp (k (f mo w).1) Q (ew_client (f mo w).2)
  end.

Lemma fwp_mono {A} (m : future A) (Q Q' : outcome TusError.t A -> C -> Prop) c :
  fwp m Q c -> (forall r c', Q r c' -> Q' r c') -> fwp m Q' c.
Proof.
  intros Hm HQ. revert c Hm. induction m as [r|B f k IH|B f k IH]; intros c; cbn; [apply HQ| |].
  - intros [? Hb]. split; [done|]. intros b. by apply IH.
  - intros Hm mo w Hw. destruct (Hm mo w Hw) as [? ?]. split; [done|]. by apply IH.
Qed.

Lemma fwp_invariant {A} (m : future A) Q c : I c -> fwp m Q c -> fwp m (fun r c' => I c' /\ Q r c') c.
Proof.
  revert c. induction m as [r|B f k IH|B f k IH]; intros c; cbn; [done| |].
  - intros HI [? Hb]. split; [done|]. intros b. by apply IH.
  - intros _ Hm mo w Hw. destruct (Hm mo w Hw) as [? ?]. split; [done|]. by apply IH.
Qed.

Lemma fwp_bind {A B} (m : future A) (k : A -> future B) Q c :
  fwp m (fun r c' => match r with Ok a => fwp (k a) Q c' | Err e => Q (Err e) c' | Panic => Q Panic c' end) c ->
  fwp (fbind m k) Q c.
Proof.
  revert c. induction m as [[a|e|]|D f d IH|D f d IH]; intros c; cbn; try done.
  - intros [? Hb]. split; [done|]. intros b. by apply IH.
  - intros Hm mo w Hw. destruct (Hm mo w Hw) as [? ?]. split; [done|]. by apply IH.
Qed.

Lemma fwp_client_call {A} (m : CM C A) (Q : outcome TusError.t (ClientError.t + A) -> C -> Prop) c :
  gwp m (fun r c' => match r with Ok a => Q (Ok (inr a)) c' | Err e => Q (Ok (inl e)) c' | Panic => Q Panic c' end) c ->
  fwp (client_call m) Q c.
Proof.
  revert c. induction m as [[a|e|]|D f d IH]; intros c; cbn; try done.
  intros [HI Hm] mo w <-. destruct (f (ew_client w)) as [b c']. cbn in *. split; [done|]. by apply IH.
Qed.

Lemma next_moment_client w : ew_client (next_moment w).2 = ew_client w.
Proof. unfold next_moment. by destruct (ew_script w). Qed.

Lemma look_client policy closed p w : ew_client (look policy closed p w).2 = ew_client w.
Proof. unfold look. by destruct (read_commands policy p (wk_channel (ew_worker w))) as [[? ?] ?]. Qed.

Lemma drop_future_client endpoint w : ew_client (drop_future endpoint w) = ew_client w.
Proof. unfold drop_future. by destruct (ew_fetching w). Qed.

Lemma wp_await {A} (m : future A) (Q : outcome TusError.t A -> C -> Prop) w :
  fwp m Q (ew_client w) -> wp (await m) (fun r w' => Q r (ew_client w')) w.
Proof.
  revert w. induction m as [r|B f k IH|B f k IH]; intros w; cbn.
  - done.
  - intros [Hf Hb]. unfold wp. rewrite run_Act. specialize (Hf w). destruct (f w) as [b w']. cbn in Hf.
    apply IH. rewrite Hf. apply Hb.
  - intros Hm. unfold wp. rewrite run_Act. pose proof (next_moment_client w) as Hc.
    destruct (next_moment w) as [mo w1]. cbn in Hc. destruct (Hm mo w1 Hc) as [_ Hk].
    destruct (f mo w1) as [b w2]. by apply IH.
Qed.

(** A race is lost at a moment in which the invariant holds, or won as the future ends. *)
Lemma wp_race {A} endpoint policy closed p (m : future A) (Q : outcome TusError.t A -> C -> Prop) w :
  I (ew_client w) -> fwp m Q (ew_client w) ->
  wp (race endpoint policy closed p m) (fun r w' => I (ew_client w') /\
    match r with
    | Ok (inl i, _) => True
    | Ok (inr (inr a), _) => Q (Ok a) (ew_client w')
    | Ok (inr (inl e), _) => Q (Err e) (ew_client w')
    | Err _ => False
    | Panic => Q Panic (ew_client w')
    end) w.
Proof.
  revert p w. induction m as [[a|e|]|B f k IH|B f k IH]; intros p w HI; cbn; try done.
  - intros [Hf Hb]. unfold wp. rewrite run_Act. specialize (Hf w). destruct (f w) as [b w']. cbn in Hf.
    apply IH; rewrite Hf; [done|apply Hb].
  - intros Hm. unfold wp. rewrite run_Act. pose proof (next_moment_client w) as Hc.
    destruct (next_moment w) as [mo w1]. cbn in Hc.
    pose proof (look_client policy closed p w1) as Hl.
    destruct (look policy closed p w1) as [[i p'] w2]. cbn in Hl. rewrite <- Hl in Hc.
    destruct (Hm mo w2 Hc) as [HI' Hk]. destruct i as [i|].
    + cbn. split; [|done]. rewrite drop_future_client. destruct (mo_delivered mo); [done|by rewrite Hc].
    + destruct (f mo w2) as [b w3]. by apply IH.
Qed.

Lemma holds_client_call `{!Quiet} {A} (m : CM C A) (Q : cresult A -> C -> Prop) c :
  I c -> holds (ClientLogic := guarded) m Q c ->
  fwp (client_call m) (fun r c' => I c' /\
    match r with Ok (inr a) => Q (Ok a) c' | Ok (inl e) => Q (Err e) c' | Err _ => False | Panic => Q Panic c' end) c.
Proof.
  intros HI Hm. apply fwp_client_call. eapply gwp_mono; [apply (gwp_invariant _ _ _ HI (Hm HI))|].
  cbn. intros [a|e|] c' [HI' HQ]; auto.
Qed.
End guarded.

Lemma fwp_weaken {A} (I I' : C -> Prop) (m : future A) Q c :
  (forall c, I c -> I' c) -> fwp I m Q c -> fwp I' m Q c.
Proof.
  intros HI. revert c. induction m as [r|B f k IH|B f k IH]; intros c; cbn; [done| |].
  - intros [? Hb]. split; [done|]. intros b. by apply IH.
  - intros Hm mo w Hw. destruct (Hm mo w Hw) as [? ?]. split; [by apply HI|]. by apply IH.
Qed.

(** Of any request: its errors are values. *)
Lemma fwp_client_any {A} (m : CM C A) c :
  fwp (fun _ => True) (client_call m) (fun r _ => match r with Err _ => False | _ => True end) c.
Proof.
  revert c. induction m as [[a|e|]|D f k IH]; intros c; cbn; [done..|].
  intros mo w <-. destruct (f (ew_client w)) as [b c']. split; [done|]. apply IH.
Qed.

(** ** Commands and moments run out *)

Local Abbreviation pending := pending_events.

Lemma handle_calls_channel l k :
  length (wk_channel (foldl (fun k cmd => handle_call cmd k) k l)) = (length (wk_channel k) + length l)%nat.
Proof.
  revert k. induction l as [|cmd l IH]; intros k; cbn; [lia|]. rewrite IH.
  assert (length (wk_channel (handle_call cmd k)) = S (length (wk_channel k))) as ->; [|lia].
  destruct cmd; cbn; rewrite length_app; cbn; lia.
Qed.

Lemma apply_moment_pending m rest w :
  ew_script w = m :: rest -> pending w = S (pending (apply_moment m rest w)).
Proof.
  intros Hs. unfold pending_events. rewrite Hs. cbn. rewrite handle_calls_channel. lia.
Qed.

Lemma next_moment_pending w :
  match ew_script w with
  | [] => pending (next_moment w).2 = pending w
  | _ => pending w = S (pending (next_moment w).2)
  end.
Proof. unfold next_moment. destruct (ew_script w) eqn:Hs; [done|]. by apply apply_moment_pending. Qed.

Lemma next_moment_le w : (pending (next_moment w).2 <= pending w)%nat.
Proof. pose proof (next_moment_pending w) as Hn. destruct (ew_script w); lia. Qed.

Lemma read_commands_le policy p l :
  let '(i, _, rest) := read_commands policy p l in
  (length rest <= length l)%nat /\ (is_Some i -> length rest < length l)%nat.
Proof.
  revert p. induction l as [|cmd l IH]; intros p; cbn; [split; [done|by intros []]|].
  destruct (policy p cmd) as [i|p']; cbn; [lia|]. specialize (IH p').
  destruct (read_commands policy p' l) as [[i q] rest]. destruct IH as [? Hi]. split; [lia|]. intros ?%Hi. lia.
Qed.

Lemma set_channel_pending l w :
  (pending (set_channel l w) + length (wk_channel (ew_worker w)) = pending w + length l)%nat.
Proof. unfold pending_events. cbn. lia. Qed.

Lemma look_pending policy closed p w :
  let '((i, _), w') := look policy closed p w in
  (pending w' <= pending w)%nat /\ (i <> None -> i <> closed -> pending w' < pending w)%nat.
Proof.
  unfold look. pose proof (read_commands_le policy p (wk_channel (ew_worker w))) as Hr.
  destruct (read_commands policy p (wk_channel (ew_worker w))) as [[i q] rest]. destruct Hr as [Hle Hlt].
  pose proof (set_channel_pending rest w) as Hp. split; [lia|].
  destruct i as [i|]; [|by destruct (ew_script w)].
  intros _ _. specialize (Hlt ltac:(by eexists)). lia.
Qed.

Lemma poll_command_pending w :
  match poll_command w with
  | (Command _, w') => (pending w' < pending w)%nat
  | (Closed, w') => w' = w
  | (Nothing, w') => w' = w /\ ew_script w <> []
  end.
Proof.
  unfold poll_command. destruct (wk_channel (ew_worker w)) as [|cmd rest] eqn:Hc.
  - by destruct (ew_script w).
  - pose proof (set_channel_pending rest w) as Hp. rewrite Hc in Hp. cbn [length] in Hp.
    change (pending (set_channel rest w) < pending w)%nat. lia.
Qed.

Lemma poll_command_client w : ew_client (poll_command w).2 = ew_client w.
Proof. unfold poll_command. by destruct (wk_channel _), (ew_script w). Qed.

Lemma wait_command_spec script w :
  ew_script w = script ->
  let '(cmd, w') := wait_command script w in
  ew_client w' = ew_client w /\ (pending w' <= pending w)%nat /\ (is_Some cmd -> pending w' < pending w)%nat.
Proof.
  revert w. induction script as [|m rest IH]; intros w Hs; cbn [wait_command];
    destruct (wk_channel (ew_worker w)) as [|cmd l] eqn:Hc.
  - repeat split; [lia|by intros []].
  - pose proof (set_channel_pending l w) as Hp. rewrite Hc in Hp. cbn [length] in Hp. repeat split; intros; lia.
  - pose proof (apply_moment_pending m rest w Hs) as Hm.
    specialize (IH (apply_moment m rest w) eq_refl). destruct (wait_command rest _) as [cmd w'].
    destruct IH as (-> & ? & Hlt). repeat split; [lia|]. intros ?%Hlt. lia.
  - pose proof (set_channel_pending l w) as Hp. rewrite Hc in Hp. cbn [length] in Hp. repeat split; intros; lia.
Qed.

(** Futures leave the channel and the script alone. *)
Fixpoint lean {A} (m : future A) : Prop :=
  match m with
  | Ready _ => True
  | Sync f k => (forall w, pending (f w).2 = pending w) /\ forall b, lean (k b)
  | Await f k => (forall mo w, pending (f mo w).2 = pending w) /\ forall b, lean (k b)
  end.

Lemma lean_bind {A B} (m : future A) (k : A -> future B) : lean m -> (forall a, lean (k a)) -> lean (fbind m k).
Proof.
  intros Hm Hk. induction m as [[a|e|]|D f d IH|D f d IH]; cbn; try done.
  - destruct Hm as [? Hd]. split; [done|]. intros b. by apply IH.
  - destruct Hm as [? Hd]. split; [done|]. intros b. by apply IH.
Qed.

Lemma lean_client_call {A} (m : CM C A) : lean (client_call m).
Proof.
  induction m as [[a|e|]|D f d IH]; cbn; try done. split; [|done].
  intros _ w. by destruct (f (ew_client w)).
Qed.

Lemma drop_future_pending endpoint w : pending (drop_future endpoint w) = pending w.
Proof. unfold drop_future. by destruct (ew_fetching w). Qed.

Lemma wp_await_lean {A} (m : future A) w : lean m -> wp (await m) (fun _ w' => (pending w' <= pending w)%nat) w.
Proof.
  revert w. induction m as [r|B f k IH|B f k IH]; intros w; cbn.
  - intros _. apply wp_done. lia.
  - intros [Hf Hb]. unfold wp. rewrite run_Act. specialize (Hf w). destruct (f w) as [b w'].
    cbn [snd] in Hf.
    eapply wp_mono; [by apply IH|]. cbn beta. intros; lia.
  - intros [Hf Hb]. unfold wp. rewrite run_Act. pose proof (next_moment_le w) as Hle.
    destruct (next_moment w) as [mo w1]. specialize (Hf mo w1). destruct (f mo w1) as [b w2].
    cbn [snd] in *.
    eapply wp_mono; [by apply IH|]. cbn beta. intros; lia.
Qed.

(** An interrupt that is not the end of the channel comes from a command. *)
Lemma wp_race_lean {A} endpoint policy closed p (m : future A) w :
  lean m ->
  wp (race endpoint policy closed p m) (fun r w' => (pending w' <= pending w)%nat /\
    match r with Ok (inl i, _) => Some i <> closed -> (pending w' < pending w)%nat | _ => True end) w.
Proof.
  revert p w. induction m as [[a|e|]|B f k IH|B f k IH]; intros p w; cbn;
    try (intros _; apply wp_done; split; [lia|done]).
  - intros [Hf Hb]. unfold wp. rewrite run_Act. specialize (Hf w). destruct (f w) as [b w'].
    cbn [snd] in Hf. eapply wp_mono; [by apply IH|]. cbn beta. rewrite Hf. done.
  - intros [Hf Hb]. unfold wp. rewrite run_Act. pose proof (next_moment_le w) as Hle.
    destruct (next_moment w) as [mo w1]. cbn [snd] in Hle. pose proof (look_pending policy closed p w1) as Hl.
    destruct (look policy closed p w1) as [[i p'] w2]. destruct Hl as [Hl Hlt].
    specialize (Hf mo w2). destruct i as [i|].
    + assert (pending (drop_future endpoint (if mo_delivered mo then (f mo w2).2 else w2)) = pending w2) as Hd.
      { rewrite drop_future_pending. by destruct (mo_delivered mo). }
      unfold ret. rewrite run_Done, Hd. split; [lia|]. intros Hi. specialize (Hlt ltac:(done) Hi). lia.
    + destruct (f mo w2) as [b w3]. cbn [snd] in Hf. eapply wp_mono; [by apply IH|].
      cbn beta. intros [[[i|[e|a]] q]|e|] w'' [? Hi]; (split; [lia|]); try done. intros ?%Hi. lia.
Qed.
End facts.
