(* ===== verification/UploadEngineSpec.v ===== *)
(** * What the upload engine delivers ([dioxus-tus/src/hook.rs])

    Against a server that keeps the protocol, and whatever commands arrive at whatever
    moment: an upload that ends as complete has left the file on the server, one that is
    interrupted leaves a reset state and no entry in [localStorage], and every upload
    ends. *)

From stdpp Require Import gmap.
From Stdlib Require Import SpecFloat.
From S2P Require Import Prelude Text Errors Crates Config State Headers ClientError ClientHelpers Client.
From S2P Require Import ClientFacts ClientLoops ClientCreation ClientSpec ClientParallelFacts ClientParallelSpec.
From S2P Require Import Dioxus Persistence PersistenceSpec UploadEngine UploadEngineFacts.
Local Open Scope string_scope.
Local Open Scope N_scope.
Local Open Scope prog_scope.

#[local] Set Default Proof Using "All".

Section engine_rules.
Context `{UrlLaws} `{HttpClientLib} `{!HttpLaws} `{!Transport} `{ClientSystem, Base64, Digests, HashOrder,
  EntryJson, Quota}.
Context `{!AbsoluteUrls}.
Local Abbreviation C := ClientWorld.
Local Abbreviation W := EngineWorld.
Local Abbreviation EM := (prog TusError.t EngineWorld).
Local Abbreviation pending := pending_events.

#[local] Instance anything_quiet : Quiet (fun _ => True).
Proof. by split. Qed.

(** ** How an upload ends *)

Definition forgotten (mk : string) (w : W) : Prop :=
  forall endpoint now, get endpoint mk now (ew_page w) = None.

Definition was_reset (w : W) : Prop :=
  let u := wk_state (ew_worker w) in
  us_status u = UploadStatus.Idle /\ us_bytes_uploaded u = 0 /\ us_bytes_total u = None /\ us_upload_url u = None.

(** An interrupt: a restart has consumed the command it was caused by. *)
Definition interrupt_left (mk : string) (w0 : W) (r : RunOutcome) (w : W) : Prop :=
  forgotten mk w /\ was_reset w /\
  match r with
  | RunDone => False
  | RunAborted => True
  | RunRestart _ _ => (pending w < pending w0)%nat
  end.

Lemma wp_end_upload mk r w :
  wp (end_upload mk r) (fun x w' => x = Ok r /\ ew_client w' = ew_client w /\ pending w' = pending w /\
    forgotten mk w' /\ was_reset w') w.
Proof.
  unfold end_upload. apply wp_bind, wp_act, wp_bind, wp_act. apply wp_done. repeat split.
  intros endpoint now. cbn. rewrite get_remove. by rewrite decide_True.
Qed.

Lemma wp_update_state f w :
  wp (update_state f) (fun r w' => r = Ok tt /\ ew_client w' = ew_client w /\ pending w' = pending w /\
    ew_script w' = ew_script w /\ ew_page w' = ew_page w /\
    wk_state (ew_worker w') = f (wk_state (ew_worker w))) w.
Proof. by apply wp_act. Qed.

(** ** Reads and checks *)

Lemma lean_blob f start stop : lean (blob_slice_to_bytes f start stop).
Proof. by split. Qed.

Lemma wp_read (I : C -> Prop) f start stop w :
  I (ew_client w) ->
  wp (await (blob_slice_to_bytes f start stop)) (fun r w' => ew_client w' = ew_client w /\
    (pending w' <= pending w)%nat /\ (ew_script w <> [] -> (pending w' < pending w)%nat) /\
    match r with
    | Ok b => b = take (N.to_nat (stop - start)) (drop (N.to_nat start) (file_content f))
    | Err _ => True
    | Panic => False
    end) w.
Proof.
  intros _. unfold blob_slice_to_bytes. cbn [await]. unfold wp. rewrite run_Act.
  pose proof (next_moment_client w) as Hc. pose proof (next_moment_le w) as Hle.
  pose proof (next_moment_pending w) as Hp.
  destruct (next_moment w) as [mo w1]. cbn [snd] in *. rewrite run_Done.
  split; [done|]. split; [done|]. split; [intros Hs; destruct (ew_script w); [done|lia]|].
  by destruct (mo_read_error mo).
Qed.

Lemma validate_server_offset_ok n size : validate_server_offset n size = Ok tt -> n <= size.
Proof. unfold validate_server_offset. destruct (N.ltb_spec size n); [done|lia]. Qed.

Lemma validate_patch_offset_spec previous n size :
  match validate_patch_offset previous n size with
  | Ok _ => previous < n /\ n <= size
  | Err _ => True
  | Panic => False
  end.
Proof.
  unfold validate_patch_offset, validate_server_offset.
  destruct (N.ltb_spec size n); [done|]. cbn. destruct (N.leb_spec n previous); [done|lia].
Qed.

Lemma validate_resume_info_spec (info : UploadInfo) size :
  match validate_resume_info info size with
  | Ok _ => ui_offset info <= size
  | Err _ => True
  | Panic => False
  end.
Proof.
  unfold validate_resume_info, validate_server_offset.
  destruct (ui_length info) as [n|]; [destruct (negb (n =? size)); [done|]|]; cbn;
    (destruct (N.ltb_spec size (ui_offset info)); [done|lia]).
Qed.

(** ** The attempts at a chunk and the loop around them

    [J] holds whenever the engine may be interrupted, [A n] when the server has just
    stated the offset [n], [P] when a request panics. *)

Record server_view (P : Prop) (client : Client) (url : WebUrl) (f : WebFile) (J : C -> Prop) (A : N -> C -> Prop)
    : Prop := {
  sv_info c : J c ->
    fwp J (client_call (upload_info_at client url)) (fun r c' =>
      match r with
      | Ok (inr info) => A (ui_offset info) c'
      | Ok (inl _) => True
      | Err _ => False
      | Panic => P
      end) c;
  sv_chunk c offset stop : J c -> offset <= bytes_len (file_content f) ->
    fwp J (client_call (upload_chunk_at client url
             (take (N.to_nat (stop - offset)) (drop (N.to_nat offset) (file_content f))) offset))
    (fun r c' => J c' /\
      match r with
      | Ok (inr n) => A n c'
      | Ok (inl _) => True
      | Err _ => False
      | Panic => P
      end) c;
}.

Section attempts.
Context (P : Prop) (client : Client) (url : WebUrl) (f : WebFile) (J : C -> Prop) (A : N -> C -> Prop).
Context (view : server_view P client url f J A).
Local Abbreviation v := (file_content f).

(** What is known at the end of the attempts at a chunk that began at [offset]. *)
Definition chunk_left (mk : string) (offset : N) (w0 : W) (e : ChunkEnd) (w : W) : Prop :=
  match e with
  | Advanced n => offset < n /\ n <= bytes_len v /\ A n (ew_client w)
  | Suspended => True
  | Over r => interrupt_left mk w0 r w
  end.

Definition engine_post {R} (w0 : W) (Q : R -> W -> Prop)
    (r : outcome TusError.t R) (w : W) : Prop :=
  J (ew_client w) /\ (pending w <= pending w0)%nat /\
  match r with Ok a => Q a w | Err _ => True | Panic => P end.

Lemma wp_interrupted mk offset i w0 w :
  J (ew_client w) -> (pending w <= pending w0)%nat ->
  (Some i <> Some Aborted -> (pending w < pending w0)%nat) ->
  wp (interrupted mk i) (engine_post w0 (chunk_left mk offset w0)) w.
Proof.
  intros Hh Hp Hi. unfold interrupted.
  assert (forall r, match r with RunDone => False | RunAborted => True
                            | RunRestart _ _ => (pending w < pending w0)%nat end ->
    wp (let! r := end_upload mk r in ret (Over r)) (engine_post w0 (chunk_left mk offset w0)) w) as Hg.
  { intros r Hr. apply wp_bind. eapply wp_mono; [apply wp_end_upload|]. intros x w' (-> & Hc & Hp' & Hf & Hres).
    apply wp_done. split; [by rewrite Hc|]. split; [lia|]. split; [done|]. split; [done|].
    destruct r; [done|done|lia]. }
  destruct i as [| |file options].
  - by apply Hg.
  - apply wp_bind, wp_act, wp_done. by split.
  - apply Hg. by apply Hi.
Qed.

Lemma wp_backoff c attempt w :
  wp (wait_retry_backoff c attempt) (fun r w' => ew_client w' = ew_client w /\ (pending w' <= pending w)%nat /\
    match r with
    | Ok (Some i) => Some i <> Some Aborted -> (pending w' < pending w)%nat
    | Ok None => True
    | _ => False
    end) w.
Proof.
  apply wp_act. pose proof (next_moment_client w) as Hc. pose proof (next_moment_le w) as Hp.
  destruct (next_moment w) as [mo w1]. cbn [snd] in *.
  set (w2 := log_delay _ w1).
  assert (ew_client w2 = ew_client w /\ pending w2 = pending w1) as [Hc2 Hp2] by done.
  destruct (mo_timer_first mo); [by rewrite Hc2, Hp2|].
  pose proof (poll_command_pending w2) as Hpoll. pose proof (poll_command_client w2) as Hpc.
  destruct (poll_command w2) as [[[file options| | |]| |] w3]; cbn [snd] in *; rewrite Hpc, Hc2.
  1-4: (split; [done|]; split; [lia|]); try done; intros _; lia.
  - subst w3. split; [done|]. split; [lia|]. done.
  - destruct Hpoll as [-> _]. split; [done|]. split; [lia|]. done.
Qed.

Lemma wp_recover_head n c mk offset attempt w0 w :
  J (ew_client w) -> (pending w <= pending w0)%nat ->
  wp (recover_head n c client url mk attempt) (engine_post w0 (fun r w' =>
    match r with
    | inl e => chunk_left mk offset w0 e w'
    | inr (info, _) => A (ui_offset info) (ew_client w')
    end)) w.
Proof.
  revert attempt w. induction n as [|n IH]; intros attempt w Hh Hp.
  all: cbn [recover_head]; apply wp_bind; unfold race_recovery_request.
  all: eapply wp_mono; [apply wp_and; [apply wp_race; [exact Hh|by apply (sv_info _ _ _ _ _ _ view)]|apply wp_race_lean, lean_client_call]|].
  all: cbn beta; intros [[r q]|e|] w1 [[HI HQ] [Hp1 Hlt]]; [|done|by split; [|split; [lia|]]].
  all: cbn [fst]; destruct r as [i|[e|[e|info]]].
  1,5: apply wp_bind; eapply wp_mono; [apply (wp_interrupted mk offset i w0); [done|lia|]|].
  1,3: intros Hi; specialize (Hlt Hi); lia.
  1,2: intros [e|e|] w2 (? & ? & ?); [by apply wp_done|done|done].
  1,4: by destruct HQ.
  2,4: apply wp_done; by split; [|split; [lia|]].
  all: destruct (negb (is_retryable_error e) || (tc_max_retries c <=? attempt)); [apply wp_done; by split; [|split; [lia|]]|].
  all: apply wp_bind; eapply wp_mono; [apply wp_backoff|]; cbn beta; intros [[i|]|e'|] w2 (Hc2 & Hp2 & Hi2);
    try done; rewrite <- Hc2 in HI.
  1,3: apply wp_bind; eapply wp_mono; [apply (wp_interrupted mk offset i w0); [done|lia|]|].
  1,3: intros Hi; specialize (Hi2 Hi); lia.
  1,2: intros [e'|e'|] w3 (? & ? & ?); [by apply wp_done|done|done].
  - apply wp_done. by split; [|split; [lia|]].
  - apply IH; [done|lia].
Qed.

(** *** A chunk *)

Lemma wp_retry_chunk n c mk offset stop attempt chunk w0 w :
  offset <= bytes_len v ->
  J (ew_client w) -> (pending w <= pending w0)%nat ->
  chunk = take (N.to_nat (stop - offset)) (drop (N.to_nat offset) v) ->
  wp (retry_chunk n c client url mk f offset stop attempt chunk)
    (engine_post w0 (chunk_left mk offset w0)) w.
Proof.
  intros Hoff. revert attempt chunk w.
  induction n as [|n IH]; intros attempt chunk w Hh Hp Hchunk.
  all: cbn [retry_chunk]; apply wp_bind.
  all: eapply wp_mono; [apply wp_and; [|apply wp_await_lean, lean_client_call]|].
  1,3: rewrite Hchunk; apply (wp_await J); by apply (sv_chunk _ _ _ _ _ _ view).
  all: cbn beta; intros [[e|o]|e|] w1 [[HI HQ] Hp1]; [| |done|by split; [|split; [lia|]]].
  2,4: apply wp_bind, wp_done; pose proof (validate_patch_offset_spec offset o (blob_size f)) as Hv;
    destruct (validate_patch_offset offset o (blob_size f)) as [[]|e|]; [|by split; [|split; [lia|]]|done];
    apply wp_done; split; [done|]; split; [lia|]; split; [apply Hv|]; by split; [apply Hv|].
  all: destruct (tc_max_retries c <=? attempt); [apply wp_done; by split; [|split; [lia|]]|].
  all: destruct (negb (is_retryable_error e)); [apply wp_done; by split; [|split; [lia|]]|].
  all: apply wp_bind; eapply wp_mono; [apply (wp_recover_head _ c mk offset attempt w0); [done|lia]|].
  all: cbn beta; intros [[ended|[info attempt']]|e1|] w2 (HI2 & Hp2 & HQ2); [by apply wp_done|..|done|done].
  all: apply wp_bind, wp_done; pose proof (validate_resume_info_spec info (blob_size f)) as Hv;
    destruct (validate_resume_info info (blob_size f)) as [[]|e1|]; [|by split|done].
  all: destruct (N.ltb_spec (ui_offset info) offset); [by apply wp_done|].
  all: destruct (N.ltb_spec offset (ui_offset info)); [apply wp_done; by repeat split|].
  all: set (current := if attempt =? 0 then [] else chunk).
  all: apply wp_bind.
  all: assert (wp (match current with
      | [] => await (blob_slice_to_bytes f offset stop)
      | _ :: _ => ret current
      end) (fun r w' => ew_client w' = ew_client w2 /\ (pending w' <= pending w2)%nat /\
        match r with Ok b => b = chunk | Err _ => True | Panic => False end) w2) as Hread.
  1,3: subst current; destruct (attempt =? 0); [|destruct chunk as [|x chunk]; [|by apply wp_done]].
  1-4: eapply wp_mono; [by apply (wp_read (fun _ => True))|]; intros r w' (? & ? & _ & Hr); split; [done|]; split; [done|];
    destruct r; [by rewrite Hchunk|done|done].
  all: eapply wp_mono; [exact Hread|]; cbn beta; intros [b|e2|] w3 (Hc3 & Hp3 & Hb); [|by split; [rewrite Hc3|split; [lia|]]|done].
  all: apply wp_bind; eapply wp_mono; [apply wp_backoff|]; cbn beta; intros [[i|]|e2|] w4 (Hc4 & Hp4 & Hi4); try done.
  1,3: apply (wp_interrupted mk offset i w0); [by rewrite Hc4, Hc3|lia|intros Hi; specialize (Hi4 Hi); lia].
  - apply wp_done. split; [by rewrite Hc4, Hc3|]. by split; [lia|].
  - apply IH; [by rewrite Hc4, Hc3|lia|congruence].
Qed.

(** ** The chunk loop *)

(** Between two turns: if everything was sent, the server has acknowledged it. *)
Definition loop_ready (s : LoopState) (w : W) : Prop :=
  J (ew_client w) /\ ls_offset s <= bytes_len v /\
  (ls_offset s = bytes_len v -> A (bytes_len v) (ew_client w)).

Definition turn_left (mk : string) (w0 : W) (t : LoopTurn) (w : W) : Prop :=
  match t with
  | inl r => interrupt_left mk w0 r w
  | inr s => loop_ready s w /\ (pending w < pending w0)%nat
  end.

Lemma wp_end_upload_turn mk r w0 w (Q : LoopTurn -> W -> Prop) :
  J (ew_client w) -> (pending w <= pending w0)%nat ->
  match r with RunDone => False | RunAborted => True | RunRestart _ _ => (pending w < pending w0)%nat end ->
  (forall w', interrupt_left mk w0 r w' -> Q (inl r) w') ->
  wp (let! r := end_upload mk r in ret (inl r)) (engine_post w0 Q) w.
Proof.
  intros Hh Hp Hr HQ. apply wp_bind. eapply wp_mono; [apply wp_end_upload|]. intros x w' (-> & Hc & Hp' & Hf & Hres).
  apply wp_done. split; [by rewrite Hc|]. split; [lia|]. apply HQ. split; [done|]. split; [done|].
  destruct r; [done|done|lia].
Qed.

Lemma wp_turn_paused mk s w0 w :
  loop_ready s w -> (pending w <= pending w0)%nat ->
  wp (turn_paused mk s) (engine_post w0 (turn_left mk w0)) w.
Proof.
  intros (Hh & Ho & Ha) Hp0. unfold turn_paused. apply wp_bind, wp_act.
  pose proof (wait_command_spec (ew_script w) w eq_refl) as Hw.
  destruct (wait_command (ew_script w) w) as [cmd w1]. destruct Hw as (Hc & Hp & Hlt).
  rewrite <- Hc in Hh, Ha. destruct cmd as [[file options| | |]|]; try specialize (Hlt ltac:(by eexists)).
  - apply wp_end_upload_turn; [done|lia|lia|done].
  - apply wp_done. split; [done|]. split; [lia|]. split; [by repeat split|lia].
  - apply wp_bind. eapply wp_mono; [apply wp_update_state|]. cbn beta. intros r w2 (-> & Hc2 & Hp2 & _).
    rewrite <- Hc2 in Hh, Ha. apply wp_done. split; [done|]. split; [lia|]. split; [by repeat split|lia].
  - apply wp_end_upload_turn; [done|lia|done|done].
  - apply wp_end_upload_turn; [done|lia|done|done].
Qed.

Lemma wp_persist_progress mk endpoint f0 url0 started s w :
  wp (persist_progress mk endpoint f0 url0 started s) (fun r w' => ew_client w' = ew_client w /\
    pending w' = pending w /\ exists s', r = Ok s' /\ ls_offset s' = ls_offset s) w.
Proof.
  apply wp_bind, wp_act.
  cbv beta iota zeta. match goal with |- context [if ?b then _ else _] => destruct b end; [apply wp_bind, wp_act|];
    apply wp_done; repeat split; by eexists.
Qed.

Lemma wp_turn_chunk c mk url_text started s w0 w :
  loop_ready s w -> ls_offset s < bytes_len v ->
  (pending w <= pending w0)%nat -> ew_script w <> [] \/ (pending w < pending w0)%nat ->
  wp (turn_chunk c client url mk f url_text started s) (engine_post w0 (turn_left mk w0)) w.
Proof.
  intros (Hh & Ho & Ha) Hmore Hp0 Hs. unfold turn_chunk.
  set (stop := N.min _ _). apply wp_bind. eapply wp_mono; [by apply (wp_read (fun _ => True))|].
  cbn beta. intros [b|e|] w1 (Hc1 & Hp1 & Hlt1 & Hb); [|split; [by rewrite Hc1|split; [lia|done]]|done].
  assert (pending w1 < pending w0)%nat as Hlt.
  { destruct Hs as [Hs|Hs]; [specialize (Hlt1 Hs); lia|lia]. }
  apply wp_bind. eapply wp_mono.
  { apply (wp_retry_chunk _ c mk (ls_offset s) stop 0 b w1 w1); [lia|by rewrite Hc1|done|done]. }
  cbn beta. intros [[n| |r]|e|] w2 (HI2 & Hp2 & HQ2); try (by split; [|split; [lia|]]).
  - destruct HQ2 as (Hgt & Hle & Hack). apply wp_bind, wp_act, wp_bind.
    eapply wp_mono; [apply wp_persist_progress|]. cbn beta. intros r w3 (Hc3 & Hp3 & s' & -> & Hs').
    apply wp_done. cbn in Hs', Hc3. assert (pending w3 = pending w2) as Hp3' by exact Hp3.
    split; [by rewrite Hc3|]. split; [lia|]. split; [|lia].
    split; [by rewrite Hc3|]. rewrite Hs', Hc3. split; [done|]. by intros <-.
  - apply wp_done. split; [done|]. split; [lia|]. split; [|lia].
    split; [done|]. split; [done|]. cbn. lia.
  - apply wp_done. split; [done|]. split; [lia|]. destruct HQ2 as (? & ? & Hr). split; [done|]. split; [done|].
    destruct r; [done|done|lia].
Qed.

Lemma wp_turn_command mk s w :
  loop_ready s w ->
  wp (turn_command mk s) (engine_post w (fun t w' =>
    match t with
    | inl r => interrupt_left mk w r w'
    | inr s' => loop_ready s' w' /\ ls_offset s' = ls_offset s /\
        (ew_script w' <> [] \/ (pending w' < pending w)%nat)
    end)) w.
Proof.
  intros (Hh & Ho & Ha). apply wp_bind, wp_act. cbv beta.
  pose proof (poll_command_pending w) as Hp. pose proof (poll_command_client w) as Hc.
  assert (forall r w1, ew_client w1 = ew_client w -> (pending w1 <= pending w)%nat ->
    match r with RunDone => False | RunAborted => True | RunRestart _ _ => (pending w1 < pending w)%nat end ->
    wp (let! r := end_upload mk r in ret (inl r)) (engine_post w (fun t w' =>
      match t with
      | inl r => interrupt_left mk w r w'
      | inr s' => loop_ready s' w' /\ ls_offset s' = ls_offset s /\
          (ew_script w' <> [] \/ (pending w' < pending w)%nat)
      end)) w1) as Hg.
  { intros r w1 Hc1 Hp1 Hr. apply wp_end_upload_turn; [by rewrite Hc1|done|done|done]. }
  destruct (poll_command w) as [[[file options| | |]| |] w1]; cbn [snd] in Hc.
  - apply Hg; [done|lia|lia].
  - apply wp_bind. eapply wp_mono; [apply wp_update_state|]. cbn beta. intros r w2 (-> & Hc2 & Hp2 & _).
    rewrite <- Hc, <- Hc2 in Hh, Ha. apply wp_done. split; [done|]. split; [lia|].
    split; [by repeat split|]. split; [done|]. right. lia.
  - apply wp_bind. eapply wp_mono; [apply wp_update_state|]. cbn beta. intros r w2 (-> & Hc2 & Hp2 & _).
    rewrite <- Hc, <- Hc2 in Hh, Ha. apply wp_done. split; [done|]. split; [lia|].
    split; [by repeat split|]. split; [done|]. right. lia.
  - apply Hg; [done|lia|done].
  - subst w1. apply Hg; [done|lia|done].
  - destruct Hp as [-> Hs]. apply wp_done. split; [done|]. split; [lia|]. split; [by repeat split|].
    split; [done|]. by left.
Qed.

Lemma interrupt_earlier mk w0 w1 r w :
  (pending w1 <= pending w0)%nat -> interrupt_left mk w1 r w -> interrupt_left mk w0 r w.
Proof. intros Hp (? & ? & Hr). split; [done|]. split; [done|]. destruct r; [done|done|lia]. Qed.

Lemma wp_chunk_turn c mk url_text started s w :
  loop_ready s w -> ls_offset s < bytes_len v ->
  wp (chunk_turn c client url mk f url_text started s) (engine_post w (turn_left mk w)) w.
Proof.
  intros Hready Hmore. unfold chunk_turn. apply wp_bind.
  eapply wp_mono; [by apply wp_turn_command|]. cbn beta.
  intros [[r|s']|e|] w1 (Hh1 & Hp1 & HQ1); [by apply wp_done| |by split; [|split]|by split; [|split]].
  destruct HQ1 as (Hready1 & Ho1 & Hs1). destruct (ls_paused s').
  - by apply wp_turn_paused.
  - apply wp_turn_chunk; [done|by rewrite Ho1|done|done].
Qed.

(** How an upload ends. *)
Definition upload_left (mk : string) (w0 : W) (r : RunOutcome) (w : W) : Prop :=
  match r with
  | RunDone => A (bytes_len v) (ew_client w) /\ forgotten mk w /\
      us_status (wk_state (ew_worker w)) = UploadStatus.Complete /\
      us_bytes_uploaded (wk_state (ew_worker w)) = bytes_len v
  | r => interrupt_left mk w0 r w
  end.

Lemma wp_chunk_loop fuel c mk url_text started s w0 w :
  loop_ready s w ->
  (pending w <= pending w0)%nat -> (pending w < fuel)%nat ->
  wp (chunk_loop fuel c client url mk f url_text started s)
    (engine_post w0 (fun r w' => exists r', r = Some r' /\ upload_left mk w0 r' w')) w.
Proof.
  revert s w. induction fuel as [|fuel IH]; intros s w Hready Hp0 Hf; [lia|].
  cbn [chunk_loop]. destruct (N.ltb_spec (ls_offset s) (blob_size f)) as [Hlt|Hge].
  - apply wp_bind. eapply wp_mono; [by apply (wp_chunk_turn c mk url_text started s)|].
    cbn beta. intros [[r|s']|e|] w1 (Hh1 & Hp1 & HQ1); [| |split; [done|split; [lia|done]]|split; [done|split; [lia|done]]].
    + apply wp_done. split; [done|]. split; [lia|]. exists r. split; [done|].
      apply (interrupt_earlier mk w0 w) in HQ1; [|done]. by destruct r; [destruct HQ1 as (_ & _ & [])|..].
    + destruct HQ1 as [Hready1 Hlt1]. apply IH; [done|lia|lia].
  - destruct Hready as (Hh & Ho & Ha). unfold blob_size in Hge.
    assert (ls_offset s = bytes_len v) as Heq by (unfold v in *; lia). specialize (Ha Heq).
    apply wp_bind, wp_act, wp_bind. eapply wp_mono; [apply wp_update_state|]. cbn beta.
    intros r w1 (-> & Hc & Hp & _ & Hpage & Hst). cbn in Hc. apply wp_done.
    split; [by rewrite Hc|]. split.
    { rewrite Hp. exact Hp0. }
    exists RunDone. split; [done|]. unfold upload_left. rewrite Hst, Hc. split; [done|].
    split; [|done]. intros endpoint now. rewrite Hpage. cbn. rewrite get_remove. by rewrite decide_True.
Qed.

End attempts.

(** ** The whole upload *)

Lemma from_client_upload_at client u : from_client (upload_at client (weburl_as_str u)) = Ok u.
Proof. unfold upload_at, resolve_upload_url. by rewrite weburl_join_absolute. Qed.

Lemma wp_run_from P c client url f J A mk offset p w0 w :
  server_view P client url f J A ->
  J (ew_client w) -> A offset (ew_client w) -> (pending w <= pending w0)%nat ->
  wp (run_from c client f mk (weburl_as_str url) offset p)
    (engine_post P J w0 (fun r w' => exists r', r = Some r' /\ upload_left f A mk w0 r' w')) w.
Proof.
  intros view Hh Hack Hp0. unfold run_from. apply wp_bind, wp_done.
  destruct (validate_server_offset offset (blob_size f)) as [[]|e|] eqn:Hv.
  2: by split; [|split].
  2: { unfold validate_server_offset in Hv. by destruct (blob_size f <? offset). }
  apply validate_server_offset_ok in Hv.
  apply wp_bind, wp_done. rewrite from_client_upload_at.
  apply wp_bind. eapply wp_mono; [apply wp_update_state|]. cbn beta. intros r w1 (-> & Hc1 & Hp1 & _).
  apply wp_bind, wp_act, wp_bind, wp_act, wp_bind, wp_act, wp_bind, wp_act.
  apply (wp_chunk_loop P client url f J A view).
  - split; [by cbn; rewrite Hc1|]. split; [exact Hv|]. cbn. rewrite Hc1. by intros <-.
  - change (pending w1 <= pending w0)%nat. lia.
  - unfold loop_fuel. lia.
Qed.

(** *** Creating it *)

Section creation.
Context (v : bytes) (R : WebUrl -> N -> C -> Prop).

(** What the answer to a creation of [v], or of its beginning, says. *)
Hypothesis creation_says : forall client len body r response url offset c c',
  default [] body `prefix_of` v -> body <> Some [] ->
  sent_to Method.POST (cl_endpoint client) r -> creates len (default [] body) r ->
  answered r (inr response) c c' -> created_at client body response url offset -> R url offset c'.

Definition created (r : outcome TusError.t (string * N)) (c : C) : Prop :=
  match r with
  | Ok (url, offset) => exists u, url = weburl_as_str u /\ R u offset c
  | Err _ => True
  | Panic => retry_after_overflows
  end.

Definition create_post (body : option bytes) {A} (r : outcome TusError.t (ClientError.t + A * UploadInfo)) (c : C) : Prop :=
  match r with
  | Ok (inr (_, info)) =>
      R (ui_url info) (ui_offset info) c /\ (body = None -> ui_offset info = 0)
  | Ok (inl _) => True
  | Err _ => False
  | Panic => retry_after_overflows
  end.

Lemma create_call client len body metadata c :
  default [] body `prefix_of` v -> body <> Some [] -> u64 len ->
  fwp (fun _ => True)
    (client_call (
       let! info := create_upload_request client len body metadata false in
       let! handle := of_outcome (upload_at client (weburl_as_str (ui_url info))) in
       ret (handle, info)))
    (create_post body) c.
Proof.
  intros Hp Hne Hlen. eapply fwp_mono; [apply (holds_client_call (fun _ => True) _
    (fun r c' => match r with
       | Ok (_, info) => R (ui_url info) (ui_offset info) c' /\ (body = None -> ui_offset info = 0)
       | Err _ => True | Panic => retry_after_overflows end) c I)|].
  - apply holds_bind, holds_create_upload_request; [done|done|]. intros r Hto Hc. split; [done|].
    intros answer c' Hx. split; [|split; [done|]].
    + intros (op & response & -> & Hpa). destruct Hx as (Hs & _).
      exists r, (cw_transport c). rewrite Hs. by exists op, response.
    + intros response url offset -> Hcr _.
      assert (R url offset c') as HR by exact (creation_says _ _ _ _ _ _ _ _ _ Hp Hne Hto Hc Hx Hcr).
      apply holds_bind, holds_done. cbn [ui_url].
      destruct (upload_at client (weburl_as_str url)) as [h|e|] eqn:Hat; [|done|].
      2: { unfold upload_at, resolve_upload_url in Hat. by destruct (weburl_join _ _). }
      apply holds_done. cbn [ui_url ui_offset]. split; [done|]. intros ->. apply Hcr.
  - intros [[e|[h info]]|e|] c'; cbn; tauto.
Qed.

Lemma plain_create_spec client len metadata c :
  u64 len -> fwp (fun _ => True) (plain_create client len metadata) created c.
Proof.
  intros Hlen. unfold plain_create. apply fwp_bind. eapply fwp_mono.
  { apply (create_call client len None metadata c); [apply prefix_nil|done|done]. }
  intros [[e|[h info]]|e|] c'; cbn; try done. intros (Ha & H0'). rewrite (H0' eq_refl) in Ha.
  by exists (ui_url info).
Qed.

Lemma capabilities_call client c :
  fwp (fun _ => True) (client_call (server_capabilities client)) (fun r _ => match r with
    | Ok _ => True | Err _ => False | Panic => retry_after_overflows end) c.
Proof.
  eapply fwp_mono; [apply (holds_client_call (fun _ => True) _
    (fun r _ => match r with Panic => retry_after_overflows | _ => True end) c I)|].
  - apply holds_server_capabilities; [by intros [| |]|]. intros r Hto. split; [done|].
    intros answer c' Hx. split; [|by intros [| |]].
    intros (op & response & -> & Hp). destruct Hx as (Hs & _).
    exists r, (cw_transport c). rewrite Hs. by exists op, response.
  - intros [[e|info]|e|] c'; cbn; tauto.
Qed.

Lemma probe_spec cfg options client c :
  fwp (fun _ => True) (probe_capabilities cfg options client) (fun r _ => match r with
    | Ok _ => True | Err _ => False | Panic => retry_after_overflows end) c.
Proof.
  unfold probe_capabilities. destruct (_ || _).
  - apply fwp_bind. eapply fwp_mono; [apply capabilities_call|]. by intros [[e|info]|e|] c'.
  - cbn. split.
    { intros w. by destruct (OptionsCache.lookup_or_register _ _ _ _). }
    intros [[info| |] now]; cbn; [done| |].
    + intros mo w <-. done.
    + apply fwp_bind. eapply fwp_mono; [apply capabilities_call|].
      intros [[e|info]|e|] c'; cbn; try done; by repeat split.
Qed.

Lemma create_future_spec cfg options client f metadata c :
  u64 (blob_size f) -> fwp (fun _ => True) (create_future cfg options client f metadata) created c.
Proof.
  intros Hu64. cbn. split; [done|]. intros cached.
  match goal with |- context [match ?x with Some _ => _ | None => _ end] => destruct x end; [done|].
  by apply plain_create_spec.
Qed.

Lemma create_with_upload_spec cfg options client f metadata c :
  file_content f = v -> u64 (blob_size f) -> 0 < blob_size f ->
  fwp (fun _ => True) (create_with_upload_future cfg options client f metadata)
    created c.
Proof.
  intros Hv Hu64 Hpos. unfold create_with_upload_future. apply fwp_bind.
  eapply fwp_mono; [apply probe_spec|]. intros [[e|opts]|e|] c1; [| |done|done].
  { intros _. by apply plain_create_spec. }
  intros _. destruct (exceeds_max_size opts (blob_size f)) as [max|]; [done|].
  destruct (sc_has_extension opts "creation-with-upload"); [|by apply plain_create_spec].
  cbn. intros mo w <-. split; [done|]. destruct (mo_read_error mo) as [e|]; [done|]. cbn.
  set (body := take _ _).
  assert (body = v) as Hbody.
  { rewrite <- Hv. unfold body, blob_size, bytes_len. rewrite N.sub_0_r, Nat2N.id. cbn. by rewrite firstn_all. }
  apply fwp_bind. eapply fwp_mono.
  { apply (create_call client (bytes_len body) (Some body) metadata).
    - cbn. by rewrite Hbody.
    - rewrite Hbody. intros [= Hnil]. unfold blob_size in Hpos. by rewrite Hv, Hnil in Hpos.
    - by rewrite Hbody, <- Hv. }
  intros [[e|[h info]]|e|] c'; cbn; try done.
  - intros _. destruct (capability_mismatch e); cbn; [|done]. split; [done|]. intros _. by apply plain_create_spec.
  - intros (Ha & _). by exists (ui_url info).
Qed.
End creation.

Lemma pre_loop_lean cfg client f options url mk : lean (pre_loop_future cfg client f options url mk).
Proof.
  assert (forall len metadata, lean (plain_create client len metadata)) as Hplain.
  { intros. apply lean_bind; [apply lean_client_call|done]. }
  unfold pre_loop_future. destruct url as [existing|].
  - apply lean_bind; [done|]. intros resource. apply lean_bind; [apply lean_client_call|].
    intros [e|info]; [|done]. destruct e; try done. cbn. by destruct (_ || _).
  - destruct (use_creation_with_upload cfg (blob_size f)).
    + apply lean_bind.
      { unfold probe_capabilities. destruct (_ || _).
        - apply lean_bind; [apply lean_client_call|done].
        - cbn. split.
          { intros w. by destruct (OptionsCache.lookup_or_register _ _ _ _). }
          intros [[info| |] now]; [done|by split|]. apply lean_bind; [apply lean_client_call|]. by split. }
      intros [e|opts]; [apply Hplain|].
      destruct (exceeds_max_size _ _); [done|]. destruct (sc_has_extension _ _); [|apply Hplain].
      apply lean_bind; [by apply lean_blob|]. intros body. apply lean_bind; [apply lean_client_call|].
      intros [e|created]; [|done]. destruct (capability_mismatch e); [|done]. split; [done|]. intros _. apply Hplain.
    + split; [done|]. intros cached.
      cbv beta zeta. match goal with |- lean (match ?x with Some _ => _ | None => _ end) => destruct x end; [done|apply Hplain].
Qed.

(** *** From the start to the end *)

(** What is left of an upload, for every view of the server. *)
Definition run_left (J : WebUrl -> C -> Prop) (A : WebUrl -> N -> C -> Prop) (f : WebFile) (resumed : bool) (mk : string) (w0 : W)
    (r : RunOutcome) (w : W) : Prop :=
  match r with
  | RunDone => (exists u, J u (ew_client w) /\ A u (bytes_len (file_content f)) (ew_client w)) /\
      forgotten mk w /\ us_status (wk_state (ew_worker w)) = UploadStatus.Complete /\
      us_bytes_uploaded (wk_state (ew_worker w)) = bytes_len (file_content f)
  | r => was_reset w /\ (resumed = true -> forgotten mk w) /\
      match r with RunRestart _ _ => (pending w < pending w0)%nat | _ => True end
  end.

Lemma wp_run_upload P cfg f options url (J : WebUrl -> C -> Prop) (A : WebUrl -> N -> C -> Prop)
    (before inv : C -> Prop) w :
  (forall client u, server_view P client u f (J u) (A u)) ->
  (forall c, before c -> inv c) -> inv (ew_client w) ->
  (forall client c, upload_client cfg options = Ok client -> cw_transport c = cw_transport (ew_client w) ->
     before c /\ fwp before (pre_loop_future cfg client f options url (match_key_of (tc_endpoint cfg) f))
       (fun r c' =>
         match r with
         | Ok (text, offset) => exists u, text = weburl_as_str u /\ J u c' /\ A u offset c' /\
             (forall c'', J u c'' -> inv c'')
         | Err _ => True
         | Panic => P
         end) c) ->
  wp (run_upload cfg f options url) (fun r w' => inv (ew_client w') /\ (pending w' <= pending w)%nat /\
    match r with
    | Ok (Some r) => run_left J A f (bool_decide (is_Some url)) (match_key_of (tc_endpoint cfg) f) w r w'
    | Ok None => False
    | Err _ => True
    | Panic => P
    end) w.
Proof.
  intros Hview Hbi Hinv Hpre. unfold run_upload. apply wp_bind, wp_done.
  destruct (upload_client cfg options) as [client|e|] eqn:Hclient; [|by split_and!|].
  2: { exfalso. clear -Hclient. unfold upload_client in Hclient. destruct (weburl_parse _); [done|]. cbn in Hclient.
       destruct (upload_headers cfg options) as [h|e|] eqn:Hh; [done|done|]. clear Hclient. unfold upload_headers in Hh.
       assert (forall l h, append_extra_headers l h <> Panic) as Hne.
       { induction l as [|[n x] l IH]; intros h; cbn; [done|]. destruct (header_name_try_from n); [|done].
         by destruct (header_value_from_str x). }
       destruct (match bearer_token_override options with Some t => Some t | None => tc_bearer_token cfg end).
       - destruct (header_value_from_str _); [done|]. by apply Hne in Hh.
       - by apply Hne in Hh. }
  apply wp_bind, wp_act. cbv beta iota zeta. match goal with |- wp _ _ ?x => set (w1 := x) end.
  assert (pending w1 = pending w) as Hp1 by done.
  destruct (Hpre client (ew_client w1) eq_refl eq_refl) as [Hb Hf].
  apply wp_bind. eapply wp_mono.
  { apply wp_and; [apply (wp_race before); [exact Hb|exact Hf]|apply wp_race_lean, pre_loop_lean]. }
  cbn beta. intros [[[i|[e|[text offset]]] p]|e|] w2 [[Hb2 HQ] [Hp2 Hlt]].
  - apply wp_bind. eapply (wp_mono _ (fun r w' => inv (ew_client w') /\ (pending w' <= pending w)%nat /\
      exists r', r = Ok r' /\ run_left J A f (bool_decide (is_Some url)) (match_key_of (tc_endpoint cfg) f) w r' w')).
    + unfold pre_loop_interrupted. apply wp_bind.
      eapply (wp_mono _ (fun r w' => r = Ok tt /\ ew_client w' = ew_client w2 /\ pending w' = pending w2 /\
        (bool_decide (is_Some url) = true -> forgotten (match_key_of (tc_endpoint cfg) f) w'))).
      { destruct (bool_decide (is_Some url)); [apply wp_act|by apply wp_done].
        split; [done|]. split; [done|]. split; [done|]. intros _ endpoint now. cbn. rewrite get_remove.
        by rewrite decide_True. }
      intros r w3 (-> & Hc3 & Hp3 & Hf3). apply wp_bind. eapply wp_mono; [apply wp_update_state|].
      cbn beta. intros r w4 (-> & Hc4 & Hp4 & _ & Hpage & Hst). apply wp_done.
      split; [rewrite Hc4, Hc3; by apply Hbi|]. split; [lia|]. eexists. split; [done|].
      assert (was_reset w4) as Hres by (unfold was_reset; rewrite Hst; done).
      assert (bool_decide (is_Some url) = true -> forgotten (match_key_of (tc_endpoint cfg) f) w4) as Hf4.
      { intros Hr endpoint now. rewrite Hpage. by apply Hf3. }
      destruct i; (split; [done|]; split; [done|]); try done.
      specialize (Hlt ltac:(done)). lia.
    + cbn beta. intros r w3 (Hi3 & Hp3 & r' & -> & Hr). by apply wp_done.
  - apply wp_done. split; [by apply Hbi|]. split; [lia|done].
  - destruct HQ as (u & -> & HJ & HA & Hi). eapply wp_mono; [apply (wp_run_from P cfg client u f (J u) (A u) _ _ _ w);
      [done|done|done|lia]|].
    cbn beta. intros r w3 (HJ3 & Hp3 & HQ3). split; [by apply Hi|]. split; [done|].
    destruct r as [r|e|]; [|done|done]. destruct HQ3 as (r' & -> & Hr).
    destruct r'; [|destruct Hr as (? & ? & ?); by split_and!..]. destruct Hr as (? & Hr). split; [by exists u|]. exact Hr.
  - done.
  - split; [by apply Hbi|]. split; [lia|done].
Qed.
End engine_rules.

(** ** Against a server that keeps the protocol *)

Section delivery.
Context `{UrlLaws} `{HttpClientLib} `{!HttpLaws} `{!Transport} `{ClientSystem, Base64, Digests, HashOrder,
  EntryJson, Quota}.
Context `{!TusServer} `{!TusServerLaws} `{!AbsoluteUrls}.
Local Abbreviation C := ClientWorld.
Local Abbreviation W := EngineWorld.
Local Abbreviation EM := (prog TusError.t EngineWorld).
Local Abbreviation pending := pending_events.

(** The server has a prefix of [v] at [uri], or nothing. *)
Definition holding (v : bytes) (uri : string) (c : C) : Prop :=
  match object (cw_transport c) uri with Some b => b `prefix_of` v | None => True end.

(** The server has as many bytes as it stated. *)
Definition acked (uri : string) (n : N) (c : C) : Prop :=
  exists b, object (cw_transport c) uri = Some b /\ bytes_len b = n.

#[local] Instance holding_quiet v uri : Quiet (holding v uri).
Proof. split; intros c c' (Ht & _); unfold holding; by rewrite Ht. Qed.

Lemma holding_exchange v uri r answer c c' :
  tr_method r <> Method.POST ->
  (sent_to_uri Method.PATCH uri r -> exists sent j, appends (take j (drop (N.to_nat sent) v)) sent r) ->
  holding v uri c -> answered r answer c c' -> holding v uri c'.
Proof.
  intros Hm Ha Hh (Hs & _). unfold holding in *. destruct (object (cw_transport c) uri) as [b|] eqn:Ho.
  - destruct (server_keeps _ _ _ _ _ _ Hs Ho) as [->|[->|(Hto & Hst & k & ->)]]; [done|done|].
    destruct (Ha Hto) as (sent & j & -> & Hso). rewrite Hso in Hst. injection Hst as ->. by apply prefix_grows.
  - by rewrite (server_gone _ _ _ _ _ Hs Hm Ho).
Qed.

Lemma whole_of v uri c : holding v uri c -> acked uri (bytes_len v) c -> object (cw_transport c) uri = Some v.
Proof. unfold holding. intros Hh (b & Hb & Hn). rewrite Hb in *. f_equal. by apply prefix_full. Qed.

(** What the requests of the engine leave, and return. *)
Lemma info_call v uri client url c :
  uri = weburl_as_str url -> holding v uri c ->
  fwp (holding v uri) (client_call (upload_info_at client url)) (fun r c' => holding v uri c' /\
    match r with
    | Ok (inr info) => ui_url info = url /\ acked uri (ui_offset info) c'
    | Ok (inl _) => True
    | Err _ => False
    | Panic => retry_after_overflows
    end) c.
Proof.
  intros -> Hh. eapply fwp_mono; [apply (holds_client_call (holding v (weburl_as_str url)) _
    (fun r c' => match r with
                 | Ok info => ui_url info = url /\ acked (weburl_as_str url) (ui_offset info) c'
                 | Err _ => True | Panic => retry_after_overflows end) c Hh)|].
  - apply holds_upload_info_at; [done|]. intros r [Hm Hu]. split.
    + intros answer c1 c2 H1' Hx. eapply holding_exchange; [by rewrite Hm| |exact H1'|exact Hx].
      intros [Hm' _]. congruence.
    + intros answer c' Hx. split; [|split; [done|]].
      * intros (op & response & -> & Hp). destruct Hx as (Hs & _).
        exists r, (cw_transport c). rewrite Hs. by exists op, response.
      * intros response info -> Hst Hn Hi. split; [done|]. destruct Hx as (Hs & _).
        destruct (server_head _ _ _ _ _ Hs Hm Hst Hn) as (b & _ & Hb & Hbn). exists b. by rewrite <- Hu.
  - intros [[e|info]|e|] c'; tauto.
Qed.

Lemma chunk_call v uri client url c offset stop :
  uri = weburl_as_str url -> holding v uri c -> u64 offset ->
  fwp (holding v uri)
    (client_call (upload_chunk_at client url (take (N.to_nat (stop - offset)) (drop (N.to_nat offset) v)) offset))
    (fun r c' => holding v uri c' /\
    match r with
    | Ok (inr n) => acked uri n c'
    | Ok (inl _) => True
    | Err _ => False
    | Panic => retry_after_overflows
    end) c.
Proof.
  intros -> Hh Hu64. eapply fwp_mono; [apply (holds_client_call (holding v (weburl_as_str url)) _
    (fun r c' => match r with
                 | Ok n => acked (weburl_as_str url) n c'
                 | Err _ => True | Panic => retry_after_overflows end) c Hh)|].
  - apply holds_send_upload_chunk_at; [done|done|]. intros r [Hm Hu] Ha. split.
    + intros answer c1 c2 H1' Hx. eapply holding_exchange; [by rewrite Hm| |exact H1'|exact Hx].
      intros _. by eexists offset, _.
    + intros answer c' Hx. split; [|split; [done|]].
      * intros (op & response & -> & Hp). destruct Hx as (Hs & _).
        exists r, (cw_transport c). rewrite Hs. by exists op, response.
      * intros response n -> Hst Hn. destruct Hx as (Hs & _).
        destruct (server_patch _ _ _ _ _ Hs Hm Hst Hn) as (_ & b & _ & Hb & Hbn). exists b. by rewrite <- Hu.
  - intros [[e|info]|e|] c'; tauto.
Qed.

Lemma head_future_spec v client existing url mk size c :
  upload_at client existing = Ok url -> holding v (weburl_as_str url) c ->
  fwp (holding v (weburl_as_str url)) (head_future client existing mk size) (fun r c' =>
    match r with
    | Ok (text, offset) => text = weburl_as_str url /\ holding v text c' /\ acked text offset c'
    | Err _ => True
    | Panic => retry_after_overflows
    end) c.
Proof.
  intros Hat Hh. unfold head_future. rewrite Hat. cbn [from_client fbind]. apply fwp_bind.
  eapply fwp_mono; [by apply (info_call v (weburl_as_str url))|]. cbn beta.
  intros [[e|info]|e|] c' [Hh' Hr]; [|..|done|done].
  - destruct e; try done. cbn. by destruct (_ || _).
  - destruct Hr as [Hurl Ha]. cbn. rewrite Hurl.
    pose proof (validate_resume_info_spec info size) as Hv.
    destruct (validate_resume_info info size) as [[]|e|]; done.
Qed.

Lemma delivery_view client url f :
  u64 (bytes_len (file_content f)) ->
  server_view retry_after_overflows client url f (holding (file_content f) (weburl_as_str url))
    (fun n => acked (weburl_as_str url) n).
Proof.
  intros Hu64. split.
  - intros c Hc. eapply fwp_mono; [by apply info_call|]. intros [[e|info]|e|] c'; tauto.
  - intros c offset stop Hc Ho. apply chunk_call; [done|done|]. unfold u64 in *. lia.
Qed.

Lemma creation_delivers v client len body r response url offset c c' :
  default [] body `prefix_of` v -> body <> Some [] ->
  sent_to Method.POST (cl_endpoint client) r -> creates len (default [] body) r ->
  answered r (inr response) c c' -> created_at client body response url offset ->
  holding v (weburl_as_str url) c' /\ acked (weburl_as_str url) offset c'.
Proof.
  intros Hp Hne Hto Hc Hx Hcr.
  destruct (creation_has_bytes client len body r response url offset c c' Hto Hc Hx Hcr Hne) as (b & Hb & Hbp & Hbn).
  split; [unfold holding; rewrite Hb; by etrans|by exists b].
Qed.

(** What an upload that ended with [r] leaves on the server, in the state of the worker
    and in [localStorage]; [existing] is the URL it was resumed at, if it was. *)
Definition engine_left (f : WebFile) (existing : option WebUrl) (mk : string)
    (r : outcome TusError.t (option RunOutcome)) (w : W) : Prop :=
  match r with
  | Ok (Some RunDone) =>
      (exists url, (existing = None \/ existing = Some url) /\
         object (cw_transport (ew_client w)) (weburl_as_str url) = Some (file_content f)) /\
      us_status (wk_state (ew_worker w)) = UploadStatus.Complete /\
      us_bytes_uploaded (wk_state (ew_worker w)) = blob_size f /\ forgotten mk w
  | Ok (Some _) => was_reset w /\ (is_Some existing -> forgotten mk w)
  | Ok None => False
  | Err _ => True
  | Panic => retry_after_overflows
  end.

(** C5: whatever commands arrive, whatever other tasks of the page do, and whenever they
    do it: an upload that ends as done has left exactly the bytes of the file at its URL
    (the one it was resumed at, if it was resumed), with the state complete and no entry
    in [localStorage].  One that a command interrupts leaves a state that was reset, and
    no entry for a file it was resuming.  What a resumed upload has on the server stays a
    prefix of the file in every case, so that it can be resumed again. *)
Theorem engine_delivers cfg f options existing w :
  u64 (blob_size f) ->
  match existing with
  | Some url => holding (file_content f) (weburl_as_str url) (ew_client w)
  | None => True
  end ->
  let '(r, w') := run (run_upload cfg f options (weburl_as_str <$> existing)) w in
  engine_left f existing (match_key_of (tc_endpoint cfg) f) r w' /\
  match existing with
  | Some url => holding (file_content f) (weburl_as_str url) (ew_client w')
  | None => True
  end.
Proof.
  intros Hu64 Hw. set (v := file_content f).
  change (wp (run_upload cfg f options (weburl_as_str <$> existing)) (fun r w' =>
    engine_left f existing (match_key_of (tc_endpoint cfg) f) r w' /\
    match existing with Some url => holding v (weburl_as_str url) (ew_client w') | None => True end) w).
  set (J := fun u c => (existing = None \/ existing = Some u) /\ holding v (weburl_as_str u) c).
  set (inv := fun c => match existing with Some url => holding v (weburl_as_str url) c | None => True end).
  eapply wp_mono; [apply (wp_run_upload retry_after_overflows cfg f options _ J (fun u => acked (weburl_as_str u)) inv inv)|].
  - intros client u. pose proof (delivery_view client u f Hu64) as view. subst J. split.
    + intros c [Hu Hc]. eapply fwp_weaken; [|by apply (sv_info _ _ _ _ _ _ view)]. by split.
    + intros c offset stop [Hu Hc] Ho. eapply fwp_mono; [eapply fwp_weaken; [|by apply (sv_chunk _ _ _ _ _ _ view)]; by split|].
      intros r c' [? ?]. by split_and!.
  - done.
  - exact Hw.
  - intros client c Hclient Htr. assert (inv c) as Hc.
    { subst inv. destruct existing; [|done]. unfold holding in *. by rewrite Htr. }
    split; [exact Hc|]. destruct existing as [u0|]; cbn.
    + eapply fwp_mono; [apply (head_future_spec v client _ u0); [|exact Hc]|].
      { unfold upload_at, resolve_upload_url. by rewrite weburl_join_absolute. }
      intros [[text offset]|e|] c'; [|done|done]. intros (-> & Hh & Ha). exists u0.
      split; [done|]. split; [by split; [right|]|]. split; [done|]. by intros c'' [_ ?].
    + set (R := fun u n c => holding v (weburl_as_str u) c /\ acked (weburl_as_str u) n c).
      eapply (fwp_mono _ _ (created R)).
      * unfold pre_loop_future. destruct (use_creation_with_upload cfg (blob_size f)) eqn:Huse.
        -- apply andb_prop in Huse as [Hpos%N.ltb_lt _].
           by apply (create_with_upload_spec v R (creation_delivers v)).
        -- by apply (create_future_spec v R (creation_delivers v)).
      * intros [[text offset]|e|] c'; [|done|done]. intros (u & -> & Hh & Ha). exists u.
        split; [done|]. split; [by split; [left|]|]. by split.
  - intros r w' (Hinv & _ & Hr). split; [|exact Hinv].
    destruct r as [[r|]|e|]; [|done..].
    assert (is_Some existing -> bool_decide (is_Some (weburl_as_str <$> existing)) = true) as He.
    { intros [u0 ->]. by rewrite bool_decide_true by (by eexists). }
    destruct r; cbn in Hr |- *.
    + destruct Hr as ((u & [Hu Hh] & Ha) & Hf & Hs & Hb). split; [|by split_and!].
      exists u. split; [done|]. by apply whole_of.
    + destruct Hr as (? & Hf & _). split; [done|]. intros ?%He. by apply Hf.
    + destruct Hr as (? & Hf & _). split; [done|]. intros ?%He. by apply Hf.
Qed.

End delivery.

(** ** Every upload ends *)

Section endings.
Context `{UrlLaws} `{HttpClientLib} `{!HttpLaws} `{!Transport} `{ClientSystem, Base64, Digests, HashOrder,
  EntryJson, Quota}.
Context `{!AbsoluteUrls}.
Local Abbreviation C := ClientWorld.
Local Abbreviation W := EngineWorld.
Local Abbreviation pending := pending_events.

(** Of a server that may do anything, nothing is known. *)
Lemma any_view client url f : server_view True client url f (fun _ => True) (fun _ _ => True).
Proof.
  split.
  - intros c _. eapply fwp_mono; [apply fwp_client_any|]. intros [[e|info]|e|] c'; tauto.
  - intros c offset stop _ _. eapply fwp_mono; [apply fwp_client_any|]. intros [[e|n]|e|] c'; tauto.
Qed.

(** The engine goes on from a URL that was parsed. *)
Definition at_some_url (r : outcome TusError.t (string * N)) (_ : C) : Prop :=
  match r with Ok (text, _) => exists url, text = weburl_as_str url | _ => True end.

Lemma head_any client existing mk size c :
  fwp (fun _ => True) (head_future client existing mk size) at_some_url c.
Proof.
  unfold head_future. destruct (from_client (upload_at client existing)) as [url|e|]; [|done..].
  cbn [fbind]. apply fwp_bind. eapply fwp_mono; [apply fwp_client_any|].
  intros [[e|info]|e|] c' _; [|..|done|done].
  - destruct e; try done. cbn. by destruct (_ || _).
  - cbn. destruct (validate_resume_info info size); cbn; [by eexists|done..].
Qed.

Lemma plain_create_any client len metadata c :
  fwp (fun _ => True) (plain_create client len metadata) at_some_url c.
Proof.
  apply fwp_bind. eapply fwp_mono; [apply fwp_client_any|].
  intros [[e|[h info]]|e|] c' _; cbn; [done|by eexists|done..].
Qed.

Lemma probe_any cfg options client c :
  fwp (fun _ => True) (probe_capabilities cfg options client) (fun _ _ => True) c.
Proof.
  unfold probe_capabilities. destruct (_ || _).
  - apply fwp_bind. eapply fwp_mono; [apply fwp_client_any|]. by intros [[e|info]|e|] c'.
  - cbn. split.
    { intros w. by destruct (OptionsCache.lookup_or_register _ _ _ _). }
    intros [[info| |] now]; cbn; [done|done|].
    apply fwp_bind. eapply fwp_mono; [apply fwp_client_any|].
    intros [[e|info]|e|] c'; cbn; try done; by repeat split.
Qed.

Lemma pre_loop_any cfg client f options url mk c :
  fwp (fun _ => True) (pre_loop_future cfg client f options url mk) at_some_url c.
Proof.
  unfold pre_loop_future. destruct url as [existing|]; [apply head_any|].
  destruct (use_creation_with_upload cfg (blob_size f)).
  - apply fwp_bind. eapply fwp_mono; [apply probe_any|]. intros [[e|opts]|e|] c1 _; [| |done|done].
    { apply plain_create_any. }
    destruct (exceeds_max_size opts (blob_size f)); [done|].
    destruct (sc_has_extension opts "creation-with-upload"); [|apply plain_create_any].
    cbn. intros mo w <-. split; [done|]. destruct (mo_read_error mo); [done|]. cbn.
    apply fwp_bind. eapply fwp_mono; [apply fwp_client_any|].
    intros [[e|[h info]]|e|] c' _; cbn; [|by eexists|done..].
    destruct (capability_mismatch e); cbn; [|done]. split; [done|]. intros _. apply plain_create_any.
  - cbn. split; [done|]. intros cached.
    match goal with |- context [match ?x with Some _ => _ | None => _ end] => destruct x end; [done|].
    apply plain_create_any.
Qed.

Lemma wp_run_upload_ends cfg f options url w :
  wp (run_upload cfg f options url) (fun r w' => (pending w' <= pending w)%nat /\
    match r with
    | Ok (Some (RunRestart _ _)) => (pending w' < pending w)%nat
    | Ok None => False
    | _ => True
    end) w.
Proof.
  eapply wp_mono.
  - apply (wp_run_upload True cfg f options url (fun _ _ => True) (fun _ _ _ => True)
      (fun _ => True) (fun _ => True)); [by intros; apply any_view|done|done|].
    intros client c _ _. split; [done|]. eapply fwp_mono; [apply pre_loop_any|].
    intros [[text offset]|e|] c' Hr; [|done|done]. destruct Hr as [u ->]. by exists u.
  - intros r w' (_ & Hp & Hr). split; [exact Hp|]. destruct r as [[[| |]|]|e|]; try done. by apply Hr.
Qed.

Lemma wp_run_starts fuel cfg f options w :
  (pending w <= fuel)%nat ->
  wp (run_starts fuel cfg f options) (fun r w' => (pending w' <= pending w)%nat /\
    match r with Ok None | Err _ => False | _ => True end) w.
Proof.
  revert f options w. induction fuel as [|fuel IH]; intros f options w Hf; cbn [run_starts];
    apply wp_bind, wp_attempt; (eapply wp_mono; [apply wp_run_upload_ends|]); cbn beta;
    intros [[[| |f' options']|]|e|] w1 [Hp Hr]; cbn beta; try done; try lia;
    try (by apply wp_done); try (by apply wp_bind, wp_act, wp_done).
  eapply wp_mono; [apply IH; lia|]. cbn beta. intros r w2 [? ?]. split; [lia|done].
Qed.

Lemma wp_run_command_loop fuel cfg w :
  (pending w <= fuel)%nat ->
  wp (run_command_loop fuel cfg) (fun r _ => match r with Ok None | Err _ => False | _ => True end) w.
Proof.
  revert w. induction fuel as [|fuel IH]; intros w Hf; cbn [run_command_loop]; apply wp_bind, wp_act;
    pose proof (wait_command_spec (ew_script w) w eq_refl) as Hw;
    destruct (wait_command (ew_script w) w) as [cmd w1]; destruct Hw as (_ & Hp & Hlt);
    (destruct cmd as [cmd|]; [specialize (Hlt ltac:(by eexists))|by apply wp_done]); [lia|].
  destruct cmd as [f options| | |]; try (apply wp_bind, wp_act, IH; change (pending w1 <= fuel)%nat; lia).
  apply wp_bind. eapply wp_mono; [apply wp_run_starts; lia|]. cbn beta.
  intros [[[]|]|e|] w2 [Hp2 Hr]; try done. apply IH. lia.
Qed.

(** C14: the task of a component ends once the component is unmounted, whatever the server
    answers, commands arrive and other tasks of the page do: every turn of its loops reads
    a command or lets a moment pass, so none of them spins, and a chain of uploads that
    replace each other is not longer than the commands that arrive.  No error leaves it. *)
Theorem engine_ends cfg w :
  match (run (use_tus_upload cfg) w).1 with
  | Ok (Some tt) => True
  | Panic => True
  | Ok None | Err _ => False
  end.
Proof.
  assert (wp (use_tus_upload cfg) (fun r _ => match r with Ok None | Err _ => False | _ => True end) w) as Hw.
  { apply wp_bind, wp_act, wp_run_command_loop. unfold loop_fuel. lia. }
  unfold wp in Hw. destruct (run (use_tus_upload cfg) w) as [[[[]|]|e|] w']; done.
Qed.
End endings.
