(* ===== verification/UploadQueue.v ===== *)
(** * The upload queue ([dioxus-tus/src/queue.rs])

    The queue owns its items, the counter of ids, the assignment of items to worker
    slots and the workers; the page's [localStorage] lies beside them.  The methods of
    the handle and the ticks of the scheduler run one after the other, on one thread;
    between them a worker may do anything to its state and its channel. *)

From stdpp Require Import gmap.
From Stdlib Require Import SpecFloat.
From S2P Require Import Prelude Text Crates Dioxus Persistence UploadEngine.
Local Open Scope N_scope.
Local Open Scope prog_scope.

Definition WORKER_COUNT : nat := 2.

Module QueueItemStatus.
Inductive t := Queued | Uploading | Paused | Complete | Error | Aborted.

#[global] Instance eq_dec : EqDecision t.
Proof. solve_decision. Defined.
End QueueItemStatus.

Record TusQueueItem := mkTusQueueItem {
  qi_id : N;
  qi_file_name : string;
  qi_file_size : N;
  qi_status : QueueItemStatus.t;
  qi_bytes_uploaded : N;
  qi_error : option TusError.t;
  qi_upload_url : option string;
  qi_file : WebFile;
  qi_options : TusStartOptions;
  qi_started_at_ms : option f64;
  qi_paused_at_ms : option f64;
  qi_paused_accumulated_ms : f64;
}.

Definition f64_zero : f64 := S754_zero false.

Definition set_status (s : QueueItemStatus.t) (i : TusQueueItem) : TusQueueItem :=
  mkTusQueueItem (qi_id i) (qi_file_name i) (qi_file_size i) s (qi_bytes_uploaded i) (qi_error i)
    (qi_upload_url i) (qi_file i) (qi_options i) (qi_started_at_ms i) (qi_paused_at_ms i)
    (qi_paused_accumulated_ms i).
Definition set_item_error (e : option TusError.t) (i : TusQueueItem) : TusQueueItem :=
  mkTusQueueItem (qi_id i) (qi_file_name i) (qi_file_size i) (qi_status i) (qi_bytes_uploaded i) e
    (qi_upload_url i) (qi_file i) (qi_options i) (qi_started_at_ms i) (qi_paused_at_ms i)
    (qi_paused_accumulated_ms i).
Definition set_item_progress (n : N) (url : option string) (i : TusQueueItem) : TusQueueItem :=
  mkTusQueueItem (qi_id i) (qi_file_name i) (qi_file_size i) (qi_status i) n (qi_error i)
    url (qi_file i) (qi_options i) (qi_started_at_ms i) (qi_paused_at_ms i)
    (qi_paused_accumulated_ms i).
Definition set_item_options (o : TusStartOptions) (i : TusQueueItem) : TusQueueItem :=
  mkTusQueueItem (qi_id i) (qi_file_name i) (qi_file_size i) (qi_status i) (qi_bytes_uploaded i) (qi_error i)
    (qi_upload_url i) (qi_file i) o (qi_started_at_ms i) (qi_paused_at_ms i)
    (qi_paused_accumulated_ms i).
Definition set_item_times (started paused : option f64) (accumulated : f64) (i : TusQueueItem)
    : TusQueueItem :=
  mkTusQueueItem (qi_id i) (qi_file_name i) (qi_file_size i) (qi_status i) (qi_bytes_uploaded i) (qi_error i)
    (qi_upload_url i) (qi_file i) (qi_options i) started paused accumulated.

Definition speed_bytes_per_sec (i : TusQueueItem) (now_ms : f64) : option f64 :=
  match qi_started_at_ms i with
  | None => None
  | Some started =>
      let current_pause_ms :=
        match qi_paused_at_ms i with
        | Some paused_at => f64_max (f64_sub now_ms paused_at) f64_zero
        | None => f64_zero
        end in
      let elapsed_ms :=
        f64_sub (f64_sub (f64_sub now_ms started) (qi_paused_accumulated_ms i)) current_pause_ms in
      if SFltb elapsed_ms (f64_of_N 250) then None
      else Some (f64_div (f64_mul (f64_of_N (qi_bytes_uploaded i)) (f64_of_N 1000)) elapsed_ms)
  end.

Definition eta_seconds (i : TusQueueItem) (now_ms : f64) : option f64 :=
  match qi_status i with
  | QueueItemStatus.Complete | QueueItemStatus.Aborted | QueueItemStatus.Error
  | QueueItemStatus.Queued | QueueItemStatus.Paused => None
  | QueueItemStatus.Uploading =>
      match speed_bytes_per_sec i now_ms with
      | None => None
      | Some speed =>
          if SFleb speed f64_zero then None
          else
            let remaining := qi_file_size i - qi_bytes_uploaded i in
            Some (f64_div (f64_of_N remaining) speed)
      end
  end.

(** ** The items *)

Abbreviation TusQueueState := (list TusQueueItem).

Definition is_status (s : QueueItemStatus.t) (i : TusQueueItem) : bool := bool_decide (qi_status i = s).

Definition is_active (i : TusQueueItem) : bool :=
  match qi_status i with QueueItemStatus.Uploading | QueueItemStatus.Paused => true | _ => false end.

Definition is_terminal (s : QueueItemStatus.t) : bool :=
  match s with
  | QueueItemStatus.Complete | QueueItemStatus.Aborted | QueueItemStatus.Error => true
  | _ => false
  end.

Definition queued_count (q : TusQueueState) : nat := length (List.filter (is_status QueueItemStatus.Queued) q).
Definition active_count (q : TusQueueState) : nat := length (List.filter is_active q).
Definition complete_count (q : TusQueueState) : nat :=
  length (List.filter (is_status QueueItemStatus.Complete) q).

Definition item_get (id : N) (q : TusQueueState) : option TusQueueItem := find (fun i => qi_id i =? id) q.

(** [iter_mut().find(p)] and a change of the item found *)
Fixpoint update_first (p : TusQueueItem -> bool) (f : TusQueueItem -> TusQueueItem) (q : TusQueueState)
    : TusQueueState :=
  match q with
  | [] => []
  | i :: q => if p i then f i :: q else i :: update_first p f q
  end.

Definition has_active_file_match (items : TusQueueState) (endpoint : string) (file : WebFile) : bool :=
  let mk := match_key_of endpoint file in
  existsb (fun i =>
    negb (is_terminal (qi_status i)) &&
    String.eqb (match_key endpoint (qi_file_name i) (qi_file_size i) (file_last_modified (qi_file i))) mk)
    items.

Definition remove_persisted_for_file (endpoint : string) (file : WebFile) (page : Page) : Page :=
  remove_entry (match_key_of endpoint file) page.

Definition resume_options_for_entry (endpoint : string) (entry : ResumableEntry) (file : WebFile)
    (options : TusStartOptions) (now : f64) : option TusStartOptions :=
  if negb (entry_is_resumable_for_file endpoint entry file now) then None
  else Some (set_existing_url (Some (re_upload_url entry)) options).

(** The callback sees each aborted item while the page is updated. *)
Fixpoint apply_abort_all (on_queued : TusQueueItem -> Page -> Page) (items : TusQueueState) (page : Page)
    : TusQueueState * Page :=
  match items with
  | [] => ([], page)
  | item :: items =>
      if is_status QueueItemStatus.Queued item
      then
        let '(items, page) := apply_abort_all on_queued items (on_queued item page) in
        (set_status QueueItemStatus.Aborted item :: items, page)
      else
        let '(items, page) := apply_abort_all on_queued items page in
        (item :: items, page)
  end.

Fixpoint for_each_terminal (on_terminal : TusQueueItem -> Page -> Page) (items : TusQueueState)
    (page : Page) : Page :=
  match items with
  | [] => page
  | item :: items =>
      for_each_terminal on_terminal items
        (if is_terminal (qi_status item) then on_terminal item page else page)
  end.

Definition apply_clear_finished (on_terminal : TusQueueItem -> Page -> Page) (items : TusQueueState)
    (page : Page) : TusQueueState * Page :=
  let page := for_each_terminal on_terminal items page in
  (List.filter (fun i => negb (is_terminal (qi_status i))) items, page).

Inductive RetryDecision := Reset | ItemActive | ItemNotFound | WrongStatus.

Definition reset_item (i : TusQueueItem) : TusQueueItem :=
  set_item_times None None f64_zero
    (set_item_options (set_existing_url None (qi_options i))
       (set_item_progress 0 None (set_item_error None (set_status QueueItemStatus.Queued i)))).

Definition apply_retry_item (q : TusQueueState) (slot_assignments : list (option N)) (id : N)
    : RetryDecision * TusQueueState :=
  if bool_decide (Some id ∈ slot_assignments) then (ItemActive, q)
  else
    match item_get id q with
    | None => (ItemNotFound, q)
    | Some item =>
        if negb (is_terminal (qi_status item)) then (WrongStatus, q)
        else (Reset, update_first (fun i => qi_id i =? id) reset_item q)
    end.

(** ** One step of the scheduler *)

Record TickStart := mkTickStart { ts_slot : nat; ts_item_id : N }.

#[global] Instance TickStart_eq_dec : EqDecision TickStart.
Proof. solve_decision. Defined.

(** What a snapshot of its worker makes of an item, and whether the slot is kept. *)
Definition reconcile_item (ws : TusUploadState) (now_ms : f64) (item : TusQueueItem)
    : TusQueueItem * bool :=
  let url := match us_upload_url ws with Some url => Some url | None => qi_upload_url item end in
  let item := set_item_progress (us_bytes_uploaded ws) url item in
  match us_status ws with
  | UploadStatus.Uploading =>
      let item :=
        match qi_status item, qi_paused_at_ms item with
        | QueueItemStatus.Paused, Some paused_at =>
            let paused_ms := f64_sub now_ms paused_at in
            let accumulated :=
              if is_finite paused_ms && SFltb f64_zero paused_ms
              then f64_add (qi_paused_accumulated_ms item) paused_ms
              else qi_paused_accumulated_ms item in
            set_item_times (qi_started_at_ms item) None accumulated item
        | _, _ => item
        end in
      (set_status QueueItemStatus.Uploading item, true)
  | UploadStatus.Paused =>
      let item :=
        if negb (is_status QueueItemStatus.Paused item) && bool_decide (qi_paused_at_ms item = None)
        then set_item_times (qi_started_at_ms item) (Some now_ms) (qi_paused_accumulated_ms item) item
        else item in
      (set_status QueueItemStatus.Paused item, true)
  | UploadStatus.Complete => (set_status QueueItemStatus.Complete item, false)
  | UploadStatus.Error => (set_item_error (us_error ws) (set_status QueueItemStatus.Error item), false)
  | UploadStatus.Idle =>
      (if is_terminal (qi_status item) then item else set_status QueueItemStatus.Aborted item, false)
  end.

Definition worker_at_rest (ws : TusUploadState) : bool :=
  match us_status ws with
  | UploadStatus.Idle | UploadStatus.Complete | UploadStatus.Error => true
  | _ => false
  end.

(** One turn of the first loop. *)
Definition reconcile_slot (q : TusQueueState) (assignment : option N) (ws : TusUploadState) (now_ms : f64)
    : TusQueueState * option N :=
  match assignment with
  | None => (q, None)
  | Some item_id =>
      match item_get item_id q with
      | None => (q, if worker_at_rest ws then None else Some item_id)
      | Some item =>
          let '(item', held) := reconcile_item ws now_ms item in
          (update_first (fun i => qi_id i =? item_id) (fun _ => item') q,
           if held then Some item_id else None)
      end
  end.

Fixpoint reconcile_slots (q : TusQueueState) (slots : list (option N)) (snapshots : list TusUploadState)
    (now_ms : f64) : TusQueueState * list (option N) :=
  match slots, snapshots with
  | assignment :: slots, ws :: snapshots =>
      let '(q, assignment) := reconcile_slot q assignment ws now_ms in
      let '(q, slots) := reconcile_slots q slots snapshots now_ms in
      (q, assignment :: slots)
  | _, _ => (q, slots)
  end.

Definition start_item (now_ms : f64) (item : TusQueueItem) : TusQueueItem :=
  set_item_times (Some now_ms) None f64_zero (set_status QueueItemStatus.Uploading item).

(** The second loop, from slot number [slot] on. *)
Fixpoint fill_slots (q : TusQueueState) (slot : nat) (slots : list (option N)) (now_ms : f64)
    : TusQueueState * list (option N) * list TickStart :=
  match slots with
  | [] => (q, [], [])
  | Some id :: slots =>
      let '(q, slots, starts) := fill_slots q (Datatypes.S slot) slots now_ms in
      (q, Some id :: slots, starts)
  | None :: slots =>
      match find (is_status QueueItemStatus.Queued) q with
      | None =>
          let '(q, slots, starts) := fill_slots q (Datatypes.S slot) slots now_ms in
          (q, None :: slots, starts)
      | Some item =>
          let q := update_first (is_status QueueItemStatus.Queued) (start_item now_ms) q in
          let '(q, slots, starts) := fill_slots q (Datatypes.S slot) slots now_ms in
          (q, Some (qi_id item) :: slots, mkTickStart slot (qi_id item) :: starts)
      end
  end.

Definition reconcile_tick (q : TusQueueState) (slots : list (option N)) (snapshots : list TusUploadState)
    (now_ms : f64) : outcome TusError.t (TusQueueState * list (option N) * list TickStart) :=
  if negb (Nat.eqb (length slots) (length snapshots)) then Panic
  else
    let '(q, slots) := reconcile_slots q slots snapshots now_ms in
    Ok (fill_slots q 0 slots now_ms).

(** ** The handle *)

Record Queue := mkQueue {
  q_endpoint : string;
  q_items : TusQueueState;
  q_next_id : N;
  q_slots : list (option N);
  q_workers : list Worker;
  q_page : Page;
}.

Abbreviation Q := (outcome TusError.t Queue).

Definition set_items (items : TusQueueState) (q : Queue) : Queue :=
  mkQueue (q_endpoint q) items (q_next_id q) (q_slots q) (q_workers q) (q_page q).
Definition set_items_page (items : TusQueueState) (page : Page) (q : Queue) : Queue :=
  mkQueue (q_endpoint q) items (q_next_id q) (q_slots q) (q_workers q) page.
Definition set_workers (workers : list Worker) (q : Queue) : Queue :=
  mkQueue (q_endpoint q) (q_items q) (q_next_id q) (q_slots q) workers (q_page q).

(** [use_tus_upload_queue]: the handle of a mounted component *)
Definition use_tus_upload_queue (c : TusConfig) (page : Page) : Queue :=
  mkQueue (tc_endpoint c) [] 0 (repeat None WORKER_COUNT) (repeat new_worker WORKER_COUNT) page.

(** [self.workers[slot].f()]: the index is checked. *)
Definition on_worker (slot : nat) (f : Worker -> Worker) (q : Queue) : Q :=
  match q_workers q !! slot with
  | Some w => Ok (set_workers (<[slot := f w]> (q_workers q)) q)
  | None => Panic
  end.

Fixpoint slot_position (id : N) (slots : list (option N)) : option nat :=
  match slots with
  | [] => None
  | s :: slots => if bool_decide (s = Some id) then Some 0%nat else option_map Datatypes.S (slot_position id slots)
  end.

Definition slot_for (id : N) (q : Queue) : option nat := slot_position id (q_slots q).

(** ** Everything that happens to a queue *)

Module QueueEvent.
Inductive t :=
| Add (file : WebFile) (options : TusStartOptions)
| AddAll (files : list WebFile) (options : TusStartOptions)
| ResumeEntry (entry : ResumableEntry) (file : WebFile) (options : TusStartOptions)
| ScanResumable
| PauseAll
| ResumeAll
| AbortAll
| PauseItem (id : N)
| ResumeItem (id : N)
| AbortItem (id : N)
| ClearComplete
| ClearFinished
| RemoveItem (id : N)
| RetryItem (id : N)
| Tick
(** a worker's task, and other code of the page, may do anything to what is theirs *)
| WorkerRuns (slot : nat) (w : Worker)
| PageChanges (page : Page).
End QueueEvent.

(** ** The methods of the handle *)

Section handle.
Context `{EntryJson, Quota, HashOrder}.

(** The options of an added file: with the URL of a persisted entry, unless the caller
    gave one or the same file is already waiting or being uploaded. *)
Definition auto_resume (now : f64) (file : WebFile) (options : TusStartOptions) (q : Queue)
    : TusStartOptions :=
  match existing_url options with
  | Some _ => options
  | None =>
      if has_active_file_match (q_items q) (q_endpoint q) file then options
      else
        match get (q_endpoint q) (match_key_of (q_endpoint q) file) now (q_page q) with
        | Some entry => set_existing_url (Some (re_upload_url entry)) options
        | None => options
        end
  end.

Definition add (now : f64) (file : WebFile) (options : TusStartOptions) (q : Queue) : N * Queue :=
  let options := auto_resume now file options q in
  let id := q_next_id q in
  let item :=
    mkTusQueueItem id (file_name file) (blob_size file) QueueItemStatus.Queued 0 None
      (existing_url options) file options None None f64_zero in
  (id, mkQueue (q_endpoint q) (q_items q ++ [item]) (id + 1) (q_slots q) (q_workers q) (q_page q)).

Definition scan_resumable (now : f64) (q : Queue) : list ResumableEntry * Queue :=
  let '(entries, page) := scan (q_endpoint q) now (q_page q) in
  (entries, set_items_page (q_items q) page q).

Fixpoint add_all (now : f64) (files : list WebFile) (options : TusStartOptions) (q : Queue)
    : list N * Queue :=
  match files with
  | [] => ([], q)
  | file :: files =>
      let '(id, q) := add now file options q in
      let '(ids, q) := add_all now files options q in
      (id :: ids, q)
  end.

Definition pause_all (q : Queue) : Queue := set_workers (map worker_pause (q_workers q)) q.
Definition resume_all (q : Queue) : Queue := set_workers (map worker_resume (q_workers q)) q.

Definition remove_persisted_for (q : Queue) (item : TusQueueItem) (page : Page) : Page :=
  remove_persisted_for_file (q_endpoint q) (qi_file item) page.

Definition queue_abort_all (q : Queue) : Queue :=
  let q := set_workers (map worker_abort (q_workers q)) q in
  let '(items, page) := apply_abort_all (remove_persisted_for q) (q_items q) (q_page q) in
  set_items_page items page q.

Definition resume_entry (now : f64) (entry : ResumableEntry) (file : WebFile) (options : TusStartOptions)
    (q : Queue) : option N * Queue :=
  if has_active_file_match (q_items q) (q_endpoint q) file then (None, q)
  else
    match resume_options_for_entry (q_endpoint q) entry file options now with
    | None => (None, q)
    | Some options => let '(id, q) := add now file options q in (Some id, q)
    end.

Definition pause_item (id : N) (q : Queue) : Q :=
  match slot_for id q with Some slot => on_worker slot worker_pause q | None => Ok q end.

Definition resume_item (id : N) (q : Queue) : Q :=
  match slot_for id q with Some slot => on_worker slot worker_resume q | None => Ok q end.

Definition abort_item (id : N) (q : Queue) : Q :=
  match slot_for id q with
  | Some slot => on_worker slot worker_abort q
  | None =>
      Ok match item_get id (q_items q) with
         | Some item =>
             if is_status QueueItemStatus.Queued item
             then set_items_page
                    (update_first (fun i => qi_id i =? id) (set_status QueueItemStatus.Aborted) (q_items q))
                    (remove_persisted_for q item (q_page q)) q
             else q
         | None => q
         end
  end.

Definition clear_complete (q : Queue) : Queue :=
  set_items (List.filter (fun i => negb (is_status QueueItemStatus.Complete i)) (q_items q)) q.

Definition clear_finished (q : Queue) : Queue :=
  let '(items, page) := apply_clear_finished (remove_persisted_for q) (q_items q) (q_page q) in
  set_items_page items page q.

Definition remove_item (id : N) (q : Queue) : Q :=
  let? q := match slot_for id q with Some slot => on_worker slot worker_abort q | None => Ok q end in
  let page :=
    match item_get id (q_items q) with
    | Some item => remove_persisted_for q item (q_page q)
    | None => q_page q
    end in
  Ok (set_items_page (List.filter (fun i => negb (qi_id i =? id)) (q_items q)) page q).

Definition retry_item (id : N) (q : Queue) : RetryDecision * Queue :=
  let '(decision, items) := apply_retry_item (q_items q) (q_slots q) id in
  (decision, set_items items q).

(** ** The scheduler *)

(** [workers[start.slot].start(file, options)] for the items that are still there *)
Fixpoint apply_starts (starts : list TickStart) (q : Queue) : Q :=
  match starts with
  | [] => Ok q
  | start :: starts =>
      let? q :=
        match item_get (ts_item_id start) (q_items q) with
        | Some i => on_worker (ts_slot start) (worker_start (qi_file i) (qi_options i)) q
        | None => Ok q
        end in
      apply_starts starts q
  end.

(** One turn of the scheduler's loop, after its timer. *)
Definition scheduler_tick (now_ms : f64) (q : Queue) : Q :=
  let? r := reconcile_tick (q_items q) (q_slots q) (map wk_state (q_workers q)) now_ms in
  let '(items, slots, starts) := r in
  apply_starts starts (mkQueue (q_endpoint q) items (q_next_id q) slots (q_workers q) (q_page q)).

(** ** Steps *)

Definition queue_step (now : f64) (e : QueueEvent.t) (q : Queue) : Q :=
  match e with
  | QueueEvent.Add file options => Ok (add now file options q).2
  | QueueEvent.AddAll files options => Ok (add_all now files options q).2
  | QueueEvent.ResumeEntry entry file options => Ok (resume_entry now entry file options q).2
  | QueueEvent.ScanResumable => Ok (scan_resumable now q).2
  | QueueEvent.PauseAll => Ok (pause_all q)
  | QueueEvent.ResumeAll => Ok (resume_all q)
  | QueueEvent.AbortAll => Ok (queue_abort_all q)
  | QueueEvent.PauseItem id => pause_item id q
  | QueueEvent.ResumeItem id => resume_item id q
  | QueueEvent.AbortItem id => abort_item id q
  | QueueEvent.ClearComplete => Ok (clear_complete q)
  | QueueEvent.ClearFinished => Ok (clear_finished q)
  | QueueEvent.RemoveItem id => remove_item id q
  | QueueEvent.RetryItem id => Ok (retry_item id q).2
  | QueueEvent.Tick => scheduler_tick now q
  | QueueEvent.WorkerRuns slot w => on_worker slot (fun _ => w) q
  | QueueEvent.PageChanges page => Ok (set_items_page (q_items q) page q)
  end.

Fixpoint queue_run (events : list (f64 * QueueEvent.t)) (q : Queue) : Q :=
  match events with
  | [] => Ok q
  | (now, e) :: events =>
      let? q := queue_step now e q in
      queue_run events q
  end.
End handle.
