(* ===== verification/UploadQueueSpec.v ===== *)
(** * The upload queue keeps its books ([queue.rs])

    [queue_ok] relates items and slots: ids are unique, a slot holds an id of its own,
    and an item is uploading or paused exactly while a slot holds its id.  Every method
    of the handle and every tick keeps it, whatever the workers do in between. *)

From stdpp Require Import gmap.
From Stdlib Require Import SpecFloat.
From S2P Require Import Prelude Text Crates Dioxus Persistence PersistenceSpec UploadEngine UploadQueue.
Local Open Scope N_scope.
Local Open Scope prog_scope.

(** ** Items and the ids that slots hold *)

Definition assigned (slots : list (option N)) : list N := omap id slots.

Record books (items : TusQueueState) (held : list N) (next : N) : Prop := {
  bk_ids : NoDup (map qi_id items);
  bk_items_old : forall i, i ∈ items -> qi_id i < next;
  bk_held_old : forall id, id ∈ held -> id < next;
  bk_held_once : NoDup held;
  bk_active : forall i, i ∈ items -> is_active i = true <-> qi_id i ∈ held;
}.

Record queue_ok (q : Queue) : Prop := {
  ok_books : books (q_items q) (assigned (q_slots q)) (q_next_id q);
  ok_slots : length (q_slots q) = WORKER_COUNT;
  ok_workers : length (q_workers q) = WORKER_COUNT;
}.

Lemma books_perm items held held' next : held ≡ₚ held' -> books items held next -> books items held' next.
Proof.
  intros Hp [Hi Ho Hh Hn Ha]. split; [done|done| | |].
  - intros id. rewrite <- Hp. apply Hh.
  - by rewrite <- Hp.
  - intros i Hin. rewrite (Ha i Hin). by rewrite Hp.
Qed.

Lemma assigned_app a b : assigned (a ++ b) = (assigned a ++ assigned b)%list.
Proof. apply omap_app. Qed.

Lemma assigned_middle pre id post : assigned (pre ++ Some id :: post) ≡ₚ id :: assigned (pre ++ None :: post).
Proof. rewrite !assigned_app. cbn. by rewrite Permutation_middle. Qed.

Lemma assigned_in slots id : id ∈ assigned slots <-> Some id ∈ slots.
Proof. unfold assigned. rewrite list_elem_of_omap. unfold Datatypes.id. naive_solver. Qed.

(** Changing the item with an id. *)
Definition change (id : N) (f : TusQueueItem -> TusQueueItem) (items : TusQueueState) : TusQueueState :=
  map (fun i => if qi_id i =? id then f i else i) items.

Lemma change_other id f items : (forall i, i ∈ items -> qi_id i <> id) -> change id f items = items.
Proof.
  intros Hne. induction items as [|i items IH]; [done|]. cbn.
  rewrite (proj2 (N.eqb_neq _ _)) by (apply Hne; by left). f_equal. apply IH. intros j Hj. apply Hne. by right.
Qed.

Lemma find_in {A} (p : A -> bool) l x : find p l = Some x -> x ∈ l /\ p x = true.
Proof. intros Hf. apply find_some in Hf as [Hin Hp]. by apply list_elem_of_In in Hin. Qed.

Lemma find_nothing {A} (p : A -> bool) l : find p l = None -> forall x, x ∈ l -> p x = false.
Proof. intros Hf x Hin. apply list_elem_of_In in Hin. by apply (find_none p l). Qed.

Lemma update_first_change p f items item :
  NoDup (map qi_id items) -> find p items = Some item ->
  update_first p f items = change (qi_id item) f items.
Proof.
  induction items as [|i items IH]; cbn; [done|]. intros [Hni Hnd]%NoDup_cons Hf.
  assert (forall j, j ∈ items -> qi_id j <> qi_id i) as Hne.
  { intros j Hj Heq. apply Hni. rewrite <- Heq. by apply list_elem_of_fmap_2. }
  destruct (p i).
  - injection Hf as ->. rewrite N.eqb_refl. f_equal. symmetry. by apply change_other.
  - rewrite (IH Hnd Hf). apply find_in in Hf as [Hin _].
    rewrite (proj2 (N.eqb_neq (qi_id i) _)); [done|]. intros Heq. by eapply Hne.
Qed.

Lemma item_get_some id items i : item_get id items = Some i -> i ∈ items /\ qi_id i = id.
Proof. intros [Hin Heq%N.eqb_eq]%find_in. done. Qed.

Lemma item_get_none id items i : item_get id items = None -> i ∈ items -> qi_id i <> id.
Proof. intros Hf Hin. by apply N.eqb_neq, (find_nothing _ _ Hf). Qed.

Lemma item_get_in id items i : NoDup (map qi_id items) -> i ∈ items -> qi_id i = id -> item_get id items = Some i.
Proof.
  intros Hnd Hin Heq. destruct (item_get id items) as [j|] eqn:Hg.
  - apply item_get_some in Hg as [Hj Hid]. f_equal.
    apply list_elem_of_lookup in Hin as [a Ha]. apply list_elem_of_lookup in Hj as [b Hb].
    assert (a = b) as ->; [|congruence].
    apply (NoDup_lookup _ _ _ id Hnd); rewrite list_lookup_fmap; [rewrite Ha|rewrite Hb]; cbn; by f_equal.
  - by apply (item_get_none _ _ _ Hg) in Hin.
Qed.

Lemma books_map f items held held' next :
  (forall i, i ∈ items -> qi_id (f i) = qi_id i) -> NoDup held' -> (forall id, id ∈ held' -> id < next) ->
  (forall i, i ∈ items -> is_active (f i) = true <-> qi_id i ∈ held') ->
  books items held next -> books (map f items) held' next.
Proof.
  intros Hid Hn Hh Hact [Hi Ho _ _ _]. split; [|..|done|].
  - rewrite List.map_map. erewrite map_ext_in; [exact Hi|].
    intros i Hin. apply Hid. by apply list_elem_of_In.
  - intros j (i & -> & Hin)%list_elem_of_fmap. rewrite Hid by done. by apply Ho.
  - exact Hh.
  - intros j (i & -> & Hin)%list_elem_of_fmap. rewrite Hid by done. by apply Hact.
Qed.

(** A change of one item that leaves it as active as it was. *)
Lemma books_change id f items held next :
  (forall i, i ∈ items -> qi_id i = id -> qi_id (f i) = id /\ is_active (f i) = is_active i) ->
  books items held next -> books (change id f items) held next.
Proof.
  intros Hf Hb. pose proof Hb as [Hi Ho Hh Hn Ha].
  eapply books_map; [|done|done| |exact Hb].
  - intros i Hin. destruct (N.eqb_spec (qi_id i) id) as [Heq|]; [|done].
    destruct (Hf i Hin Heq). congruence.
  - intros i Hin. rewrite <- (Ha i Hin).
    destruct (N.eqb_spec (qi_id i) id) as [Heq|]; [|done]. by destruct (Hf i Hin Heq) as [_ ->].
Qed.

(** A slot lets go of an item that is no longer active, or is gone. *)
Lemma books_release id f items held next :
  (forall i, i ∈ items -> qi_id i = id -> qi_id (f i) = id /\ is_active (f i) = false) ->
  books items (id :: held) next -> books (change id f items) held next.
Proof.
  intros Hf Hb. pose proof Hb as [Hi Ho Hh [Hni Hn]%NoDup_cons Ha].
  eapply books_map; [|done| | |exact Hb].
  - intros i Hin. destruct (N.eqb_spec (qi_id i) id) as [Heq|]; [|done].
    destruct (Hf i Hin Heq). congruence.
  - intros j Hj. apply Hh. by right.
  - intros i Hin. destruct (N.eqb_spec (qi_id i) id) as [Heq|Hne].
    + destruct (Hf i Hin Heq) as [_ ->]. rewrite Heq. split; [done|]. intros Hc. by apply Hni in Hc.
    + rewrite (Ha i Hin), elem_of_cons. naive_solver.
Qed.

(** A slot takes an item that waits. *)
Lemma books_acquire item f items held next :
  item ∈ items -> is_active item = false ->
  (qi_id (f item) = qi_id item /\ is_active (f item) = true) ->
  books items held next -> books (change (qi_id item) f items) (qi_id item :: held) next.
Proof.
  intros Hit Hidle [Hfid Hfact] Hb. pose proof Hb as [Hi Ho Hh Hn Ha].
  assert (forall i, i ∈ items -> qi_id i = qi_id item -> i = item) as Huniq.
  { intros i Hin Heq. pose proof (item_get_in _ _ i Hi Hin Heq) as H1.
    pose proof (item_get_in _ _ item Hi Hit eq_refl) as H2. congruence. }
  eapply books_map; [| | | |exact Hb].
  - intros i Hin. destruct (N.eqb_spec (qi_id i) (qi_id item)) as [Heq|]; [|done].
    apply Huniq in Heq; [|exact Hin]. by subst.
  - apply NoDup_cons. split; [|done]. intros Hheld. apply (Ha item Hit) in Hheld. congruence.
  - intros id [->|Hin]%elem_of_cons; [by apply Ho|by apply Hh].
  - intros i Hin. destruct (N.eqb_spec (qi_id i) (qi_id item)) as [Heq|Hd].
    + apply Huniq in Heq; [|exact Hin]. subst. rewrite Hfact. split; [|done]. intros _. by left.
    + rewrite (Ha i Hin), elem_of_cons. split; [by right|]. by intros [Heq|].
Qed.

Lemma books_filter p items held next : books items held next -> books (List.filter p items) held next.
Proof.
  intros [Hi Ho Hh Hn Ha].
  assert (forall i, i ∈ List.filter p items -> i ∈ items) as Hsub.
  { intros i Hin. apply list_elem_of_In in Hin. apply filter_In in Hin as [Hin _].
    by apply list_elem_of_In. }
  split; [|by eauto|done|done|by eauto].
  clear Ho Ha Hsub. induction items as [|i items IH]; [done|]. cbn in *.
  apply NoDup_cons in Hi as [Hni Hi]. destruct (p i); [|by apply IH]. cbn. apply NoDup_cons.
  split; [|by apply IH]. intros (j & Hj & Hin)%list_elem_of_fmap. apply Hni. rewrite Hj.
  apply list_elem_of_fmap_2. apply list_elem_of_In in Hin. apply filter_In in Hin as [Hin _].
  by apply list_elem_of_In.
Qed.

(** ** One step of the scheduler *)

Lemma app_one {A} (pre : list A) a post : (pre ++ a :: post)%list = ((pre ++ [a]) ++ post)%list.
Proof. by rewrite <- app_assoc. Qed.

Lemma reconcile_item_active ws now item :
  let '(item', kept) := reconcile_item ws now item in
  qi_id item' = qi_id item /\ qi_file item' = qi_file item /\ qi_options item' = qi_options item /\
  is_active item' = kept /\ is_status QueueItemStatus.Queued item' = false \/
  is_terminal (qi_status item) = false /\ is_active item = false.
Proof.
  unfold reconcile_item. destruct (us_status ws).
  - cbn. destruct (is_terminal (qi_status item)) eqn:Ht; left; repeat split; unfold is_active, is_status; cbn;
      destruct (qi_status item); try done.
  - left. cbn. destruct (qi_status item), (qi_paused_at_ms item); repeat split.
  - left. cbn. destruct (negb _ && _); repeat split.
  - left. repeat split.
  - left. repeat split.
Qed.

Lemma reconcile_slot_ok items pre a post next ws now :
  books items (assigned (pre ++ a :: post)) next ->
  let '(items', a') := reconcile_slot items a ws now in
  books items' (assigned (pre ++ a' :: post)) next.
Proof.
  intros Hb. unfold reconcile_slot. destruct a as [id|]; [|done].
  apply (books_perm _ _ _ _ (assigned_middle pre id post)) in Hb.
  destruct (item_get id items) as [item|] eqn:Hg.
  - pose proof (item_get_some _ _ _ Hg) as [Hin Hid].
    pose proof (reconcile_item_active ws now item) as Hr.
    destruct (reconcile_item ws now item) as [item' kept].
    assert (is_active item = true) as Hact.
    { apply (bk_active _ _ _ Hb item Hin). rewrite Hid. by left. }
    destruct Hr as [(Hid' & _ & _ & Hk & _)|[_ ?]]; [|congruence].
    rewrite (update_first_change _ _ _ item) by (done || apply Hb). rewrite Hid.
    assert (forall i, i ∈ items -> qi_id i = id -> i = item) as Huniq.
    { intros i Hi Heq. pose proof (item_get_in _ _ i (bk_ids _ _ _ Hb) Hi Heq). congruence. }
    destruct kept.
    + apply (books_perm _ _ _ _ (symmetry (assigned_middle pre id post))).
      apply books_change; [|done]. intros i Hi Heq. apply Huniq in Heq; [|exact Hi]. subst. by rewrite Hk.
    + apply books_release; [|done]. intros i Hi Heq. by rewrite Hid', Hk.
  - assert (change id Datatypes.id items = items) as Hc.
    { apply change_other. intros i. by apply item_get_none. }
    destruct (worker_at_rest ws).
    + rewrite <- Hc. apply books_release; [|done]. intros i Hi Heq. by apply (item_get_none _ _ _ Hg) in Hi.
    + by apply (books_perm _ _ _ _ (symmetry (assigned_middle pre id post))).
Qed.

Lemma reconcile_slots_ok items pre slots snapshots next now :
  books items (assigned (pre ++ slots)) next ->
  let '(items', slots') := reconcile_slots items slots snapshots now in
  books items' (assigned (pre ++ slots')) next.
Proof.
  revert items pre snapshots. induction slots as [|a slots IH]; intros items pre [|ws snapshots] Hb; try done.
  cbn. apply (reconcile_slot_ok _ _ _ _ _ ws now) in Hb.
  destruct (reconcile_slot items a ws now) as [items' a'].
  rewrite app_one in Hb. apply (IH _ _ snapshots) in Hb.
  destruct (reconcile_slots items' slots snapshots now) as [items'' slots'].
  by rewrite app_one.
Qed.

Lemma reconcile_slots_length items slots snapshots now :
  length (reconcile_slots items slots snapshots now).2 = length slots.
Proof.
  revert items snapshots. induction slots as [|a slots IH]; intros items [|ws snapshots]; try done.
  cbn. destruct (reconcile_slot items a ws now) as [items' a'].
  specialize (IH items' snapshots). destruct (reconcile_slots items' slots snapshots now). cbn in *. by rewrite IH.
Qed.

Lemma fill_slots_ok items pre n slots next now :
  books items (assigned (pre ++ slots)) next ->
  let '(items', slots', _) := fill_slots items n slots now in
  books items' (assigned (pre ++ slots')) next.
Proof.
  revert items pre n. induction slots as [|[id|] slots IH]; intros items pre n Hb; [done| |]; cbn.
  - rewrite app_one in Hb. apply (IH _ _ (Datatypes.S n)) in Hb.
    destruct (fill_slots items _ slots now) as [[items' slots'] starts]. by rewrite app_one.
  - destruct (find _ items) as [item|] eqn:Hf.
    + assert (books (update_first (is_status QueueItemStatus.Queued) (start_item now) items)
        (assigned (pre ++ Some (qi_id item) :: slots)) next) as Hb'.
      { rewrite (update_first_change _ _ _ item) by (done || apply Hb).
        apply find_in in Hf as [Hin Hq%bool_decide_eq_true].
        apply (books_perm _ _ _ _ (symmetry (assigned_middle pre (qi_id item) slots))).
        apply books_acquire; [done| |done|done]. unfold is_active. by rewrite Hq. }
      rewrite app_one in Hb'. apply (IH _ _ (Datatypes.S n)) in Hb'.
      destruct (fill_slots _ _ slots now) as [[items' slots'] starts]. by rewrite app_one.
    + rewrite app_one in Hb. apply (IH _ _ (Datatypes.S n)) in Hb.
      destruct (fill_slots items _ slots now) as [[items' slots'] starts]. by rewrite app_one.
Qed.

Lemma fill_slots_length items n slots now :
  length (fill_slots items n slots now).1.2 = length slots.
Proof.
  revert items n. induction slots as [|[id|] slots IH]; intros items n; [done| |]; cbn.
  - specialize (IH items (Datatypes.S n)). destruct (fill_slots items _ slots now) as [[? ?] ?]. cbn in *. by rewrite IH.
  - destruct (find _ items).
    + specialize (IH (update_first (is_status QueueItemStatus.Queued) (start_item now) items) (Datatypes.S n)).
      destruct (fill_slots _ _ slots now) as [[? ?] ?]. cbn in *. by rewrite IH.
    + specialize (IH items (Datatypes.S n)). destruct (fill_slots items _ slots now) as [[? ?] ?]. cbn in *. by rewrite IH.
Qed.

(** *** Who is started *)

Definition queued (items : TusQueueState) : TusQueueState :=
  List.filter (is_status QueueItemStatus.Queued) items.

(** The same upload: nothing after [add] changes an item's id, file or options, but
    for a retry, which drops the URL. *)
Definition same_upload (i j : TusQueueItem) : Prop :=
  qi_id j = qi_id i /\ qi_file j = qi_file i /\ qi_options j = qi_options i.

#[local] Instance same_upload_refl : Reflexive same_upload.
Proof. done. Qed.
#[local] Instance same_upload_trans : Transitive same_upload.
Proof. unfold same_upload. intros ? ? ? ? ?. intuition congruence. Qed.

Lemma update_first_same p f items :
  (forall i, i ∈ items -> p i = true -> same_upload i (f i)) -> Forall2 same_upload items (update_first p f items).
Proof.
  induction items as [|i items IH]; intros Hf; cbn; [constructor|].
  destruct (p i) eqn:Hp; constructor; try done.
  - apply Hf; [by left|done].
  - apply IH. intros j Hj. apply Hf. by right.
Qed.

Lemma same_item_get id items items' i :
  Forall2 same_upload items items' -> item_get id items = Some i ->
  exists i', item_get id items' = Some i' /\ same_upload i i'.
Proof.
  induction 1 as [|j j' items items' Hs _ IH]; cbn; [done|]. pose proof Hs as (-> & _ & _).
  destruct (qi_id j =? id); [|done]. intros [= <-]. by exists j'.
Qed.

Lemma filter_change p id f items :
  (forall i, i ∈ items -> qi_id i = id -> p i = false /\ p (f i) = false) ->
  List.filter p (change id f items) = List.filter p items.
Proof.
  unfold change. induction items as [|i items IH]; intros Hf; [done|]. cbn.
  rewrite IH by (intros j Hj; apply Hf; by right).
  destruct (N.eqb_spec (qi_id i) id) as [Heq|]; [|done].
  destruct (Hf i) as [-> ->]; [by left|done|done].
Qed.

Lemma reconcile_slots_same items pre slots snapshots next now :
  books items (assigned (pre ++ slots)) next ->
  let items' := (reconcile_slots items slots snapshots now).1 in
  queued items' = queued items /\ Forall2 same_upload items items'.
Proof.
  revert items pre snapshots. induction slots as [|a slots IH]; intros items pre [|ws snapshots] Hb; try done.
  cbn. pose proof (reconcile_slot_ok _ _ _ _ _ ws now Hb) as Hb'.
  assert (queued (reconcile_slot items a ws now).1 = queued items /\
    Forall2 same_upload items (reconcile_slot items a ws now).1) as [Hq Hs].
  { unfold reconcile_slot. destruct a as [id|]; [|done].
    destruct (item_get id items) as [item|] eqn:Hg; [|done].
    pose proof (item_get_some _ _ _ Hg) as [Hin Hid].
    assert (is_active item = true) as Hact.
    { apply (bk_active _ _ _ Hb item Hin), assigned_in. rewrite Hid. apply elem_of_app. right. by left. }
    pose proof (reconcile_item_active ws now item) as Hr. destruct (reconcile_item ws now item) as [item' kept].
    destruct Hr as [(H1 & H2 & H3 & _ & H4)|[_ ?]]; [|congruence].
    assert (forall i, i ∈ items -> qi_id i = id -> i = item) as Huniq.
    { intros i Hi Heq. pose proof (item_get_in _ _ i (bk_ids _ _ _ Hb) Hi Heq). congruence. }
    cbn [fst]. split.
    - rewrite (update_first_change _ _ _ item) by (done || apply Hb). apply filter_change.
      intros i Hi Heq. rewrite Hid in Heq. apply Huniq in Heq; [|done]. subst i. split; [|done].
      unfold is_active in Hact. unfold is_status. by destruct (qi_status item).
    - apply update_first_same. intros i Hi Heq%N.eqb_eq. apply Huniq in Heq; [|done]. subst i. done. }
  destruct (reconcile_slot items a ws now) as [items1 a1]. rewrite app_one in Hb'.
  specialize (IH items1 _ snapshots Hb') as [Hq' Hs'].
  destruct (reconcile_slots items1 slots snapshots now) as [items2 slots2]. cbn in *.
  split; [rewrite <- Hq; exact Hq'|by etrans].
Qed.

Lemma find_hd {A} (p : A -> bool) l : find p l = hd_error (List.filter p l).
Proof. induction l as [|x l IH]; [done|]. cbn. by destruct (p x). Qed.

Lemma queued_start now items :
  queued (update_first (is_status QueueItemStatus.Queued) (start_item now) items) = tail (queued items).
Proof.
  induction items as [|i items IH]; [done|]. cbn.
  destruct (is_status QueueItemStatus.Queued i) eqn:Hi; cbn; [done|]. rewrite Hi. apply IH.
Qed.

Lemma fill_slots_same items n slots now :
  Forall2 same_upload items (fill_slots items n slots now).1.1.
Proof.
  revert items n. induction slots as [|[id|] slots IH]; intros items n; cbn.
  - reflexivity.
  - specialize (IH items (Datatypes.S n)). by destruct (fill_slots items _ slots now) as [[? ?] ?].
  - destruct (find _ items).
    + specialize (IH (update_first (is_status QueueItemStatus.Queued) (start_item now) items) (Datatypes.S n)).
      destruct (fill_slots _ _ slots now) as [[? ?] ?]. cbn in *.
      etrans; [|exact IH]. by apply update_first_same.
    + specialize (IH items (Datatypes.S n)). by destruct (fill_slots items _ slots now) as [[? ?] ?].
Qed.

(** The slots filled, in order, take the queued items, in order. *)
Definition fills (items : TusQueueState) (n : nat) (slots : list (option N))
    (r : TusQueueState * list (option N) * list TickStart) : Prop :=
  let '(items', slots', starts) := r in
  queued items' = drop (length starts) (queued items) /\
  map ts_item_id starts = take (length starts) (map qi_id (queued items)) /\
  (None ∈ slots' -> queued items' = []) /\
  (forall st, st ∈ starts -> exists k, (ts_slot st = n + k)%nat /\ slots !! k = Some None /\
     slots' !! k = Some (Some (ts_item_id st))) /\
  NoDup (map ts_slot starts).

Lemma fills_skip items n a slots items' slots' starts :
  (a = None -> queued items = []) ->
  fills items (Datatypes.S n) slots (items', slots', starts) ->
  fills items n (a :: slots) (items', a :: slots', starts).
Proof.
  intros Ha (H1 & H2 & H3 & H4 & H5). repeat split; try done.
  - intros [Heq|Hin]%elem_of_cons; [|by apply H3]. rewrite H1, Ha by done. apply drop_nil.
  - intros st Hst. destruct (H4 st Hst) as (k & ? & ? & ?). exists (Datatypes.S k). repeat split; try done. lia.
Qed.

Lemma fill_slots_fills items n slots now : fills items n slots (fill_slots items n slots now).
Proof.
  revert items n. induction slots as [|[id|] slots IH]; intros items n; cbn.
  - repeat split; [by intros ?%elem_of_nil|by intros st ?%elem_of_nil|constructor].
  - specialize (IH items (Datatypes.S n)). destruct (fill_slots items _ slots now) as [[? ?] ?].
    by apply fills_skip.
  - destruct (find _ items) as [item|] eqn:Hf.
    + specialize (IH (update_first (is_status QueueItemStatus.Queued) (start_item now) items) (Datatypes.S n)).
      destruct (fill_slots _ _ slots now) as [[items' slots'] starts].
      destruct IH as (H1 & H2 & H3 & H4 & H5). rewrite queued_start in H1, H2.
      rewrite find_hd in Hf. change (List.filter (is_status QueueItemStatus.Queued) items) with (queued items) in Hf.
      unfold fills. destruct (queued items) as [|i rest]; [done|]. injection Hf as ->. cbn in *.
      repeat split.
      * done.
      * by f_equal.
      * intros [?|Hin]%elem_of_cons; [done|]. by apply H3.
      * intros st [->|Hst]%elem_of_cons.
        -- exists 0%nat. repeat split. cbn. lia.
        -- destruct (H4 st Hst) as (k & ? & ? & ?). exists (Datatypes.S k). repeat split; try done. lia.
      * apply NoDup_cons. split; [|done]. intros (st & Hs & Hst)%list_elem_of_fmap.
        destruct (H4 st Hst) as (k & ? & _). lia.
    + specialize (IH items (Datatypes.S n)). destruct (fill_slots items _ slots now) as [[? ?] ?].
      apply fills_skip; [|done]. intros _. rewrite find_hd in Hf.
      change (List.filter (is_status QueueItemStatus.Queued) items) with (queued items) in Hf.
      by destruct (queued items).
Qed.

(** ** The whole queue *)

Lemma slot_position_some id slots n : slot_position id slots = Some n -> slots !! n = Some (Some id).
Proof.
  revert n. induction slots as [|s slots IH]; intros n; cbn; [done|].
  case_bool_decide as Hs; [intros [= <-]; by rewrite Hs|].
  destruct (slot_position id slots) as [k|]; [|done]. intros [= <-]. by apply IH.
Qed.

Lemma slot_position_none id slots : slot_position id slots = None -> Some id ∉ slots.
Proof.
  induction slots as [|s slots IH]; cbn; [by intros _ ?%elem_of_nil|].
  case_bool_decide as Hs; [done|]. destruct (slot_position id slots); [done|].
  intros _ [Heq|Hin]%elem_of_cons; [by apply Hs|by apply IH].
Qed.

Lemma on_worker_ok slot f q :
  queue_ok q -> (slot < WORKER_COUNT)%nat -> exists q', on_worker slot f q = Ok q' /\ queue_ok q' /\
  exists w, q_workers q !! slot = Some w /\ q' = set_workers (<[slot := f w]> (q_workers q)) q.
Proof.
  intros [Hb Hs Hw] Hlt. unfold on_worker.
  destruct (lookup_lt_is_Some_2 (q_workers q) slot) as [w Hl]; [lia|]. rewrite Hl.
  eexists. split; [done|]. split; [|by eexists]. split; [done|done|]. cbn. by rewrite length_insert.
Qed.

Lemma slot_for_lt id q slot : queue_ok q -> slot_for id q = Some slot -> (slot < WORKER_COUNT)%nat.
Proof. intros [_ Hs _] Hf%slot_position_some%lookup_lt_Some. lia. Qed.

Lemma set_workers_ok workers q : length workers = length (q_workers q) -> queue_ok q -> queue_ok (set_workers workers q).
Proof. intros Hl [Hb Hs Hw]. split; cbn; [done|done|congruence]. Qed.

Lemma set_items_page_ok items page q :
  books items (assigned (q_slots q)) (q_next_id q) -> queue_ok q -> queue_ok (set_items_page items page q).
Proof. intros Hb [_ Hs Hw]. by split. Qed.

(** The workers that starts leave: those of the started slots have the start as their last command. *)
Definition started_workers (starts : list TickStart) (q : Queue) (workers : list Worker) : Prop :=
  length workers = length (q_workers q) /\
  (forall st, st ∈ starts -> exists i w, item_get (ts_item_id st) (q_items q) = Some i /\
     q_workers q !! ts_slot st = Some w /\
     workers !! ts_slot st = Some (worker_start (qi_file i) (qi_options i) w)) /\
  (forall s, (forall st, st ∈ starts -> ts_slot st <> s) -> workers !! s = q_workers q !! s).

Lemma apply_starts_ok starts q :
  NoDup (map ts_slot starts) ->
  (forall st, st ∈ starts -> (ts_slot st < length (q_workers q))%nat /\
     is_Some (item_get (ts_item_id st) (q_items q))) ->
  exists workers, apply_starts starts q = Ok (set_workers workers q) /\ started_workers starts q workers.
Proof.
  revert q. induction starts as [|st starts IH]; intros q Hnd Hst.
  - exists (q_workers q). split; [by destruct q|]. split; [done|]. split; [by intros st ?%elem_of_nil|done].
  - apply NoDup_cons in Hnd as [Hni Hnd]. destruct (Hst st) as [Hlt [i Hi]]; [by left|].
    destruct (lookup_lt_is_Some_2 _ _ Hlt) as [w Hw]. cbn. rewrite Hi. unfold on_worker. rewrite Hw. cbn.
    set (workers1 := <[ts_slot st := worker_start (qi_file i) (qi_options i) w]> (q_workers q)).
    destruct (IH (set_workers workers1 q) Hnd) as (workers & Heq & Hlen & Hin & Hout).
    { intros st' Hin. cbn. unfold workers1. rewrite length_insert. apply Hst. by right. }
    exists workers. split; [exact Heq|]. cbn in Hlen, Hin, Hout. unfold workers1 in *.
    assert (forall st', st' ∈ starts -> ts_slot st' <> ts_slot st) as Hne.
    { intros st' Hin' Hs. apply Hni. rewrite <- Hs. by apply list_elem_of_fmap_2. }
    split; [by rewrite Hlen, length_insert|]. split.
    + intros st' [->|Hin']%elem_of_cons.
      * exists i, w. repeat split; try done. rewrite Hout by done. by rewrite list_lookup_insert_eq.
      * destruct (Hin st' Hin') as (i' & w' & H1 & H2 & H3). exists i', w'. repeat split; try done.
        rewrite list_lookup_insert_ne in H2; [done|]. intros Hs. by apply (Hne st' Hin').
    + intros s Hs. rewrite Hout by (intros st' Hin'; apply Hs; by right).
      rewrite list_lookup_insert_ne; [done|]. apply Hs. by left.
Qed.

(** *** A tick, slot by slot *)

Lemma reconcile_item_kept ws now item : (reconcile_item ws now item).2 = negb (worker_at_rest ws).
Proof. unfold reconcile_item, worker_at_rest. by destruct (us_status ws). Qed.

Lemma reconcile_slot_freed items a ws now :
  (reconcile_slot items a ws now).2 = if worker_at_rest ws then None else a.
Proof.
  unfold reconcile_slot. destruct a as [id|]; [|by destruct (worker_at_rest ws)].
  destruct (item_get id items) as [item|]; [|done].
  pose proof (reconcile_item_kept ws now item) as Hk. destruct (reconcile_item ws now item) as [item' kept].
  cbn in *. subst. by destruct (worker_at_rest ws).
Qed.

Lemma reconcile_slots_lookup items slots snapshots now s a ws :
  slots !! s = Some a -> snapshots !! s = Some ws ->
  (reconcile_slots items slots snapshots now).2 !! s = Some (if worker_at_rest ws then None else a).
Proof.
  revert items snapshots s. induction slots as [|b slots IH]; intros items [|vs snapshots] [|s]; try done; cbn.
  - intros [= ->] [= ->]. pose proof (reconcile_slot_freed items a ws now) as Hf.
    destruct (reconcile_slot items a ws now) as [items1 a1]. cbn in Hf.
    destruct (reconcile_slots items1 slots snapshots now). cbn. by rewrite Hf.
  - intros Ha Hws. destruct (reconcile_slot items b vs now) as [items1 b1].
    specialize (IH items1 snapshots s Ha Hws). by destruct (reconcile_slots items1 slots snapshots now).
Qed.

Lemma change_in id f items i : i ∈ items -> (if qi_id i =? id then f i else i) ∈ change id f items.
Proof. intros Hin. by apply (list_elem_of_fmap_2 (fun i => if qi_id i =? id then f i else i)). Qed.

Lemma reconcile_slot_frame items pre a post next ws now i :
  books items (assigned (pre ++ a :: post)) next -> i ∈ items ->
  (if bool_decide (a = Some (qi_id i)) then (reconcile_item ws now i).1 else i)
    ∈ (reconcile_slot items a ws now).1.
Proof.
  intros Hb Hin. unfold reconcile_slot. destruct a as [id|]; [|by rewrite bool_decide_false].
  destruct (item_get id items) as [item|] eqn:Hg.
  - pose proof (item_get_some _ _ _ Hg) as [_ Hid].
    destruct (reconcile_item ws now item) as [item' kept] eqn:Hr. cbn [fst].
    rewrite (update_first_change _ _ _ item) by (done || apply Hb). rewrite Hid.
    pose proof (change_in id (fun _ => item') items i Hin) as Hc. cbn beta in Hc.
    destruct (N.eqb_spec (qi_id i) id) as [Heq|Hne].
    + rewrite bool_decide_true by (by rewrite Heq).
      pose proof (item_get_in _ _ i (bk_ids _ _ _ Hb) Hin Heq) as Hg'. rewrite Hg in Hg'.
      injection Hg' as <-. by rewrite Hr.
    + by rewrite bool_decide_false by congruence.
  - rewrite bool_decide_false; [done|]. intros [= ->]. by apply (item_get_none _ _ _ Hg) in Hin.
Qed.

Lemma reconcile_slots_frame items pre slots snapshots next now i :
  books items (assigned (pre ++ slots)) next -> i ∈ items -> Some (qi_id i) ∉ slots ->
  i ∈ (reconcile_slots items slots snapshots now).1.
Proof.
  revert items pre snapshots. induction slots as [|a slots IH]; intros items pre [|ws snapshots] Hb Hin Hni; try done.
  cbn. apply not_elem_of_cons in Hni as [Ha Hni].
  pose proof (reconcile_slot_frame _ _ _ _ _ ws now i Hb Hin) as Hf.
  rewrite bool_decide_false in Hf by congruence.
  apply (reconcile_slot_ok _ _ _ _ _ ws now) in Hb.
  destruct (reconcile_slot items a ws now) as [items1 a1]. rewrite app_one in Hb.
  specialize (IH items1 _ snapshots Hb Hf Hni). by destruct (reconcile_slots items1 slots snapshots now).
Qed.

Lemma reconcile_slots_mirrors items pre slots snapshots next now s i ws :
  books items (assigned (pre ++ slots)) next -> i ∈ items ->
  slots !! s = Some (Some (qi_id i)) -> snapshots !! s = Some ws ->
  (reconcile_item ws now i).1 ∈ (reconcile_slots items slots snapshots now).1.
Proof.
  revert items pre snapshots s. induction slots as [|a slots IH];
    intros items pre [|vs snapshots] [|s] Hb Hin Hs Hws; try done; cbn in *.
  - injection Hs as ->. injection Hws as ->.
    pose proof (reconcile_slot_frame _ _ _ _ _ ws now i Hb Hin) as Hf. rewrite bool_decide_true in Hf by done.
    assert (qi_id (reconcile_item ws now i).1 = qi_id i) as Hid.
    { pose proof (reconcile_item_active ws now i) as Hr. destruct (reconcile_item ws now i).
      destruct Hr as [(? & _)|[_ Hact]]; [done|].
      assert (is_active i = true) as ?; [|congruence].
      apply (bk_active _ _ _ Hb i Hin), assigned_in, elem_of_app. right. by left. }
    assert (Some (qi_id i) ∉ slots) as Hni.
    { pose proof (bk_held_once _ _ _ Hb) as Hn. rewrite assigned_middle in Hn.
      apply NoDup_cons in Hn as [Hn _]. intros Hin'. apply Hn. apply assigned_in, elem_of_app. right. by right. }
    apply (reconcile_slot_ok _ _ _ _ _ ws now) in Hb.
    destruct (reconcile_slot items (Some (qi_id i)) ws now) as [items1 a1]. rewrite app_one in Hb.
    rewrite <- Hid in Hni. pose proof (reconcile_slots_frame items1 _ slots snapshots next now _ Hb Hf Hni) as Hr.
    by destruct (reconcile_slots items1 slots snapshots now).
  - pose proof (reconcile_slot_frame _ _ _ _ _ vs now i Hb Hin) as Hf.
    rewrite bool_decide_false in Hf.
    2: { intros ->. pose proof (bk_held_once _ _ _ Hb) as Hn. rewrite assigned_middle in Hn.
         apply NoDup_cons in Hn as [Hn _]. apply Hn. apply assigned_in, elem_of_app. right. right.
         by eapply list_elem_of_lookup_2. }
    apply (reconcile_slot_ok _ _ _ _ _ vs now) in Hb.
    destruct (reconcile_slot items a vs now) as [items1 a1]. rewrite app_one in Hb.
    specialize (IH items1 _ snapshots s Hb Hf Hs Hws). by destruct (reconcile_slots items1 slots snapshots now).
Qed.

Lemma update_first_other p f items i : i ∈ items -> p i = false -> i ∈ update_first p f items.
Proof.
  induction items as [|j items IH]; [done|]. intros [<-|Hin]%elem_of_cons Hp; cbn.
  - rewrite Hp. by left.
  - destruct (p j); right; [done|]. by apply IH.
Qed.

Lemma fill_slots_frame items n slots now i :
  i ∈ items -> is_status QueueItemStatus.Queued i = false -> i ∈ (fill_slots items n slots now).1.1.
Proof.
  revert items n. induction slots as [|[id|] slots IH]; intros items n Hin Hp; [done| |]; cbn.
  - specialize (IH items (Datatypes.S n) Hin Hp). by destruct (fill_slots items _ slots now) as [[? ?] ?].
  - destruct (find _ items).
    + apply (update_first_other (is_status QueueItemStatus.Queued) (start_item now)) in Hin; [|done].
      specialize (IH _ (Datatypes.S n) Hin Hp). by destruct (fill_slots _ _ slots now) as [[? ?] ?].
    + specialize (IH items (Datatypes.S n) Hin Hp). by destruct (fill_slots items _ slots now) as [[? ?] ?].
Qed.

Lemma fill_slots_held items n slots now s id :
  slots !! s = Some (Some id) -> (fill_slots items n slots now).1.2 !! s = Some (Some id).
Proof.
  revert items n s. induction slots as [|a slots IH]; intros items n [|s] Hs; try done; cbn in *.
  - injection Hs as ->. by destruct (fill_slots items _ slots now) as [[? ?] ?].
  - destruct a as [id'|]; [|destruct (find _ items)];
      match goal with
      | |- context [fill_slots ?q ?m ?l now] =>
          specialize (IH q m s Hs); by destruct (fill_slots q m l now) as [[? ?] ?]
      end.
Qed.

Lemma tick_run now q :
  queue_ok q -> exists items slots items' slots' starts workers,
  reconcile_slots (q_items q) (q_slots q) (map wk_state (q_workers q)) now = (items, slots) /\
  fill_slots items 0 slots now = (items', slots', starts) /\
  let q' := mkQueue (q_endpoint q) items' (q_next_id q) slots' (q_workers q) (q_page q) in
  scheduler_tick now q = Ok (set_workers workers q') /\ queue_ok (set_workers workers q') /\
  started_workers starts q' workers /\ Forall2 same_upload (q_items q) items' /\
  queued items = queued (q_items q).
Proof.
  intros Hok. pose proof Hok as [Hb Hs Hw].
  pose proof (reconcile_slots_ok (q_items q) [] (q_slots q) (map wk_state (q_workers q)) (q_next_id q) now Hb) as Hb1.
  pose proof (reconcile_slots_same (q_items q) [] (q_slots q) (map wk_state (q_workers q)) (q_next_id q) now Hb)
    as [Hq1 Hs1].
  pose proof (reconcile_slots_length (q_items q) (q_slots q) (map wk_state (q_workers q)) now) as Hl1.
  destruct (reconcile_slots _ _ _ now) as [items slots] eqn:Hr. cbn [fst snd app] in *.
  pose proof (fill_slots_ok items [] 0 slots (q_next_id q) now Hb1) as Hb2.
  pose proof (fill_slots_same items 0 slots now) as Hs2.
  pose proof (fill_slots_length items 0 slots now) as Hl2.
  pose proof (fill_slots_fills items 0 slots now) as Hf.
  destruct (fill_slots items 0 slots now) as [[items' slots'] starts] eqn:Hfill. cbn [fst snd app] in *.
  assert (Forall2 same_upload (q_items q) items') as Hsame by (by etrans).
  set (q' := mkQueue (q_endpoint q) items' (q_next_id q) slots' (q_workers q) (q_page q)).
  destruct Hf as (_ & Hids & _ & Hst & Hnd).
  destruct (apply_starts_ok starts q' Hnd) as (workers & Hrun & Hsw).
  { intros st Hin. destruct (Hst st Hin) as (k & Hk & _ & Hk'). cbn. split.
    - rewrite Hk. apply lookup_lt_Some in Hk'. unfold WORKER_COUNT in *. cbn. lia.
    - assert (ts_item_id st ∈ map qi_id (queued items)) as (i & Hid & Hi)%list_elem_of_fmap.
      { rewrite <- (take_drop (length starts) (map qi_id _)), <- Hids. apply elem_of_app. left.
        by apply list_elem_of_fmap_2. }
      rewrite Hq1 in Hi. apply list_elem_of_In, filter_In in Hi as [Hi _]. apply list_elem_of_In in Hi.
      pose proof (item_get_in _ _ i (bk_ids _ _ _ Hb) Hi eq_refl) as Hg. rewrite <- Hid in Hg.
      destruct (same_item_get _ _ _ _ Hsame Hg) as (i' & Hg' & _). by eexists. }
  exists items, slots, items', slots', starts, workers. split; [done|]. split; [done|]. cbn zeta. fold q'.
  split; [|split; [|done]].
  - unfold scheduler_tick, reconcile_tick. rewrite length_map, Hs, Hw, Hr, Hfill. exact Hrun.
  - apply set_workers_ok; [apply Hsw|]. split; cbn; [done|lia|done].
Qed.

(** C31: Every tick runs to its end and fills the free slots from the head of the queue:
    the items started are the first ones that were queued, in order, each in a slot that
    was free or whose worker had come to rest, whose worker then has the start of that
    item's file with its options as its last command; no other worker is touched; and a
    slot is left free only when nothing is queued. *)
Theorem tick_starts_in_order now q :
  queue_ok q -> exists q' starts, scheduler_tick now q = Ok q' /\
  map ts_item_id starts = take (length starts) (map qi_id (queued (q_items q))) /\
  queued (q_items q') = drop (length starts) (queued (q_items q)) /\
  (forall st, st ∈ starts ->
     q_slots q' !! ts_slot st = Some (Some (ts_item_id st)) /\
     exists i w, i ∈ q_items q /\ qi_id i = ts_item_id st /\ q_workers q !! ts_slot st = Some w /\
       (q_slots q !! ts_slot st = Some None \/ worker_at_rest (wk_state w) = true) /\
       q_workers q' !! ts_slot st = Some (worker_start (qi_file i) (qi_options i) w)) /\
  (forall s, (forall st, st ∈ starts -> ts_slot st <> s) -> q_workers q' !! s = q_workers q !! s) /\
  (None ∈ q_slots q' -> queued (q_items q') = []).
Proof.
  intros Hok. pose proof Hok as [Hb Hs Hw].
  destruct (tick_run now q Hok) as (items & slots & items' & slots' & starts & workers & Hr & Hfill & Hrun & _ &
    (Hlen & Hin & Hout) & Hsame & Hq).
  pose proof (fill_slots_fills items 0 slots now) as Hf. rewrite Hfill in Hf.
  destruct Hf as (H1 & H2 & H3 & H4 & _). rewrite Hq in H1, H2.
  eexists _, starts. split; [exact Hrun|]. cbn [q_items q_slots q_workers set_workers] in *.
  split; [exact H2|]. split; [exact H1|]. split; [|done]. intros st Hst.
  destruct (H4 st Hst) as (k & Hk & Hfree & Hheld). cbn in Hk. subst k. split; [done|].
  destruct (Hin st Hst) as (i' & w & Hg' & Hw' & Hstarted).
  assert (ts_item_id st ∈ map qi_id (q_items q)) as (i & Hid & Hi)%list_elem_of_fmap.
  { apply item_get_some in Hg' as [Hi' <-].
    apply list_elem_of_lookup in Hi' as [n Hn].
    destruct (Forall2_lookup_r _ _ _ _ _ Hsame Hn) as (i & Hi & (-> & _)).
    apply list_elem_of_fmap_2. by eapply list_elem_of_lookup_2. }
  pose proof (item_get_in _ _ i (bk_ids _ _ _ Hb) Hi eq_refl) as Hg. rewrite <- Hid in Hg.
  destruct (same_item_get _ _ _ _ Hsame Hg) as (i'' & Hg'' & (_ & Hfile & Hopts)).
  rewrite Hg' in Hg''. injection Hg'' as <-.
  exists i, w. repeat split; try done; [|by rewrite <- Hfile, <- Hopts].
  destruct (lookup_lt_is_Some_2 (q_slots q) (ts_slot st)) as [a Ha].
  { apply lookup_lt_Some in Hw'. lia. }
  pose proof (reconcile_slots_lookup (q_items q) (q_slots q) (map wk_state (q_workers q)) now _ _ (wk_state w) Ha)
    as Hl.
  rewrite Hr in Hl. cbn in Hl. rewrite Hfree in Hl.
  destruct (worker_at_rest (wk_state w)); [by right|]. left. rewrite Ha. f_equal.
  assert (Some None = Some a) as [= ->]; [|done]. apply Hl. by rewrite list_lookup_fmap, Hw'.
Qed.

(** A tick mirrors each worker into the item its slot holds: afterwards the item is
    what [reconcile_item] makes of the worker's state, and the slot still holds it
    unless the worker has come to rest. *)
Theorem tick_mirrors_workers now q slot i w :
  queue_ok q -> i ∈ q_items q -> q_slots q !! slot = Some (Some (qi_id i)) -> q_workers q !! slot = Some w ->
  exists q', scheduler_tick now q = Ok q' /\
  item_get (qi_id i) (q_items q') = Some (reconcile_item (wk_state w) now i).1 /\
  (worker_at_rest (wk_state w) = false -> q_slots q' !! slot = Some (Some (qi_id i))) /\
  (worker_at_rest (wk_state w) = true -> Some (qi_id i) ∉ q_slots q').
Proof.
  intros Hok Hin Hslot Hw. pose proof Hok as [Hb _ _].
  destruct (tick_run now q Hok) as (items & slots & items' & slots' & starts & workers & Hr & Hfill & Hrun & Hok' &
    _ & _ & Hq).
  assert (map wk_state (q_workers q) !! slot = Some (wk_state w)) as Hws by (by rewrite list_lookup_fmap, Hw).
  pose proof (reconcile_slots_mirrors _ [] _ _ _ now _ _ _ Hb Hin Hslot Hws) as Hm. rewrite Hr in Hm.
  pose proof (reconcile_slots_lookup (q_items q) _ _ now _ _ _ Hslot Hws) as Hl. rewrite Hr in Hl. cbn in Hm, Hl.
  assert (is_active i = true) as Hact.
  { apply (bk_active _ _ _ Hb i Hin), assigned_in. by eapply list_elem_of_lookup_2. }
  pose proof (reconcile_item_active (wk_state w) now i) as Hra.
  pose proof (reconcile_item_kept (wk_state w) now i) as Hk.
  destruct (reconcile_item (wk_state w) now i) as [i' kept]. cbn [fst snd] in *.
  destruct Hra as [(Hid & _ & _ & Hact' & Hnq)|[_ ?]]; [|congruence].
  pose proof (fill_slots_frame items 0 slots now i' Hm Hnq) as Hm'. rewrite Hfill in Hm'. cbn in Hm'.
  eexists. split; [exact Hrun|]. cbn.
  pose proof (ok_books _ Hok') as Hb'. cbn in Hb'. split; [|split].
  - by apply item_get_in; [apply Hb'| |].
  - intros Hrest. rewrite Hrest in Hl. apply (fill_slots_held items 0 _ now) in Hl. by rewrite Hfill in Hl.
  - intros Hrest Hheld. rewrite Hrest in Hk. apply assigned_in in Hheld. rewrite <- Hid in Hheld.
    apply (bk_active _ _ _ Hb' i' Hm') in Hheld. cbn in Hk. congruence.
Qed.

(** ** Every method keeps the books *)

Section methods.
Context `{EntryJson, Quota, HashOrder}.

Lemma add_ok now file options q : queue_ok q -> queue_ok (add now file options q).2.
Proof.
  intros [[Hi Ho Hh Hn Ha] Hs Hw]. split; [|done|done]. cbn. split.
  - rewrite List.map_app. apply NoDup_app. split; [done|]. split; [|apply NoDup_singleton].
    intros id (i & -> & Hin)%list_elem_of_fmap Heq%list_elem_of_singleton. cbn in Heq.
    specialize (Ho i Hin). lia.
  - intros i [Hin| ->%list_elem_of_singleton]%elem_of_app; cbn; [specialize (Ho i Hin)|]; lia.
  - intros id Hin. specialize (Hh id Hin). lia.
  - done.
  - intros i [Hin| ->%list_elem_of_singleton]%elem_of_app; [by apply Ha|]. cbn. split; [done|].
    intros Hin%Hh. lia.
Qed.

Lemma add_all_ok now files options q : queue_ok q -> queue_ok (add_all now files options q).2.
Proof.
  revert q. induction files as [|file files IH]; intros q Hok; [done|]. cbn [add_all].
  apply (add_ok now file options) in Hok. destruct (add now file options q) as [id q1].
  cbn [snd] in Hok. apply IH in Hok. by destruct (add_all now files options q1).
Qed.

Lemma apply_abort_all_items f items page :
  (apply_abort_all f items page).1 =
    map (fun i => if is_status QueueItemStatus.Queued i then set_status QueueItemStatus.Aborted i else i) items.
Proof.
  revert page. induction items as [|i items IH]; intros page; [done|]. cbn.
  destruct (is_status QueueItemStatus.Queued i).
  - specialize (IH (f i page)). destruct (apply_abort_all f items (f i page)). cbn in *. by rewrite IH.
  - specialize (IH page). destruct (apply_abort_all f items page). cbn in *. by rewrite IH.
Qed.

Lemma queue_abort_all_ok q : queue_ok q -> queue_ok (queue_abort_all q).
Proof.
  intros Hok. unfold queue_abort_all.
  pose proof (apply_abort_all_items (remove_persisted_for (set_workers (map worker_abort (q_workers q)) q))
    (q_items q) (q_page q)) as Hit. cbn in *.
  destruct (apply_abort_all _ (q_items q) (q_page q)) as [items page]. cbn in Hit. subst items.
  destruct Hok as [Hb Hs Hw]. split; cbn; [|done|by rewrite length_map].
  eapply books_map; [| | | |exact Hb]; try apply Hb.
  - intros i _. by destruct (is_status QueueItemStatus.Queued i).
  - intros i Hin. rewrite <- (bk_active _ _ _ Hb i Hin). unfold is_status.
    case_bool_decide as Hq; [|done]. unfold is_active. by rewrite Hq.
Qed.

Lemma abort_item_ok id q : queue_ok q -> exists q', abort_item id q = Ok q' /\ queue_ok q'.
Proof.
  intros Hok. unfold abort_item. destruct (slot_for id q) as [slot|] eqn:Hslot.
  - destruct (on_worker_ok slot worker_abort q Hok) as (q' & ? & ? & _); [by eapply slot_for_lt|by eexists].
  - eexists. split; [done|]. destruct (item_get id (q_items q)) as [item|] eqn:Hg; [|done].
    destruct (is_status QueueItemStatus.Queued item) eqn:Hq; [|done].
    apply set_items_page_ok; [|done]. pose proof (ok_books q Hok) as Hb.
    rewrite (update_first_change _ _ _ item) by (done || apply Hb).
    apply books_change; [|done]. intros i Hi Heq.
    pose proof (item_get_in _ _ i (bk_ids _ _ _ Hb) Hi Heq) as Hg'.
    apply item_get_some in Hg as [Hin Hid].
    assert (i = item) as ->.
    { pose proof (item_get_in _ _ item (bk_ids _ _ _ Hb) Hin eq_refl). congruence. }
    split; [done|]. apply bool_decide_eq_true in Hq. unfold is_active. by rewrite Hq.
Qed.

Lemma remove_item_ok id q : queue_ok q -> exists q', remove_item id q = Ok q' /\ queue_ok q'.
Proof.
  intros Hok. unfold remove_item.
  assert (exists q1, match slot_for id q with Some slot => on_worker slot worker_abort q | None => Ok q end = Ok q1
    /\ queue_ok q1) as (q1 & -> & Hok1).
  { destruct (slot_for id q) as [slot|] eqn:Hslot; [|by eexists].
    destruct (on_worker_ok slot worker_abort q Hok) as (q' & ? & ? & _); [by eapply slot_for_lt|by eexists]. }
  cbn. eexists. split; [done|]. apply set_items_page_ok; [|done]. apply books_filter, Hok1.
Qed.

Lemma retry_item_ok id q : queue_ok q -> queue_ok (retry_item id q).2.
Proof.
  intros Hok. unfold retry_item, apply_retry_item. pose proof (ok_books q Hok) as Hb.
  case_bool_decide as Hheld; [by destruct q|].
  destruct (item_get id (q_items q)) as [item|] eqn:Hg; [|by destruct q].
  destruct (is_terminal (qi_status item)) eqn:Ht; [|by destruct q]. cbn.
  destruct Hok as [_ Hs Hw]. split; [|done|done]. cbn.
  rewrite (update_first_change _ _ _ item) by (done || apply Hb).
  apply books_change; [|done]. intros i Hi Heq. split; [done|].
  pose proof (bk_active _ _ _ Hb i Hi) as Ha. destruct (is_active i); [|done].
  apply item_get_some in Hg as [_ Hid]. destruct Hheld. apply assigned_in. rewrite <- Hid, <- Heq. by apply Ha.
Qed.

Lemma clear_finished_items f items page :
  (apply_clear_finished f items page).1 = List.filter (fun i => negb (is_terminal (qi_status i))) items.
Proof. done. Qed.

Definition event_ok (e : f64 * QueueEvent.t) : Prop :=
  match e.2 with QueueEvent.WorkerRuns slot _ => (slot < WORKER_COUNT)%nat | _ => True end.

Lemma queue_step_ok now e q :
  event_ok (now, e) -> queue_ok q -> exists q', queue_step now e q = Ok q' /\ queue_ok q'.
Proof.
  intros He Hok. destruct e; cbn [queue_step]; try (eexists; split; [done|]).
  - by apply add_ok.
  - by apply add_all_ok.
  - unfold resume_entry. destruct (has_active_file_match _ _ _); [done|].
    destruct (resume_options_for_entry _ _ _ _ _) as [o|]; [|done].
    pose proof (add_ok now file o q Hok) as Ha. by destruct (add now file o q).
  - unfold scan_resumable. destruct (scan _ _ _). apply set_items_page_ok; [apply Hok|done].
  - apply set_workers_ok; [by rewrite length_map|done].
  - apply set_workers_ok; [by rewrite length_map|done].
  - by apply queue_abort_all_ok.
  - unfold pause_item. destruct (slot_for id q) as [slot|] eqn:Hslot; [|by eexists].
    destruct (on_worker_ok slot worker_pause q Hok) as (q' & ? & ? & _); [by eapply slot_for_lt|by eexists].
  - unfold resume_item. destruct (slot_for id q) as [slot|] eqn:Hslot; [|by eexists].
    destruct (on_worker_ok slot worker_resume q Hok) as (q' & ? & ? & _); [by eapply slot_for_lt|by eexists].
  - by apply abort_item_ok.
  - destruct Hok as [Hb Hs Hw]. split; [|done|done]. by apply books_filter.
  - unfold clear_finished. pose proof (clear_finished_items (remove_persisted_for q) (q_items q) (q_page q)) as Hi.
    destruct (apply_clear_finished _ _ _) as [items page]. cbn in Hi. subst.
    apply set_items_page_ok; [|done]. apply books_filter, Hok.
  - by apply remove_item_ok.
  - by apply retry_item_ok.
  - destruct (tick_run now q Hok) as (? & ? & ? & ? & ? & ? & _ & _ & Hrun & Hok' & _). by eexists.
  - destruct (on_worker_ok slot (fun _ => w) q Hok He) as (q' & ? & ? & _). by eexists.
  - apply set_items_page_ok; [apply Hok|done].
Qed.

Lemma new_queue_ok c page : queue_ok (use_tus_upload_queue c page).
Proof.
  split; [|done|done]. cbn. split; [constructor|by intros i ?%elem_of_nil|by intros i ?%elem_of_nil|constructor|].
  by intros i ?%elem_of_nil.
Qed.

Lemma queue_run_ok events q :
  Forall event_ok events -> queue_ok q -> exists q', queue_run events q = Ok q' /\ queue_ok q'.
Proof.
  intros Hev. revert q. induction Hev as [|[now e] events He _ IH]; intros q Hok; [by eexists|].
  destruct (queue_step_ok now e q He Hok) as (q1 & Hs & Hok1). cbn. rewrite Hs. by apply IH.
Qed.

Lemma active_bounded items held next : books items held next -> (active_count items <= length held)%nat.
Proof.
  intros Hb. unfold active_count. rewrite <- (length_map qi_id).
  apply submseteq_length, NoDup_submseteq.
  - apply (bk_ids _ _ _ (books_filter is_active _ _ _ Hb)).
  - intros id (i & -> & Hin)%list_elem_of_fmap. apply list_elem_of_In, filter_In in Hin as [Hin Hact].
    apply (bk_active _ _ _ Hb); [by apply list_elem_of_In|done].
Qed.

Lemma assigned_length slots : (length (assigned slots) <= length slots)%nat.
Proof. induction slots as [|[id|] slots IH]; cbn; [done| |]; unfold assigned in *; cbn in *; lia. Qed.

(** C6: Whatever sequence of calls, ticks, worker reports and changes of the page: nothing
    panics, no two items share an id, no two slots hold the same item, an item is uploading or
    paused exactly while a slot holds it, and no more than [WORKER_COUNT] items are. *)
Theorem queue_invariant events c page :
  Forall event_ok events -> exists q, queue_run events (use_tus_upload_queue c page) = Ok q /\
  NoDup (map qi_id (q_items q)) /\
  (forall s t id, q_slots q !! s = Some (Some id) -> q_slots q !! t = Some (Some id) -> s = t) /\
  (forall i, i ∈ q_items q -> is_active i = true <-> Some (qi_id i) ∈ q_slots q) /\
  (active_count (q_items q) <= WORKER_COUNT)%nat.
Proof.
  intros Hev. destruct (queue_run_ok _ _ Hev (new_queue_ok c page)) as (q & Hrun & [Hb Hs _]).
  exists q. split; [done|]. split; [apply Hb|]. split; [|split].
  - intros s t id Hsid Htid. pose proof (bk_held_once _ _ _ Hb) as Hn.
    destruct (decide (s = t)) as [|Hne]; [done|]. exfalso.
    rewrite <- (take_drop_middle _ _ _ Hsid), assigned_middle in Hn. apply NoDup_cons in Hn as [Hn _].
    apply Hn, assigned_in. assert (<[s := None]> (q_slots q) !! t = Some (Some id)) as Ht.
    { by rewrite list_lookup_insert_ne. }
    rewrite insert_take_drop in Ht by (by eapply lookup_lt_Some). by eapply list_elem_of_lookup_2.
  - intros i Hin. rewrite (bk_active _ _ _ Hb i Hin). apply assigned_in.
  - etrans; [by eapply active_bounded|]. rewrite <- Hs. apply assigned_length.
Qed.

(** A retry resets the item with the id, and it alone, when the item has ended and no
    slot holds it; otherwise it changes nothing and says why. *)
Theorem retry_decides id q :
  queue_ok q ->
  let '(decision, q') := retry_item id q in
  match decision with
  | Reset => (Some id ∉ q_slots q) /\ exists i, item_get id (q_items q) = Some i /\
      is_terminal (qi_status i) = true /\ q' = set_items (change id reset_item (q_items q)) q
  | ItemActive => Some id ∈ q_slots q /\ q' = q
  | ItemNotFound => (Some id ∉ q_slots q) /\ (forall i, i ∈ q_items q -> qi_id i <> id) /\ q' = q
  | WrongStatus => q' = q /\
      exists i, item_get id (q_items q) = Some i /\ qi_status i = QueueItemStatus.Queued
  end.
Proof.
  intros Hok. pose proof (ok_books q Hok) as Hb. unfold retry_item, apply_retry_item.
  case_bool_decide as Hheld; [by destruct q|].
  destruct (item_get id (q_items q)) as [item|] eqn:Hg.
  2: { split; [done|]. split; [|by destruct q]. intros i. by apply item_get_none. }
  pose proof (item_get_some _ _ _ Hg) as [Hin Hid].
  destruct (is_terminal (qi_status item)) eqn:Ht; cbn.
  - split; [done|]. exists item. repeat split; try done.
    f_equal. rewrite (update_first_change _ _ _ item) by (done || apply Hb). by rewrite Hid.
  - split; [by destruct q|]. exists item. split; [done|].
    pose proof (bk_active _ _ _ Hb item Hin) as Ha. unfold is_active in Ha.
    destruct (qi_status item) eqn:Hst; try done; destruct Hheld; apply assigned_in; rewrite <- Hid; by apply Ha.
Qed.

(** *** Where items are resumed *)

(** An item resumes nothing, or an upload at the origin of the endpoint. *)
Definition resumes_at (endpoint : string) (i : TusQueueItem) : Prop :=
  match existing_url (qi_options i) with
  | Some url => origin_matches endpoint url = true
  | None => True
  end.

Lemma auto_resume_at now file options q :
  existing_url options = None ->
  match existing_url (auto_resume now file options q) with
  | Some url => origin_matches (q_endpoint q) url = true /\ exists e,
      get (q_endpoint q) (match_key_of (q_endpoint q) file) now (q_page q) = Some e /\ url = re_upload_url e
  | None => True
  end.
Proof.
  unfold auto_resume. intros He. rewrite He. destruct (has_active_file_match _ _ _); [by rewrite He|].
  destruct (get _ _ now (q_page q)) as [e|] eqn:Hg; [|by rewrite He]. cbn.
  pose proof (get_match_key _ _ _ _ _ Hg) as [_ (_ & _ & ?)]. split; [done|by eexists].
Qed.

Definition resumes_safely (q : Queue) : Prop := Forall (resumes_at (q_endpoint q)) (q_items q).

Lemma add_at now file options q :
  match existing_url options with Some url => origin_matches (q_endpoint q) url = true | None => True end ->
  resumes_safely q ->
  resumes_safely (add now file options q).2 /\ q_endpoint (add now file options q).2 = q_endpoint q.
Proof.
  intros Ho Hq. split; [|done]. apply Forall_app. split; [exact Hq|]. apply Forall_singleton.
  unfold resumes_at. cbn. destruct (existing_url options) as [url|] eqn:He.
  - unfold auto_resume. by rewrite He, He.
  - pose proof (auto_resume_at now file options q He) as Ha. destruct (existing_url (auto_resume _ _ _ _)); [apply Ha|done].
Qed.

Lemma Forall_update_first (P : TusQueueItem -> Prop) p f items :
  (forall i, P i -> P (f i)) -> Forall P items -> Forall P (update_first p f items).
Proof. intros Hf. induction 1; cbn; [constructor|]. destruct (p x); constructor; auto. Qed.

Lemma Forall_list_filter (P : TusQueueItem -> Prop) p items : Forall P items -> Forall P (List.filter p items).
Proof. induction 1; cbn; [constructor|]. destruct (p x); [by constructor|done]. Qed.

Lemma on_worker_items slot f q q' : on_worker slot f q = Ok q' -> q_items q' = q_items q /\ q_endpoint q' = q_endpoint q.
Proof. unfold on_worker. destruct (_ !! _); [|done]. by intros [= <-]. Qed.

(** Callers resume nothing by themselves, or at the endpoint's origin. *)
Definition event_at (endpoint : string) (e : f64 * QueueEvent.t) : Prop :=
  let own options := match existing_url options with
                     | Some url => origin_matches endpoint url = true | None => True end in
  match e.2 with
  | QueueEvent.Add _ options | QueueEvent.AddAll _ options => own options
  | _ => True
  end.

Lemma queue_step_at now e q q' :
  event_ok (now, e) -> event_at (q_endpoint q) (now, e) -> queue_ok q -> resumes_safely q ->
  queue_step now e q = Ok q' -> resumes_safely q' /\ q_endpoint q' = q_endpoint q.
Proof.
  intros Hev He Hok Hq. destruct e; cbn [queue_step]; try (intros [= <-]; by split).
  - intros [= <-]. by apply add_at.
  - intros [= <-]. cbn in He. clear Hok Hev. revert q He Hq. induction files as [|file files IH]; intros q He Hq; [done|].
    cbn [add_all]. destruct (add_at now file options q He Hq) as [Hq1 He1].
    destruct (add now file options q) as [id q1]. cbn [snd] in *. rewrite <- He1 in He.
    destruct (IH q1 He Hq1) as [? Heq]. destruct (add_all now files options q1). cbn [snd] in *.
    split; [done|]. by rewrite Heq.
  - intros [= <-]. unfold resume_entry. destruct (has_active_file_match _ _ _); [done|].
    unfold resume_options_for_entry.
    destruct (entry_is_resumable_for_file _ _ _ _) eqn:Hr; [|done]. cbn [negb].
    apply entry_is_resumable_iff in Hr as [(_ & _ & Hr) _].
    pose proof (add_at now file (set_existing_url (Some (re_upload_url entry)) options) q Hr Hq) as Ha.
    by destruct (add now file _ q).
  - intros [= <-]. unfold scan_resumable. by destruct (scan _ _ _).
  - intros [= <-]. unfold queue_abort_all.
    pose proof (apply_abort_all_items (remove_persisted_for (set_workers (map worker_abort (q_workers q)) q))
      (q_items q) (q_page q)) as Hit. cbn in *.
    destruct (apply_abort_all _ (q_items q) (q_page q)) as [items page]. cbn in Hit. subst items. split; [|done].
    unfold resumes_safely. cbn. apply Forall_map. eapply Forall_impl; [exact Hq|]. intros i Hi. cbn.
    by destruct (is_status QueueItemStatus.Queued i).
  - unfold pause_item. destruct (slot_for id q); [|by intros [= <-]]. intros [Hi Hend]%on_worker_items.
    unfold resumes_safely. by rewrite Hi, Hend.
  - unfold resume_item. destruct (slot_for id q); [|by intros [= <-]]. intros [Hi Hend]%on_worker_items.
    unfold resumes_safely. by rewrite Hi, Hend.
  - unfold abort_item. destruct (slot_for id q).
    + intros [Hi Hend]%on_worker_items. unfold resumes_safely. by rewrite Hi, Hend.
    + intros [= <-]. destruct (item_get id (q_items q)) as [item|]; [|done].
      destruct (is_status QueueItemStatus.Queued item); [|done]. split; [|done].
      by apply Forall_update_first.
  - intros [= <-]. split; [|done]. by apply Forall_list_filter.
  - intros [= <-]. unfold clear_finished, apply_clear_finished. split; [|done]. by apply Forall_list_filter.
  - unfold remove_item. intros Hrun.
    destruct (match slot_for id q with Some slot => on_worker slot worker_abort q | None => Ok q end)
      as [q1| |] eqn:H1'; cbn in Hrun; try done. injection Hrun as <-.
    assert (q_items q1 = q_items q /\ q_endpoint q1 = q_endpoint q) as [Hi Hend].
    { destruct (slot_for id q); [by apply on_worker_items in H1'|by injection H1' as <-]. }
    split; [|done]. unfold resumes_safely. cbn. rewrite Hi, Hend. by apply Forall_list_filter.
  - intros [= <-]. unfold retry_item, apply_retry_item. case_bool_decide; [by destruct q|].
    destruct (item_get id (q_items q)) as [item|]; [|by destruct q].
    destruct (negb _); [by destruct q|]. split; [|done]. by apply Forall_update_first.
  - destruct (tick_run now q Hok) as (? & ? & items' & ? & ? & ? & _ & _ & Hrun & _ & _ & Hsame & _).
    rewrite Hrun. intros [= <-]. split; [|done]. unfold resumes_safely in *. cbn.
    clear Hrun. induction Hsame as [|i j items items'' (_ & _ & Ho) _ IH]; [constructor|].
    inversion Hq as [|? ? Hi Hrest]; subst. constructor; [|by apply IH].
    unfold resumes_at. by rewrite Ho.
  - intros [Hi Hend]%on_worker_items. unfold resumes_safely. by rewrite Hi, Hend.
Qed.

(** the origin check of the registry is applied everywhere: whatever the page's [localStorage]
    holds and however often it is changed from outside, as long as callers name no upload URL that
    [origin_matches] refuses, no item of the queue, and so no start the scheduler sends, resumes an
    upload at such a URL.  (The check is the code's own: the example [backslash_origin] passes it
    and leads a browser elsewhere.) *)
Theorem queue_resumes_at_origin events c page :
  Forall event_ok events -> Forall (event_at (tc_endpoint c)) events ->
  exists q, queue_run events (use_tus_upload_queue c page) = Ok q /\
  forall i url, i ∈ q_items q -> existing_url (qi_options i) = Some url ->
    origin_matches (tc_endpoint c) url = true.
Proof.
  intros Hev Hat.
  assert (forall q, queue_ok q -> q_endpoint q = tc_endpoint c -> resumes_safely q -> exists q',
    queue_run events q = Ok q' /\ resumes_safely q' /\ q_endpoint q' = tc_endpoint c) as Hrun.
  { induction Hev as [|[now e] events He _ IH]; intros q Hok Hend Hq; [by exists q|].
    inversion Hat as [|? ? Ha Hat']; subst.
    destruct (queue_step_ok now e q He Hok) as (q1 & Hs & Hok1). cbn. rewrite Hs. cbn.
    rewrite <- Hend in Ha. destruct (queue_step_at _ _ _ _ He Ha Hok Hq Hs) as [Hq1 Hend1].
    apply IH; [done|done|congruence|done]. }
  destruct (Hrun _ (new_queue_ok c page) eq_refl) as (q & Hr & Hq & Hend); [constructor|].
  exists q. split; [done|]. intros i url Hin Hurl.
  unfold resumes_safely in Hq. rewrite Forall_forall in Hq. specialize (Hq i Hin). unfold resumes_at in Hq.
  by rewrite Hurl, Hend in Hq.
Qed.
End methods.
