(* ===== verification/Witnesses.v ===== *)
(** * Concrete requests

    Each theorem applied to a request served by the in-memory backends of
    [Concrete.v], with its hypotheses evaluated there. *)

From stdpp Require Import relations.
From S2P Require Import Prelude Text Errors Crates Config State Headers Hooks Backends Memory.
From S2P Require Import Locking Interleaving Lifecycle Intake Receive FinalUpload Access Response.
From S2P Require Import Protocol Streaming Contracts Safety Effects PatchSpec Invariant Concrete.
From S2P Require Import HeaderSpec HeadSpec RemovalSpec DownloadSpec CreationSpec FinalSpec.
From S2P Require Import HookSpec ConfigSpec.
Local Open Scope string_scope.
Local Open Scope N_scope.
Local Open Scope prog_scope.

(** ** Scenarios *)

Definition response_of {E R W} (d : R) (r : outcome E R * W) : R :=
  match r.1 with Ok a => a | _ => d end.

Definition error_of {R W} (r : outcome Error.t R * W) : Error.t :=
  match r.1 with Err e => e | _ => Error.Internal "" end.

Definition patch_headers_at (offset : N) : Headers :=
  Build_Headers (Some offset) None false None None None None None
    (Some OFFSET_OCTET_STREAM) None None None None.

Definition create_headers (length : option N) (concat : option UploadConcat) : Headers :=
  Build_Headers None length false None None None concat None None None None None None.

(** An upload of five bytes that holds three. *)
Definition half_done : Server := with_upload "a" 5 (text "abc") (empty_server 10).
(** A complete upload. *)
Definition all_done : Server := with_upload "a" 3 (text "abc") (empty_server 10).
(** Two complete partial uploads. *)
Definition two_parts : Server :=
  with_record (UploadState.mark_partial (upload "p" 2 (text "ab")))
    (with_record (UploadState.mark_partial (upload "q" 1 (text "c")))
      (with_data "memory://p" (text "ab") (with_data "memory://q" (text "c") (empty_server 10)))).
(** An incomplete upload whose deadline has passed. *)
Definition overdue : Server :=
  with_record (UploadState.set_expiration 5%Z (upload "a" 5 (text "abc")))
    (with_data "memory://a" (text "abc") (empty_server 10)).

Definition part_urls : list string := ["/files/p"; "/files/q"].

Definition failed {R W} (r : outcome Error.t R * W) : bool :=
  match r.1 with Err _ => true | _ => false end.

Lemma run_answer {R W} (d : R) (r : outcome Error.t R * W) :
  is_ok r.1 = true -> r = (Ok (response_of d r), r.2).
Proof. by destruct r as [[a|e|] w]. Qed.

Lemma run_failure {R W} (r : outcome Error.t R * W) : failed r = true -> r = (Err (error_of r), r.2).
Proof. by destruct r as [[a|e|] w]. Qed.

Lemma run_outcome {A W} (a : A) (r : A * W) : r.1 = a -> r = (a, r.2).
Proof. by destruct r; intros <-. Qed.

Lemma run_local {A T W} (a : A) (t : T) (r : A * (T * W)) : r.1 = a -> r.2.1 = t -> r = (a, (t, r.2.2)).
Proof. by destruct r as [? [? ?]]; intros <- <-. Qed.

(** Evaluates an equation by the kernel; of a run only the outcome is evaluated,
    the state it leaves is named and not computed. *)
Ltac by_kernel := match goal with |- _ = ?y => vm_cast_no_check (eq_refl y) end.
Ltac evaluated :=
  lazymatch goal with
  | |- _ = (Ok (response_of ?d ?r), ?r.2) => refine (run_answer d r _); by_kernel
  | |- _ = (Err (error_of ?r), ?r.2) => refine (run_failure r _); by_kernel
  | |- _ = (?a, (?t, ?r.2.2)) => refine (run_local a t r _ _); by_kernel
  | |- _ = (?a, ?r.2) => refine (run_outcome a r _); by_kernel
  | |- _ => by_kernel
  end.

(** ** PATCH *)

Definition patched := run (patch all_extensions (patch_headers_at 3) "a" (BodyBytes (text "de"))) half_done.

Lemma patch_success_witness :
  patch_succeeded all_extensions (patch_headers_at 3) "a" (body_content (BodyBytes (text "de")))
    half_done (response_of (Response_new 0) patched) patched.2.
Proof. apply patch_success. evaluated. Defined.

Definition refused := run (patch all_extensions (patch_headers_at 2) "a" (BodyBytes (text "de"))) half_done.

Lemma patch_failure_witness :
  error_of refused = Error.OffsetMismatch 3 2 /\
  patch_failed (Some 2) "a" (body_content (BodyBytes (text "de"))) half_done refused.2.
Proof.
  split; [evaluated|].
  apply (patch_failure all_extensions (patch_headers_at 2) "a" _ _ (error_of refused)). evaluated.
Defined.

(** ** Every request *)

Lemma half_done_sound : sound_store half_done.
Proof.
  intros id s. unfold recs. cbn. rewrite lookup_insert_Some. intros [[<- <-]|[_ Hs]].
  - split; [done|]. intros _ l [= <-]. vm_compute. discriminate.
  - by rewrite lookup_empty in Hs.
Qed.

Definition patch_request : Request := RequestPatch (patch_headers_at 3) "a" (BodyBytes (text "de")).

Lemma store_invariant_witness : sound_store (run (handle all_extensions patch_request) half_done).2.
Proof.
  apply (store_invariant all_extensions half_done).
  - apply served_step, served_none.
  - apply quiescent_new.
  - exact half_done_sound.
Defined.

Lemma handlers_release_locks_witness :
  let w' := (run (handle all_extensions patch_request) half_done).2 in
  locker_inv (w_locks w') /\ held (w_locks w') = held (w_locks half_done).
Proof. apply (handlers_release_locks all_extensions patch_request half_done). apply quiescent_new. Defined.

(** Uploads that expire after the end of the calendar. *)
Definition for_ever : Config := with_expiration (seconds 8500000000000) all_extensions.
Definition creation_request : Request := RequestPost (create_headers (Some 3) None) Absent.
Definition overflown := run (handle for_ever creation_request) (empty_server 10).

Lemma handlers_never_panic_witness :
  overflown.1 = Panic /\
  (exists headers body, creation_request = RequestPost headers body) /\
  deadline_overflows for_ever (empty_server 10) /\ untouched (empty_server 10) overflown.2.
Proof.
  split; [evaluated|]. apply handlers_never_panic; [apply quiescent_new|]. evaluated.
Defined.

(** ** The locker *)

Definition two_clients : list (bool * string) := [(true, "a"); (false, "a")].

(** The first task is in the critical section while the second tries to enter. *)
Definition run_order (order : list nat) := run_schedule order (initial (seconds 30) two_clients).

Lemma run_order_steps order : rtc pool_step (initial (seconds 30) two_clients) (run_order order).
Proof. apply run_schedule_steps. Qed.

Abbreviation contended := (run_order [0; 1; 0; 0; 1; 0; 1; 1]%nat).

Lemma locker_mutual_exclusion_witness :
  inside "a" contended.2 = 1%nat /\ (inside "a" contended.2 <= 1)%nat.
Proof.
  split; [evaluated|]. apply (locker_mutual_exclusion (seconds 30) two_clients), run_order_steps.
Defined.

Abbreviation settled := (run_order [0; 1; 0; 0; 1; 0; 1; 1; 0; 0; 0; 0]%nat).

Lemma locker_leaves_nothing_witness : ml_locks settled.2.1 = ∅ /\ ml_heap settled.2.1 = ∅.
Proof.
  apply (locker_leaves_nothing (seconds 30) two_clients).
  - apply run_order_steps.
  - assert (settled.1 = [Done (Ok tt); Done (Ok tt)]) as Hs by evaluated.
    intros i m. rewrite Hs. destruct i as [|[|i]]; cbn; intros [= <-]; reflexivity.
Defined.

Lemma locker_terminates_witness : (1 <= 8 * length two_clients)%nat.
Proof.
  eapply (locker_terminates (seconds 30) two_clients 1).
  eapply nsteps_l; [|apply nsteps_O]. eapply (pool_step_intro _ _ 0); reflexivity.
Defined.

Definition locked_server : Server := two_parts.

Definition both_locked := run (lock_parts ["q"; "p"; "q"]) two_parts.

Lemma lock_parts_all_or_nothing_witness :
  let gs := response_of [] both_locked in
  map guard_upload_id gs = ["p"; "q"] /\
  (sorted (map guard_upload_id gs) /\ NoDup (map guard_upload_id gs) /\
   (forall id, In id (map guard_upload_id gs) <-> In id ["q"; "p"; "q"]) /\
   (forall id, In id ["q"; "p"; "q"] -> held (w_locks two_parts) !! id = None) /\
   held (w_locks both_locked.2) = guard_map gs ∪ held (w_locks two_parts)).
Proof.
  split; [evaluated|].
  apply (lock_parts_all_or_nothing ["q"; "p"; "q"] two_parts (Ok (response_of [] both_locked))).
  - apply quiescent_new.
  - evaluated.
Defined.

(** ** POST *)

Definition post_upload := run (post all_extensions (create_headers (Some 3) None) Absent) (empty_server 10).

Lemma post_success_witness :
  post_succeeded all_extensions (create_headers (Some 3) None) Absent (empty_server 10)
    (response_of (Response_new 0) post_upload) post_upload.2.
Proof. apply post_success. evaluated. Defined.

Definition post_refused := run (post Config_default (create_headers None None) Absent) half_done.

Lemma post_failure_witness :
  error_of post_refused = Error.MissingHeader "Upload-Length or Upload-Defer-Length" /\
  contained half_done post_refused.2.
Proof.
  split; [evaluated|].
  apply (post_failure Config_default (create_headers None None) Absent _ (error_of post_refused)).
  evaluated.
Defined.

Definition final_headers : Headers := create_headers None (Some (Final part_urls)).
Definition post_final := run (post all_extensions final_headers Absent) two_parts.

Lemma final_upload_concatenates_witness :
  w_storage post_final.2 !! "memory://id0" = Some (text "abc") /\
  exists ids parts s h content,
    Forall2 (fun url id => extract_partial_id url (base_path all_extensions) = Some id) part_urls ids /\
    Forall2 (fun id p => recs two_parts !! id = Some p /\ UploadState.is_partial p = true) ids parts /\
    recs two_parts !! UploadState.id s = None /\
    recs post_final.2 = <[UploadState.id s := s]> (recs two_parts) /\
    UploadState.is_final s = true /\ UploadState.parts s = Some ids /\
    UploadState.storage_handle s = Some h /\ bytes_of post_final.2 !! handle_key h = Some content /\
    (forallb UploadState.is_complete parts = true ->
       concatenation parts (<[handle_key h := []]> (bytes_of two_parts)) content /\
       (u64 (bytes_len content) ->
        Forall (fun p => UploadState.length p = Some (stored_size p two_parts) /\
          forall h', UploadState.storage_handle p = Some h' -> handle_key h' <> handle_key h) parts ->
        UploadState.offset s = bytes_len content /\
        UploadState.length s = Some (bytes_len content))).
Proof.
  split; [evaluated|].
  apply (final_upload_concatenates all_extensions final_headers Absent part_urls two_parts
           (response_of (Response_new 0) post_final)); [reflexivity|evaluated].
Defined.

(** ** Streamed bodies *)

Definition two_frames : BodyStream := [inr (Data (text "ab")); inr (Data (text "c"))].

Definition length_headers (n : N) : Headers :=
  Build_Headers None None false None None None None (Some n) None None None None None.

Lemma streamed_equals_buffered_witness :
  stream_data (validated_stream all_extensions (length_headers 3) (Some 5) two_frames)
    = buffered_accepts all_extensions (length_headers 3) (Some 5) two_frames [] None.
Proof. apply (streamed_equals_buffered _ _ _ _ 3); [reflexivity|vm_compute; discriminate]. Defined.

Lemma unfold_stream_fuel_witness :
  unfold_stream 7 (StreamingBodyState_new two_frames
      {| bp_config := all_extensions; bp_headers := length_headers 3; bp_body_limit := Some 5 |})
    = validated_stream all_extensions (length_headers 3) (Some 5) two_frames.
Proof. apply unfold_stream_fuel. cbn. lia. Defined.

(** ** HEAD and GET *)

Definition observed_head := run (head all_extensions "a") half_done.

Lemma head_reports_stored_bytes_witness :
  reports (stored_size (upload "a" 5 (text "abc")) half_done) (UploadState.length (upload "a" 5 (text "abc")))
    (response_of (Response_new 0) observed_head) /\
  observed (upload "a" 5 (text "abc")) half_done observed_head.2.
Proof.
  apply (head_reports_stored_bytes all_extensions "a" (upload "a" 5 (text "abc")) half_done);
    [reflexivity|reflexivity|evaluated].
Defined.

Definition head_patched := run (head all_extensions "a") patched.2.

Lemma half_done_filed s : recs half_done !! "a" = Some s -> UploadState.id s = "a".
Proof. intros Hs. by apply (half_done_sound "a" s). Qed.

Lemma head_after_patch_witness :
  exists s h old s',
    found "a" half_done s h old /\ h_upload_offset (patch_headers_at 3) = Some (bytes_len old) /\
    accounts s old (body_content (BodyBytes (text "de"))) s' /\
    bytes_of head_patched.2 !! handle_key h = Some (old ++ body_content (BodyBytes (text "de")))%list /\
    reports (bytes_len (old ++ body_content (BodyBytes (text "de")))) (UploadState.length s')
      (response_of (Response_new 0) head_patched).
Proof.
  apply (head_after_patch all_extensions (patch_headers_at 3) "a" (BodyBytes (text "de")) half_done
           (response_of (Response_new 0) patched) patched.2);
    [exact half_done_filed|evaluated|evaluated].
Defined.

Definition fetched := run (download all_extensions "a" (Some "bytes=1-1")) all_done.

Definition no_download : DownloadResponse :=
  {| dr_status := 0; dr_headers := header_map_new; dr_body := [] |}.

Lemma download_serves_stored_bytes_witness :
  stream_data (dr_body (response_of no_download fetched)) = Some (text "b") /\
  observed (upload "a" 3 (text "abc")) all_done fetched.2 /\
  serves (Some "bytes=1-1") (stored_bytes (upload "a" 3 (text "abc")) all_done)
    (response_of no_download fetched) /\
  exists l, UploadState.length (upload "a" 3 (text "abc")) = Some l /\
    l <= bytes_len (stored_bytes (upload "a" 3 (text "abc")) all_done).
Proof.
  split; [evaluated|].
  apply (download_serves_stored_bytes all_extensions "a" _ (upload "a" 3 (text "abc")) all_done);
    [reflexivity|reflexivity|evaluated].
Defined.


(** ** DELETE and reclamation *)

Definition deleted := run (delete_upload all_extensions Headers_default "a") half_done.

Lemma delete_success_witness :
  rs_status (response_of (Response_new 0) deleted) = 204 /\
  has_extension all_extensions Extension.Termination = true /\
  exists s, recs half_done !! "a" = Some s /\ removed s half_done deleted.2.
Proof. apply (delete_success _ Headers_default). evaluated. Defined.

Definition delete_refused := run (delete_upload all_extensions Headers_default "b") half_done.

Lemma delete_failure_witness :
  recs delete_refused.2 = recs half_done /\
  (bytes_of delete_refused.2 = bytes_of half_done \/
   exists s h, recs half_done !! "b" = Some s /\ UploadState.storage_handle s = Some h /\
     bytes_of delete_refused.2 = delete (handle_key h) (bytes_of half_done)).
Proof. apply (delete_failure all_extensions Headers_default _ _ (error_of delete_refused)). evaluated. Defined.

Definition reclaimed := run (reclaim_expired_upload "a") overdue.

Lemma reclaim_candidate_witness :
  outcome_effect "a" (utc_now (w_env overdue)).1 (Removed "a") overdue reclaimed.2.
Proof. apply (reclaim_candidate "a" overdue). evaluated. Defined.

Definition overdue_scan := run (reclaim_expired_uploads 6%Z) overdue.

Lemma overdue_filed : filed overdue.
Proof.
  intros id s. unfold recs. cbn. rewrite lookup_insert_Some. intros [[<- <-]|[_ Hs]]; [done|].
  by rewrite lookup_empty in Hs.
Qed.

Lemma reclaim_scan_witness :
  response_of [] overdue_scan = [Removed "a"] /\
  exists w0,
    run (on_states (state_list_expired 6%Z)) overdue =
      (Ok (map outcome_upload_id (response_of [] overdue_scan)), w0) /\
    same overdue w0 /\
    (forall o, In o (response_of [] overdue_scan) -> exists s,
       recs overdue !! outcome_upload_id o = Some s /\ UploadState.expires_before s 6%Z = true) /\
    (forall pre o post, response_of [] overdue_scan = (pre ++ o :: post)%list -> exists w1 w2,
       visited w0 pre o w1 w2 /\
       outcome_effect (outcome_upload_id o) (utc_now (w_env w1)).1 o w1 w2) /\
    (forall id s, recs overdue !! id = Some s ->
       recs overdue_scan.2 !! id = Some s \/
       (recs overdue_scan.2 !! id = None /\ exists pre post w1 w2,
          response_of [] overdue_scan = (pre ++ Removed id :: post)%list /\
          visited w0 pre (Removed id) w1 w2 /\ recs w1 !! id = Some s /\
          reclaimable s (utc_now (w_env w1)).1 w1 /\ removed s w1 w2)).
Proof.
  split; [evaluated|].
  apply (reclaim_scan 6%Z overdue); [exact overdue_filed|evaluated].
Defined.

(** ** Recovery: storage was ahead of the record *)

Definition overtaken : Server :=
  with_record (upload "a" 5 (text "abc")) (with_data "memory://a" (text "abcd") (empty_server 10)).

Definition no_request : HookRequestInfo := {| hr_method := "HEAD"; hr_path := "/files/a"; hr_headers := ∅ |}.
Definition recovered := run (prepare_regular_upload_access no_request) (upload "a" 5 (text "abc"), overtaken).
Definition recovered_again := run (prepare_regular_upload_access no_request) recovered.2.

Lemma recovery_is_idempotent_witness :
  UploadState.offset recovered.2.1 = 4 /\
  recovered.2.1 = UploadState.set_offset (stored_size (upload "a" 5 (text "abc")) overtaken)
                    (upload "a" 5 (text "abc")) /\
  recs recovered.2.2 !! "a" = Some recovered.2.1 /\ same recovered.2.2 recovered_again.2.2.
Proof.
  split; [evaluated|].
  apply (recovery_is_idempotent no_request (upload "a" 5 (text "abc")) overtaken recovered.2.1
           recovered.2.2 (Ok tt) recovered_again.2.1 recovered_again.2.2);
    [reflexivity|evaluated|evaluated|discriminate].
Defined.

(** ** Headers *)

Definition some_metadata : UploadMetadata := <["filename" := text "a b"]> (<["empty" := text ""]> ∅).

Lemma some_metadata_keys k : is_Some (some_metadata !! k) -> is_valid_metadata_key k = true.
Proof.
  unfold some_metadata. destruct (decide (k = "filename")) as [->|Hf]; [reflexivity|].
  destruct (decide (k = "empty")) as [->|He]; [reflexivity|].
  rewrite !lookup_insert_ne by done. rewrite lookup_empty. by intros [? ?].
Qed.

Lemma metadata_roundtrip_witness :
  parse_upload_metadata_value (encode_upload_metadata some_metadata) = Ok some_metadata.
Proof. apply metadata_roundtrip. exact some_metadata_keys. Defined.

(** A hook that replaces the metadata with a map of its own. *)
Record Replacing := { replacing : UploadMetadata }.

#[export] Instance replacing_hooks : HookExecutor Replacing := {|
  execute_pre ctx := Act (fun h => (h, h)) (fun h => ret {|
    ph_proceed := true; ph_metadata := Some (replacing h); ph_reject_status := None;
    ph_reject_message := None; ph_response_headers := ∅ |});
  execute_post _ := ret tt |}.

Definition spaced_keys : World MemoryStorage MemoryStateStore MemoryLocker Replacing Clock :=
  mkWorld ∅ ∅ MemoryLocker_new {| replacing := <["a b" := text "x"]> ∅ |}
    {| clock_now := 10; clock_ids := 0 |}.

Definition spaced_answer : option string :=
  match run (post all_extensions (create_headers (Some 3) None) Absent) spaced_keys with
  | (Ok _, w) =>
      match run (head all_extensions "id0") w with
      | (Ok answer, _) => get_str (rs_headers answer) "upload-metadata"
      | _ => None
      end
  | _ => None
  end.

(** the keys a hook sets are not checked: HEAD prints one with a space in it, and
    the parser of Upload-Metadata refuses what was printed (the example codes
    values in hex). *)
Lemma hook_key_does_not_read_back :
  spaced_answer = Some "a b 78" /\
  is_ok (parse_upload_metadata_value "a b 78") = false.
Proof. split; by_kernel. Qed.


Lemma no_origin o :
  base_url all_extensions = Some o \/ Headers_base_url Headers_default all_extensions = Some o ->
  plain_origin o.
Proof. intros [Ho|Ho]; discriminate Ho. Qed.

Lemma location_names_upload_witness :
  location all_extensions Headers_default (upload "a-1" 5 []) = "/files/a-1" /\
  extract_partial_id (location all_extensions Headers_default (upload "a-1" 5 []))
    (base_path all_extensions) = Some "a-1".
Proof.
  split; [evaluated|].
  apply (location_names_upload all_extensions Headers_default (upload "a-1" 5 []));
    [reflexivity|reflexivity|exact no_origin].
Defined.

Definition final_record : UploadState := UploadState.mark_final ["p"; "q"] (upload "f" 3 (text "abc")).

Lemma concat_header_roundtrip_witness :
  exists urls,
    parse_upload_concat_value (concat_value all_extensions final_record) = Ok (Final urls) /\
    map (fun url => extract_partial_id url (base_path all_extensions)) urls = map Some ["p"; "q"].
Proof.
  apply concat_header_roundtrip; [reflexivity|reflexivity|discriminate|repeat constructor].
Defined.

(** ** The in-memory backends *)

Definition abc_object : MemoryStorage := {["memory://a" := text "abc"]}.

Definition append_de : AppendRequest := {|
  ar_handle := StorageHandle_new "memory://a"; ar_expected_offset := 3;
  ar_data := Buffered (text "de"); ar_completes_upload := true |}.

Lemma memory_append_all_or_nothing_witness :
  exists old data,
    StorageHandle_new "memory://a" = ar_handle append_de /\
    abc_object !! "memory://a" = Some old /\ bytes_len old = ar_expected_offset append_de /\
    chunk_data (ar_data append_de) = Some data /\
    (run (memory_append append_de) (None, abc_object)).2.2
      = <["memory://a" := (old ++ data)%list]> abc_object.
Proof.
  apply (memory_append_all_or_nothing append_de None abc_object (Ok (StorageHandle_new "memory://a")) None).
  evaluated.
Defined.

Lemma memory_create_new_witness :
  run (memory_set (upload "a" 5 []) CreateNew) (w_states half_done)
    = (Err (Error.AlreadyExists "a"), w_states half_done).
Proof. exact (memory_create_new (upload "a" 5 []) (w_states half_done) eq_refl). Defined.

Lemma overdue_keys key st : w_states overdue !! key = Some st -> UploadState.id st = key.
Proof. apply overdue_filed. Qed.

Lemma memory_lists_expired_witness :
  In "a" (memory_expired 6%Z (w_states overdue)) <->
    exists st, w_states overdue !! "a" = Some st /\
      (UploadState.is_complete st = false \/ UploadState.is_partial st = true) /\
      exists e, UploadState.expires_at st = Some e /\ (e < 6)%Z.
Proof. apply memory_lists_expired. exact overdue_keys. Defined.

(** ** Limits and capabilities *)

Definition two_more : ReceiveProjection := {| projected_offset := 5; completes_upload := true |}.

Lemma receive_bounds_witness :
  projected_offset two_more = saturating_add (UploadState.offset (upload "a" 5 (text "abc"))) 2 /\
  (forall l, UploadState.length (upload "a" 5 (text "abc")) = Some l -> projected_offset two_more <= l) /\
  (forall m, max_size all_extensions = Some m -> projected_offset two_more <= m) /\
  (completes_upload two_more = true <->
   UploadState.length (upload "a" 5 (text "abc")) = Some (projected_offset two_more)).
Proof. apply (receive_bounds all_extensions _ 2 KindPatch). evaluated. Defined.

Lemma options_advertises_witness :
  header_of "tus-version" (options all_extensions) = Some TUS_RESUMABLE /\
  header_of "tus-extension" (options all_extensions) = present (extensions_string all_extensions) /\
  header_of "tus-max-size" (options all_extensions) = u64_to_string <$> max_size all_extensions /\
  header_of "tus-checksum-algorithm" (options all_extensions) =
    if has_extension all_extensions Extension.Checksum
    then present (checksum_algorithms_string all_extensions) else None.
Proof. apply options_advertises. Defined.

Lemma built_supports_sha1_witness :
  supports_checksum_algorithm (with_checksum ChecksumAlgorithm.Md5 Config_default) ChecksumAlgorithm.Sha1
    = true /\
  In ChecksumAlgorithm.Sha1 (checksum_algorithms (with_checksum ChecksumAlgorithm.Md5 Config_default)).
Proof.
  apply built_supports_sha1; [apply built_checksum, built_default|left; evaluated].
Defined.

(** ** Hooks *)

(** A post-hook that counts its runs and fails, and one that only counts. *)
Definition failing_hook : Hook nat := FnHook_as_hook
  (FnHook_with_post (fun _ => do! act (fun n => (tt, Datatypes.S n)) in throw (Error.Hook "down"))
     (FnHook_for_event HookEvent.PostFinish (FnHook_new "failing"))).
Definition counting_hook : Hook nat := FnHook_as_hook
  (FnHook_with_post (fun _ => act (fun n => (tt, Datatypes.S n)))
     (FnHook_for_event HookEvent.PostFinish (FnHook_new "counting"))).

Definition finish_context : HookContext :=
  HookContext_new HookEvent.PostFinish (upload "a" 5 (text "abcde")) no_request.

Lemma post_hook_failure_is_swallowed_witness :
  run (chain_execute_post [counting_hook; failing_hook; counting_hook] finish_context) 0%nat
    = run (chain_execute_post [counting_hook] finish_context) 2%nat.
Proof.
  apply (post_hook_failure_is_swallowed [counting_hook] failing_hook [counting_hook]
           finish_context 0%nat 1%nat (Error.Hook "down") 2%nat);
    [by apply list_elem_of_singleton|reflexivity|evaluated|evaluated].
Defined.

Lemma error_response_safe_witness :
  100 <= er_status (error_response (Error.OffsetMismatch 3 2)) <= 599 /\
  hd_error (er_headers (error_response (Error.OffsetMismatch 3 2))) = Some ("tus-resumable", TUS_RESUMABLE) /\
  (forall expected actual, Error.OffsetMismatch 3 2 = Error.OffsetMismatch expected actual ->
     In ("upload-offset", u64_to_string expected) (er_headers (error_response (Error.OffsetMismatch 3 2)))) /\
  (500 = er_status (error_response (Error.OffsetMismatch 3 2)) ->
     er_body (error_response (Error.OffsetMismatch 3 2)) = "Internal server error" \/
     Error.OffsetMismatch 3 2 = Error.StorageKeyMissing \/
     exists s m, Error.OffsetMismatch 3 2 = Error.HookRejected s m).
Proof. apply error_response_safe. Defined.
