(* ===== verification/AxumWitnesses.v ===== *)
(** * Concrete requests to the router

    An instance of what the axum integration uses of axum, the router over the server
    of [Concrete.v], and the theorems of [AxumSpec.v] applied to requests it serves. *)

From S2P Require Import Prelude Text Errors Crates Config State Headers Hooks Backends Memory.
From S2P Require Import Locking Lifecycle Intake Receive FinalUpload Access Response Protocol.
From S2P Require Import Concrete Axum AxumSpec Witnesses.
Local Open Scope string_scope.
Local Open Scope N_scope.

(** ** Templates *)

(** The literal part of a template that ends in the capture. *)
Fixpoint item_base (template : string) : option string :=
  if (template =? "/{upload_id}")%string then Some ""
  else match template with
       | EmptyString => None
       | String c template => option_map (String c) (item_base template)
       end.

#[export] Instance concrete_axum : AxumLib := {|
  path_match template path :=
    match item_base template with
    | Some base =>
        match str_strip_prefix (base ++ "/") path with
        | Some segment =>
            if is_empty segment || contains_char "/" segment then None else Some (Some segment)
        | None => None
        end
    | None => if (path =? template)%string then Some None else None
    end;
  decode_param s := inr s;
  header_value_eqb := String.eqb;
  length_limited e := (e =? "length limit exceeded")%string;
|}.

Lemma item_base_item base : item_base (base ++ "/{upload_id}") = Some base.
Proof.
  induction base as [|c base IH]; [done|]. cbn [String.append item_base].
  destruct (String.eqb_spec (String c (base ++ "/{upload_id}")) "/{upload_id}") as [Heq|]; [|by rewrite IH].
  exfalso. injection Heq as _ Heq. apply (f_equal String.length) in Heq. revert Heq.
  rewrite string_length_app. cbn. lia.
Qed.

Lemma item_base_plain template : str_all plain_char template = true -> item_base template = None.
Proof.
  induction template as [|c template IH]; [done|]. cbn [str_all item_base]. intros [Hc Ht]%andb_prop.
  destruct (String.eqb_spec (String c template) "/{upload_id}") as [Heq|]; [|by rewrite IH].
  injection Heq as -> ->. discriminate Ht.
Qed.

#[export] Instance concrete_axum_laws : AxumLaws.
Proof.
  split; cbn.
  - intros template path Ht. by rewrite item_base_plain.
  - intros base path _. by rewrite item_base_item.
  - done.
  - intros a b. apply String.eqb_eq.
Qed.

(** ** Routers and requests *)

Definition no_answer : AxumResponse := not_found_response.

Definition built (r : rresult Router) (w : Router) : Router := match r with Ok rt => rt | _ => w end.

(** Origins [https://a.example] and [https://b.example] with credentials. *)
Definition two_origins : RouterOptions :=
  with_cors_allow_credentials (with_cors_allowed_origins ["https://a.example"; "https://b.example"] RouterOptions_new).

Definition bare_router (config : Config) : Router :=
  {| rt_config := config; rt_paths := {| rp_base := "/files"; rp_upload := "/files/{upload_id}" |};
     rt_download := false; rt_cors := None |}.

Definition plain_router : Router := built (create_router all_extensions RouterOptions_new) (bare_router all_extensions).
Definition download_router : Router :=
  built (create_router_with_download all_extensions RouterOptions_new) (bare_router all_extensions).
Definition cors_router : Router := built (create_router all_extensions two_origins) (bare_router all_extensions).

Lemma plain_router_built : create_router all_extensions RouterOptions_new = Ok plain_router.
Proof. vm_compute. reflexivity. Qed.

Definition request_to (method path : string) (headers : HeaderMap) (body : bytes) : AxumRequest :=
  {| aq_method := method; aq_path := path; aq_headers := headers;
     aq_body := [inr (Data body)]; aq_end_stream := is_empty (string_of_list_byte body) |}.

Definition tus_headers_of (l : list (string * string)) : HeaderMap :=
  foldr (fun nv h => header_insert nv.1 nv.2 h) (header_insert "tus-resumable" "1.0.0" header_map_new) l.

Definition put_two : AxumRequest := request_to "PUT" "/files/a" (tus_headers_of []) [].

Definition patch_two (method : string) (extra : list (string * string)) : AxumRequest :=
  request_to method "/files/a"
    (tus_headers_of (extra ++ [("upload-offset", "3"); ("content-type", "application/offset+octet-stream")])%list)
    (text "de").

(** ** The theorems *)

Definition get_two : AxumRequest := request_to "GET" "/files/a" (tus_headers_of []) [].

(** Without the download endpoint a GET is refused, and nothing happens. *)
Lemma router_speaks_tus_witness :
  let r := run (serve plain_router get_two) half_done in
  r.2 = half_done /\ method_refused plain_router (Item "a") get_two (response_of no_answer r).
Proof.
  cbv zeta.
  destruct (router_speaks_tus plain_router get_two half_done (run (serve plain_router get_two) half_done).2
    (run (serve plain_router get_two) half_done).1) as [_ Hthm].
  - right. exists "a". vm_compute. reflexivity.
  - intros Hp. vm_compute in Hp. discriminate Hp.
  - by destruct (run _ _).
  - destruct (Hthm (response_of no_answer (run (serve plain_router get_two) half_done))) as (_ & t & Ht & Hno).
    + vm_compute. reflexivity.
    + assert (t = Item "a") as -> by (vm_compute in Ht; by injection Ht as <-).
      assert (operation_of plain_router (Item "a") get_two = None) as Hop by (vm_compute; reflexivity).
      rewrite Hop in Hno. exact Hno.
Defined.

(** A PATCH in disguise stores its bytes. *)
Lemma override_is_the_method_witness :
  serve plain_router (patch_two "POST" [("x-http-method-override", "patch")]) =
  serve (S:=MemoryStorage) (St:=MemoryStateStore) (L:=MemoryLocker) (H:=unit) (E:=Clock)
    plain_router (with_method "PATCH" (patch_two "POST" [("x-http-method-override", "patch")])).
Proof.
  apply (override_is_the_method plain_router (patch_two "POST" [("x-http-method-override", "patch")]) "a" "PATCH").
  - reflexivity.
  - left. reflexivity.
  - vm_compute. reflexivity.
  - vm_compute. reflexivity.
  - vm_compute. reflexivity.
  - vm_compute. reflexivity.
Defined.

Example override_appends :
  let w := (run (serve plain_router (patch_two "POST" [("x-http-method-override", "Patch")])) half_done).2 in
  w_storage w !! "memory://a" = Some (text "abcde").
Proof. vm_compute. reflexivity. Qed.

Definition cors_options_request (extra : list (string * string)) : AxumRequest :=
  request_to "OPTIONS" "/files" (tus_headers_of (("origin", "https://b.example") :: extra)) [].

Definition the_cors : CorsConfig :=
  match CorsConfig_build two_origins false with
  | Ok c => c
  | _ => {| co_allow_any_origin := false; co_allowed_origins := []; co_allow_credentials := false;
            co_allow_methods := ""; co_allow_headers := ""; co_expose_headers := ""; co_max_age := "" |}
  end.

Lemma cors_keeps_to_origins_witness :
  let q := cors_options_request [] in
  let resp := response_of no_answer (run (serve cors_router q) half_done) in
  header_get (ax_headers resp) "access-control-allow-origin" = Some "https://b.example" /\
  header_get (ax_headers resp) "access-control-allow-credentials" = Some "true".
Proof.
  cbv zeta.
  destruct (cors_keeps_to_origins cors_router two_origins false the_cors (cors_options_request []) half_done
    (run (serve cors_router (cors_options_request [])) half_done).2
    (response_of no_answer (run (serve cors_router (cors_options_request [])) half_done)))
    as [_ Hserved].
  - vm_compute. reflexivity.
  - vm_compute. reflexivity.
  - vm_compute. reflexivity.
  - destruct Hserved as (r & _ & _ & _ & Hgranted & _); [vm_compute; reflexivity|].
    destruct (Hgranted "https://b.example") as (Ho & Hc & _).
    + vm_compute. split; [reflexivity|]. exists "https://b.example".
      split; [right; left; reflexivity|reflexivity].
    + split; [exact Ho|exact Hc].
Defined.

(** A preflight of a listed origin is granted to it, with credentials; of another, not. *)
Example preflight_listed :
  let q := cors_options_request [("access-control-request-method", "PATCH")] in
  header_get (ax_headers (response_of no_answer (run (serve cors_router q) half_done))) "access-control-allow-origin"
  = Some "https://b.example".
Proof. vm_compute. reflexivity. Qed.

(** ** Divergences *)

(** With the download endpoint, the Allow of a PUT lists GET and the one of a POST without
    an override does not, though GET is served. *)
Lemma post_without_override_hides_get :
  let allow q := header_get (ax_headers (response_of no_answer (run (serve download_router q) all_done))) "allow" in
  allow (request_to "PUT" "/files/a" (tus_headers_of []) []) = Some UPLOAD_ALLOW_WITH_DOWNLOAD /\
  allow (request_to "POST" "/files/a" (tus_headers_of []) []) = Some UPLOAD_ALLOW /\
  ax_status (response_of no_answer
    (run (serve download_router (request_to "GET" "/files/a" (tus_headers_of []) [])) all_done)) = 200.
Proof. vm_compute. split_and!; reflexivity. Qed.

(** A base path with a slash at its end is mounted without it, but kept in the places of
    uploads: [Location] names a path that no route serves. *)
Definition slashed : Config := with_base_path "/files/" Config_default.

Lemma slashed_base_is_unroutable :
  upload_url slashed "a" None = "/files//a" /\
  create_router slashed RouterOptions_new = Ok (bare_router slashed) /\
  path_match (rp_base (rt_paths (bare_router slashed))) "/files//a" = None /\
  path_match (rp_upload (rt_paths (bare_router slashed))) "/files//a" = None.
Proof. vm_compute. by split_and!. Qed.
