(* ===== verification/FileWitnesses.v ===== *)
(** * The file backends, concretely

    Instances of the interfaces the file backends use that satisfy their laws, and
    the theorems about the file backends applied to concrete files, failures and
    schedules. *)

From stdpp Require Import relations countable.
From S2P Require Import Prelude Text Errors Crates Config State Headers Hooks Backends Concrete.
From S2P Require Import Files FileFacts FileStorage FileStorageSpec FileCrash FileState FileStateSpec.
From S2P Require Import Interleaving Ownership FileLocking FileLockingSpec.
Local Open Scope string_scope.
Local Open Scope N_scope.
Local Open Scope prog_scope.

(** ** Instances *)

Definition hex_lower (d : nat) : ascii := ascii_of_nat (if (d <? 10)%nat then 48 + d else 87 + d).

#[export] Instance concrete_uuids : Uuids := {|
  uuid_simple n := "0000000000000000000000000000000" ++ String (hex_lower (n mod 16)) "";
  uuid_parses s := Nat.eqb (String.length s) 32 && str_all hex_char s;
|}.

Lemma hex_lower_ok d : (d < 16)%nat -> hex_char (hex_lower d) = true.
Proof. intros Hd. by do 16 (destruct d as [|d]; [done|]); lia. Qed.

#[export] Instance concrete_uuid_laws : UuidLaws.
Proof.
  assert (forall n, hex_char (hex_lower (n mod 16)) = true) as Hx.
  { intros n. apply hex_lower_ok, Nat.mod_upper_bound. lia. }
  split; intros n; [done|..].
  - cbn [uuid_simple concrete_uuids]. rewrite str_all_app. cbn [str_all]. by rewrite Hx.
  - cbn [uuid_simple uuid_parses concrete_uuids]. rewrite str_all_app. cbn [str_all]. by rewrite Hx.
Qed.

#[export] Instance concrete_readers : Readers :=
  {| reader_stream b := [ {| si_chunk := inr b; si_deferred := None |} ] |}.

#[export] Instance concrete_reader_laws : ReaderLaws.
Proof. split. intros b. cbn. by rewrite app_nil_r. Qed.

(** Records as strings of digits 0 and 1. *)
#[export] Instance byte_countable : Countable Byte.byte :=
  inj_countable Byte.to_N Byte.of_N Byte.of_to_N.

#[export] Instance UploadState_countable : Countable UploadState.t :=
  inj_countable'
    (fun s => (UploadState.schema_version s, UploadState.id s, UploadState.offset s,
               UploadState.length s, UploadState.storage_key s, UploadState.created_at s,
               (UploadState.expires_at s, UploadState.is_partial s, UploadState.is_final s,
                UploadState.parts s, UploadState.metadata s, UploadState.internal s)))
    (fun '(a, b, c, d, e, f, (g, h, i, j, k, l)) => UploadState.mk a b c d e f g h i j k l)
    ltac:(by intros []).

Fixpoint bits_of (p : positive) : string :=
  match p with
  | xH => ""
  | xO p => String "0" (bits_of p)
  | xI p => String "1" (bits_of p)
  end.

Fixpoint of_bits (s : string) : positive :=
  match s with
  | "" => xH
  | String c s => if Ascii.eqb c "0" then xO (of_bits s) else xI (of_bits s)
  end.

Lemma of_bits_of p : of_bits (bits_of p) = p.
Proof. by induction p as [p IH|p IH|]; cbn; rewrite ?IH. Qed.

Lemma bits_utf8 p : utf8_valid (list_byte_of_string (bits_of p)) = true.
Proof. by induction p as [p IH|p IH|]. Qed.

#[export] Instance concrete_json : SerdeJson := {|
  json_to_string_pretty st := inr (bits_of (encode st));
  json_from_str s := match decode (of_bits s) with Some st => inr st | None => inl "expected value" end;
|}.

#[export] Instance concrete_json_laws : SerdeJsonLaws.
Proof.
  split; cbn; intros st s [= <-]; [|apply bits_utf8]. by rewrite of_bits_of, decode_encode.
Qed.

Definition no_faults : FaultPlan := fun _ _ => None.
Lemma no_faults_faultless : @faultless no_faults.
Proof. done. Qed.

(** The n-th call fails; a write has written one byte. *)
Definition fails_at (n : nat) : FaultPlan := fun _ i =>
  if Nat.eqb i n then Some {| ft_kind := Failing; ft_message := "No space left on device"; ft_written := 1 |}
  else None.

(** The n-th call fails, if it is not a write. *)
Definition fails_unless_write (n : nat) : FaultPlan := fun c i =>
  match c with SysWrite => None | SysOther => fails_at n c i end.

Lemma fails_unless_write_ok n : @writes_succeed (fails_unless_write n).
Proof. done. Qed.

(** ** Storage *)

Definition key0 : string := uuid_simple 0 ++ ".upload".
Definition key1 : string := uuid_simple 1 ++ ".upload".

(** Two uploads, of two bytes and of one, safely on disk. *)
Definition two_files : Fs :=
  mkFs {[ key0 := synced_file (text "ab"); key1 := synced_file (text "c") ]} ∅ 0 0.

Definition append_two : AppendRequest :=
  {| ar_handle := StorageHandle_new key0; ar_expected_offset := 2; ar_data := Buffered (text "de");
     ar_completes_upload := false |}.

Lemma two_files_kept : kept key0 (text "ab") two_files.
Proof.
  split; [|reflexivity]. exists (synced_file (text "ab")). split; [reflexivity|].
  split; exists []; reflexivity.
Qed.

(** The write fails after one byte, and nothing tells: the append succeeds. *)
Lemma append_crash_safe_witness :
  (run (@file_append (fails_at 2) _ append_two) (None, two_files)).1 = Ok (ar_handle append_two) /\
  during (fun cs => forall disk, crashed cs.2 disk -> exists t, disk !! key0 = Some (text "ab" ++ t)%list)
    (fun r cs =>
      match r with
      | Ok _ => handle_key (ar_handle append_two) = key0 ->
          exists content data t,
            bytes_len content = ar_expected_offset append_two /\ text "ab" `prefix_of` content /\
            chunk_data (ar_data append_two) = Some data /\
            t `prefix_of` data /\ (@writes_succeed (fails_at 2) -> t = data) /\
            durable cs.2 key0 (content ++ t)%list
      | Err _ => kept key0 (text "ab") cs.2
      | Panic => False
      end) (@file_append (fails_at 2) _ append_two) (None, two_files).
Proof.
  split; [vm_compute; reflexivity|].
  exact (@append_crash_safe (fails_at 2) _ key0 (text "ab") append_two None two_files two_files_kept).
Defined.

(** An append that reports success has lost a byte. *)
Theorem append_loses_bytes_silently :
  let '(r, (_, fs)) := run (@file_append (fails_at 2) _ append_two) (None, two_files) in
  r = Ok (ar_handle append_two) /\ f_data <$> fs_files fs !! key0 = Some (text "abd").
Proof. vm_compute. split; reflexivity. Qed.

Definition concat_two : ConcatRequest :=
  {| cr_target := StorageHandle_new (uuid_simple 2 ++ ".upload");
     cr_parts := [StorageHandle_new key0; StorageHandle_new key1] |}.

Lemma concat_never_partial_witness :
  (run (@file_concat no_faults _ concat_two) two_files).1 = Ok (cr_target concat_two) /\
  during (fun fs' =>
      (forall d, on_disk fs' (handle_key (cr_target concat_two)) d ->
        on_disk two_files (handle_key (cr_target concat_two)) d \/ d = None \/
        exists datas, mapM (fun p => objects two_files !! handle_key p) (cr_parts concat_two) = Some datas /\
          d = Some (concat datas)) /\
      forall k d, valid_key k = true -> k <> handle_key (cr_target concat_two) ->
        on_disk fs' k d -> on_disk two_files k d)
    (fun r fs' =>
      match r with
      | Ok h =>
          exists datas,
            mapM (fun p => objects two_files !! handle_key p) (cr_parts concat_two) = Some datas /\
            fs_files fs' !! handle_key (cr_target concat_two) = Some (synced_file (concat datas))
      | Err _ => True
      | Panic => False
      end) (@file_concat no_faults _ concat_two) two_files.
Proof.
  split; [vm_compute; reflexivity|]. apply (@concat_never_partial no_faults _ _ _ _ concat_two two_files).
Defined.

Lemma file_storage_refines_witness :
  exists (L : @StorageLaws Fs (@FileStorage_Storage no_faults _))
    (_ : @StorageReaderLaws Fs _ L (@FileStorage_StorageReader no_faults _ _)),
  forall fs key, @stored Fs _ L fs !! key =
    if valid_key key then f_data <$> fs_files fs !! key else None.
Proof. exact (@file_storage_refines no_faults _ _ _ _ no_faults_faultless). Defined.

(** ** Records *)

Definition record_a : UploadState.t := upload "a" 5 (text "abc").

Lemma file_state_store_refines_witness :
  exists L : @StateStoreLaws Fs (@FileStateStore_StateStore (fails_unless_write 3) _ _ _),
  forall fs id, id <> "" ->
    @records Fs _ L fs !! id = fs_files fs !! (id ++ ".json") ≫= fun f => parse_bytes (f_data f).
Proof. exact (@file_state_store_refines (fails_unless_write 3) _ _ _ _ _ (fails_unless_write_ok 3)). Defined.

(** The link of the temporary file fails. *)
Lemma state_write_atomic_witness :
  is_ok (run (@file_set (fails_at 3) _ _ record_a CreateNew) empty_fs).1 = false /\
  during (fun fs' =>
      (forall d, on_disk fs' (UploadState.id record_a ++ ".json") d ->
        on_disk empty_fs (UploadState.id record_a ++ ".json") d \/
        exists b, d = Some b /\ @record_bytes (fails_at 3) _ record_a b /\
          (@writes_succeed (fails_at 3) -> parse_bytes b = Some record_a)) /\
      forall name d, is_json name = true -> name <> UploadState.id record_a ++ ".json" ->
        on_disk fs' name d -> on_disk empty_fs name d)
    (fun r fs' =>
      match r with
      | Ok _ => @faultless (fails_at 3) ->
          exists b, durable fs' (UploadState.id record_a ++ ".json") b /\ parse_bytes b = Some record_a
      | Err _ => same_json empty_fs fs'
      | Panic => False
      end) (@file_set (fails_at 3) _ _ record_a CreateNew) empty_fs.
Proof.
  split; [vm_compute; reflexivity|].
  apply (@state_write_atomic (fails_at 3) _ _ _ _ _ record_a CreateNew empty_fs).
Defined.

(** A record whose write fails takes its place all the same, torn: [set] succeeds, and
    the record cannot be read. *)
Theorem failed_write_is_published :
  let '(r, fs) := run (@file_set (fails_at 1) _ _ record_a CreateNew) empty_fs in
  r = Ok tt /\ bytes_len <$> (f_data <$> fs_files fs !! "a.json") = Some 1 /\
  (run (@file_get (fails_at 1) _ "a") fs).1 <> Ok (Some record_a).
Proof. vm_compute. split_and!; [reflexivity|reflexivity|discriminate]. Qed.

Definition long_id : string := Nat.iter 214 (String "a") "".
Definition long_record : UploadState.t := UploadState.new long_id 0%Z.

Lemma long_ids_cannot_be_stored_witness :
  is_ok (file_validate_upload_id long_id) = true /\
  wp (@file_set no_faults _ _ long_record CreateNew)
    (fun r fs' => is_ok r = false /\ file_records fs' = file_records empty_fs) empty_fs.
Proof.
  assert (213 < str_len (UploadState.id long_record)) as Hlong by (vm_compute; reflexivity).
  exact (conj eq_refl (@long_ids_cannot_be_stored no_faults _ _ _ _ _ long_record CreateNew empty_fs Hlong)).
Defined.

(** ** Locks *)

Definition two_users : list (list Job) := [[LockJob "a" 100]; [TryLockJob "a"; ProbeJob "a"]].

#[export] Instance no_passing : Passing := fun _ => 0.

(** The first task is inside while the second finds the file locked. *)
Definition contended :=
  run_schedule [0; 0; 1; 0; 0; 0; 0; 1; 1; 1]%nat (@locker_start no_faults _ 2 50 two_users).

Lemma file_locker_mutual_exclusion_witness :
  inside "a" contended.2 = [1%nat] /\ (length (inside "a" contended.2) <= 1)%nat.
Proof.
  split; [vm_compute; reflexivity|].
  apply (@file_locker_mutual_exclusion no_faults _ 2 50 two_users), run_schedule_steps.
Defined.



