(* ===== verification/ClientWitnesses.v ===== *)
(** * The upload client, concretely

    The theorems about the client applied to uploads to a server behind a bad network. *)

From stdpp Require Import sorting.
From S2P Require Import Prelude Text Interleaving JoinSet Errors Crates Config State Headers Concrete.
From S2P Require Import ClientError ClientHelpers Client ClientUpload ClientParallel ClientFacts ClientLoops ClientCreation.
From S2P Require Import ClientHelpersSpec ClientSpec ClientParallelFacts ClientParallelSpec RemoteServer.
Local Open Scope string_scope.
Local Open Scope N_scope.
Local Open Scope prog_scope.

(** ** Uploads *)

Definition endpoint : WebUrl := exist _ "http://a/f" eq_refl.
Definition upload7 : WebUrl := exist _ "http://a/f/u7" eq_refl.

Definition new_world (objects : gmap string (N * bytes)) (fates : list Fate) : ClientWorld :=
  mkClientWorld _ _ (mkRemote objects ∅ 0 fates) None [] [] [] 0 0 0 0 no_parallel.

(** Chunks of two bytes, nothing with the creation, three retries. *)
Definition small_client : Client :=
  with_max_initial_upload_size 0 (client_with_max_chunk_size 2 (with_transport endpoint)).

Definition ended (r : cresult UploadInfo) : option (string * N) :=
  match r with Ok info => Some (weburl_as_str (ui_url info), ui_offset info) | _ => None end.

(** The second chunk is cut after a byte, and then a request is lost. *)
Definition bad_network : ClientWorld := new_world ∅ [Through; Through; Cut 1; Lost].

Lemma upload_from_delivers_witness :
  ended (run (upload_from_with_progress small_client (VecSource (text "abcde")) ∅ report) bad_network).1
    = Some ("http://a/f/u0", 5) /\
  wp (upload_from_with_progress small_client (VecSource (text "abcde")) ∅ report)
    (left_by_upload (text "abcde") (cw_progress bad_network)) bad_network.
Proof.
  split; [vm_compute; reflexivity|].
  assert (bytes_len (text "abcde") <= isize_max) as Hl by by vm_compute.
  exact (upload_from_delivers small_client (VecSource (text "abcde")) (text "abcde") ∅ bad_network
           (VecSource_reads_out _) Hl).
Defined.

(** Two bytes arrived before the client was restarted. *)
Definition half_way : ClientWorld := new_world {[ "http://a/f/u7" := (5, text "ab") ]} [Lost; Through; Cut 1].

Lemma resume_delivers_witness :
  ended (run (resume_at_with_progress_from small_client upload7 (VecSource (text "abcde")) report None)
           half_way).1 = Some ("http://a/f/u7", 5) /\
  wp (resume_at_with_progress_from small_client upload7 (VecSource (text "abcde")) report None) (fun r w' =>
    under_way (text "abcde") (weburl_as_str upload7) [] w' /\
    match r with
    | Ok info => object (cw_transport w') (weburl_as_str upload7) = Some (text "abcde") /\
        ui_offset info = bytes_len (text "abcde") /\ ui_url info = upload7
    | Err _ => True
    | Panic => retry_after_overflows
    end) half_way.
Proof.
  split; [vm_compute; reflexivity|].
  assert (u64 (bytes_len (text "abcde"))) as Hl by by vm_compute.
  assert (match object (cw_transport half_way) (weburl_as_str upload7) with
          | Some b => b `prefix_of` text "abcde" | None => True end) as Hp.
  { exists (text "cde"). reflexivity. }
  exact (resume_delivers small_client upload7 (VecSource (text "abcde")) (text "abcde") None half_way
           (VecSource_reads_out _) Hl Hp I).
Defined.

(** A network that always loses: the budget is used up. *)
Definition dead_network : ClientWorld := new_world ∅ (repeat Lost 9).

Definition dead_run :=
  run (resume_loop (resume_fuel small_client 5) small_client upload7 (VecSource (text "abcde")) report 0 None None)
    dead_network.

Lemma resume_ends_witness :
  pauses dead_run.2 = 3%nat /\ requests dead_run.2 = 4 /\
  wp (resume_loop (resume_fuel small_client 5) small_client upload7 (VecSource (text "abcde")) report 0 None None)
    (fun r w' => r <> Ok None /\ (r = Panic -> crashed w') /\
      (pauses w' <= pauses dead_network + resume_fuel small_client 5)%nat /\
      requests w' <= requests dead_network + N.of_nat (resume_fuel small_client 5) * 7) dead_network.
Proof.
  split; [vm_compute; reflexivity|]. split; [vm_compute; reflexivity|].
  assert (u64 (src_len (VecSource (text "abcde")))) as Hl by by vm_compute.
  exact (proj1 (resume_ends small_client upload7 (VecSource (text "abcde")) report None dead_network report_passive Hl)).
Defined.

Definition restricted : Client := with_endpoint_origin_restriction small_client.

Lemma restriction_keeps_origin_witness :
  wp (upload_from_with_progress restricted (VecSource (text "abcde")) ∅ report)
    (fun _ w' => stays restricted (cw_sent bad_network) w') bad_network.
Proof.
  assert (same_origin (cl_endpoint restricted) (cl_endpoint restricted) = true) as Ho by by vm_compute.
  assert (u64 (src_len (VecSource (text "abcde")))) as Hl by by vm_compute.
  exact (restriction_keeps_origin restricted (VecSource (text "abcde")) ∅ report bad_network
           eq_refl Ho report_passive Hl).
Defined.

(** ** Helpers *)

Definition named : UploadMetadata := {[ "filename" := text "a.txt" ]}.

Lemma metadata_crosses_witness :
  named <> ∅ /\
  match encode_metadata named with
  | Ok s => parse_upload_metadata_value s = Ok named /\
      forall value, header_to_str value = inr (encode_upload_metadata named) ->
        decode_metadata (Some value) = Ok named
  | Err e => exists k, is_Some (named !! k) /\ is_valid_metadata_key k = false /\
      e = ClientError.InvalidRequestHeader "Upload-Metadata" k
  | Panic => False
  end.
Proof.
  assert (named <> ∅) as Hne by apply map_non_empty_singleton.
  exact (conj Hne (metadata_crosses named Hne)).
Defined.

(** The greatest hint is cut to 256 times the base of 200 ms. *)
Lemma client_delay_bounded_witness :
  next_retry_delay 0 (Some 999999999999999) 200000000 0 = 51200000000 /\
  next_retry_delay 0 (Some 999999999999999) 200000000 0 <= max_backoff_delay 200000000 <= 256 * 200000000.
Proof.
  split; [reflexivity|].
  exact (proj1 (client_delay_bounded 0 (Some 999999999999999) 200000000 0)).
Defined.

Lemma days_from_civil_counts_witness :
  days_from_civil (E := ClientError.t) 2024 2 29 = Ok 19782%Z /\
  days_from_civil (E := ClientError.t) 2024 3 1 = Ok 19783%Z.
Proof.
  assert (is_date (2024, 2, 29)%Z) as Hd by (split; split; by vm_compute).
  assert (-1000000000000000 < 2024 < 1000000000000000)%Z as Hy by lia.
  destruct (proj2 (days_from_civil_counts 2024 2 29) Hd Hy) as (n & H1 & H2).
  assert (days_from_civil (E := ClientError.t) 2024 2 29 = Ok 19782%Z) as H3 by reflexivity.
  rewrite H1 in H3. injection H3 as ->. exact (conj H1 H2).
Defined.

(** ** A server that forgets *)

(** A server that follows a script. *)
Definition scripted : Transport := {|
  TransportState := list (ClientError.t + ClientResponse);
  transport_send _ script :=
    match script with
    | answer :: script => (answer, script)
    | [] => (inl lost, [])
    end;
|}.

Definition forgetful_world : @ClientWorld _ scripted :=
  mkClientWorld _ scripted
    [inr (response 200 [("upload-offset", "2")]); inr (response 204 [("upload-offset", "4")]); inl lost;
     inr (response 200 [("upload-offset", "0")]); inr (response 204 [("upload-offset", "2")]);
     inr (response 204 [("upload-offset", "4")]); inr (response 204 [("upload-offset", "5")])]
    None [] [] [] 0 0 0 0 no_parallel.

(** A server that loses bytes it acknowledged, as a crash before they are on disk can
    make it, makes the reported progress go back. *)
Lemma progress_can_go_back :
  (@cw_progress _ scripted (run (resume_at_with_progress small_client upload7 (VecSource (text "abcde"))
     (@report _ scripted)) forgetful_world).2) = [(4, 5); (2, 5); (4, 5); (5, 5)].
Proof. vm_compute. reflexivity. Qed.

(** ** Parallel uploads *)

(** Two parts at once, of two bytes each. *)
Definition two_at_once : ParallelUpload := with_progress (with_max_concurrency 2 (ParallelUpload_new 2)).

Local Abbreviation parts_pool c w := (parallel_pool "cancelled" c (VecSource (text "abcde")) ∅ two_at_once w).

Definition ended_at (p : Pool ClientError.t ClientWorld PartOutcome UploadInfo) : option (string * N) :=
  match pl_main p with PDone r => ended r | _ => None end.

Definition failed_at (p : Pool ClientError.t ClientWorld PartOutcome UploadInfo) : option ClientError.t :=
  match pl_main p with PDone (Err e) => Some e | _ => None end.

(** Everybody acts in turn, the second part before the first. *)
Definition turns (n : nat) : list Choice :=
  concat (repeat [MainStep; TaskStep 1; TaskStep 0; TaskStep 2; Joins 1; Joins 0; Joins 2] n).

(** A chunk is cut after a byte, and a request is lost. *)
Definition flaky : ClientWorld := new_world ∅ [Through; Through; Through; Cut 1; Lost].

Lemma two_at_once_wf : ParallelUpload_wf two_at_once.
Proof. split; by vm_compute. Qed.

Lemma parallel_delivers_witness :
  ended_at (run_choices (turns 200) (parts_pool small_client flaky)) = Some ("http://a/f/u3", 5) /\
  (forall info, pl_main (run_choices (turns 200) (parts_pool small_client flaky)) = PDone (Ok info) ->
   ui_offset info = bytes_len (text "abcde") /\
   match object (cw_transport (pl_world (run_choices (turns 200) (parts_pool small_client flaky))))
           (weburl_as_str (ui_url info)) with
   | Some b => b = text "abcde"
   | None => True
   end).
Proof.
  split; [vm_compute; reflexivity|].
  assert (0 < bytes_len (text "abcde")) as Hpos by by vm_compute.
  assert (bytes_len (text "abcde") <= isize_max) as Hl by by vm_compute.
  pose proof (parallel_delivers "cancelled" small_client (VecSource (text "abcde")) (text "abcde") ∅ two_at_once flaky
           (run_choices (turns 200) (parts_pool small_client flaky)) (VecSource_reads_out _) Hpos Hl two_at_once_wf
           (run_choices_steps (turns 200) (parts_pool small_client flaky))) as H.
  exact H.
Defined.

(** The first part was uploaded, and the other two are under way. *)
Lemma parallel_bounded_witness :
  live_tasks (pl_tasks (run_choices (turns 18) (parts_pool small_client flaky))) = 2%nat /\
  (N.of_nat (live_tasks (pl_tasks (run_choices (turns 18) (parts_pool small_client flaky))))
     <= pu_max_concurrency two_at_once /\
   exists l, cw_progress (pl_world (run_choices (turns 18) (parts_pool small_client flaky)))
               = (cw_progress flaky ++ l)%list /\ StronglySorted N.lt l.*1 /\
     Forall (fun r => r.1 <= bytes_len (text "abcde") /\ r.2 = bytes_len (text "abcde")) l).
Proof.
  split; [vm_compute; reflexivity|].
  assert (0 < bytes_len (text "abcde")) as Hpos by by vm_compute.
  assert (bytes_len (text "abcde") <= isize_max) as Hl by by vm_compute.
  pose proof (parallel_bounded "cancelled" small_client (VecSource (text "abcde")) (text "abcde") ∅ two_at_once flaky
           (run_choices (turns 18) (parts_pool small_client flaky)) (VecSource_reads_out _) Hpos Hl two_at_once_wf
           (run_choices_steps (turns 18) (parts_pool small_client flaky))) as H.
  exact H.
Defined.

(** On a dead network the upload returns with an error. *)
Lemma parallel_ends_witness :
  failed_at (run_choices (turns 200) (parts_pool small_client dead_network)) = Some lost /\
  (Acc next_pool (run_choices (turns 200) (parts_pool small_client dead_network)) /\
   ((forall p', ~ par_step (run_choices (turns 200) (parts_pool small_client dead_network)) p') ->
    exists r, pl_main (run_choices (turns 200) (parts_pool small_client dead_network)) = PDone r /\
      (r = Panic -> retry_after_overflows))).
Proof.
  split; [vm_compute; reflexivity|].
  assert (0 < bytes_len (text "abcde")) as Hpos by by vm_compute.
  assert (bytes_len (text "abcde") <= isize_max) as Hl by by vm_compute.
  pose proof (parallel_ends "cancelled" small_client (VecSource (text "abcde")) (text "abcde") ∅ two_at_once dead_network
           (run_choices (turns 200) (parts_pool small_client dead_network)) (VecSource_reads_out _) Hpos Hl two_at_once_wf
           (run_choices_steps (turns 200) (parts_pool small_client dead_network))) as H.
  exact H.
Defined.

(** The first part is created; the creation of the second fails; the first is aborted. *)
Definition one_fails : list Choice :=
  (repeat MainStep 20 ++ repeat (TaskStep 0) 3 ++ repeat (TaskStep 1) 50 ++ [Joins 1] ++ repeat MainStep 10
    ++ [Joins 0] ++ repeat MainStep 20)%list.

Definition failing : ClientWorld := new_world ∅ (Through :: Through :: repeat Lost 9).

Definition failed_pool : Pool ClientError.t ClientWorld PartOutcome UploadInfo :=
  run_choices one_fails (parts_pool (with_max_retries 0 small_client) failing).

(** A partial upload that was created by a task that is aborted is left on the server:
    nothing is sent to remove it, since the task's [created_url] is dropped with it. *)
Lemma aborted_part_is_left :
  failed_at failed_pool = Some lost /\
  live_tasks (pl_tasks failed_pool) = 0%nat /\
  object (cw_transport (pl_world failed_pool)) "http://a/f/u0" = Some [] /\
  map (fun r => (tr_method r, tr_uri r)) (cw_sent (pl_world failed_pool))
    = [(Method.OPTIONS, "http://a/f"); (Method.POST, "http://a/f"); (Method.POST, "http://a/f")].
Proof. split_and!; vm_compute; reflexivity. Qed.
