(* ===== verification/EndToEndWitnesses.v ===== *)
(** * An upload from a client to a server, concretely

    The memory backends behind the router, a network with failures in front of it, and a
    client that uploads five bytes through it. *)

From S2P Require Import Prelude Text JoinSet Errors Crates Config State Headers Hooks Backends Memory Locking.
From S2P Require Import Lifecycle Intake Receive FinalUpload Access Response Protocol Streaming Contracts.
From S2P Require Import Safety Effects HeadSpec DownloadSpec CreationSpec Invariant Concrete Axum AxumSpec AxumWitnesses.
From S2P Require Import ServerStore RouterStore ClientError ClientHelpers Client ClientUpload ClientFacts ClientLoops.
From S2P Require Import ClientCreation ClientSpec Reqwest EndToEnd.
Local Open Scope string_scope.
Local Open Scope N_scope.
Local Open Scope prog_scope.

(** ** Names, hooks and ids *)

#[export] Instance no_hooks_plain : PlainHooks unit.
Proof.
  split. intros ctx h. apply wp_done. intros x [= <-]. cbn. apply plain_empty.
Qed.

(** An id generator that draws ids longer than those in use. *)
Record LongIds := { li_now : DateTime; li_next : string }.

#[export] Instance long_ids_env : Env LongIds := {|
  utc_now c := (li_now c, {| li_now := (li_now c + 1)%Z; li_next := li_next c |});
  new_v4 c := (li_next c, c);
|}.

Fixpoint long_id (n : nat) : string := match n with O => "i" | Datatypes.S n => String "i" (long_id n) end.

Fixpoint longest (ids : list string) : nat :=
  match ids with [] => O | id :: ids => Nat.max (String.length id) (longest ids) end.

(** Longer than the ids in use, and than the names of their objects. *)
#[export] Instance long_ids_renewal : Renewal MemoryStorage LongIds.
Proof.
  refine {|
    renew_env ids keys e :=
      {| li_now := li_now e; li_next := long_id (Nat.max (longest (elements ids)) (longest (elements keys))) |};
    renew_storage s := s |}. done.
Defined.

(** ** URLs of one host: their paths *)

Definition PathUrl : Type := { p : string | root_path p = true }.

Definition path_url (p : string) : option PathUrl :=
  match Bool.bool_dec (root_path p) true with
  | left Hp => Some (exist _ p Hp)
  | right _ => None
  end.

Definition the_origin : string := "http://a".

#[export] Instance path_urls : UrlLib := {|
  WebUrl := PathUrl;
  weburl_parse s := match str_strip_prefix the_origin s ≫= path_url with Some u => inr u | None => inl "not a URL" end;
  weburl_as_str u := the_origin ++ `u;
  weburl_path u := `u;
  weburl_set_path p u := default u (path_url p);
  weburl_join base reference :=
    let r := if starts_with "/" reference then path_url reference
             else match str_strip_prefix the_origin reference with
                  | Some p => path_url p
                  | None => path_url (`base ++ reference)
                  end in
    match r with Some u => inr u | None => inl "not a URL" end;
  same_origin _ _ := true;
  origin_serialization _ := the_origin;
  uri_parse _ := inr tt;
|}.

Lemma path_url_text (u : PathUrl) : path_url (`u) = Some u.
Proof.
  destruct u as [p Hp]. unfold path_url. cbn. destruct (Bool.bool_dec _ _) as [Hp'|]; [|done].
  do 2 f_equal. apply Eqdep_dec.UIP_dec, Bool.bool_dec.
Qed.

Lemma path_url_some p u : path_url p = Some u -> `u = p.
Proof. unfold path_url. destruct (Bool.bool_dec _ _); [|done]. by intros [= <-]. Qed.

#[export] Instance path_url_laws : UrlLaws.
Proof.
  split. intros u. cbn [weburl_parse weburl_as_str path_urls]. rewrite str_strip_prefix_app. cbn.
  by rewrite path_url_text.
Qed.

#[export] Instance path_server_urls : ServerUrls the_origin.
Proof.
  refine {| on_server _ := True |}; [done|done|].
  intros u p v _ Hp. cbn [weburl_join weburl_as_str path_urls]. pose proof Hp as Hp'.
  unfold root_path in Hp'. apply andb_prop in Hp' as [[-> _]%andb_prop _]. cbv zeta.
  destruct (path_url p) as [w|] eqn:Hw; [|done]. intros [= <-]. by rewrite (path_url_some _ _ Hw).
Defined.

Definition append_first (n v : string) (h : gmap string string) : gmap string string :=
  match h !! n with Some _ => h | None => <[n := v]> h end.

Lemma append_first_eq n v h : append_first n v h !! n = Some (default v (h !! n)).
Proof. unfold append_first. destruct (h !! n) eqn:Hn; [done|apply lookup_insert_eq]. Qed.

Lemma append_first_ne n k v h : n <> k -> append_first n v h !! k = h !! k.
Proof. intros Hne. unfold append_first. destruct (h !! n); [done|by apply lookup_insert_ne]. Qed.

Lemma find_assoc (l : list (string * string)) n :
  NoDup l.*1 -> snd <$> find (fun nv => (nv.1 =? n)%string) l = (list_to_map l : gmap string string) !! n.
Proof.
  induction l as [|[k v] l IH]; [done|]. intros [Hk Hd]%NoDup_cons. cbn [find fst snd].
  rewrite list_to_map_cons. destruct (String.eqb_spec k n) as [->|Hne]; [by rewrite lookup_insert_eq|].
  rewrite lookup_insert_ne by done. by apply IH.
Qed.

Lemma entries_get (h : gmap string string) n :
  h !! n = snd <$> find (fun nv => (nv.1 =? n)%string) (map_to_list h).
Proof. rewrite find_assoc by apply NoDup_fst_map_to_list. by rewrite list_to_map_to_list. Qed.

#[export] Instance copying_http_client : HttpClientLib := {|
  header_iter h := map_to_list h;
  header_append := append_first;
  header_remove n h := delete n h;
  header_lossy v := v;
  bytes_lossy b := string_of_list_byte b;
|}.

#[export] Instance copying_laws : HttpAppendLaws.
Proof. split; [exact append_first_eq|exact append_first_ne|exact entries_get]. Qed.

#[export] Instance the_system : ClientSystem := {| unix_now := Some 1000; random_upto _ max := max |}.

(** ** The upload *)

(** Uploads of at most a hundred bytes. *)
Definition small_server : Config := with_max_size 100 (with_extensions_set {[ Extension.Creation ]} Config_default).

Lemma small_server_simple : simple_config small_server 100.
Proof. by split. Qed.

Lemma small_server_relative : base_url small_server = None /\ respect_forwarded_headers small_server = false.
Proof. done. Qed.

Abbreviation TheServer := (World MemoryStorage MemoryStateStore MemoryLocker unit LongIds).

Definition no_uploads : TheServer := mkWorld ∅ ∅ MemoryLocker_new tt {| li_now := 10; li_next := "" |}.

Lemma no_uploads_ready : ready 100 no_uploads.
Proof. split; [apply quiescent_new|]. split; [by intros id s|]. by intros id id' k. Qed.

(** The creation arrives unanswered and is repeated; a chunk is cut after a byte, and a
    request is lost. *)
Definition failures : list Fate :=
  [Delivered []; Delivered [1%nat]; CutShort [] 1; Dropped; Delivered []; Unanswered []].

#[export] Instance the_network : ReqwestLib :=
  network small_server 100 small_server_simple eq_refl eq_refl small_server_relative
    the_origin "a".
#[export] Instance the_transport : Transport := ReqwestTransport.

Definition files : WebUrl := exist _ "/files" eq_refl.

(** Chunks of two bytes. *)
Definition two_by_two : Client :=
  with_max_initial_upload_size 0 (client_with_max_chunk_size 2 (with_transport files)).

Definition before_upload : ClientWorld :=
  mkClientWorld _ _ (mkNetwork _ no_uploads no_uploads_ready failures) None [] [] [] 0 0 0 0 no_parallel.

Definition upload_run := run (upload_from_with_progress two_by_two (VecSource (text "abcde")) ∅ report) before_upload.

Definition info_of (r : cresult UploadInfo) : UploadInfo :=
  match r with Ok info => info | _ => mkUploadInfo _ files 0 None ∅ end.

Definition uploaded_info : UploadInfo := info_of upload_run.1.

Lemma ok_result {W} (r : cresult UploadInfo * W) : is_ok r.1 = true -> r = (Ok (info_of r.1), r.2).
Proof. by destruct r as [[info|e|] w]. Qed.

Definition final_server : TheServer := nw_world 100 (cw_transport upload_run.2).

(** Despite the failures all five bytes are there, and are served. *)
Lemma upload_reaches_storage_witness :
  w_storage final_server !! "memory://i" = Some (text "abcde") /\
  is_ok (run (download small_server "i" None) final_server).1 = true /\
  exists id s,
    weburl_as_str (ui_url uploaded_info) = item_uri small_server the_origin id /\
    recs final_server !! id = Some s /\ UploadState.length s = Some 5 /\
    stored_bytes s final_server = text "abcde" /\
    forall resp w2, run (download small_server id None) final_server = (Ok resp, w2) ->
      dr_status resp = 200 /\ stream_data (dr_body resp) = Some (text "abcde").
Proof.
  split; [vm_compute; reflexivity|]. split; [vm_compute; reflexivity|].
  assert (bytes_len (text "abcde") <= isize_max) as Hmax by by vm_compute.
  assert (upload_run = (Ok uploaded_info, upload_run.2)) as Hrun.
  { apply (ok_result upload_run). vm_compute. reflexivity. }
  exact (upload_reaches_storage small_server 100 small_server_simple eq_refl eq_refl
    small_server_relative the_origin "a" two_by_two (VecSource (text "abcde")) (text "abcde") ∅
    before_upload upload_run.2 uploaded_info (VecSource_reads_out _) Hmax Hrun).
Defined.
