(* ===== verification/DioxusWitnesses.v ===== *)
(** * The Dioxus bindings, concretely

    A JSON form of entries, a quota that is never exceeded, and runs of the registry, the
    queue and the engine, to which the theorems about them are applied. *)

From stdpp Require Import gmap countable.
From Stdlib Require Import SpecFloat.
From S2P Require Import Prelude Text Errors Crates Config State Headers Concrete ClientError ClientHelpers Client.
From S2P Require Import ClientFacts ClientLoops ClientCreation ClientSpec ClientParallelFacts RemoteServer.
From S2P Require Import Dioxus Persistence PersistenceSpec UploadQueue UploadQueueSpec.
From S2P Require Import UploadEngine UploadEngineFacts UploadEngineSpec.
Local Open Scope string_scope.
Local Open Scope N_scope.
Local Open Scope prog_scope.

(** ** Entries as texts *)

Definition f64_parts (x : f64) : bool + bool + unit + bool * positive * Z :=
  match x with
  | S754_zero s => inl (inl (inl s))
  | S754_infinity s => inl (inl (inr s))
  | S754_nan => inl (inr tt)
  | S754_finite s m e => inr (s, m, e)
  end.

Definition f64_of_parts (p : bool + bool + unit + bool * positive * Z) : f64 :=
  match p with
  | inl (inl (inl s)) => S754_zero s
  | inl (inl (inr s)) => S754_infinity s
  | inl (inr tt) => S754_nan
  | inr (s, m, e) => S754_finite s m e
  end.

#[export] Instance f64_countable : Countable f64.
Proof. apply (inj_countable' f64_parts f64_of_parts). by intros []. Defined.

Definition entry_parts (e : ResumableEntry) :=
  (re_match_key e, re_endpoint e, re_filename e, re_file_size e, re_last_modified e, re_upload_url e,
   re_bytes_uploaded e, re_stored_at_ms e).

#[export] Instance entry_countable : Countable ResumableEntry.
Proof.
  apply (inj_countable' entry_parts
    (fun '(mk, endpoint, name, size, modified, url, n, stored) =>
       mkResumableEntry mk endpoint name size modified url n stored)).
  by intros [].
Defined.

Fixpoint digits (p : positive) : string :=
  match p with xI p => String "1" (digits p) | xO p => String "0" (digits p) | xH => "" end.

Fixpoint of_digits (s : string) : positive :=
  match s with
  | String "1" s => xI (of_digits s)
  | String _ s => xO (of_digits s)
  | EmptyString => xH
  end.

Lemma of_digits_digits p : of_digits (digits p) = p.
Proof. induction p as [p IH|p IH|]; cbn; [by rewrite IH..|done]. Qed.

#[export] Instance concrete_entry_json : EntryJson := {|
  entry_to_json e := inr (digits (encode e));
  entry_from_json s := decode (of_digits s);
|}.

#[export] Instance concrete_entry_json_laws : EntryJsonLaws.
Proof.
  split. intros e text _ _ [= <-]. cbn. by rewrite of_digits_digits, decode_encode.
Qed.

(** A storage of four items. *)
#[export] Instance concrete_quota : Quota := {| quota_allows storage _ _ := bool_decide (size storage < 4)%nat |}.

(** ** The registry *)

Definition ENDPOINT : string := "http://a/f".
Definition ms (n : N) : f64 := f64_of_N n.

Lemma ms_whole n : (n <= 2 ^ 53) -> whole_ms (ms n).
Proof. intros Hn. exists (Z.of_N n). split; [lia|done]. Qed.

Definition letter (name : string) (content : string) : WebFile := mkWebFile name "text/plain" (text content) (ms 500).

Definition entry_of (f : WebFile) (url : string) (stored : N) : ResumableEntry :=
  mkResumableEntry (match_key_of ENDPOINT f) ENDPOINT (file_name f) (blob_size f) (file_last_modified f) url 2
    (ms stored).

Definition json (e : ResumableEntry) : string := match entry_to_json e with inr s => s | inl s => s end.

Definition letter1 : WebFile := letter "1.txt" "abcde".
Definition letter2 : WebFile := letter "2.txt" "fg".
Definition entry1 : ResumableEntry := entry_of letter1 "http://a/f/u7" 1000.
Definition foreign : ResumableEntry := entry_of letter2 "http://b/f/u8" 1000.

(** A valid entry, one of another origin, one that is too old, a text that is no entry, and
    something of another library. *)
Definition crowded : LocalStorage :=
  list_to_map
    [(storage_key (re_match_key entry1), json entry1);
     (storage_key (re_match_key foreign), json foreign);
     (storage_key "old", json (mkResumableEntry "old" ENDPOINT "0.txt" 1 (ms 500) "http://a/f/u1" 0 (ms 0)));
     (storage_key "broken", "{");
     ("theme", "dark")].

(** A day and half a second after the page was opened. *)
Definition next_day : f64 := ms (24 * 60 * 60 * 1000 + 500).

Example crowded_scan :
  (scan ENDPOINT next_day (Some crowded)).1 = [entry1] /\
  match (scan ENDPOINT next_day (Some crowded)).2 with
  | Some storage => size storage = 3%nat /\ storage !! "theme" = Some "dark"
  | None => False
  end.
Proof. vm_compute. done. Qed.

(** There is no room until the stale entries are gone. *)
Definition letter3 : WebFile := letter "3.txt" "hij".
Definition entry3 : ResumableEntry := entry_of letter3 "http://a/f/u9" 2000.

Lemma put_then_get_witness :
  set_item crowded (storage_key (re_match_key entry3)) (json entry3) = None /\
  (put entry3 next_day (Some crowded)).1 = Ok tt /\
  get ENDPOINT (re_match_key entry3) next_day (put entry3 next_day (Some crowded)).2 = Some entry3 /\
  let '(r, page') := put entry3 next_day (Some crowded) in
  match r with
  | Ok _ =>
      (forall endpoint later, get endpoint (re_match_key entry3) later page' =
         if decide (valid_at endpoint later entry3) then Some entry3 else None) /\
      (forall endpoint mk, mk <> re_match_key entry3 ->
         get endpoint mk next_day page' = get endpoint mk next_day (Some crowded))
  | Err _ => forall endpoint mk, get endpoint mk next_day page' = get endpoint mk next_day (Some crowded)
  | Panic => False
  end.
Proof.
  split; [vm_compute; reflexivity|]. split; [vm_compute; reflexivity|]. split; [vm_compute; reflexivity|].
  assert (whole_ms (re_last_modified entry3)) as Hl.
  { change (whole_ms (ms 500)). apply ms_whole. vm_compute. discriminate. }
  assert (whole_ms (re_stored_at_ms entry3)) as Hs.
  { change (whole_ms (ms 2000)). apply ms_whole. vm_compute. discriminate. }
  pose proof (put_then_get entry3 next_day (Some crowded) Hl Hs) as Hput. exact Hput.
Defined.

Lemma parse_origin_of_url_witness :
  parse_origin ("HTTPS" ++ "://" ++ print_authority (Some "u@v") "Files.Example" None ++ "/f?x=1") =
    Some ("https", "files.example", 443).
Proof.
  refine (parse_origin_of_url "HTTPS" (Some "u@v") "Files.Example" None "/f?x=1" _ _ _ _ _ _).
  - vm_compute; done.
  - vm_compute; done.
  - done.
  - intros u [= <-]. vm_compute; done.
  - done.
  - vm_compute; done.
Defined.

(** A browser reads the backslash as a slash, and goes to [evil.com]. *)
Example backslash_origin :
  origin_matches "https://good.com/files" "https://evil.com\@good.com/x" = true.
Proof. vm_compute. done. Qed.

(** Part of a query is taken for the path, and logged. *)
Example query_in_log : redact_endpoint_for_log "https://h?sig=ab/cd" = "https://h:443/cd".
Proof. vm_compute. done. Qed.

(** ** The queue *)

Definition config : TusConfig := config_with_chunk_size 2 (with_creation_with_upload_threshold 0 (TusConfig_new ENDPOINT)).

Definition at_status (s : UploadStatus.t) (n : N) : Worker :=
  mkWorker (mkTusUploadState s n None None None) [].

(** Three files; the first is done when its abort comes. *)
Definition busy_day : list (f64 * QueueEvent.t) :=
  [(ms 2000, QueueEvent.AddAll [letter1; letter2; letter3] default_options);
   (ms 2050, QueueEvent.Tick);
   (ms 2060, QueueEvent.WorkerRuns 0 (at_status UploadStatus.Complete 5));
   (ms 2060, QueueEvent.WorkerRuns 1 (at_status UploadStatus.Paused 1));
   (ms 2070, QueueEvent.AbortItem 0);
   (ms 2100, QueueEvent.Tick)].

Definition seen (r : outcome TusError.t Queue)
    : option (list (N * QueueItemStatus.t * N * option string) * list (option N) * list (nat * nat)) :=
  match r with
  | Ok q => Some (map (fun i => (qi_id i, qi_status i, qi_bytes_uploaded i, existing_url (qi_options i))) (q_items q), q_slots q,
                  imap (fun n w => (n, length (wk_channel w))) (q_workers q))
  | _ => None
  end.

(** The first letter is resumed where [localStorage] says; the abort waits in the channel
    of the worker, in front of the start of the third. *)
Example busy_day_seen :
  seen (queue_run busy_day (use_tus_upload_queue config (Some crowded))) = Some
    ([(0, QueueItemStatus.Complete, 5, Some "http://a/f/u7"); (1, QueueItemStatus.Paused, 1, None);
      (2, QueueItemStatus.Uploading, 0, None)], [Some 2; Some 1], [(0%nat, 2%nat); (1%nat, 0%nat)]).
Proof. vm_compute. done. Qed.

Lemma busy_day_ok : Forall event_ok busy_day.
Proof. repeat (constructor; [vm_compute; lia || exact I|]). constructor. Qed.

Lemma busy_day_at : Forall (event_at ENDPOINT) busy_day.
Proof. repeat constructor. Qed.

Lemma queue_invariant_witness :
  exists q, queue_run busy_day (use_tus_upload_queue config (Some crowded)) = Ok q /\
  NoDup (map qi_id (q_items q)) /\
  (forall s t id, q_slots q !! s = Some (Some id) -> q_slots q !! t = Some (Some id) -> s = t) /\
  (forall i, i ∈ q_items q -> is_active i = true <-> Some (qi_id i) ∈ q_slots q) /\
  (active_count (q_items q) <= WORKER_COUNT)%nat.
Proof.
  pose proof (queue_invariant busy_day config (Some crowded) busy_day_ok) as Hq. exact Hq.
Defined.

Lemma queue_resumes_at_origin_witness :
  exists q, queue_run busy_day (use_tus_upload_queue config (Some crowded)) = Ok q /\
  forall i url, i ∈ q_items q -> existing_url (qi_options i) = Some url ->
    origin_matches (tc_endpoint config) url = true.
Proof.
  pose proof (queue_resumes_at_origin busy_day config (Some crowded) busy_day_ok busy_day_at) as Hq. exact Hq.
Defined.

(** Before the first tick. *)
Definition three_queued : Queue :=
  (add_all (ms 2000) [letter1; letter2; letter3] default_options (use_tus_upload_queue config (Some ∅))).2.

Lemma three_queued_ok : queue_ok three_queued.
Proof.
  assert (queue_step (ms 2000) (QueueEvent.AddAll [letter1; letter2; letter3] default_options)
    (use_tus_upload_queue config (Some ∅)) = Ok three_queued) as Hs by done.
  destruct (queue_step_ok (ms 2000) (QueueEvent.AddAll [letter1; letter2; letter3] default_options)
    (use_tus_upload_queue config (Some ∅)) I (new_queue_ok config (Some ∅))) as (q & Hq & Hok).
  congruence.
Qed.

Lemma tick_starts_in_order_witness :
  match scheduler_tick (ms 2050) three_queued with
  | Ok q => q_slots q = [Some 0; Some 1] /\ map qi_id (queued (q_items q)) = [2]
  | _ => False
  end /\
  exists q' starts, scheduler_tick (ms 2050) three_queued = Ok q' /\
  map ts_item_id starts = take (length starts) (map qi_id (queued (q_items three_queued))) /\
  queued (q_items q') = drop (length starts) (queued (q_items three_queued)) /\
  (forall st, st ∈ starts ->
     q_slots q' !! ts_slot st = Some (Some (ts_item_id st)) /\
     exists i w, i ∈ q_items three_queued /\ qi_id i = ts_item_id st /\
       q_workers three_queued !! ts_slot st = Some w /\
       (q_slots three_queued !! ts_slot st = Some None \/ worker_at_rest (wk_state w) = true) /\
       q_workers q' !! ts_slot st = Some (worker_start (qi_file i) (qi_options i) w)) /\
  (forall s, (forall st, st ∈ starts -> ts_slot st <> s) ->
     q_workers q' !! s = q_workers three_queued !! s) /\
  (None ∈ q_slots q' -> queued (q_items q') = []).
Proof.
  split; [vm_compute; done|].
  pose proof (tick_starts_in_order (ms 2050) three_queued three_queued_ok) as Ht. exact Ht.
Defined.

(** ** The engine *)

(** A moment in which the handle is called as told, and nothing else happens. *)
Definition moment (calls : list UploadCommand.t) (now : N) : Moment :=
  mkMoment calls (ms now) (S754_zero false) None true true (inl (TusError.Transport "")) id id.

Definition quiet_moments (n : nat) : list Moment := repeat (moment [] 3000) n.

Definition engine_world (calls : list UploadCommand.t) (objects : gmap string (N * bytes)) (fates : list Fate)
    (script : list Moment) : EngineWorld :=
  mkEngineWorld _ _
    (mkClientWorld _ _ (mkRemote objects ∅ 0 fates) None [] [] [] 0 0 0 0 no_parallel)
    (mkWorker default_upload_state calls) (Some crowded) (OptionsCache.mkCacheState ∅ ∅) false (ms 2000) [] script.

Definition summary (r : outcome TusError.t (option RunOutcome)) (w : EngineWorld) :=
  (match r with Ok o => Some (match o with Some RunDone => Some 0 | Some RunAborted => Some 1
                                         | Some (RunRestart _ _) => Some 2 | None => None end) | _ => None end,
   us_status (wk_state (ew_worker w)), us_bytes_uploaded (wk_state (ew_worker w)),
   map (fun o => (o.1, string_of_list_byte o.2.2)) (map_to_list (rm_objects (cw_transport (ew_client w))))).

(** Two bytes of the letter arrived before the page was closed.  It is resumed, paused and
    resumed again, a request is lost and a chunk cut after a byte. *)
Definition resuming : EngineWorld :=
  engine_world [] {[ "http://a/f/u7" := (5, text "ab") ]} [Through; Lost; Through; Cut 1]
    (quiet_moments 3 ++ [moment [UploadCommand.Pause] 3000; moment [] 3500; moment [UploadCommand.Resume] 4000]
       ++ quiet_moments 12)%list.

Definition upload_u7 : WebUrl := exist _ "http://a/f/u7" eq_refl.

Lemma engine_delivers_witness :
  (let '(r, w') := run (run_upload config letter1 default_options (Some "http://a/f/u7")) resuming in
   summary r w' = (Some (Some 0), UploadStatus.Complete, 5, [("http://a/f/u7", "abcde")]) /\
   map tr_method (cw_sent (ew_client w')) =
     [Method.HEAD; Method.PATCH; Method.HEAD; Method.PATCH; Method.HEAD; Method.PATCH]) /\
  let '(r, w') := run (run_upload config letter1 default_options (weburl_as_str <$> Some upload_u7)) resuming in
  engine_left letter1 (Some upload_u7) (match_key_of (tc_endpoint config) letter1) r w' /\
  holding (file_content letter1) (weburl_as_str upload_u7) (ew_client w').
Proof.
  split; [vm_compute; done|].
  assert (u64 (blob_size letter1)) as Hu by by vm_compute.
  assert (holding (file_content letter1) (weburl_as_str upload_u7) (ew_client resuming)) as Hh.
  { exists (text "cde"). reflexivity. }
  pose proof (engine_delivers config letter1 default_options (Some upload_u7) resuming Hu Hh) as Hd. exact Hd.
Defined.

(** The second letter replaces the first one half way; then the component is unmounted. *)
Definition replacing : EngineWorld :=
  engine_world [] ∅ []
    (quiet_moments 3 ++ [moment [UploadCommand.Start letter1 default_options] 3000] ++ quiet_moments 2
       ++ [moment [UploadCommand.Start letter2 default_options] 3000] ++ quiet_moments 12)%list.

Lemma engine_ends_witness :
  (let '(r, w') := run (use_tus_upload config) replacing in
   summary (Ok (Some RunDone)) w' =
     (Some (Some 0), UploadStatus.Complete, 2, [("http://a/f/u1", "fg"); ("http://a/f/u0", "ab")])) /\
  match (run (use_tus_upload config) replacing).1 with
  | Ok (Some tt) => True
  | Panic => True
  | Ok None | Err _ => False
  end.
Proof.
  split; [vm_compute; done|].
  pose proof (engine_ends config replacing) as He. exact He.
Defined.

(** The abort that waited in the channel takes the worker back to [Idle]; the upload that
    starts next stamps its state when the server has answered.  A tick in between takes
    the item for aborted, although it is being uploaded. *)
Example late_abort_hits_next_item :
  let w := mkWorker (mkTusUploadState UploadStatus.Uploading 0 None None None)
             [UploadCommand.Abort; UploadCommand.Start letter3 default_options] in
  let handled := (run (let! cmd := next_command in do! update_state (fun _ => default_upload_state) in next_command)
                    (set_worker w (engine_world [] ∅ [] (quiet_moments 5)))).2 in
  us_status (wk_state (ew_worker handled)) = UploadStatus.Idle /\ wk_channel (ew_worker handled) = [] /\
  seen (queue_run (busy_day ++ [(ms 2110, QueueEvent.WorkerRuns 0 (ew_worker handled)); (ms 2150, QueueEvent.Tick)])%list
          (use_tus_upload_queue config (Some crowded))) = Some
    ([(0, QueueItemStatus.Complete, 5, Some "http://a/f/u7"); (1, QueueItemStatus.Paused, 1, None);
      (2, QueueItemStatus.Aborted, 0, None)], [None; Some 1], [(0%nat, 0%nat); (1%nat, 0%nat)]).
Proof. vm_compute. done. Qed.
